(** * TransferBench: a shallow embedding of the Transfer execution engine

    The definitions below follow [src/TransferBench.cpp] function by
    function.  Machine integers are integers of [Z] with the conversions
    of C++ written out, a [float*] is the address it holds counted in
    [float] elements (so that pointer arithmetic is addition), a [float]
    is its 32-bit pattern, and a [double] is a binary64 number of the
    kernel.  Code that can end the process returns an [outcome]. *)

From Stdlib Require Import ZArith String Ascii List Bool Lia Permutation.
From Stdlib Require Import PrimFloat SpecFloat FloatOps.
Import ListNotations.
Open Scope Z_scope.

(** ** Machine integers *)

(** Conversion of an integer to [size_t] (64 bits, unsigned). *)
Definition to_size_t (z : Z) : Z := z mod 2 ^ 64.

(** Conversion of an integer to [int] (32 bits, two's complement). *)
Definition to_int (z : Z) : Z := (z + 2 ^ 31) mod 2 ^ 32 - 2 ^ 31.

(** [sizeof(float)]. *)
Definition sizeof_float : Z := 4.

(** A [float] is kept as its bit pattern, a [double] as a binary64. *)
Definition float32 : Type := Z.
Definition double : Type := PrimFloat.float.

(** ** Memory and executor kinds *)

Inductive MemType : Type :=
| MEM_CPU | MEM_GPU | MEM_CPU_FINE | MEM_GPU_FINE | MEM_CPU_UNPINNED | MEM_NULL.

Inductive ExeType : Type :=
| EXE_CPU | EXE_GPU_GFX | EXE_GPU_DMA.

(** ** Processes that may exit *)

(** The messages TransferBench prints before [exit(1)], with the
    arguments of their format strings. *)
Inductive error : Type :=
| ErrAllocZeroBytes
| ErrFineGrainedUnsupported (onCpu : bool)
| ErrHostAlloc (devIndex : Z)
| ErrUnsupportedMemType (memType : MemType)
| ErrPageInfo
| ErrPageStatus (status page : Z)
| ErrPagesMisplaced (mistakes numPages targetId : Z)
| ErrHipCall
| ErrNumaRunOnNode (exeIndex : Z)
| ErrBytesNotMultipleOf4 (numBytesPerTransfer : Z)
| ErrNumBlocks
| ErrTransferTriplet (transfer : Z)
| ErrTransferTuple (transfer : Z)
| ErrNumBytesToken (token : string) (transfer : Z)
| ErrMemTypeToken (token : string)
| ErrExeTypeToken (token : string)
| ErrCpuIndex (maxIndex given : Z)
| ErrGpuIndex (maxIndex given : Z)
| ErrUnexpectedTypeChar (c : ascii)
| ErrNoSrcNoDst
| ErrDmaMultipleEndpoints
| ErrValidationMismatch
| ErrPeerAccess (peerDeviceId deviceId : Z)
| ErrEnablePeerAccess (deviceId peerDeviceId : Z)
| DivisionByZero.                          (* not an exit: the process is killed *)

(** The format of the message, as the source has it (without the
    newline at its end); the arguments are those of the constructor.
    The messages of the header are not under [src/]. *)
Local Open Scope string_scope.
Definition format (e : error) : option string :=
  match e with
  | ErrAllocZeroBytes => Some "[ERROR] Unable to allocate 0 bytes"
  | ErrFineGrainedUnsupported true =>
      Some "[ERROR] Fine-grained CPU memory not supported on NVIDIA platform"
  | ErrFineGrainedUnsupported false =>
      Some "[ERROR] Fine-grained GPU memory not supported on NVIDIA platform"
  | ErrHostAlloc _ =>
      Some "[ERROR] Unable to allocate non-coherent host memory on NUMA node %d"
  | ErrUnsupportedMemType _ => Some "[ERROR] Unsupported memory type %d"
  | ErrPageInfo => Some "[ERROR] Unable to collect page info"
  | ErrPageStatus _ _ => Some "[ERROR] Unexpected page status %d for page %d"
  | ErrPagesMisplaced _ _ _ =>
      Some "[ERROR] %lu out of %lu pages for memory allocation were not on NUMA node %d"
  | ErrNumaRunOnNode _ => Some "[ERROR] Unable to set CPU to NUMA node %d"
  | ErrBytesNotMultipleOf4 _ =>
      Some "[ERROR] numBytesPerTransfer (%lu) must be a multiple of 4"
  | ErrNumBlocks =>
      Some "Parsing error: Number of blocks to use (%d) must be greater than 0"
  | ErrTransferTriplet _ =>
      Some "Parsing error: Unable to read valid Transfer %d (SRC EXE DST) triplet"
  | ErrTransferTuple _ =>
      Some "Parsing error: Unable to read valid Transfer %d (SRC EXE DST #CU #Bytes) tuple"
  | ErrNumBytesToken _ _ =>
      Some "Parsing error: '%s' is not a valid expression of numBytes for Transfer %d"
  | ErrMemTypeToken _ =>
      Some "[ERROR] Unable to parse memory type token %s.  Expected one of %s followed by an index"
  | ErrExeTypeToken _ =>
      Some "[ERROR] Unable to parse valid executor token (%s).  Exepected one of %s followed by an index"
  | ErrCpuIndex _ _ => Some "[ERROR] CPU index must be between 0 and %d (instead of %d)"
  | ErrGpuIndex _ _ => Some "[ERROR] GPU index must be between 0 and %d (instead of %d)"
  | ErrNoSrcNoDst => Some "[ERROR] Transfer must have at least one src or dst"
  | ErrDmaMultipleEndpoints =>
      Some "[ERROR] GPU DMA executor can only be used for single source / single dst Transfers"
  | ErrValidationMismatch => Some "[ERROR] Failed Transfer details: #%d: %s -> [%c%d:%d] -> %s"
  | ErrPeerAccess _ _ => Some "[ERROR] Unable to enable peer access from GPU devices %d to %d"
  | ErrEnablePeerAccess _ _ =>
      Some "[ERROR] Unable to enable peer to peer access from %d to %d (%s)"
  | ErrHipCall | ErrUnexpectedTypeChar _ | DivisionByZero => None
  end.
Local Close Scope string_scope.

(** The outcome of a call: it returns a value, or the process ends with
    [exit(code)] after printing the message of [why]. *)
Inductive outcome (A : Type) : Type :=
| Ret (a : A)
| Exit (code : Z) (why : error).
Arguments Ret {A} a.
Arguments Exit {A} code why.

Definition bind {A B : Type} (m : outcome A) (k : A -> outcome B) : outcome B :=
  match m with
  | Ret a => k a
  | Exit c e => Exit c e
  end.

Notation "x <- m ;; k" := (bind m (fun x => k))
  (at level 61, m at next level, right associativity).
Notation "m ;;; k" := (bind m (fun _ => k))
  (at level 61, right associativity).

(** ** Memory and executor kinds: their tests *)

Definition MemType_eqb (a b : MemType) : bool :=
  match a, b with
  | MEM_CPU, MEM_CPU | MEM_GPU, MEM_GPU | MEM_CPU_FINE, MEM_CPU_FINE
  | MEM_GPU_FINE, MEM_GPU_FINE | MEM_CPU_UNPINNED, MEM_CPU_UNPINNED
  | MEM_NULL, MEM_NULL => true
  | _, _ => false
  end.

Definition ExeType_eqb (a b : ExeType) : bool :=
  match a, b with
  | EXE_CPU, EXE_CPU | EXE_GPU_GFX, EXE_GPU_GFX | EXE_GPU_DMA, EXE_GPU_DMA => true
  | _, _ => false
  end.

(** [IsCpuType] and [IsGpuType] are overloaded on [MemType] and [ExeType]. *)
Class DeviceKind (T : Type) : Type :=
  { IsCpuType : T -> bool;
    IsGpuType : T -> bool }.

(** Modelled from the spec: the header's [IsCpuType]/[IsGpuType] on memory
    kinds (the host domains are pinned coherent, pinned fine-grained and
    unpinned; the device domains are standard and fine-grained). *)
#[global]
Instance MemType_kind : DeviceKind MemType :=
  {| IsCpuType m := match m with
                    | MEM_CPU | MEM_CPU_FINE | MEM_CPU_UNPINNED => true
                    | _ => false
                    end;
     IsGpuType m := match m with
                    | MEM_GPU | MEM_GPU_FINE => true
                    | _ => false
                    end |}.

(** Modelled from the spec: the header's [IsCpuType]/[IsGpuType] on
    executors (host thread pool; device compute kernel and DMA engine). *)
#[global]
Instance ExeType_kind : DeviceKind ExeType :=
  {| IsCpuType e := match e with EXE_CPU => true | _ => false end;
     IsGpuType e := match e with EXE_GPU_GFX | EXE_GPU_DMA => true | _ => false end |}.

(** ** Data model *)

(** [SubExecParam]: what one sub-executor works on. *)
Module SubExecParam.
Record t : Type := mk
  { N : Z;                      (* size_t: number of floats *)
    numSrcs : Z;
    numDsts : Z;
    src : list Z;               (* float* per source *)
    dst : list Z;               (* float* per destination *)
    preferredXccId : Z;
    startCycle : Z;             (* long long, written by the kernel *)
    stopCycle : Z;
    hwId : Z;                   (* uint32_t, written by the kernel *)
    xccId : Z }.

(** The timestamps and the identifiers a kernel leaves in an entry. *)
Definition stamp (p : t) (start stop hw xcc : Z) : t :=
  mk (N p) (numSrcs p) (numDsts p) (src p) (dst p) (preferredXccId p)
     start stop hw xcc.
End SubExecParam.

(** The fields of [EnvVars] the engine reads. *)
Record EnvVars : Type := mkEnvVars
  { byteOffset : Z;
    blockBytes : Z;
    useXccFilter : bool;
    prefXccTable : list (list Z);
    fillPattern : list float32;
    continueOnError : bool;
    validateDirect : bool;
    useSingleStream : bool;
    blockOrder : Z;
    showIterations : bool;
    alwaysValidate : bool;
    numWarmups : Z;
    numIterations : Z;
    samplingFactor : Z;
    numCpuDevices : Z;
    numGpuDevices : Z;
    outputToCsv : bool;
    wallClockPerDeviceMhz : list Z }.

(** Modelled from the spec: the three block-ordering policies, with the
    header's numbering of [BLOCK_ORDER]. *)
Definition ORDER_SEQUENTIAL : Z := 0.
Definition ORDER_INTERLEAVED : Z := 1.
Definition ORDER_RANDOM : Z := 2.

(** [Transfer]: one copy operation and its run-time state. *)
Record Transfer : Type := mkTransfer
  { transferIndex : Z;
    exeType : ExeType;
    exeIndex : Z;
    numSubExecs : Z;
    numBytes : Z;                         (* size_t; 0 = use the run-wide size *)
    numBytesActual : Z;                   (* size_t *)
    numSrcs : Z;
    numDsts : Z;
    srcType : list MemType;
    srcIndex : list Z;
    dstType : list MemType;
    dstIndex : list Z;
    srcMem : list Z;                      (* float* per source *)
    dstMem : list Z;                      (* float* per destination *)
    subExecParam : list SubExecParam.t;
    subExecParamGpuPtr : Z;               (* offset into the executor's array *)
    subExecIdx : list Z;
    transferTime : double;
    perIterationTime : list double;
    perIterationCUs : list (list (Z * Z)) }.

Definition set_subExecParam (t : Transfer) (ps : list SubExecParam.t) : Transfer :=
  mkTransfer (transferIndex t) (exeType t) (exeIndex t) (numSubExecs t)
    (numBytes t) (numBytesActual t) (numSrcs t) (numDsts t)
    (srcType t) (srcIndex t) (dstType t) (dstIndex t) (srcMem t) (dstMem t)
    ps (subExecParamGpuPtr t) (subExecIdx t)
    (transferTime t) (perIterationTime t) (perIterationCUs t).

Definition set_gpuPlacement (t : Transfer) (gpuPtr : Z) (idx : list Z) : Transfer :=
  mkTransfer (transferIndex t) (exeType t) (exeIndex t) (numSubExecs t)
    (numBytes t) (numBytesActual t) (numSrcs t) (numDsts t)
    (srcType t) (srcIndex t) (dstType t) (dstIndex t) (srcMem t) (dstMem t)
    (subExecParam t) gpuPtr idx
    (transferTime t) (perIterationTime t) (perIterationCUs t).

Definition set_timing (t : Transfer) (time : double) (perIter : list double)
    (perIterCUs : list (list (Z * Z))) : Transfer :=
  mkTransfer (transferIndex t) (exeType t) (exeIndex t) (numSubExecs t)
    (numBytes t) (numBytesActual t) (numSrcs t) (numDsts t)
    (srcType t) (srcIndex t) (dstType t) (dstIndex t) (srcMem t) (dstMem t)
    (subExecParam t) (subExecParamGpuPtr t) (subExecIdx t)
    time perIter perIterCUs.

Definition set_numBytesActual (t : Transfer) (n : Z) : Transfer :=
  mkTransfer (transferIndex t) (exeType t) (exeIndex t) (numSubExecs t)
    (numBytes t) n (numSrcs t) (numDsts t)
    (srcType t) (srcIndex t) (dstType t) (dstIndex t) (srcMem t) (dstMem t)
    (subExecParam t) (subExecParamGpuPtr t) (subExecIdx t)
    (transferTime t) (perIterationTime t) (perIterationCUs t).

(** ** The sub-executor partitioner: [Transfer::PrepareSubExecParams] *)

Module Partitioner.

Section Loop.
Variable ev : EnvVars.
Variable t : Transfer.
Variables N initOffset targetMultiple maxSubExecToUse : Z.

(** [p.N] as the loop body computes it at index [i], [assigned] floats
    being already given out.  The operands of the [size_t] operations are
    converted as C++ converts them. *)
Definition subExecN (i assigned : Z) : Z :=
  let subExecLeft := Z.max 0 (to_int (maxSubExecToUse - i)) in
  let leftover := to_size_t (N - assigned) in
  let roundedN :=
    to_size_t (leftover + to_size_t targetMultiple - 1) / to_size_t targetMultiple in
  if subExecLeft =? 0 then 0
  else Z.min leftover
         (to_size_t (roundedN / to_size_t subExecLeft * to_size_t targetMultiple)).

(** [p.preferredXccId]. *)
Definition preferredXcc : Z :=
  if useXccFilter ev
  then
    if ExeType_eqb (exeType t) EXE_GPU_GFX && (numDsts t =? 1)
       && IsGpuType (nth 0 (dstType t) MEM_NULL)
    then nth (Z.to_nat (nth 0 (dstIndex t) 0))
             (nth (Z.to_nat (exeIndex t)) (prefXccTable ev) []) 0
    else -1
  else -1.

(** One entry, as the body of the loop fills it in. *)
Definition subExecEntry (i assigned : Z) : SubExecParam.t :=
  SubExecParam.mk (subExecN i assigned) (numSrcs t) (numDsts t)
    (map (fun m => m + assigned + initOffset) (firstn (Z.to_nat (numSrcs t)) (srcMem t)))
    (map (fun m => m + assigned + initOffset) (firstn (Z.to_nat (numDsts t)) (dstMem t)))
    preferredXcc 0 0 0 0.

(** The iterations [i, i+1, ...] of the loop, [todo] of them. *)
Fixpoint subExecLoop (todo : nat) (i assigned : Z) : list SubExecParam.t :=
  match todo with
  | O => []
  | S todo' =>
      let p := subExecEntry i assigned in
      p :: subExecLoop todo' (to_int (i + 1)) (to_size_t (assigned + SubExecParam.N p))
  end.
End Loop.

(** [Transfer::PrepareSubExecParams].  [None] stands for the two ways the
    C++ does not return: a division by [targetMultiple = 0], and
    [resize] to a negative [numSubExecs] (read as a huge [size_t]). *)
Definition PrepareSubExecParams (ev : EnvVars) (t : Transfer) : option Transfer :=
  let N := numBytesActual t / sizeof_float in
  let initOffset := to_int (to_size_t (byteOffset ev) / sizeof_float) in
  let targetMultiple := to_int (to_size_t (blockBytes ev) / sizeof_float) in
  if (to_size_t targetMultiple =? 0) || (numSubExecs t <? 0) then None
  else
    let maxSubExecToUse :=
      to_int (Z.min (to_size_t (N + to_size_t targetMultiple - 1) / to_size_t targetMultiple)
                    (to_size_t (numSubExecs t))) in
    let ps := subExecLoop ev t N initOffset targetMultiple maxSubExecToUse
                (Z.to_nat (numSubExecs t)) 0 0 in
    Some (set_timing (set_subExecParam t ps) 0%float [] (perIterationCUs t)).

End Partitioner.

(** ** The HIP runtime and libnuma *)

Inductive HostMallocFlags : Type :=
| HostMallocDefault                       (* 0 *)
| HostMallocNumaUser                      (* hipHostMallocNumaUser *)
| HostMallocNumaUserNonCoherent.          (* ... | hipHostMallocNonCoherent *)

Inductive DeviceMallocFlag : Type :=
| DeviceMallocUncached                    (* 0x3 *)
| DeviceMallocFinegrained.                (* hipDeviceMallocFinegrained *)

(** The calls to the HIP runtime, with the arguments that matter here. *)
Inductive HipCall : Type :=
| HipSetDevice (device : Z)
| HipHostMalloc (numBytes : Z) (flags : HostMallocFlags)
| HipMalloc (device numBytes : Z)
| HipExtMallocWithFlags (device numBytes : Z) (flag : DeviceMallocFlag)
| HipGetDeviceProperties (device : Z)
| HipMemset (ptr value numBytes : Z)
| HipDeviceSynchronize
| HipEventRecord (stream : Z)
| HipStreamSynchronize (stream : Z)
| HipEventElapsedTime (stream : Z)
| HipMemsetAsync (ptr value numBytes : Z)
| HipMemcpyAsync (dstPtr srcPtr numBytes : Z)
| HipMemcpyParams (entries : Z)           (* the upload of the parameters *)
| HipDeviceCanAccessPeer (deviceId peerDeviceId : Z).

(** The machine the program runs on: which HIP calls succeed and what
    the allocators return, what libnuma and the kernel answer, and
    whether the program was built for the NVIDIA platform. *)
Class Runtime : Type :=
  { nvcc : bool;
    hipSuccess : HipCall -> bool;
    hipAllocated : HipCall -> Z;
    gcnArch : Z;
    numa_alloc_onnode : Z -> Z -> Z;
    numa_run_on_node : Z -> Z;
    (* hipDeviceCanAccessPeer, and whether hipDeviceEnablePeerAccess
       answers hipSuccess or hipErrorPeerAccessAlreadyEnabled *)
    canAccessPeer : Z -> Z -> bool;
    peerAccessEnabled : Z -> Z -> bool;
    (* the tables of [RemappedIndex], built from the machine on first use *)
    RemappedIndex : Z -> bool -> Z;
    getpagesize : Z;
    (* [move_pages] on [numPages] pages from [array] on: its return code
       and the node of every page *)
    move_pages : Z -> Z -> Z * list Z }.

Section WithRuntime.
Context {rt : Runtime}.

(** Modelled from the spec: the header's [HIP_CALL]; a failed call of the
    runtime is fatal, the process prints the error and exits. *)
Definition HIP_CALL (c : HipCall) : outcome unit :=
  if hipSuccess c then Ret tt else Exit 1 ErrHipCall.

(** The loop of [CheckPages] over the status of the pages. *)
Fixpoint checkStatus (status : list Z) (i targetId mistakeCount : Z) : outcome Z :=
  match status with
  | [] => Ret mistakeCount
  | s :: status' =>
      if s <? 0 then Exit 1 (ErrPageStatus s i)
      else checkStatus status' (i + 1) targetId
             (if s =? targetId then mistakeCount else mistakeCount + 1)
  end.

(** [CheckPages]. *)
Definition CheckPages (array numBytes targetId : Z) : outcome unit :=
  let pageSize := getpagesize in
  let numPages := to_size_t (numBytes + pageSize - 1) / pageSize in
  let '(retCode, status) := move_pages array numPages in
  if negb (retCode =? 0) then Exit 1 ErrPageInfo
  else
    mistakeCount <- checkStatus (firstn (Z.to_nat numPages) status) 0 targetId 0 ;;
    if 0 <? mistakeCount then Exit 1 (ErrPagesMisplaced mistakeCount numPages targetId)
    else Ret tt.

(** [AllocateMemory]: the pointer it leaves in [*memPtr]. *)
Definition AllocateMemory (memType : MemType) (devIndex numBytes : Z) : outcome Z :=
  if numBytes =? 0 then Exit 1 ErrAllocZeroBytes
  else if IsCpuType memType then
    (* numa_set_preferred(devIndex) *)
    memPtr <-
      match memType with
      | MEM_CPU_FINE =>
          if nvcc then Exit 1 (ErrFineGrainedUnsupported true)
          else HIP_CALL (HipHostMalloc numBytes HostMallocNumaUser) ;;;
               Ret (hipAllocated (HipHostMalloc numBytes HostMallocNumaUser))
      | MEM_CPU =>
          let call := HipHostMalloc numBytes
                        (if nvcc then HostMallocDefault else HostMallocNumaUserNonCoherent) in
          if hipSuccess call then Ret (hipAllocated call) else Exit 1 (ErrHostAlloc devIndex)
      | MEM_CPU_UNPINNED => Ret (numa_alloc_onnode numBytes devIndex)
      | _ => Ret 0
      end ;;
    (* the block is zeroed: memset *)
    CheckPages memPtr numBytes devIndex ;;;
    (* numa_set_preferred(-1) *)
    Ret memPtr
  else if IsGpuType memType then
    memPtr <-
      match memType with
      | MEM_GPU =>
          HIP_CALL (HipSetDevice devIndex) ;;;
          HIP_CALL (HipMalloc devIndex numBytes) ;;;
          Ret (hipAllocated (HipMalloc devIndex numBytes))
      | MEM_GPU_FINE =>
          if nvcc then Exit 1 (ErrFineGrainedUnsupported false)
          else
            HIP_CALL (HipSetDevice devIndex) ;;;
            HIP_CALL (HipGetDeviceProperties 0) ;;;
            let flag := if gcnArch / 10 =? 94 then DeviceMallocUncached
                        else DeviceMallocFinegrained in
            HIP_CALL (HipExtMallocWithFlags devIndex numBytes flag) ;;;
            Ret (hipAllocated (HipExtMallocWithFlags devIndex numBytes flag))
      | _ => Ret 0
      end ;;
    HIP_CALL (HipMemset memPtr 0 numBytes) ;;;
    HIP_CALL HipDeviceSynchronize ;;;
    Ret memPtr
  else Exit 1 (ErrUnsupportedMemType memType).

End WithRuntime.

(** Modelled from the spec: the fixed fill constant of a transfer with no
    source, the header's [MEMSET_CHAR]; the comment at the [memset] of
    [PrepareReference] gives the [float] it makes, [0x75757575]. *)
Definition MEMSET_CHAR : Z := 0x75.

(** ** Running a transfer: [RunTransfer] *)

(** [ExecutorInfo], with the executor it belongs to in [TransferMap]. *)
Record ExecutorInfo : Type := mkExecutorInfo
  { executor : ExeType * Z;
    transfers : list Transfer;
    totalSubExecs : Z;
    totalBytes : Z;
    totalTime : double;
    subExecParamGpu : list SubExecParam.t }.

(** What one call of [RunTransfer] measures: the time between the two
    events (a [float], widened), the time on the host clock in seconds,
    and the executor's array of parameters as the kernel leaves it, with
    the timestamps of every block. *)
Record Measured : Type := mkMeasured
  { gpuDeltaMsec : double;
    cpuDeltaSec : double;
    gpuParams : list SubExecParam.t }.

Module Dispatcher.

Definition to_int64 (z : Z) : Z := (z + 2 ^ 63) mod 2 ^ 64 - 2 ^ 63.
Definition LLONG_MAX : Z := 2 ^ 63 - 1.
Definition LLONG_MIN : Z := - 2 ^ 63.

(** An integer as a [double], rounded to nearest even. *)
Definition double_of_Z (z : Z) : double := SF2Prim (binary_normalize 53 1024 z 0 false).

(** [GetId]. *)
Definition GetId (hwId : Z) : Z :=
  let shId := Z.land (Z.shiftr hwId 12) 1 in
  let cuId := Z.land (Z.shiftr hwId 8) 15 in
  let seId := Z.land (Z.shiftr hwId 13) 3 in
  Z.shiftl shId 5 + Z.shiftl cuId 2 + seId.

(** [std::set<std::pair<int,int>>::insert]: the set is kept sorted. *)
Definition pair_ltb (a b : Z * Z) : bool :=
  (fst a <? fst b) || ((fst a =? fst b) && (snd a <? snd b)).

Fixpoint set_insert (x : Z * Z) (s : list (Z * Z)) : list (Z * Z) :=
  match s with
  | [] => [x]
  | y :: s' => if pair_ltb x y then x :: s
               else if pair_ltb y x then y :: set_insert x s'
               else s
  end.

Definition cuOf (p : SubExecParam.t) : Z * Z :=
  (SubExecParam.xccId p, GetId (SubExecParam.hwId p)).

Definition nullParam : SubExecParam.t := SubExecParam.mk 0 0 0 [] [] 0 0 0 0 0.

(** [transfers[idx] := f transfers[idx]]. *)
Fixpoint update_nth {A : Type} (idx : nat) (f : A -> A) (l : list A) : list A :=
  match l, idx with
  | [], _ => []
  | x :: l', O => f x :: l'
  | x :: l', S idx' => x :: update_nth idx' f l'
  end.

Definition set_transfers (e : ExecutorInfo) (ts : list Transfer) : ExecutorInfo :=
  mkExecutorInfo (executor e) ts (totalSubExecs e) (totalBytes e) (totalTime e)
                 (subExecParamGpu e).

Definition set_totalTime (e : ExecutorInfo) (time : double) : ExecutorInfo :=
  mkExecutorInfo (executor e) (transfers e) (totalSubExecs e) (totalBytes e) time
                 (subExecParamGpu e).

Definition set_subExecParamGpu (e : ExecutorInfo) (ps : list SubExecParam.t) : ExecutorInfo :=
  mkExecutorInfo (executor e) (transfers e) (totalSubExecs e) (totalBytes e) (totalTime e) ps.

(** [transfer->transferTime += delta], and the samples with
    [SHOW_ITERATIONS]. *)
Definition recordTime (ev : EnvVars) (delta : double) (CUs : option (list (Z * Z)))
    (t : Transfer) : Transfer :=
  set_timing t (transferTime t + delta)%float
    (if showIterations ev then perIterationTime t ++ [delta] else perIterationTime t)
    (match CUs with
     | Some s => if showIterations ev then perIterationCUs t ++ [s] else perIterationCUs t
     | None => perIterationCUs t
     end).

Section WithRuntime.
Context {rt : Runtime}.
Variable ev : EnvVars.

(** Single stream: the time of one transfer, from the timestamps of its
    own blocks in the executor's array. *)
Definition singleStreamTime (exeIndex : Z) (gpu : list SubExecParam.t) (curr : Transfer)
  : Transfer :=
  let at_ idx := nth (Z.to_nat idx) gpu nullParam in
  let minStartCycle :=
    fold_left (fun acc idx => Z.min acc (SubExecParam.startCycle (at_ idx)))
              (subExecIdx curr) LLONG_MAX in
  let maxStopCycle :=
    fold_left (fun acc idx => Z.max acc (SubExecParam.stopCycle (at_ idx)))
              (subExecIdx curr) LLONG_MIN in
  let CUs := fold_left (fun s idx => if showIterations ev then set_insert (cuOf (at_ idx)) s else s)
                       (subExecIdx curr) [] in
  let wallClockRate := nth (Z.to_nat exeIndex) (wallClockPerDeviceMhz ev) 0 in
  let iterationTimeMs :=
    (double_of_Z (to_int64 (maxStopCycle - minStartCycle)) / double_of_Z wallClockRate)%float in
  recordTime ev iterationTimeMs (Some CUs) curr.

(** [RunTransfer(ev, iteration, exeInfo, transferIdx)], [m] being what
    this call measures.  The stream and the events of a transfer are
    named by its index. *)
Definition RunTransfer (iteration : Z) (exeInfo : ExecutorInfo) (transferIdx : Z)
    (m : Measured) : outcome ExecutorInfo :=
  match nth_error (transfers exeInfo) (Z.to_nat transferIdx) with
  | None => Ret exeInfo            (* not a call ExecuteTransfers makes *)
  | Some transfer =>
      match exeType transfer with
      | EXE_GPU_GFX =>
          let exeIndex := RemappedIndex (exeIndex transfer) false in
          HIP_CALL (HipSetDevice exeIndex) ;;;
          (if nvcc
           then HIP_CALL (HipEventRecord transferIdx) ;;; HIP_CALL (HipEventRecord transferIdx)
           else Ret tt) ;;;
          HIP_CALL (HipStreamSynchronize transferIdx) ;;;
          (* the kernel has run: the array holds its timestamps *)
          let exeInfo := set_subExecParamGpu exeInfo (gpuParams m) in
          if 0 <=? iteration
          then
            HIP_CALL (HipEventElapsedTime transferIdx) ;;;
            if useSingleStream ev
            then
              let ts := map (singleStreamTime exeIndex (subExecParamGpu exeInfo))
                            (transfers exeInfo) in
              Ret (set_totalTime (set_transfers exeInfo ts)
                                 (totalTime exeInfo + gpuDeltaMsec m)%float)
            else
              let own := firstn (Z.to_nat (numSubExecs transfer))
                                (skipn (Z.to_nat (subExecParamGpuPtr transfer))
                                       (subExecParamGpu exeInfo)) in
              let CUs := fold_left (fun s p => set_insert (cuOf p) s) own [] in
              Ret (set_transfers exeInfo
                     (update_nth (Z.to_nat transferIdx)
                        (recordTime ev (gpuDeltaMsec m) (Some CUs)) (transfers exeInfo)))
          else Ret exeInfo
      | EXE_GPU_DMA =>
          let exeIndex := RemappedIndex (exeIndex transfer) false in
          HIP_CALL (HipSetDevice exeIndex) ;;;
          HIP_CALL (HipEventRecord transferIdx) ;;;
          (if (numSrcs transfer =? 0) && (numDsts transfer =? 1)
           then HIP_CALL (HipMemsetAsync (nth 0 (dstMem transfer) 0) MEMSET_CHAR
                                         (numBytesActual transfer))
           else if (numSrcs transfer =? 1) && (numDsts transfer =? 1)
           then HIP_CALL (HipMemcpyAsync (nth 0 (dstMem transfer) 0)
                                         (nth 0 (srcMem transfer) 0)
                                         (numBytesActual transfer))
           else Ret tt) ;;;
          HIP_CALL (HipEventRecord transferIdx) ;;;
          HIP_CALL (HipStreamSynchronize transferIdx) ;;;
          if 0 <=? iteration
          then
            HIP_CALL (HipEventElapsedTime transferIdx) ;;;
            Ret (set_transfers exeInfo
                   (update_nth (Z.to_nat transferIdx)
                      (recordTime ev (gpuDeltaMsec m) None) (transfers exeInfo)))
          else Ret exeInfo
      | EXE_CPU =>
          let exeIndex := RemappedIndex (exeIndex transfer) true in
          if negb (numa_run_on_node exeIndex =? 0) then Exit 1 (ErrNumaRunOnNode exeIndex)
          else
            (* one thread per sub-executor runs CpuReduceKernel and is joined *)
            if 0 <=? iteration
            then
              let delta := (cpuDeltaSec m * 1000)%float in
              Ret (set_transfers exeInfo
                     (update_nth (Z.to_nat transferIdx)
                        (recordTime ev delta None) (transfers exeInfo)))
            else Ret exeInfo
      end
  end.

End WithRuntime.
End Dispatcher.

(** ** The parameters of a kernel executor: block ordering *)

Module BlockOrder.
Import Dispatcher.

(** The transfers of the executor, which the loops reach through
    pointers and change in place, and [tempSubExecParam]. *)
Definition State : Type := (list Transfer * list SubExecParam.t)%type.

Definition nullTransfer : Transfer :=
  mkTransfer 0 EXE_CPU 0 0 0 0 0 0 [] [] [] [] [] [] [] 0 [] 0%float [] [].

(** Sequential order: the loop over the transfers, from [transferOffset]
    on.  The indices of a transfer are cleared and written anew. *)
Fixpoint placeSequential (ts : list Transfer) (transferOffset : Z)
    (temp : list SubExecParam.t) : State :=
  match ts with
  | [] => ([], temp)
  | t :: ts' =>
      let idx := map (fun k => to_int (transferOffset + Z.of_nat k))
                     (seq 0 (length (subExecParam t))) in
      let r := placeSequential ts' (to_int (transferOffset + numSubExecs t))
                               (temp ++ subExecParam t) in
      (set_gpuPlacement t transferOffset idx :: fst r, snd r)
  end.

(** The two statements the other orders repeat, for unit [k] of transfer
    [j]: [transfer->subExecIdx.push_back(tempSubExecParam.size())] and
    [tempSubExecParam.push_back(transfer->subExecParam[k])]. *)
Definition push (j k : nat) (st : State) : State :=
  let '(ts, temp) := st in
  (update_nth j
     (fun t => set_gpuPlacement t (subExecParamGpuPtr t)
                 (subExecIdx t ++ [to_int (Z.of_nat (length temp))]))
     ts,
   temp ++ [nth k (subExecParam (nth j ts nullTransfer)) nullParam]).

(** [exeInfo.transfers[0]->subExecParamGpuPtr = exeInfo.subExecParamGpu]. *)
Definition pointFirst (ts : list Transfer) : list Transfer :=
  update_nth 0 (fun t => set_gpuPlacement t 0 (subExecIdx t)) ts.

(** Interleaved order: one round of the inner loop, over the transfers,
    for the unit number [k]. *)
Definition interleaveRound (k : Z) (st : State) : State :=
  fold_left (fun st j =>
               if k <? numSubExecs (nth j (fst st) nullTransfer)
               then push j (Z.to_nat k) st
               else st)
            (seq 0 (length (fst st))) st.

(** The outer loop, which goes on while [tempSubExecParam] is shorter
    than [totalSubExecs]; [None] when [fuel] rounds were not enough. *)
Fixpoint interleaveLoop (fuel : nat) (k : Z) (total : Z) (st : State) : option State :=
  match fuel with
  | O => None
  | S fuel' =>
      if Z.of_nat (length (snd st)) <? to_size_t total
      then interleaveLoop fuel' (to_int (k + 1)) total (interleaveRound k st)
      else Some st
  end.

(** Random order: the list of all pairs (transfer, unit) ... *)
Definition allIndices (ts : list Transfer) : list (nat * nat) :=
  flat_map (fun j => map (pair j)
                         (seq 0 (Z.to_nat (numSubExecs (nth j ts nullTransfer)))))
           (seq 0 (length ts)).

(** ... and the loop over them once shuffled. *)
Definition placeShuffled (indices : list (nat * nat)) (st : State) : State :=
  fold_left (fun st p => push (fst p) (snd p) st) indices st.

(** The merge of [ExecuteTransfers] for a kernel executor: the
    transfers afterwards, and [tempSubExecParam].  [shuffle] is what
    [std::shuffle] does with the generator in the state it is in. *)
Definition mergeSubExecParams (ev : EnvVars) (shuffle : list (nat * nat) -> list (nat * nat))
    (fuel : nat) (exeInfo : ExecutorInfo) : option State :=
  let ts := transfers exeInfo in
  if negb (useSingleStream ev) || (blockOrder ev =? ORDER_SEQUENTIAL)
  then Some (placeSequential ts 0 [])
  else if blockOrder ev =? ORDER_INTERLEAVED
  then interleaveLoop fuel 0 (totalSubExecs exeInfo) (pointFirst ts, [])
  else if blockOrder ev =? ORDER_RANDOM
  then Some (placeShuffled (shuffle (allIndices ts)) (pointFirst ts, []))
  else Some (ts, []).

(** The upload: [hipMemcpy] of [tempSubExecParam] to the front of the
    executor's array. *)
Definition upload (temp : list SubExecParam.t) (gpu : list SubExecParam.t)
  : list SubExecParam.t :=
  temp ++ skipn (length temp) gpu.

Section WithRuntime.
Context {rt : Runtime}.
Variable ev : EnvVars.

(** Lines 338-415 of [ExecuteTransfers] for one executor, the source
    buffers apart: the parameters of every transfer are prepared, and
    for a kernel executor merged and uploaded.  [None]: a transfer could
    not be prepared, or [fuel] was not enough. *)
Definition prepareExecutor (shuffle : list (nat * nat) -> list (nat * nat)) (fuel : nat)
    (exeInfo : ExecutorInfo) : option (outcome ExecutorInfo) :=
  let prepared :=
    fold_right (fun t acc =>
                  match Partitioner.PrepareSubExecParams ev t, acc with
                  | Some t', Some ts => Some (t' :: ts)
                  | _, _ => None
                  end)
               (Some []) (transfers exeInfo) in
  match prepared with
  | None => None
  | Some ts =>
      let totalBytes' :=
        fold_left (fun acc t => to_size_t (acc + numBytesActual t)) ts 0 in
      let exeInfo1 :=
        mkExecutorInfo (executor exeInfo) ts (totalSubExecs exeInfo) totalBytes'
                       (totalTime exeInfo) (subExecParamGpu exeInfo) in
      if ExeType_eqb (fst (executor exeInfo)) EXE_GPU_GFX
      then
        match mergeSubExecParams ev shuffle fuel exeInfo1 with
        | None => None
        | Some (ts', temp) =>
            let exeIndex := RemappedIndex (snd (executor exeInfo)) false in
            Some (HIP_CALL (HipSetDevice exeIndex) ;;;
                  HIP_CALL (HipMemcpyParams (Z.of_nat (length temp))) ;;;
                  HIP_CALL HipDeviceSynchronize ;;;
                  Ret (set_subExecParamGpu (set_transfers exeInfo1 ts')
                         (upload temp (subExecParamGpu exeInfo1))))
        end
      else Some (Ret exeInfo1)
  end.

End WithRuntime.

(** The end of [ExecuteTransfers] for one executor, the memory apart:
    [transfer->subExecParam.clear()]. *)
Definition releaseExecutor (exeInfo : ExecutorInfo) : ExecutorInfo :=
  set_transfers exeInfo (map (fun t => set_subExecParam t []) (transfers exeInfo)).

End BlockOrder.

(** ** Reference patterns: [Transfer::PrepareReference] *)

(** What this file takes from [float] arithmetic and from the kernels'
    header: the sum of two [float]s, and [PrepSrcValue], the value of
    element [idx] of source [srcBufferIdx].  Neither is under [src/]. *)
Class FloatOps : Type :=
  { f32_add : float32 -> float32 -> float32;
    PrepSrcValue : Z -> Z -> float32 }.

(** The four bytes of a [float], lowest address first, and back. *)
Definition bytes_of_float (x : float32) : list Z :=
  [x mod 256; x / 2 ^ 8 mod 256; x / 2 ^ 16 mod 256; x / 2 ^ 24 mod 256].

Definition float_of_bytes (bs : list Z) : float32 :=
  fold_right (fun b acc => b + 256 * acc) 0 bs.

(** [memset(buffer.data(), c, n * sizeof(float))]: every byte becomes
    [(unsigned char)c]. *)
Definition memset_floats (c : Z) (n : nat) : list float32 :=
  repeat (float_of_bytes (repeat (c mod 256) (Z.to_nat sizeof_float))) n.

Module Reference.
Section WithFloats.
Context {ops : FloatOps}.

(** The branch [bufferIdx >= 0]: the pattern of one source, [n] floats. *)
Definition sourceReference (ev : EnvVars) (n : nat) (bufferIdx : Z) : list float32 :=
  let patternLen := length (fillPattern ev) in
  if (0 <? Z.of_nat patternLen)
  then map (fun i => nth (i mod patternLen)%nat (fillPattern ev) 0) (seq 0 n)
  else map (fun i => PrepSrcValue bufferIdx (Z.of_nat i)) (seq 0 n).

(** [buffer[i] += temp[i]] for every [i]. *)
Definition accumulate (buffer temp : list float32) : list float32 :=
  map (fun bt => f32_add (fst bt) (snd bt)) (combine buffer temp).

(** [Transfer::PrepareReference] on a buffer of [n] floats: what the
    buffer holds afterwards. *)
Definition PrepareReference (ev : EnvVars) (t : Transfer) (n : nat) (bufferIdx : Z)
  : list float32 :=
  if 0 <=? bufferIdx then sourceReference ev n bufferIdx
  else if numSrcs t =? 0 then memset_floats MEMSET_CHAR n
  else
    let buffer := sourceReference ev n 0 in
    if 1 <? numSrcs t
    then fold_left (fun buf srcIdx => accumulate buf (sourceReference ev n (Z.of_nat srcIdx)))
                   (seq 1 (Z.to_nat (numSrcs t) - 1)) buffer
    else buffer.

End WithFloats.
End Reference.

(** ** Validation: [Transfer::ValidateDst] *)

Module Validator.

(** [a != b] on [float]s: a NaN differs from everything, the two zeros do
    not differ, and otherwise the bit patterns decide. *)
Definition f32_isnan (x : float32) : bool :=
  (Z.land x 0x7F800000 =? 0x7F800000) && negb (Z.land x 0x007FFFFF =? 0).

Definition f32_iszero (x : float32) : bool := Z.land x 0x7FFFFFFF =? 0.

Definition f32_ne (a b : float32) : bool :=
  f32_isnan a || f32_isnan b || negb ((a =? b) || (f32_iszero a && f32_iszero b)).

(** What is printed at a mismatch: the index and the destination, every
    source's value there, the expected and the actual value (both as bit
    patterns), and the details of the transfer. *)
Record Report : Type := mkReport
  { rIndex : nat;
    rDstIdx : nat;
    rSrcValues : list float32;
    rExpected : float32;
    rActual : float32;
    rTransferIndex : Z;
    rSrc : list (MemType * Z);
    rExe : ExeType * Z * Z;        (* executor, its index, numSubExecs *)
    rDst : list (MemType * Z) }.

(** A run of [ValidateDst]: the reports printed, the comparisons
    [reference[i] != output[i]] made, as pairs [(dstIdx, i)] in the order
    they were made, and whether the run ended in [exit(1)]. *)
Record Run : Type := mkRun
  { reports : list Report;
    comparisons : list (nat * nat);
    exited : bool }.

Section WithFloats.
Context {ops : FloatOps}.
Variable ev : EnvVars.
Variable t : Transfer.
(** The memory the transfer's pointers point into, host or device. *)
Variable mem : Z -> float32.

Definition initOffsetOf : Z := to_int (to_size_t (byteOffset ev) / sizeof_float).

Definition report (dstIdx i : nat) (expected actual : float32) : Report :=
  mkReport i dstIdx
    (map (fun m => mem (m + initOffsetOf + Z.of_nat i))
         (firstn (Z.to_nat (numSrcs t)) (srcMem t)))
    expected actual (transferIndex t)
    (combine (srcType t) (srcIndex t))
    (exeType t, exeIndex t, numSubExecs t)
    (combine (dstType t) (dstIndex t)).

(** The loop over [i] for one destination, from element [i] on: [todo]
    are the elements of [reference] and of [output] not yet compared.
    It yields the run of this destination. *)
Fixpoint compareFrom (dstIdx i : nat) (todo : list (float32 * float32)) : Run :=
  match todo with
  | [] => mkRun [] [] false
  | (expected, actual) :: todo' =>
      if f32_ne expected actual
      then mkRun [report dstIdx i expected actual] [(dstIdx, i)]
                 (negb (continueOnError ev))       (* exit(1), or break *)
      else
        let r := compareFrom dstIdx (S i) todo' in
        mkRun (reports r) ((dstIdx, i) :: comparisons r) (exited r)
  end.

(** [output] for destination [dstIdx]: the [n] floats at
    [dstMem[dstIdx] + initOffset], read in place or through a copy. *)
Definition outputOf (n dstIdx : nat) : list float32 :=
  map (fun i => mem (nth dstIdx (dstMem t) 0 + initOffsetOf + Z.of_nat i)) (seq 0 n).

(** The loop over the destinations, from [dstIdx] on. *)
Fixpoint validateFrom (reference : list float32) (n : nat) (todo : list nat) : Run :=
  match todo with
  | [] => mkRun [] [] false
  | dstIdx :: todo' =>
      let r := compareFrom dstIdx 0 (combine reference (outputOf n dstIdx)) in
      if exited r then r
      else
        let r' := validateFrom reference n todo' in
        mkRun (reports r ++ reports r') (comparisons r ++ comparisons r') (exited r')
  end.

(** [Transfer::ValidateDst], the calls to the HIP runtime succeeding. *)
Definition ValidateDst : Run :=
  if numDsts t =? 0 then mkRun [] [] false
  else
    let n := Z.to_nat (numBytesActual t / sizeof_float) in
    let reference := Reference.PrepareReference ev t n (-1) in
    validateFrom reference n (seq 0 (Z.to_nat (numDsts t))).

End WithFloats.
End Validator.

(** ** The iterations of [ExecuteTransfers] *)

Module Orchestrator.
Import Dispatcher.

(** What the loop over the iterations carries along. *)
Record LoopState : Type := mkLoopState
  { exeInfos : list ExecutorInfo;             (* the values of transferMap *)
    totalCpuTime : double;
    numTimedIterations : Z }.                 (* size_t *)

(** What one iteration measures: the seconds it took on the host clock,
    the measurements of every call of [RunTransfer], by executor and
    transfer, and the memory as the iteration leaves it. *)
Record IterationMeasure : Type := mkIterationMeasure
  { deltaSec : double;
    measured : nat -> Z -> Measured;
    memory : Z -> float32 }.

Section WithRuntime.
Context {rt : Runtime} {ops : FloatOps}.
Variable ev : EnvVars.

Definition numTransfersToRun (exeInfo : ExecutorInfo) : Z :=
  if ExeType_eqb (fst (executor exeInfo)) EXE_GPU_GFX && useSingleStream ev then 1
  else Z.of_nat (length (transfers exeInfo)).

(** The threads of one executor, taken one after the other: they work on
    transfers of their own. *)
Fixpoint runTransfers (iteration : Z) (meas : Z -> Measured) (todo : list Z)
    (exeInfo : ExecutorInfo) : outcome ExecutorInfo :=
  match todo with
  | [] => Ret exeInfo
  | i :: todo' =>
      exeInfo' <- RunTransfer ev iteration exeInfo i (meas i) ;;
      runTransfers iteration meas todo' exeInfo'
  end.

Fixpoint runExecutors (iteration : Z) (meas : nat -> Z -> Measured) (k : nat)
    (infos : list ExecutorInfo) : outcome (list ExecutorInfo) :=
  match infos with
  | [] => Ret []
  | e :: infos' =>
      e' <- runTransfers iteration (meas k)
              (map Z.of_nat (seq 0 (Z.to_nat (numTransfersToRun e)))) e ;;
      rest <- runExecutors iteration meas (S k) infos' ;;
      Ret (e' :: rest)
  end.

(** [ALWAYS_VALIDATE]: every transfer is validated after the iteration;
    a mismatch ends the process unless errors are to be continued on. *)
Definition validateAll (mem : Z -> float32) (infos : list ExecutorInfo) : outcome unit :=
  if existsb (fun t => Validator.exited (Validator.ValidateDst ev t mem))
             (flat_map transfers infos)
  then Exit 1 ErrValidationMismatch
  else Ret tt.

(** One iteration of the loop, from the start of the host clock to the
    counting of the iteration (interactive mode being off). *)
Definition iterationStep (iteration : Z) (st : LoopState) (im : IterationMeasure)
  : outcome LoopState :=
  infos <- runExecutors iteration (measured im) 0 (exeInfos st) ;;
  (if alwaysValidate ev then validateAll (memory im) infos else Ret tt) ;;;
  if 0 <=? iteration
  then Ret (mkLoopState infos (totalCpuTime st + deltaSec im)%float
                        (to_size_t (numTimedIterations st + 1)))
  else Ret (mkLoopState infos (totalCpuTime st) (numTimedIterations st)).

(** The loop over the iterations, from [iteration] on; [None] when
    [fuel] iterations were not enough to reach one of its two exits. *)
Fixpoint iterationLoop (fuel : nat) (iteration : Z) (st : LoopState)
    (im : Z -> IterationMeasure) : option (outcome LoopState) :=
  match fuel with
  | O => None
  | S fuel' =>
      if (0 <? numIterations ev) && (numIterations ev <=? iteration) then Some (Ret st)
      else if (numIterations ev <? 0)
              && (double_of_Z (to_int (- numIterations ev)) <? totalCpuTime st)%float
      then Some (Ret st)
      else
        match iterationStep iteration st (im iteration) with
        | Exit c e => Some (Exit c e)
        | Ret st' => iterationLoop fuel' (to_int (iteration + 1)) st' im
        end
  end.

End WithRuntime.
End Orchestrator.

(** ** Reading the configuration: [ParseMemType], [ParseExeType],
       [ParseTransfers] *)

(** The header's tables of letters: [MemTypeStr] and [ExeTypeStr], and
    [CharToMemType] and [CharToExeType], which look a letter up and exit
    on one that is not there.  They are not under [src/]. *)
Class CharTables : Type :=
  { MemTypeStr : string;
    ExeTypeStr : string;
    CharToMemType : ascii -> outcome MemType;
    CharToExeType : ascii -> outcome ExeType }.

Module Scan.

Definition isspace (c : ascii) : bool :=
  let n := nat_of_ascii c in
  ((n =? 32) || ((9 <=? n) && (n <=? 13)))%nat.

Definition isdigit (c : ascii) : bool :=
  let n := nat_of_ascii c in ((48 <=? n) && (n <=? 57))%nat.

Definition digit_value (c : ascii) : Z := Z.of_nat (nat_of_ascii c - 48).

Definition toupper (c : ascii) : ascii :=
  let n := nat_of_ascii c in
  if ((97 <=? n) && (n <=? 122))%nat then ascii_of_nat (n - 32) else c.

Fixpoint skipws (s : string) : string :=
  match s with
  | String c r => if isspace c then skipws r else s
  | EmptyString => s
  end.

(** The digits at the front of [s]: their value after [acc], how many
    there are, and what follows them. *)
Fixpoint digits (s : string) (acc : Z) (count : nat) : Z * nat * string :=
  match s with
  | String c r => if isdigit c then digits r (10 * acc + digit_value c) (S count)
                  else (acc, count, s)
  | EmptyString => (acc, count, s)
  end.

(** A decimal number with an optional sign, after white space: whether
    it is negative, its magnitude, and the rest; [None] without a digit. *)
Definition number (s : string) : option (bool * Z * string) :=
  let s1 := skipws s in
  let '(neg, s2) :=
    match s1 with
    | String "-"%char r => (true, r)
    | String "+"%char r => (false, r)
    | _ => (false, s1)
    end in
  let '(v, count, rest) := digits s2 0 0 in
  if (count =? 0)%nat then None else Some (neg, v, rest).

Definition signed (neg : bool) (v : Z) : Z := if neg then - v else v.

(** [iss >> n] for an [int]: the extraction fails when there is no
    number or when it does not fit. *)
Definition read_int (s : string) : option (Z * string) :=
  match number s with
  | Some (neg, v, rest) =>
      let n := signed neg v in
      if (- 2 ^ 31 <=? n) && (n <? 2 ^ 31) then Some (n, rest) else None
  | None => None
  end.

(** [iss >> token] for a [std::string]: the characters up to the next
    white space; the extraction fails when there is none. *)
Fixpoint word (s : string) : string * string :=
  match s with
  | String c r => if isspace c then (EmptyString, s)
                  else let '(w, rest) := word r in (String c w, rest)
  | EmptyString => (EmptyString, s)
  end.

Definition read_token (s : string) : option (string * string) :=
  match word (skipws s) with
  | (EmptyString, _) => None
  | (w, rest) => Some (w, rest)
  end.

(** [sscanf] with ["%d"]: as [strtol], then stored in an [int]. *)
Definition scan_d (s : string) : option (Z * string) :=
  match number s with
  | Some (neg, v, rest) =>
      Some (to_int (Z.max (- 2 ^ 63) (Z.min (2 ^ 63 - 1) (signed neg v))), rest)
  | None => None
  end.

(** [sscanf] with ["%lu"]: as [strtoul]. *)
Definition scan_lu (s : string) : option (Z * string) :=
  match number s with
  | Some (neg, v, rest) =>
      Some (if 2 ^ 64 <=? v then 2 ^ 64 - 1 else to_size_t (signed neg v), rest)
  | None => None
  end.

(** [atoll]: as [strtoll], and 0 without a number. *)
Definition atoll (s : string) : Z :=
  match number s with
  | Some (neg, v, _) => Z.max (- 2 ^ 63) (Z.min (2 ^ 63 - 1) (signed neg v))
  | None => 0
  end.

(** [sscanf] with [" %c %d%n"] (and [" %c%d"], which reads the same):
    the character, the number and what is left, when both were read. *)
Definition scan_char_int (s : string) : option (ascii * Z * string) :=
  match skipws s with
  | String c r =>
      match scan_d r with
      | Some (n, rest) => Some (c, n, rest)
      | None => None
      end
  | EmptyString => None
  end.

(** The last character of a string that has one. *)
Fixpoint back (s : string) : option ascii :=
  match s with
  | EmptyString => None
  | String c EmptyString => Some c
  | String _ r => back r
  end.

End Scan.

Module Parser.
Import Scan.

Section WithTables.
Context {tables : CharTables}.

(** The loop of [ParseMemType] over the pairs of a letter and an index
    in [token]; every round takes characters off [token], so that
    [fuel] above its length is never used up. *)
Fixpoint memTypePairs (fuel : nat) (token : string) (numCpus numGpus : Z)
    (found : bool) (memTypes : list MemType) (memIndices : list Z)
  : outcome (bool * list MemType * list Z) :=
  match fuel with
  | O => Ret (found, memTypes, memIndices)
  | S fuel' =>
      match scan_char_int token with
      | None => Ret (found, memTypes, memIndices)
      | Some (typeChar, devIndex, rest) =>
          memType <- CharToMemType typeChar ;;
          if IsCpuType memType && ((devIndex <? 0) || (numCpus <=? devIndex))
          then Exit 1 (ErrCpuIndex (numCpus - 1) devIndex)
          else if IsGpuType memType && ((devIndex <? 0) || (numGpus <=? devIndex))
          then Exit 1 (ErrGpuIndex (numGpus - 1) devIndex)
          else if MemType_eqb memType MEM_NULL
          then memTypePairs fuel' rest numCpus numGpus true memTypes memIndices
          else memTypePairs fuel' rest numCpus numGpus true
                 (memTypes ++ [memType]) (memIndices ++ [devIndex])
      end
  end.

(** [ParseMemType]: the kinds and the indices it leaves in [memTypes]
    and [memIndices]. *)
Definition ParseMemType (token : string) (numCpus numGpus : Z)
  : outcome (list MemType * list Z) :=
  r <- memTypePairs (S (String.length token)) token numCpus numGpus false [] [] ;;
  let '(found, memTypes, memIndices) := r in
  if found then Ret (memTypes, memIndices) else Exit 1 (ErrMemTypeToken token).

(** [ParseExeType]. *)
Definition ParseExeType (token : string) (numCpus numGpus : Z) : outcome (ExeType * Z) :=
  match scan_char_int token with
  | None => Exit 1 (ErrExeTypeToken token)
  | Some (typeChar, exeIndex, _) =>
      exeType <- CharToExeType typeChar ;;
      if IsCpuType exeType && ((exeIndex <? 0) || (numCpus <=? exeIndex))
      then Exit 1 (ErrCpuIndex (numCpus - 1) exeIndex)
      else if IsGpuType exeType && ((exeIndex <? 0) || (numGpus <=? exeIndex))
      then Exit 1 (ErrGpuIndex (numGpus - 1) exeIndex)
      else Ret (exeType, exeIndex)
  end.

(** The first loop of [ParseTransfers]: from the second character on,
    brackets and arrows become blanks. *)
Definition blank (c : ascii) : ascii :=
  if (Ascii.eqb c "("%char || Ascii.eqb c ")"%char || Ascii.eqb c "-"%char
      || Ascii.eqb c ">"%char)%bool
  then " "%char else c.

Fixpoint blankAll (s : string) : string :=
  match s with
  | EmptyString => EmptyString
  | String c r => String (blank c) (blankAll r)
  end.

Definition blankBrackets (line : string) : string :=
  match line with
  | EmptyString => EmptyString
  | String c r => String c (blankAll r)
  end.

(** The units of a byte count: the last character of its token. *)
Definition applyUnits (numBytes : Z) (units : option ascii) : Z :=
  match option_map toupper units with
  | Some "K"%char => to_size_t (numBytes * 1024)
  | Some "M"%char => to_size_t (numBytes * (1024 * 1024))
  | Some "G"%char => to_size_t (numBytes * (1024 * 1024 * 1024))
  | _ => numBytes
  end.

(** What the body of the loop of [ParseTransfers] does once the three
    tokens of a transfer are parsed: it counts the sources and the
    destinations, checks them, and fills in the transfer. *)
Definition makeTransfer (src : list MemType * list Z) (dst : list MemType * list Z)
    (exe : ExeType * Z) (numSubExecs_ numBytes_ : Z) : outcome Transfer :=
  let numSrcs_ := to_int (Z.of_nat (length (fst src))) in
  let numDsts_ := to_int (Z.of_nat (length (fst dst))) in
  if (numSrcs_ =? 0) && (numDsts_ =? 0) then Exit 1 ErrNoSrcNoDst
  else if ExeType_eqb (fst exe) EXE_GPU_DMA && ((1 <? numSrcs_) || (1 <? numDsts_))
  then Exit 1 ErrDmaMultipleEndpoints
  else Ret (mkTransfer 0 (fst exe) (snd exe) numSubExecs_ numBytes_ 0
                       numSrcs_ numDsts_ (fst src) (snd src) (fst dst) (snd dst)
                       [] [] [] 0 [] 0%float [] []).

(** [iss >> srcMem >> exeMem >> dstMem], for transfer [i + 1]: the three
    tokens and the stream after them. *)
Definition readTriplet (iss : string) (i : Z) : outcome (string * string * string * string) :=
  match read_token iss with
  | Some (srcMem_, iss1) =>
      match read_token iss1 with
      | Some (exeMem, iss2) =>
          match read_token iss2 with
          | Some (dstMem_, iss3) => Ret (srcMem_, exeMem, dstMem_, iss3)
          | None => Exit 1 (ErrTransferTriplet (i + 1))
          end
      | None => Exit 1 (ErrTransferTriplet (i + 1))
      end
  | None => Exit 1 (ErrTransferTriplet (i + 1))
  end.

(** [iss >> srcMem >> exeMem >> dstMem >> numSubExecs >> numBytesToken],
    and the byte count read from its token: advanced mode. *)
Definition readTuple (iss : string) (i : Z)
  : outcome (string * string * string * Z * Z * string) :=
  match read_token iss with
  | Some (srcMem_, iss1) =>
      match read_token iss1 with
      | Some (exeMem, iss2) =>
          match read_token iss2 with
          | Some (dstMem_, iss3) =>
              match read_int iss3 with
              | Some (n, iss4) =>
                  match read_token iss4 with
                  | Some (numBytesToken, iss5) =>
                      match scan_lu numBytesToken with
                      | Some (b, _) =>
                          Ret (srcMem_, exeMem, dstMem_, n,
                               applyUnits b (back numBytesToken), iss5)
                      | None => Exit 1 (ErrNumBytesToken numBytesToken (i + 1))
                      end
                  | None => Exit 1 (ErrTransferTuple (i + 1))
                  end
              | None => Exit 1 (ErrTransferTuple (i + 1))
              end
          | None => Exit 1 (ErrTransferTuple (i + 1))
          end
      | None => Exit 1 (ErrTransferTuple (i + 1))
      end
  | None => Exit 1 (ErrTransferTuple (i + 1))
  end.

(** The loop of [ParseTransfers] over the transfers, [todo] of them
    left, [i] read; [numSubExecs_] and [numBytes_] keep their value from
    one transfer to the next. *)
Fixpoint transferLoop (todo : nat) (i : Z) (advancedMode : bool) (iss : string)
    (numCpus numGpus : Z) (numSubExecs_ numBytes_ : Z) (transfers : list Transfer)
  : outcome (list Transfer) :=
  match todo with
  | O => Ret transfers
  | S todo' =>
      r <- (if negb advancedMode
            then r3 <- readTriplet iss i ;;
                 let '(srcMem_, exeMem, dstMem_, iss') := r3 in
                 Ret (srcMem_, exeMem, dstMem_, numSubExecs_, numBytes_, iss')
            else readTuple iss i) ;;
      let '(srcMem_, exeMem, dstMem_, numSubExecs', numBytes', iss') := r in
      src <- ParseMemType srcMem_ numCpus numGpus ;;
      dst <- ParseMemType dstMem_ numCpus numGpus ;;
      exe <- ParseExeType exeMem numCpus numGpus ;;
      transfer <- makeTransfer src dst exe numSubExecs' numBytes' ;;
      transferLoop todo' (i + 1) advancedMode iss' numCpus numGpus
                   numSubExecs' numBytes' (transfers ++ [transfer])
  end.

(** [ParseTransfers]: the transfers it leaves in [transfers]. *)
Definition ParseTransfers (line : string) (numCpus numGpus : Z) : outcome (list Transfer) :=
  let iss := blankBrackets line in
  match read_int iss with
  | None => Ret []                                  (* iss.fail(): return *)
  | Some (n, iss1) =>
      let advancedMode := n <? 0 in
      let numTransfers := to_int (Z.abs n) in
      if negb advancedMode
      then
        match read_int iss1 with
        | Some (numSubExecs_, iss2) =>
            if numSubExecs_ <=? 0 then Exit 1 ErrNumBlocks
            else transferLoop (Z.to_nat numTransfers) 0 advancedMode iss2
                              numCpus numGpus numSubExecs_ 0 []
        | None => Exit 1 ErrNumBlocks
        end
      else transferLoop (Z.to_nat numTransfers) 0 advancedMode iss1
                        numCpus numGpus 0 0 []
  end.

End WithTables.
End Parser.

(** ** Setting a transfer up: the start of [ExecuteTransfers] *)

Module Setup.
Section WithRuntime.
Context {rt : Runtime}.
Variable ev : EnvVars.

(** [EnablePeerAccess]. *)
Definition EnablePeerAccess (deviceId peerDeviceId : Z) : outcome unit :=
  HIP_CALL (HipDeviceCanAccessPeer deviceId peerDeviceId) ;;;
  if negb (canAccessPeer deviceId peerDeviceId)
  then Exit 1 (ErrPeerAccess peerDeviceId deviceId)
  else
    HIP_CALL (HipSetDevice deviceId) ;;;
    if peerAccessEnabled deviceId peerDeviceId then Ret tt
    else Exit 1 (ErrEnablePeerAccess deviceId peerDeviceId).

(** [transfer->numBytesActual]: the transfer's own byte count, or the
    run-wide [N] floats when it has none. *)
Definition bytesActual (N : Z) (t : Transfer) : Z :=
  if numBytes t =? 0 then to_size_t (N * sizeof_float) else numBytes t.

(** The buffers of one side of a transfer: for every endpoint, peer
    access when the executor is another device, then [AllocateMemory] of
    the byte count plus the byte offset. *)
Fixpoint allocateBuffers (exeIsGpu : bool) (exeIndex_ : Z) (bytes : Z)
    (endpoints : list (MemType * Z)) : outcome (list Z) :=
  match endpoints with
  | [] => Ret []
  | (memType, index) :: rest =>
      let memIndex := RemappedIndex index (IsCpuType memType) in
      (if exeIsGpu && IsGpuType memType && negb (memIndex =? exeIndex_)
       then EnablePeerAccess exeIndex_ memIndex else Ret tt) ;;;
      ptr <- AllocateMemory memType memIndex (to_size_t (bytes + byteOffset ev)) ;;
      ptrs <- allocateBuffers exeIsGpu exeIndex_ bytes rest ;;
      Ret (ptr :: ptrs)
  end.

(** The body of the loop over the transfers of an executor (lines
    250-284): the byte count is settled and the buffers are allocated. *)
Definition setupTransfer (N : Z) (t : Transfer) : outcome Transfer :=
  let exeIndex_ := RemappedIndex (exeIndex t) (IsCpuType (exeType t)) in
  let bytes := bytesActual N t in
  srcs <- allocateBuffers (IsGpuType (exeType t)) exeIndex_ bytes
            (firstn (Z.to_nat (numSrcs t)) (combine (srcType t) (srcIndex t))) ;;
  dsts <- allocateBuffers (IsGpuType (exeType t)) exeIndex_ bytes
            (firstn (Z.to_nat (numDsts t)) (combine (dstType t) (dstIndex t))) ;;
  Ret (mkTransfer (transferIndex t) (exeType t) (exeIndex t) (numSubExecs t)
         (numBytes t) bytes (numSrcs t) (numDsts t)
         (srcType t) (srcIndex t) (dstType t) (dstIndex t) srcs dsts
         (subExecParam t) (subExecParamGpuPtr t) (subExecIdx t)
         (transferTime t) (perIterationTime t) (perIterationCUs t)).

End WithRuntime.
End Setup.

(** ** [main]: the byte count, and the loop over the configuration file *)

Module Main.
Import Scan Parser.

(** Lines 56-73: the number of bytes per transfer, from [argv[2]] when
    there is one.  [DEFAULT_BYTES_PER_TRANSFER] is the header's. *)
Definition bytesPerTransfer (DEFAULT_BYTES_PER_TRANSFER : Z) (argv2 : option string)
  : outcome Z :=
  let numBytesPerTransfer :=
    match argv2 with
    | Some arg =>
        let n := to_size_t (atoll arg) in
        match back arg with
        | Some "K"%char | Some "k"%char => to_size_t (n * 1024)
        | Some "M"%char | Some "m"%char => to_size_t (n * (1024 * 1024))
        | Some "G"%char | Some "g"%char => to_size_t (n * (1024 * 1024 * 1024))
        | _ => n
        end
    | None => DEFAULT_BYTES_PER_TRANSFER
    end in
  if negb (numBytesPerTransfer mod 4 =? 0)
  then Exit 1 (ErrBytesNotMultipleOf4 numBytesPerTransfer)
  else Ret numBytesPerTransfer.

Section WithEngine.
Context {tables : CharTables}.
Variable ev : EnvVars.
(** [ExecuteTransfers(ev, testNum, N, transfers)]: the transfers as the
    call leaves them. *)
Variable ExecuteTransfers : Z -> Z -> list Transfer -> outcome (list Transfer).

(** The sizes from [curr] up to [limit], [delta] apart. *)
Fixpoint sweepSizes (fuel : nat) (curr limit delta testNum : Z) (transfers : list Transfer)
  : outcome (Z * list Transfer) :=
  match fuel with
  | O => Ret (testNum, transfers)
  | S fuel' =>
      if curr <? limit
      then
        transfers' <- ExecuteTransfers (to_int (testNum + 1)) (to_size_t curr) transfers ;;
        sweepSizes fuel' (to_int (curr + delta)) limit delta (to_int (testNum + 1)) transfers'
      else Ret (testNum, transfers)
  end.

(** The range of sizes gone through when the byte count is 0: [N] from
    256 to [1 << 27], doubling. *)
Fixpoint sweepRange (doublings : nat) (N testNum : Z) (transfers : list Transfer)
  : outcome (Z * list Transfer) :=
  match doublings with
  | O => Ret (testNum, transfers)
  | S doublings' =>
      if N <=? 2 ^ 27
      then
        if samplingFactor ev =? 0 then Exit 1 DivisionByZero
        else
          let delta := Z.max 1 (Z.quot N (samplingFactor ev)) in
          r <- sweepSizes (Z.to_nat N) N (N * 2) delta testNum transfers ;;
          sweepRange doublings' (N * 2) (fst r) (snd r)
      else Ret (testNum, transfers)
  end.

(** What [main] does with the transfers of one line. *)
Definition runLine (numBytesPerTransfer testNum : Z) (transfers : list Transfer)
  : outcome Z :=
  if negb (numBytesPerTransfer =? 0)
  then
    ExecuteTransfers (to_int (testNum + 1)) (numBytesPerTransfer / sizeof_float) transfers ;;;
    Ret (to_int (testNum + 1))
  else
    r <- sweepRange 20 256 testNum transfers ;;
    Ret (fst r).

(** The loop over the lines of the configuration file: [testNum] at the
    end of the file. *)
Fixpoint configLoop (numBytesPerTransfer : Z) (lines : list string) (testNum : Z)
  : outcome Z :=
  match lines with
  | [] => Ret testNum
  | line :: rest =>
      transfers <- ParseTransfers line (numCpuDevices ev) (numGpuDevices ev) ;;
      match transfers with
      | [] => configLoop numBytesPerTransfer rest testNum            (* continue *)
      | _ =>
          testNum' <- runLine numBytesPerTransfer testNum transfers ;;
          configLoop numBytesPerTransfer rest testNum'
      end
  end.

End WithEngine.
End Main.

(** ** Vocabulary of the statements, and sample inputs *)

Module PartitionerSpec.
Import Partitioner.

(** Sum of a list of integers. *)
Definition zsum (l : list Z) : Z := fold_right Z.add 0 l.

(** The counts of a list of entries. *)
Definition counts (ps : list SubExecParam.t) : list Z := map SubExecParam.N ps.

(** A transfer and a configuration to try the partitioner on. *)
Definition sampleEnv (blockBytes_ useSingle : Z) : EnvVars :=
  mkEnvVars 0 blockBytes_ false [] [] false false (negb (useSingle =? 0)) 0
            false false 0 1 1 1 2 false [].

Definition sampleTransfer (bytes nSub : Z) : Transfer :=
  mkTransfer 0 EXE_GPU_GFX 0 nSub 0 bytes 1 1 [MEM_GPU] [0] [MEM_GPU] [1]
             [1000] [5000] [] 0 [] 0%float [] [].

Definition sampleCounts (bytes blockBytes_ nSub : Z) : option (list Z) :=
  option_map (fun t' => counts (subExecParam t'))
    (PrepareSubExecParams (sampleEnv blockBytes_ 0) (sampleTransfer bytes nSub)).

(** An entry with a non-zero count. *)
Definition nonzero (p : SubExecParam.t) : bool := negb (SubExecParam.N p =? 0).

(** [ceil(a / b)] on integers. *)
Definition cdiv (a b : Z) : Z := (a + b - 1) / b.

(** The state of the loop before iteration [i]: while sub-executors are
    left there are at least as many blocks to give out as sub-executors
    to take them, and afterwards nothing is left. *)
Definition inv (N G M i a : Z) : Prop :=
  0 <= i < 2 ^ 31 /\ 0 <= a <= N /\
  (i < M -> M - i <= (N - a + G - 1) / G) /\
  (M <= i -> a = N).

(** Where unit [k] starts: the counts of the units before it. *)
Definition unitOffset (ps : list SubExecParam.t) (k : nat) : Z :=
  zsum (counts (firstn k ps)).

(** Entry [p] points [off] floats into the data of every source and
    destination buffer of [t] (the data start [initOffset] floats after
    the start of the buffer). *)
Definition pointsAt (ev : EnvVars) (t : Transfer) (p : SubExecParam.t) (off : Z) : Prop :=
  let initOffset := to_int (to_size_t (byteOffset ev) / sizeof_float) in
  SubExecParam.src p =
    map (fun m => m + off + initOffset) (firstn (Z.to_nat (numSrcs t)) (srcMem t)) /\
  SubExecParam.dst p =
    map (fun m => m + off + initOffset) (firstn (Z.to_nat (numDsts t)) (dstMem t)).

(** [maxUsable = min(S, ceil(N/G))]. *)
Definition maxUsable (N S G : Z) : Z := Z.min S (cdiv N G).

(** The count of a unit as the code computes it: the blocks that remain,
    divided (rounding down) among the sub-executors that remain. *)
Definition codeCount (remaining G subExecLeft : Z) : Z :=
  if subExecLeft =? 0 then 0
  else Z.min remaining (cdiv remaining G / subExecLeft * G).

(** The count as the specification words it,
    [min(remaining, ceil(remaining/G/subExecLeft)*G)]: with the quotient
    taken exactly before rounding up, ... *)
Definition specCount (remaining G subExecLeft : Z) : Z :=
  if subExecLeft =? 0 then 0
  else Z.min remaining (cdiv remaining (G * subExecLeft) * G).

(** ... and with [remaining/G] an integer division, rounded up after the
    division by [subExecLeft]. *)
Definition specCount' (remaining G subExecLeft : Z) : Z :=
  if subExecLeft =? 0 then 0
  else Z.min remaining (cdiv (remaining / G) subExecLeft * G).

End PartitionerSpec.

Module ReferenceSpec.
Import Reference.

(** Element [i] of the elementwise sum of the sequences [refs], added up
    in their order. *)
Definition sumAt {ops : FloatOps} (refs : list (list float32)) (i : nat) : float32 :=
  match refs with
  | [] => 0
  | r0 :: rest => fold_left (fun acc r => f32_add acc (nth i r 0)) rest (nth i r0 0)
  end.

Definition elementwiseSum {ops : FloatOps} (n : nat) (refs : list (list float32))
  : list float32 :=
  map (sumAt refs) (seq 0 n).

(** The reference sequences of the sources of [t], source 0 first. *)
Definition sourceReferences {ops : FloatOps} (ev : EnvVars) (t : Transfer) (n : nat)
  : list (list float32) :=
  map (fun s => PrepareReference ev t n (Z.of_nat s)) (seq 0 (Z.to_nat (numSrcs t))).

(** Element [i] of the pattern of source [s]. *)
Definition sourceValue {ops : FloatOps} (ev : EnvVars) (s : Z) (i : nat) : float32 :=
  if 0 <? Z.of_nat (length (fillPattern ev))
  then nth (i mod length (fillPattern ev))%nat (fillPattern ev) 0
  else PrepSrcValue s (Z.of_nat i).

(** A [float] as a number of binary32, and back (every NaN becomes the
    quiet NaN [0x7FC00000]). *)
Definition binary32_of_bits (x : float32) : spec_float :=
  let s := Z.odd (x / 2 ^ 31) in
  let e := x / 2 ^ 23 mod 256 in
  let m := x mod 2 ^ 23 in
  if e =? 0 then (if m =? 0 then S754_zero s else S754_finite s (Z.to_pos m) (-149))
  else if e =? 255 then (if m =? 0 then S754_infinity s else S754_nan)
  else S754_finite s (Z.to_pos (m + 2 ^ 23)) (e - 150).

Definition bits_of_binary32 (f : spec_float) : float32 :=
  match f with
  | S754_zero s => if s then 2 ^ 31 else 0
  | S754_infinity s => (if s then 2 ^ 31 else 0) + 0x7F800000
  | S754_nan => 0x7FC00000
  | S754_finite s m e =>
      (if s then 2 ^ 31 else 0) +
      (if Z.pos m <? 2 ^ 23 then Z.pos m else (e + 150) * 2 ^ 23 + (Z.pos m - 2 ^ 23))
  end.

(** Floats to evaluate with: the addition of binary32, rounding to
    nearest even, and a pattern of small whole numbers that differs from
    source to source. *)
Definition binary32Ops : FloatOps :=
  {| f32_add a b :=
       bits_of_binary32 (SFadd 24 128 (binary32_of_bits a) (binary32_of_bits b));
     PrepSrcValue srcBufferIdx idx :=
       bits_of_binary32
         (binary_normalize 24 128 ((idx mod 383 + 31) * (srcBufferIdx + 1)) 0 false) |}.

(** A transfer with [nSrc] sources and [nDst] destinations on GPU 0,
    whose buffers lie 1000 floats apart. *)
Definition sampleTransfer (nSrc nDst bytes : Z) : Transfer :=
  mkTransfer 0 EXE_GPU_GFX 0 2 0 bytes nSrc nDst
    (repeat MEM_GPU (Z.to_nat nSrc)) (repeat 0 (Z.to_nat nSrc))
    (repeat MEM_GPU (Z.to_nat nDst)) (repeat 0 (Z.to_nat nDst))
    (map (fun k => 1000 * Z.of_nat k) (seq 1 (Z.to_nat nSrc)))
    (map (fun k => 100000 + 1000 * Z.of_nat k) (seq 1 (Z.to_nat nDst)))
    [] 0 [] 0%float [] [].

Definition sampleEnv (continue : bool) : EnvVars :=
  mkEnvVars 0 256 false [] [] continue false false 0
            false false 0 1 1 1 2 false [].

End ReferenceSpec.

Module ValidatorSpec.
Import Validator.

(** The first index at which [reference] and [output] differ. *)
Fixpoint firstMismatch (reference output : list float32) : option nat :=
  match reference, output with
  | e :: reference', a :: output' =>
      if f32_ne e a then Some O else option_map S (firstMismatch reference' output')
  | _, _ => None
  end.

Section WithFloats.
Context {ops : FloatOps}.
Variables (ev : EnvVars) (t : Transfer) (mem : Z -> float32).

Definition elements : nat := Z.to_nat (numBytesActual t / sizeof_float).

Definition expected : list float32 := Reference.PrepareReference ev t elements (-1).

(** The reports of destination [dstIdx]: one, at its first mismatch. *)
Definition reportsOf (dstIdx : nat) : list Report :=
  match firstMismatch expected (outputOf ev t mem elements dstIdx) with
  | Some k => [report ev t mem dstIdx k (nth k expected 0)
                      (nth k (outputOf ev t mem elements dstIdx) 0)]
  | None => []
  end.

(** The comparisons of destination [dstIdx]: up to its first mismatch. *)
Definition comparisonsOf (dstIdx : nat) : list (nat * nat) :=
  match firstMismatch expected (outputOf ev t mem elements dstIdx) with
  | Some k => map (pair dstIdx) (seq 0 (S k))
  | None => map (pair dstIdx) (seq 0 elements)
  end.

End WithFloats.

(** Memory in which every float is wrong: no pattern has the value 1. *)
Definition wrongMemory : Z -> float32 := fun _ => 0x3F800000.

End ValidatorSpec.

Module DispatcherSpec.
Import Dispatcher Orchestrator.

(** The timing state of a transfer, and of an executor with its
    transfers. *)
Definition transferTiming (t : Transfer) : double * list double * list (list (Z * Z)) :=
  (transferTime t, perIterationTime t, perIterationCUs t).

Definition timingOf (e : ExecutorInfo)
  : double * list (double * list double * list (list (Z * Z))) :=
  (totalTime e, map transferTiming (transfers e)).

(** A machine on which every call succeeds; devices keep their index. *)
Definition sampleRuntime : Runtime :=
  {| nvcc := false;
     hipSuccess := fun _ => true;
     hipAllocated := fun _ => 4096;
     gcnArch := 942;
     numa_alloc_onnode := fun _ _ => 8192;
     numa_run_on_node := fun _ => 0;
     canAccessPeer := fun _ _ => true;
     peerAccessEnabled := fun _ _ => true;
     RemappedIndex := fun i _ => i;
     getpagesize := 4096;
     move_pages := fun _ numPages => (0, repeat 0 (Z.to_nat numPages)) |}.

(** One transfer of each kind of executor, of 1024 bytes. *)
Definition sampleTransferOn (exe : ExeType) : Transfer :=
  mkTransfer 0 exe 0 2 0 1024 1 1 [MEM_GPU] [0] [MEM_GPU] [0]
             [1000] [5000] [] 0 [0; 1] 0%float [] [].

Definition sampleExecutor (exe : ExeType) : ExecutorInfo :=
  mkExecutorInfo (exe, 0) [sampleTransferOn exe] 2 1024 0%float [nullParam; nullParam].

Definition sampleMeasured : Measured :=
  mkMeasured 2%float 3%float
    [SubExecParam.stamp nullParam 100 900 0 0; SubExecParam.stamp nullParam 150 950 256 0].

Definition sampleIteration : IterationMeasure :=
  mkIterationMeasure 1%float (fun _ _ => sampleMeasured) (fun _ => 0).

(** A configuration with one warmup and two timed iterations. *)
Definition sampleEnv (singleStream showIter : bool) : EnvVars :=
  mkEnvVars 0 256 false [] [] false false singleStream 0
            showIter false 1 2 1 1 2 false [100].

Definition sampleState : LoopState :=
  mkLoopState [sampleExecutor EXE_GPU_GFX; sampleExecutor EXE_GPU_DMA; sampleExecutor EXE_CPU]
              0%float 0.

End DispatcherSpec.

Module BlockOrderSpec.
Import Dispatcher BlockOrder.

(** The units at the positions a transfer has recorded in [subExecIdx],
    in the array [gpu] uploaded to the device. *)
Definition unitsAt (gpu : list SubExecParam.t) (t : Transfer) : list SubExecParam.t :=
  map (fun i => nth (Z.to_nat i) gpu nullParam) (subExecIdx t).

(** Two units are the same when they cover the same floats of the same
    buffers. *)
Definition sameUnit (p q : SubExecParam.t) : bool :=
  (SubExecParam.N p =? SubExecParam.N q)
  && (if list_eq_dec Z.eq_dec (SubExecParam.src p) (SubExecParam.src q) then true else false)
  && (if list_eq_dec Z.eq_dec (SubExecParam.dst p) (SubExecParam.dst q) then true else false).

(** Every recorded position holds a unit of the transfer itself, and
    there are as many positions as units. *)
Definition indexesOwnUnits (gpu : list SubExecParam.t) (t : Transfer) : bool :=
  forallb (fun p => existsb (sameUnit p) (subExecParam t)) (unitsAt gpu t)
  && (length (subExecIdx t) =? length (subExecParam t))%nat.

(** The transfers are as [PrepareSubExecParams] leaves them, none of
    their positions recorded yet, and the executor counts their units. *)
Definition prepared (t : Transfer) : Prop :=
  0 <= numSubExecs t /\ length (subExecParam t) = Z.to_nat (numSubExecs t).

Definition fresh (t : Transfer) : Prop := subExecIdx t = [].

Definition countsUnits (exeInfo : ExecutorInfo) : Prop :=
  totalSubExecs exeInfo = fold_right Z.add 0 (map numSubExecs (transfers exeInfo)) /\
  totalSubExecs exeInfo < 2 ^ 31.

(** Unit [k] of transfer [j], as a pair [(j, k)]. *)
Definition unitOf (ts : list Transfer) (p : nat * nat) : SubExecParam.t :=
  nth (snd p) (subExecParam (nth (fst p) ts nullTransfer)) nullParam.

(** The positions at which the pairs of [L] that belong to transfer [j]
    are pushed, the first pair of [L] being pushed at position [p]. *)
Fixpoint positionsFrom (p j : nat) (L : list (nat * nat)) : list Z :=
  match L with
  | [] => []
  | x :: L' => (if (fst x =? j)%nat then [Z.of_nat p] else [])
               ++ positionsFrom (S p) j L'
  end.

(** The pairs the interleaved order pushes in round [k], and in the
    rounds before round [K]. *)
Definition roundPairs (ts : list Transfer) (k : nat) : list (nat * nat) :=
  map (fun j => (j, k))
      (filter (fun j => Z.of_nat k <? numSubExecs (nth j ts nullTransfer))
              (seq 0 (length ts))).

Definition rounds (ts : list Transfer) (K : nat) : list (nat * nat) :=
  flat_map (roundPairs ts) (seq 0 K).

(** The units round [K] and the rounds after it have yet to push. *)
Definition remaining (ts : list Transfer) (K : nat) : Z :=
  fold_right Z.add 0 (map (fun t => Z.max 0 (numSubExecs t - Z.of_nat K)) ts).

(** [ts'] are the transfers [ts] with other positions recorded. *)
Definition sameShape (ts ts' : list Transfer) : Prop :=
  length ts' = length ts /\
  forall j, numSubExecs (nth j ts' nullTransfer) = numSubExecs (nth j ts nullTransfer) /\
            subExecParam (nth j ts' nullTransfer) = subExecParam (nth j ts nullTransfer).

(** Two transfers of 2 sub-executors each on the kernel executor 0,
    with buffers of their own; 256 floats each. *)
Definition transferA : Transfer :=
  mkTransfer 0 EXE_GPU_GFX 0 2 0 1024 1 1 [MEM_GPU] [0] [MEM_GPU] [1]
             [10000] [20000] [] 0 [] 0%float [] [].

Definition transferB : Transfer :=
  mkTransfer 1 EXE_GPU_GFX 0 2 0 1024 1 1 [MEM_GPU] [1] [MEM_GPU] [0]
             [30000] [40000] [] 0 [] 0%float [] [].

Definition groupAB : ExecutorInfo :=
  mkExecutorInfo (EXE_GPU_GFX, 0) [transferA; transferB] 4 0 0%float
                 [nullParam; nullParam; nullParam; nullParam].

Definition orderEnv (order : Z) : EnvVars :=
  mkEnvVars 0 256 false [] [] false false true order
            false false 1 2 1 1 2 false [100].

(** Two calls of [ExecuteTransfers] on the same transfers, as [main]
    makes them when it goes through a range of sizes: the executor's
    group is built, prepared and released, twice; the generator shuffles
    by [shuffle1], then by [shuffle2]. *)
Definition twoRuns {rt : Runtime} (ev : EnvVars)
    (shuffle1 shuffle2 : list (nat * nat) -> list (nat * nat)) (exeInfo : ExecutorInfo)
  : option (outcome ExecutorInfo) :=
  match prepareExecutor ev shuffle1 8 exeInfo with
  | Some (Ret run1) => prepareExecutor ev shuffle2 8 (releaseExecutor run1)
  | other => other
  end.

Definition returned {A : Type} (r : option (outcome A)) : option A :=
  match r with
  | Some (Ret a) => Some a
  | _ => None
  end.

End BlockOrderSpec.

Module ParserSpec.
Import Scan Parser.

(** The letters of the memory kinds and of the executors, to evaluate
    with: C, G, B, F, U and N for pinned host, device, fine-grained
    host, fine-grained device, unpinned host and no memory; C, G and D
    for the host, the kernel and the DMA executor. *)
Definition letterTables : CharTables :=
  {| MemTypeStr := "CGBFUN";
     ExeTypeStr := "CGD";
     CharToMemType c :=
       match toupper c with
       | "C"%char => Ret MEM_CPU
       | "G"%char => Ret MEM_GPU
       | "B"%char => Ret MEM_CPU_FINE
       | "F"%char => Ret MEM_GPU_FINE
       | "U"%char => Ret MEM_CPU_UNPINNED
       | "N"%char => Ret MEM_NULL
       | _ => Exit 1 (ErrUnexpectedTypeChar c)
       end;
     CharToExeType c :=
       match toupper c with
       | "C"%char => Ret EXE_CPU
       | "G"%char => Ret EXE_GPU_GFX
       | "D"%char => Ret EXE_GPU_DMA
       | _ => Exit 1 (ErrUnexpectedTypeChar c)
       end |}.

(** A DMA transfer has at most one source and one destination. *)
Definition dmaSingle (t : Transfer) : Prop :=
  exeType t = EXE_GPU_DMA -> numSrcs t <= 1 /\ numDsts t <= 1.

(** What is asked of [AllocateMemory] for the sources and destinations
    of a transfer: the kind, the index and the bytes of every buffer. *)
Definition allocationRequests {rt : Runtime} (ev : EnvVars) (N : Z) (t : Transfer)
  : list (MemType * Z * Z) :=
  map (fun e => (fst e, RemappedIndex (snd e) (IsCpuType (fst e)),
                 to_size_t (Setup.bytesActual N t + byteOffset ev)))
      (firstn (Z.to_nat (numSrcs t)) (combine (srcType t) (srcIndex t))
       ++ firstn (Z.to_nat (numDsts t)) (combine (dstType t) (dstIndex t))).

(** An engine that runs nothing. *)
Definition idleEngine : Z -> Z -> list Transfer -> outcome (list Transfer) :=
  fun _ _ transfers => Ret transfers.

End ParserSpec.

From Stdlib Require Import Sorted.

(** ** More vocabulary: the partitioner's blocks *)

Module BalanceSpec.
Import PartitionerSpec.

(** While sub-executors are left ([i < M]), what has been given out
    ([a] floats) is a whole number of blocks of [G] floats. *)
Definition onBlock (G M i a : Z) : Prop := i < M -> a mod G = 0.

(** The blocks left are shared evenly: between [q] and [Q] for each
    sub-executor left, where [q] and [Q] are the blocks of the transfer
    divided by the sub-executors in use, rounded down and up. *)
Definition evenly (N G M i a : Z) : Prop :=
  i < M ->
  cdiv N G / M * (M - i) <= cdiv (N - a) G <= cdiv (cdiv N G) M * (M - i).

End BalanceSpec.

(** ** More vocabulary: what the parser lets through *)

Module ParsedSpec.

(** The kinds and indices of one side of a transfer: as many indices as
    kinds, no kind is [MEM_NULL], and every index is one of a device of
    its kind. *)
Definition endpointOk (numCpus numGpus : Z) (e : MemType * Z) : Prop :=
  fst e <> MEM_NULL /\
  (IsCpuType (fst e) = true -> 0 <= snd e < numCpus) /\
  (IsGpuType (fst e) = true -> 0 <= snd e < numGpus).

Definition endpointsOk (numCpus numGpus : Z) (types : list MemType) (indices : list Z)
  : Prop :=
  length types = length indices /\
  Forall (endpointOk numCpus numGpus) (combine types indices).

(** The executor is a device that exists. *)
Definition executorOk (numCpus numGpus : Z) (exe : ExeType * Z) : Prop :=
  match fst exe with
  | EXE_CPU => 0 <= snd exe < numCpus
  | EXE_GPU_GFX | EXE_GPU_DMA => 0 <= snd exe < numGpus
  end.

(** Nothing of a run is in the transfer yet. *)
Definition untouched (t : Transfer) : Prop :=
  srcMem t = [] /\ dstMem t = [] /\ subExecParam t = [] /\ subExecIdx t = [] /\
  perIterationTime t = [] /\ perIterationCUs t = [].

(** A transfer as the parser leaves it. *)
Definition wellFormed (numCpus numGpus : Z) (t : Transfer) : Prop :=
  endpointsOk numCpus numGpus (srcType t) (srcIndex t) /\
  endpointsOk numCpus numGpus (dstType t) (dstIndex t) /\
  (srcType t <> [] \/ dstType t <> []) /\
  executorOk numCpus numGpus (exeType t, exeIndex t) /\
  numSrcs t = to_int (Z.of_nat (length (srcType t))) /\
  numDsts t = to_int (Z.of_nat (length (dstType t))) /\
  - 2 ^ 31 <= numSubExecs t < 2 ^ 31 /\
  0 <= numBytes t < 2 ^ 64 /\
  untouched t.

(** The first number of a line, and in simple mode the second. *)
Definition firstInt (line : string) : option Z :=
  option_map fst (Scan.read_int (Parser.blankBrackets line)).

Definition secondInt (line : string) : option Z :=
  match Scan.read_int (Parser.blankBrackets line) with
  | Some (_, rest) => option_map fst (Scan.read_int rest)
  | None => None
  end.

End ParsedSpec.

(** ** Writing transfers out: [Transfer::SrcToStr], [Transfer::DstToStr],
       [LogTransfers] *)

Module Printer.

(** What [printf] writes for [%lu] and for [%d], and [operator<<] for
    an [int]: the decimal digits, most significant first, after a [-]
    when the number is negative.  A number of 64 bits has at most 20
    digits. *)
Definition digitChar (d : Z) : ascii := ascii_of_nat (48 + Z.to_nat d).

Fixpoint decimalFrom (fuel : nat) (n : Z) (tail : string) : string :=
  match fuel with
  | O => tail
  | S fuel' =>
      let tail' := String (digitChar (n mod 10)) tail in
      if n <? 10 then tail' else decimalFrom fuel' (n / 10) tail'
  end.

Definition decimal_lu (n : Z) : string := decimalFrom 20 n EmptyString.

Definition decimal_d (n : Z) : string :=
  if n <? 0 then String "-"%char (decimalFrom 20 (- n) EmptyString)
  else decimalFrom 20 n EmptyString.

(** The strings written one after the other. *)
Definition concatAll (l : list string) : string := fold_right String.append EmptyString l.

Section WithLetters.
(** [MemTypeStr[memType]] and [ExeTypeStr[exeType]]: the letter of a
    kind in the header's tables. *)
Variable memTypeLetter : MemType -> ascii.
Variable exeTypeLetter : ExeType -> ascii.

(** [ss << MemTypeStr[type[i]] << index[i]] for the first [n] endpoints. *)
Definition endpointsToStr (n : Z) (types : list MemType) (indices : list Z) : string :=
  concatAll
    (map (fun e => String (memTypeLetter (fst e)) (decimal_d (snd e)))
         (firstn (Z.to_nat n) (combine types indices))).

(** [Transfer::SrcToStr] and [Transfer::DstToStr]. *)
Definition SrcToStr (t : Transfer) : string :=
  if numSrcs t =? 0 then "N"%string
  else endpointsToStr (numSrcs t) (srcType t) (srcIndex t).

Definition DstToStr (t : Transfer) : string :=
  if numDsts t =? 0 then "N"%string
  else endpointsToStr (numDsts t) (dstType t) (dstIndex t).

(** One transfer in the line [LogTransfers] writes:
    [" (%c%d->%c%d->%c%d %d %lu)"]. *)
Definition logEntry (t : Transfer) : string :=
  (" (" ++ String (memTypeLetter (nth 0 (srcType t) MEM_NULL))
                  (decimal_d (nth 0 (srcIndex t) 0))
   ++ "->" ++ String (exeTypeLetter (exeType t)) (decimal_d (exeIndex t))
   ++ "->" ++ String (memTypeLetter (nth 0 (dstType t) MEM_NULL))
                     (decimal_d (nth 0 (dstIndex t) 0))
   ++ " " ++ decimal_d (numSubExecs t)
   ++ " " ++ decimal_lu (numBytes t) ++ ")")%string.

Definition newline : string := String (ascii_of_nat 10) EmptyString.

(** [LogTransfers]: the two lines it writes to the file. *)
Definition LogTransfers (testNum : Z) (transfers : list Transfer) : list string :=
  [("# Test " ++ decimal_d testNum ++ newline)%string;
   (decimal_d (to_int (- 1 * to_int (Z.of_nat (length transfers))))
    ++ concatAll (map logEntry transfers) ++ newline)%string].

End WithLetters.
End Printer.

Module PrinterSpec.
Import Printer.

(** Every character of a string passes a test. *)
Fixpoint allb (f : ascii -> bool) (s : string) : bool :=
  match s with
  | EmptyString => true
  | String c r => f c && allb f r
  end.

(** The string is empty or starts with a character that is no digit:
    a number in front of it ends there. *)
Definition stops (s : string) : Prop :=
  match s with
  | EmptyString => True
  | String c _ => Scan.isdigit c = false
  end.

(** The string is empty or starts with white space: a word in front of
    it ends there. *)
Definition breaks (s : string) : Prop :=
  match s with
  | EmptyString => True
  | String c _ => Scan.isspace c = true
  end.

(** A letter of the alphabet. *)
Definition isalpha (c : ascii) : bool :=
  let n := nat_of_ascii c in
  (((65 <=? n) && (n <=? 90)) || ((97 <=? n) && (n <=? 122)))%nat.

(** A character of a token: a letter or a digit. *)
Definition tokenChar (c : ascii) : bool := isalpha c || Scan.isdigit c.

(** The tables of letters agree: every kind has a letter, and the
    letter is read back as the kind. *)
Definition lettersAgree {tables : CharTables}
    (memTypeLetter : MemType -> ascii) (exeTypeLetter : ExeType -> ascii) : Prop :=
  (forall m, isalpha (memTypeLetter m) = true /\ CharToMemType (memTypeLetter m) = Ret m) /\
  (forall e, isalpha (exeTypeLetter e) = true /\ CharToExeType (exeTypeLetter e) = Ret e).

(** The letters that go with [ParserSpec.letterTables]. *)
Definition sampleMemLetter (m : MemType) : ascii :=
  match m with
  | MEM_CPU => "C" | MEM_GPU => "G" | MEM_CPU_FINE => "B"
  | MEM_GPU_FINE => "F" | MEM_CPU_UNPINNED => "U" | MEM_NULL => "N"
  end%char.

Definition sampleExeLetter (e : ExeType) : ascii :=
  match e with EXE_CPU => "C" | EXE_GPU_GFX => "G" | EXE_GPU_DMA => "D" end%char.

(** A transfer as the sweep makes them, with one source and one
    destination. *)
Definition single (numCpus numGpus : Z) (t : Transfer) : Prop :=
  exists sty sidx dty didx,
    srcType t = [sty] /\ srcIndex t = [sidx] /\ dstType t = [dty] /\ dstIndex t = [didx] /\
    ParsedSpec.endpointOk numCpus numGpus (sty, sidx) /\
    ParsedSpec.endpointOk numCpus numGpus (dty, didx) /\
    ParsedSpec.executorOk numCpus numGpus (exeType t, exeIndex t) /\
    0 <= numSubExecs t < 2 ^ 31 /\ 0 <= numBytes t < 2 ^ 64.

(** What the parser makes of a transfer: its description, and nothing
    of a run. *)
Definition described (t : Transfer) : Transfer :=
  mkTransfer 0 (exeType t) (exeIndex t) (numSubExecs t) (numBytes t) 0
             (to_int (Z.of_nat (length (srcType t)))) (to_int (Z.of_nat (length (dstType t))))
             (srcType t) (srcIndex t) (dstType t) (dstIndex t)
             [] [] [] 0 [] 0%float [] [].

(** Two transfers to write out: GPU 0 to CPU 1 by the kernel executor
    of GPU 0, and GPU 1 to GPU 0 by the DMA executor of GPU 1. *)
Definition sampleLogged : list Transfer :=
  [mkTransfer 0 EXE_GPU_GFX 0 4 1024 0 1 1 [MEM_GPU] [0] [MEM_CPU] [1]
              [] [] [] 0 [] 0%float [] [];
   mkTransfer 0 EXE_GPU_DMA 1 1 0 0 1 1 [MEM_GPU] [1] [MEM_GPU] [0]
              [] [] [] 0 [] 0%float [] []].

(** A transfer with two sources and no destination. *)
Definition sampleTwoSources : Transfer :=
  mkTransfer 0 EXE_GPU_GFX 0 4 0 0 2 0 [MEM_GPU; MEM_CPU_FINE] [1; 0] [] []
             [] [] [] 0 [] 0%float [] [].

End PrinterSpec.

(** ** More vocabulary: a validation that passes *)

Module CleanSpec.
Import Validator ValidatorSpec.

Section WithFloats.
Context {ops : FloatOps}.
Variables (ev : EnvVars) (t : Transfer) (mem : Z -> float32).

(** Destination [dstIdx] holds the expected value in every element. *)
Definition matchesAt (dstIdx : nat) : bool :=
  forallb (fun i => negb (f32_ne (nth i (expected ev t) 0)
                                 (nth i (outputOf ev t mem (elements t) dstIdx) 0)))
          (seq 0 (elements t)).

(** Every destination does. *)
Definition allMatch : bool :=
  forallb matchesAt (seq 0 (Z.to_nat (numDsts t))).

(** All the comparisons there are: every element of every destination. *)
Definition allComparisons : list (nat * nat) :=
  flat_map (fun dstIdx => map (pair dstIdx) (seq 0 (elements t)))
           (seq 0 (Z.to_nat (numDsts t))).

End WithFloats.

(** Memory that holds the pattern of source 0 in every buffer of
    [ReferenceSpec.sampleTransfer], whose buffers lie 1000 floats
    apart. *)
Definition rightMemory : Z -> float32 :=
  fun a => @PrepSrcValue ReferenceSpec.binary32Ops 0 (a mod 1000).

End CleanSpec.

(** ** More vocabulary: the samples of the iterations *)

Module SamplesSpec.


(** The number of time samples of a transfer. *)
Definition samples (t : Transfer) : nat := length (perIterationTime t).



End SamplesSpec.

(** ** A sample executor with its transfers prepared *)

Module MergeSpec.
Import BlockOrderSpec.

(** [groupAB], the sub-executors of its two transfers prepared. *)
Definition preparedAB : ExecutorInfo :=
  mkExecutorInfo (EXE_GPU_GFX, 0)
    (map (fun t => match Partitioner.PrepareSubExecParams (orderEnv ORDER_RANDOM) t with
                   | Some t' => t'
                   | None => t
                   end) [transferA; transferB])
    4 0 0%float
    [Dispatcher.nullParam; Dispatcher.nullParam; Dispatcher.nullParam; Dispatcher.nullParam].

End MergeSpec.

(** ** The map of the executors: the start of [ExecuteTransfers] *)

Module Grouping.

Definition set_transferIndex (t : Transfer) (i : Z) : Transfer :=
  mkTransfer i (exeType t) (exeIndex t) (numSubExecs t)
    (numBytes t) (numBytesActual t) (numSrcs t) (numDsts t)
    (srcType t) (srcIndex t) (dstType t) (dstIndex t) (srcMem t) (dstMem t)
    (subExecParam t) (subExecParamGpuPtr t) (subExecIdx t)
    (transferTime t) (perIterationTime t) (perIterationCUs t).

Section WithRank.
(** The value of an enumerator of [ExeType], which orders the keys of
    the map; the enumeration is in the header. *)
Variable rank : ExeType -> Z.

(** [operator<] on [Executor], a pair of a kind and an index. *)
Definition executor_ltb (a b : ExeType * Z) : bool :=
  (rank (fst a) <? rank (fst b))
  || ((rank (fst a) =? rank (fst b)) && (snd a <? snd b)).

(** [transferMap[executor].transfers.push_back(&transfer)]: the map is
    kept as the list of its values in the order of their keys; a key
    that is not there yet gets a value with nothing in it. *)
Fixpoint addTransfer (key : ExeType * Z) (t : Transfer) (m : list ExecutorInfo)
  : list ExecutorInfo :=
  match m with
  | [] => [mkExecutorInfo key [t] 0 0 0%float []]
  | e :: m' =>
      if executor_ltb key (executor e)
      then mkExecutorInfo key [t] 0 0 0%float [] :: m
      else if executor_ltb (executor e) key
      then e :: addTransfer key t m'
      else Dispatcher.set_transfers e (transfers e ++ [t]) :: m'
  end.

(** The loop over the transfers, from transfer [i] on (lines 226-234):
    the transfers with their index set, and the map. *)
Fixpoint mapTransfers (i : Z) (ts : list Transfer) (m : list ExecutorInfo)
  : list Transfer * list ExecutorInfo :=
  match ts with
  | [] => ([], m)
  | t :: ts' =>
      let t' := set_transferIndex t i in
      let r := mapTransfers (to_int (i + 1)) ts'
                 (addTransfer (exeType t', exeIndex t') t' m) in
      (t' :: fst r, snd r)
  end.

End WithRank.
End Grouping.

Module GroupingSpec.
Import Grouping.

(** The transfers of [e] are those of its executor, of kind and index,
    and there is one at least. *)
Definition keyed (e : ExecutorInfo) : Prop :=
  transfers e <> [] /\
  Forall (fun t => (exeType t, exeIndex t) = executor e) (transfers e).

(** The transfers of [e] are in the order of their indices. *)
Definition inOrder (e : ExecutorInfo) : Prop :=
  StronglySorted Z.lt (map transferIndex (transfers e)).

(** The enumerators in the order this file lists them. *)
Definition sampleRank (e : ExeType) : Z :=
  match e with EXE_CPU => 0 | EXE_GPU_GFX => 1 | EXE_GPU_DMA => 2 end.

End GroupingSpec.

(** ** A configuration that runs for a time *)

Module BudgetSpec.

(** One warmup iteration, then timed iterations until more than 1
    second has gone. *)
Definition budgetEnv : EnvVars :=
  mkEnvVars 0 256 false [] [] false false false 0
            false false 1 (- 1) 1 1 2 false [100].

End BudgetSpec.

(** ** Filling the sources: [Transfer::PrepareSrc] *)

Module SourcePrep.
Import Validator.

(** How a source buffer is filled: with a copy of its reference
    ([memcpy] on the host, [hipMemcpy] on a device), or on the device by
    [PrepSrcDataKernel], which is in the header. *)
Inductive Fill : Type :=
| FillByCopy (srcIdx : nat) (srcPtr : Z) (data : list float32)
| FillByKernel (srcIdx : nat) (srcPtr : Z) (N : nat).

(** A mismatch as it is printed: the source, the index, the value
    found and the value expected. *)
Record SrcReport : Type := mkSrcReport
  { sSrcIdx : nat;
    sIndex : nat;
    sFound : float32;
    sExpected : float32 }.

(** A run of [PrepareSrc]: the buffers filled, the reports printed, and
    what it returns, unless it ends the process. *)
Record SrcRun : Type := mkSrcRun
  { filled : list Fill;
    srcReports : list SrcReport;
    srcResult : outcome bool }.

Section WithFloats.
Context {ops : FloatOps}.
Variable ev : EnvVars.
(** [ev.usePrepSrcKernel], a field this file has no other use for. *)
Variable usePrepSrcKernel : bool.
Variable t : Transfer.
(** The memory as the check reads it back, in place or through a copy. *)
Variable mem : Z -> float32.

Definition srcPtrOf (srcIdx : nat) : Z :=
  nth srcIdx (srcMem t) 0 + initOffsetOf ev.

(** What is written into source [srcIdx]. *)
Definition fillOf (n srcIdx : nat) : list Fill :=
  let kind := nth srcIdx (srcType t) MEM_NULL in
  if IsGpuType kind
  then [if usePrepSrcKernel then FillByKernel srcIdx (srcPtrOf srcIdx) n
        else FillByCopy srcIdx (srcPtrOf srcIdx)
                        (Reference.PrepareReference ev t n (Z.of_nat srcIdx))]
  else if IsCpuType kind
  then [FillByCopy srcIdx (srcPtrOf srcIdx)
                   (Reference.PrepareReference ev t n (Z.of_nat srcIdx))]
  else [].

(** What the check of source [srcIdx] reads. *)
Definition srcCopyOf (n srcIdx : nat) : list float32 :=
  map (fun i => mem (srcPtrOf srcIdx + Z.of_nat i)) (seq 0 n).

(** The loop over the elements of one source, from element [i] on: the
    first mismatch, if there is one. *)
Fixpoint checkFrom (srcIdx i : nat) (todo : list (float32 * float32)) : option SrcReport :=
  match todo with
  | [] => None
  | (expected, found) :: todo' =>
      if f32_ne expected found then Some (mkSrcReport srcIdx i found expected)
      else checkFrom srcIdx (S i) todo'
  end.

(** The loop over the sources. *)
Fixpoint prepareFrom (n : nat) (todo : list nat) : SrcRun :=
  match todo with
  | [] => mkSrcRun [] [] (Ret true)
  | srcIdx :: todo' =>
      let reference := Reference.PrepareReference ev t n (Z.of_nat srcIdx) in
      match checkFrom srcIdx 0 (combine reference (srcCopyOf n srcIdx)) with
      | Some report =>
          mkSrcRun (fillOf n srcIdx) [report]
                   (if continueOnError ev then Ret false
                    else Exit 1 ErrValidationMismatch)
      | None =>
          let r := prepareFrom n todo' in
          mkSrcRun (fillOf n srcIdx ++ filled r) (srcReports r) (srcResult r)
      end
  end.

(** [Transfer::PrepareSrc], the calls to the HIP runtime succeeding. *)
Definition PrepareSrc : SrcRun :=
  if numSrcs t =? 0 then mkSrcRun [] [] (Ret true)
  else prepareFrom (Z.to_nat (numBytesActual t / sizeof_float))
                   (seq 0 (Z.to_nat (numSrcs t))).

(** Source [srcIdx] reads back as its reference, in every element. *)
Definition srcMatchesAt (srcIdx : nat) : bool :=
  let n := Z.to_nat (numBytesActual t / sizeof_float) in
  forallb (fun i => negb (f32_ne (nth i (Reference.PrepareReference ev t n (Z.of_nat srcIdx)) 0)
                                 (nth i (srcCopyOf n srcIdx) 0)))
          (seq 0 n).

(** The first source that does not, if there is one. *)
Definition firstBadSource : option nat :=
  find (fun s => negb (srcMatchesAt s)) (seq 0 (Z.to_nat (numSrcs t))).

End WithFloats.
End SourcePrep.

(** ** Peer access between all the GPUs: the start of the presets *)

Module Peers.
Section WithRuntime.
Context {rt : Runtime}.

(** The loop over [j], for one [i]. *)
Fixpoint enableRow (i : Z) (js : list Z) : outcome unit :=
  match js with
  | [] => Ret tt
  | j :: js' =>
      (if negb (i =? j) then Setup.EnablePeerAccess i j else Ret tt) ;;;
      enableRow i js'
  end.

(** The loop over [i]. *)
Fixpoint enableRows (is_ js : list Z) : outcome unit :=
  match is_ with
  | [] => Ret tt
  | i :: is' => enableRow i js ;;; enableRows is' js
  end.

(** The numbers from 0 below [n], as a loop goes through them. *)
Definition upTo (n : Z) : list Z := map Z.of_nat (seq 0 (Z.to_nat n)).

(** Peer access from every GPU to every other one. *)
Definition enablePeers (numGpus : Z) : outcome unit :=
  enableRows (upTo numGpus) (upTo numGpus).

(** Every GPU has been given access to every other one. *)
Definition allPeers (numGpus : Z) : Prop :=
  forall i j, 0 <= i < numGpus -> 0 <= j < numGpus -> i <> j ->
    hipSuccess (HipDeviceCanAccessPeer i j) = true /\
    canAccessPeer i j = true /\ peerAccessEnabled i j = true.

End WithRuntime.
End Peers.

(** ** The transfers of the all-to-all preset: [RunAllToAllBenchmark] *)

Module AllToAll.

Section WithRuntime.
Context {rt : Runtime}.
(** [ev.useFineGrain], [ev.useRemoteRead] and [ev.a2aDirect], and the
    number of GPUs. *)
Variables useFineGrain useRemoteRead a2aDirect : bool.
Variable numGpus : Z.
(** [hipExtGetLinkTypeAndHopCount] between two devices: the number of
    hops, when the call succeeds. *)
Variable hopCount : Z -> Z -> option Z.
Variables numBytesPerTransfer numSubExecs_ : Z.

(** The transfer from GPU [i] to GPU [j]. *)
Definition pairTransfer (i j : Z) : Transfer :=
  let kind := if useFineGrain then MEM_GPU_FINE else MEM_GPU in
  mkTransfer 0 EXE_GPU_GFX (if useRemoteRead then j else i) numSubExecs_
             numBytesPerTransfer 0 1 1 [kind] [i] [kind] [j]
             [] [] [] 0 [] 0%float [] [].

(** The loop over [j], for one [i]. *)
Fixpoint innerLoop (i : Z) (js : list Z) (transfers : list Transfer)
  : outcome (list Transfer) :=
  match js with
  | [] => Ret transfers
  | j :: js' =>
      if a2aDirect && negb nvcc
      then
        if i =? j then innerLoop i js' transfers
        else
          match hopCount (RemappedIndex i false) (RemappedIndex j false) with
          | None => Exit 1 ErrHipCall
          | Some hops =>
              if negb (hops =? 1) then innerLoop i js' transfers
              else innerLoop i js' (transfers ++ [pairTransfer i j])
          end
      else innerLoop i js' (transfers ++ [pairTransfer i j])
  end.

(** The loop over [i]. *)
Fixpoint outerLoop (is_ : list Z) (transfers : list Transfer) : outcome (list Transfer) :=
  match is_ with
  | [] => Ret transfers
  | i :: is' =>
      transfers' <- innerLoop i (map Z.of_nat (seq 0 (Z.to_nat numGpus))) transfers ;;
      outerLoop is' transfers'
  end.

(** The transfers [RunAllToAllBenchmark] hands to [ExecuteTransfers],
    after peer access between all the GPUs. *)
Definition a2aTransfers : outcome (list Transfer) :=
  Peers.enablePeers numGpus ;;;
  outerLoop (map Z.of_nat (seq 0 (Z.to_nat numGpus))) [].

(** The pair [(i, j)] is kept: always, unless only direct links are
    asked for (off the NVIDIA platform), and then when the two devices
    differ and are one hop apart. *)
Definition kept (p : Z * Z) : bool :=
  if a2aDirect && negb nvcc
  then negb (fst p =? snd p)
       && match hopCount (RemappedIndex (fst p) false) (RemappedIndex (snd p) false) with
          | Some hops => hops =? 1
          | None => false
          end
  else true.

(** All the pairs of GPUs, row by row. *)
Definition allPairs : list (Z * Z) :=
  flat_map (fun i => map (pair i) (map Z.of_nat (seq 0 (Z.to_nat numGpus))))
           (map Z.of_nat (seq 0 (Z.to_nat numGpus))).

End WithRuntime.

(** The source and the destination of a transfer of the preset. *)
Definition endsOf (t : Transfer) : Z * Z := (nth 0 (srcIndex t) 0, nth 0 (dstIndex t) 0).

End AllToAll.

(** ** The buffers of a transfer *)

Module SetupSpec.
Section WithRuntime.
Context {rt : Runtime}.
Variable ev : EnvVars.

(** The buffer at [ptr] is the one [AllocateMemory] returned for the
    endpoint [e], of [bytes] bytes and the byte offset, on the device
    the index of [e] is remapped to; and a GPU executor that is another
    device than a GPU endpoint has been given access to it. *)
Definition placed (exeIsGpu : bool) (exeIndex_ bytes : Z) (e : MemType * Z) (ptr : Z)
  : Prop :=
  let memIndex := RemappedIndex (snd e) (IsCpuType (fst e)) in
  AllocateMemory (fst e) memIndex (to_size_t (bytes + byteOffset ev)) = Ret ptr /\
  (exeIsGpu && IsGpuType (fst e) && negb (memIndex =? exeIndex_) = true ->
   hipSuccess (HipDeviceCanAccessPeer exeIndex_ memIndex) = true /\
   canAccessPeer exeIndex_ memIndex = true /\
   peerAccessEnabled exeIndex_ memIndex = true).

(** The first [n] endpoints of one side. *)
Definition endpoints (n : Z) (types : list MemType) (indices : list Z)
  : list (MemType * Z) :=
  firstn (Z.to_nat n) (combine types indices).

(** All but the buffers and the actual byte count of a transfer. *)
Definition request (t : Transfer)
  : Z * ExeType * Z * Z * Z * (Z * Z) * (list MemType * list Z) * (list MemType * list Z) :=
  (transferIndex t, exeType t, exeIndex t, numSubExecs t, numBytes t,
   (numSrcs t, numDsts t), (srcType t, srcIndex t), (dstType t, dstIndex t)).

End WithRuntime.

(** A transfer of a GPU to the host and to another GPU. *)
Definition sampleFanOut : Transfer :=
  mkTransfer 0 EXE_GPU_GFX 0 2 0 0 1 2 [MEM_GPU] [0] [MEM_CPU; MEM_GPU_FINE] [0; 1]
             [] [] [] 0 [] 0%float [] [].

End SetupSpec.

(** ** The sizes gone through when the byte count is 0 *)

Module SweepSpec.

Section WithEngine.
Variable ExecuteTransfers : Z -> Z -> list Transfer -> outcome (list Transfer).

(** One test after the other on the sizes of a list, each with the next
    test number. *)
Fixpoint runSizes (sizes : list Z) (testNum : Z) (transfers : list Transfer)
  : outcome (Z * list Transfer) :=
  match sizes with
  | [] => Ret (testNum, transfers)
  | n :: rest =>
      transfers' <- ExecuteTransfers (to_int (testNum + 1)) n transfers ;;
      runSizes rest (to_int (testNum + 1)) transfers'
  end.

End WithEngine.

(** The sizes from [N] below [2 * N], [delta] apart. *)
Definition steps (N delta : Z) : list Z :=
  map (fun j => N + Z.of_nat j * delta) (seq 0 (Z.to_nat ((N + delta - 1) / delta))).

(** The [k]-th power of two from 256 on. *)
Definition base (k : nat) : Z := 256 * 2 ^ Z.of_nat k.

(** The sizes of the twenty ranges, from 256 to below [2 ^ 28]. *)
Definition sweepList (samplingFactor : Z) : list Z :=
  flat_map (fun k => steps (base k) (Z.max 1 (Z.quot (base k) samplingFactor))) (seq 0 20).

(** An engine that fails on one size and leaves the transfers as they
    are on the others. *)
Definition failsOn (size : Z) : Z -> Z -> list Transfer -> outcome (list Transfer) :=
  fun _ n transfers => if n =? size then Exit 1 ErrHipCall else Ret transfers.

End SweepSpec.

(** ** The tests of the peer-to-peer preset: [RunPeerToPeerBenchmarks] *)

Module PeerToPeer.
Section WithRuntime.
Context {rt : Runtime}.
Variable ev : EnvVars.
(** [ev.useFineGrain], [ev.useRemoteRead], [ev.useDmaCopy], [ev.p2pMode],
    the sub-executors of an executor of each kind and the number of
    CPUs of every NUMA node. *)
Variables useFineGrain useRemoteRead useDmaCopy : bool.
Variable p2pMode : Z.
Variables numGpuSubExecs numCpuSubExecs : Z.
Variable numCpusPerNuma : Z -> Z.
Variable N : Z.

Definition numCpus : Z := numCpuDevices ev.
Definition numGpus : Z := numGpuDevices ev.
Definition numDevices : Z := to_int (numCpus + numGpus).

(** The kind and the index of the device number [dev], the CPUs first. *)
Definition typeOf (dev : Z) : MemType := if dev <? numCpus then MEM_CPU else MEM_GPU.

Definition indexOf (dev : Z) : Z :=
  if MemType_eqb (typeOf dev) MEM_CPU then dev else to_int (dev - numCpus).

Definition actualOf (memType : MemType) : MemType :=
  if useFineGrain && MemType_eqb memType MEM_CPU then MEM_CPU_FINE
  else if useFineGrain && MemType_eqb memType MEM_GPU then MEM_GPU_FINE
  else memType.

Definition gpuExeType : ExeType := if useDmaCopy then EXE_GPU_DMA else EXE_GPU_GFX.

(** The transfer from the device [src] to the device [dst]. *)
Definition oneWay (src dst : Z) : Transfer :=
  let exeType_ :=
    if IsGpuType (if useRemoteRead then typeOf dst else typeOf src)
    then gpuExeType else EXE_CPU in
  mkTransfer 0 exeType_ (if useRemoteRead then indexOf dst else indexOf src)
             (if IsGpuType exeType_ then numGpuSubExecs else numCpuSubExecs)
             (to_size_t (N * sizeof_float)) 0 1 1
             [actualOf (typeOf src)] [indexOf src] [actualOf (typeOf dst)] [indexOf dst]
             [] [] [] 0 [] 0%float [] [].

(** [transfers]: one transfer, or one each way. *)
Definition p2pTransfers (isBidirectional : bool) (src dst : Z) : list Transfer :=
  if isBidirectional then [oneWay src dst; oneWay dst src] else [oneWay src dst].

(** The loop that looks for a reason to skip the test. *)
Fixpoint skipLoop (srcType_ dstType_ : MemType) (transfers : list Transfer) : bool :=
  match transfers with
  | [] => false
  | t :: rest =>
      if ExeType_eqb (exeType t) EXE_CPU && (numCpusPerNuma (exeIndex t) =? 0) then true
      else if nvcc && (ExeType_eqb (exeType t) EXE_CPU
                       && (IsGpuType srcType_ || IsGpuType dstType_)) then true
      else skipLoop srcType_ dstType_ rest
  end.

Definition skipTest (isBidirectional : bool) (src dst : Z) : bool :=
  let skip := skipLoop (typeOf src) (typeOf dst) (p2pTransfers isBidirectional src dst) in
  if isBidirectional && MemType_eqb (typeOf src) (typeOf dst) && (indexOf src =? indexOf dst)
  then true else skip.

(** The loop over [dst], for one [src]: the tests that are run. *)
Fixpoint dstLoop (isBidirectional : bool) (src : Z) (dsts : list Z) : list (list Transfer) :=
  match dsts with
  | [] => []
  | dst :: rest =>
      (if negb (skipTest isBidirectional src dst)
       then [p2pTransfers isBidirectional src dst] else [])
      ++ dstLoop isBidirectional src rest
  end.

(** The loop over [src]. *)
Fixpoint srcLoop (isBidirectional : bool) (srcs : list Z) : list (list Transfer) :=
  match srcs with
  | [] => []
  | src :: rest =>
      dstLoop isBidirectional src (Peers.upTo numDevices) ++ srcLoop isBidirectional rest
  end.

(** One pass: unidirectional or bidirectional. *)
Definition pass (isBidirectional : bool) : list (list Transfer) :=
  if (p2pMode =? 1) && isBidirectional || (p2pMode =? 2) && negb isBidirectional
  then []
  else srcLoop isBidirectional (Peers.upTo numDevices).

(** The tests [RunPeerToPeerBenchmarks] hands to [ExecuteTransfers], one
    after the other, after peer access between all the GPUs. *)
Definition p2pTests : outcome (list (list Transfer)) :=
  Peers.enablePeers numGpus ;;;
  Ret (pass false ++ pass true).

End WithRuntime.
End PeerToPeer.

Module PeerToPeerSpec.
Section WithRuntime.
Context {rt : Runtime}.
Variable useRemoteRead : bool.
Variable numCpusPerNuma : Z -> Z.

(** The side of a transfer its executor is on: the source, or the
    destination when reads are remote. *)
Definition home (t : Transfer) : MemType * Z :=
  if useRemoteRead then (nth 0 (dstType t) MEM_NULL, nth 0 (dstIndex t) 0)
  else (nth 0 (srcType t) MEM_NULL, nth 0 (srcIndex t) 0).

(** The executor is the device of that side. *)
Definition colocated (t : Transfer) : Prop :=
  exeIndex t = snd (home t) /\
  IsCpuType (exeType t) = IsCpuType (fst (home t)) /\
  IsGpuType (exeType t) = IsGpuType (fst (home t)).

(** One source and one destination, both devices that exist. *)
Definition oneToOne (numCpus numGpus : Z) (t : Transfer) : Prop :=
  numSrcs t = 1 /\ numDsts t = 1 /\
  (exists m i, srcType t = [m] /\ srcIndex t = [i] /\
               ParsedSpec.endpointOk numCpus numGpus (m, i)) /\
  (exists m i, dstType t = [m] /\ dstIndex t = [i] /\
               ParsedSpec.endpointOk numCpus numGpus (m, i)).

(** An executor on the host has CPUs, and on the NVIDIA platform no
    endpoint on a GPU. *)
Definition hostOk (t : Transfer) : Prop :=
  exeType t = EXE_CPU ->
  numCpusPerNuma (exeIndex t) <> 0 /\
  (nvcc = true ->
   Forall (fun m => IsGpuType m = false) (srcType t ++ dstType t)).

(** The second transfer is the first one the other way round. *)
Definition mirrored (t0 t1 : Transfer) : Prop :=
  srcType t1 = dstType t0 /\ srcIndex t1 = dstIndex t0 /\
  dstType t1 = srcType t0 /\ dstIndex t1 = srcIndex t0 /\
  numBytes t1 = numBytes t0 /\
  (srcType t0, srcIndex t0) <> (dstType t0, dstIndex t0).

(** A test: one transfer, or two that mirror each other. *)
Definition testOk (numCpus numGpus : Z) (test : list Transfer) : Prop :=
  Forall (fun t => oneToOne numCpus numGpus t /\ colocated t /\ hostOk t) test /\
  ((exists t0, test = [t0]) \/ (exists t0 t1, test = [t0; t1] /\ mirrored t0 t1)).

End WithRuntime.

(** A machine of 2 NUMA nodes, the second without CPUs, and 2 GPUs. *)
Definition sampleEnv : EnvVars :=
  mkEnvVars 0 256 false [] [] false false false 0
            false false 1 2 1 2 2 false [100].

Definition sampleCpus : Z -> Z := fun node => if node =? 0 then 8 else 0.

End PeerToPeerSpec.

(** ** The tables of [RemappedIndex] *)

Module Remap.

(** The two static tables; both are empty before the first call. *)
Record Tables : Type := mkTables
  { remappingCpu : list Z;
    remappingGpu : list Z }.

Definition noTables : Tables := mkTables [] [].

(** [operator<] on a pair of a PCIe address and a device: the
    addresses are compared first, character by character. *)
Definition pair_ltb (a b : string * Z) : bool :=
  String.ltb (fst a) (fst b) || (negb (String.ltb (fst b) (fst a)) && (snd a <? snd b)).

(** [std::sort] on these pairs.  No two pairs of the vector are the
    same, so that the sorted vector does not depend on the algorithm. *)
Fixpoint insert (x : string * Z) (l : list (string * Z)) : list (string * Z) :=
  match l with
  | [] => [x]
  | y :: l' => if pair_ltb y x then y :: insert x l' else x :: l
  end.

Fixpoint sort (l : list (string * Z)) : list (string * Z) :=
  match l with
  | [] => []
  | x :: l' => insert x (sort l')
  end.

Section WithMachine.
(** libnuma: [numa_max_node] and the bit of a node in
    [numa_get_mems_allowed]. *)
Variable numa_max_node : Z.
Variable memsAllowed : Z -> bool.
(** [hipGetDeviceCount] and [hipDeviceGetPCIBusId]: what they answer,
    when they succeed; the environment variable [USE_PCIE_INDEX]. *)
Variable hipGetDeviceCount : option Z.
Variable hipDeviceGetPCIBusId : Z -> option string.
Variable USE_PCIE_INDEX : option string.

(** The NUMA nodes that are configured, in increasing order. *)
Definition cpuTable : list Z := filter memsAllowed (Peers.upTo (numa_max_node + 1)).

(** The PCIe address of every GPU. *)
Fixpoint collect (devices : list Z) (mapping : list (string * Z))
  : outcome (list (string * Z)) :=
  match devices with
  | [] => Ret mapping
  | i :: rest =>
      match hipDeviceGetPCIBusId i with
      | None => Exit 1 ErrHipCall
      | Some pciBusId => collect rest (mapping ++ [(pciBusId, i)])
      end
  end.

(** [atoi] as the C library has it: [strtol], cut to an [int]. *)
Definition usePcieIndexing : Z :=
  match USE_PCIE_INDEX with
  | Some value => to_int (Scan.atoll value)
  | None => 0
  end.

Definition gpuTable : outcome (list Z) :=
  match hipGetDeviceCount with
  | None => Exit 1 ErrHipCall
  | Some numGpuDevices =>
      if usePcieIndexing =? 0
      then Ret (Peers.upTo numGpuDevices)
      else
        mapping <- collect (Peers.upTo numGpuDevices) [] ;;
        Ret (map snd (sort mapping))
  end.

Definition isEmpty (l : list Z) : bool := match l with [] => true | _ => false end.

(** [RemappedIndex]: the tables after the call, and the entry that is
    returned; [None] for an index outside the table. *)
Definition RemappedIndex (tables : Tables) (origIdx : Z) (isCpuType : bool)
  : outcome (Tables * option Z) :=
  let cpu := if isEmpty (remappingCpu tables) then cpuTable else remappingCpu tables in
  gpu <- (if isEmpty (remappingGpu tables) then gpuTable else Ret (remappingGpu tables)) ;;
  Ret (mkTables cpu gpu,
       if origIdx <? 0 then None
       else nth_error (if isCpuType then cpu else gpu) (Z.to_nat origIdx)).

(** Two calls, one after the other. *)
Definition twoCalls (first second : Z * bool) : outcome (Tables * option Z * option Z) :=
  r1 <- RemappedIndex noTables (fst first) (snd first) ;;
  r2 <- RemappedIndex (fst r1) (fst second) (snd second) ;;
  Ret (fst r2, snd r1, snd r2).

End WithMachine.

(** The addresses of the devices of a table, in its order. *)
Definition addressed (hipDeviceGetPCIBusId : Z -> option string) (table : list Z)
    (addresses : list string) : Prop :=
  Forall2 (fun device address => hipDeviceGetPCIBusId device = Some address)
          table addresses.

(** No address is before the one on its left. *)
Definition ascending (addresses : list string) : Prop :=
  Sorted (fun a b => String.ltb b a = false) addresses.

(** Three GPUs, the first of which has the last address. *)
Definition sampleBus (device : Z) : option string :=
  if device =? 0 then Some "0000:c1:00.0"%string
  else if device =? 1 then Some "0000:23:00.0"%string
  else Some "0000:83:00.0"%string.

End Remap.

(** ** The transfers a sweep may choose from: the start of [RunSweepPreset] *)

Module SweepPreset.

(** [TransferInfo]: a source, an executor and a destination. *)
Module TransferInfo.
Record t : Type := mk
  { srcType : MemType;
    srcIndex : Z;
    exeType : ExeType;
    exeIndex : Z;
    dstType : MemType;
    dstIndex : Z }.
End TransferInfo.

(** What a piece of the function comes to: it goes on, the process
    exits, or a vector is read outside its elements. *)
Inductive step (A : Type) : Type :=
| Next (a : A)
| Halt (code : Z) (why : error)
| OutOfRange.
Arguments Next {A} a.
Arguments Halt {A} code why.
Arguments OutOfRange {A}.

Definition andThen {A B : Type} (m : step A) (k : A -> step B) : step B :=
  match m with
  | Next a => k a
  | Halt code why => Halt code why
  | OutOfRange => OutOfRange
  end.

Definition lift {A : Type} (m : outcome A) : step A :=
  match m with
  | Ret a => Next a
  | Exit code why => Halt code why
  end.

Section WithRuntime.
Context {rt : Runtime} {tables : CharTables}.
Variable ev : EnvVars.
(** [ev.sweepExe], [ev.sweepSrc], [ev.sweepDst], [ev.sweepXgmiMin],
    [ev.sweepXgmiMax] and [ev.numCpusPerNuma]. *)
Variables sweepExe sweepSrc sweepDst : string.
Variables sweepXgmiMin sweepXgmiMax : Z.
Variable numCpusPerNuma : Z -> Z.
(** [hipExtGetLinkTypeAndHopCount]: the kind of the link and the number
    of hops between two devices, when the call succeeds; and the kind
    that is XGMI. *)
Variable linkTypeAndHopCount : Z -> Z -> option (Z * Z).
Variable HSA_AMD_LINK_INFO_TYPE_XGMI : Z.

(** The executors of the letters of [sweepExe]. *)
Fixpoint exeLoop (chars : string) (exeList : list (ExeType * Z))
  : outcome (list (ExeType * Z)) :=
  match chars with
  | EmptyString => Ret exeList
  | String exe rest =>
      exeType_ <- CharToExeType exe ;;
      exeLoop rest
        (exeList ++
         (if IsGpuType exeType_
          then map (pair exeType_) (Peers.upTo (numGpuDevices ev))
          else if IsCpuType exeType_
          then map (pair exeType_)
                   (filter (fun exeIndex_ => negb (numCpusPerNuma exeIndex_ =? 0))
                           (Peers.upTo (numCpuDevices ev)))
          else []))
  end.

(** The memories of the letters of [sweepSrc], or of [sweepDst]. *)
Fixpoint memLoop (chars : string) (memList : list (MemType * Z))
  : outcome (list (MemType * Z)) :=
  match chars with
  | EmptyString => Ret memList
  | String mem rest =>
      memType <- CharToMemType mem ;;
      let numDevices := if IsGpuType memType then numGpuDevices ev else numCpuDevices ev in
      memLoop rest (memList ++ map (pair memType) (Peers.upTo numDevices))
  end.

Definition useXgmiOnly : bool := (0 <? sweepXgmiMin) || (0 <? sweepXgmiMax).

(** The link from the executor to a memory on another GPU: whether it
    is XGMI, and the number of hops, which is left as it was when the
    link is not. *)
Definition link (exeIndex_ memIndex : Z) (numHops : Z) : outcome (bool * Z) :=
  match linkTypeAndHopCount (RemappedIndex exeIndex_ false) (RemappedIndex memIndex false) with
  | None => Exit 1 ErrHipCall
  | Some (linkType, hopCount) =>
      let isXgmi := linkType =? HSA_AMD_LINK_INFO_TYPE_XGMI in
      Ret (isXgmi, if isXgmi then to_int hopCount else numHops)
  end.

Definition triplet (exe : ExeType * Z) (src dst : MemType * Z) : TransferInfo.t :=
  TransferInfo.mk (fst src) (snd src) (fst exe) (snd exe) (fst dst) (snd dst).

(** The loop over [k], for the executor [exe] and the source number
    [j]: [isXgmiSrc] when it is left, and the possible transfers. *)
Fixpoint dstLoop (exe : ExeType * Z) (src : MemType * Z) (j : nat)
    (dstList : list (MemType * Z)) (numHopsSrc : Z) (todo : list (MemType * Z))
    (isXgmiSrc isXgmiDst : bool) (numHopsDst : Z) (possibleTransfers : list TransferInfo.t)
  : step (bool * list TransferInfo.t) :=
  match todo with
  | [] => Next (isXgmiSrc, possibleTransfers)
  | dst :: rest =>
      andThen
        (if IsGpuType (fst exe) && IsGpuType (fst dst)
         then
           if negb (snd exe =? snd dst)
           then
             if nvcc then Next (false, isXgmiDst, numHopsDst)
             else andThen (lift (link (snd exe) (snd dst) numHopsDst))
                          (fun r => Next (isXgmiSrc, fst r, snd r))
           else Next (isXgmiSrc, true, 0)
         else Next (isXgmiSrc, isXgmiDst, numHopsDst))
        (fun st =>
           let '(isXgmiSrc', isXgmiDst', numHopsDst') := st in
           if useXgmiOnly && negb isXgmiDst'
           then dstLoop exe src j dstList numHopsSrc rest isXgmiSrc' isXgmiDst' numHopsDst'
                        possibleTransfers
           else if (0 <? sweepXgmiMin) && (numHopsSrc + numHopsDst' <? sweepXgmiMin)
           then dstLoop exe src j dstList numHopsSrc rest isXgmiSrc' isXgmiDst' numHopsDst'
                        possibleTransfers
           else if (0 <=? sweepXgmiMax) && (sweepXgmiMax <? numHopsSrc + numHopsDst')
           then dstLoop exe src j dstList numHopsSrc rest isXgmiSrc' isXgmiDst' numHopsDst'
                        possibleTransfers
           else
             andThen
               (if nvcc && IsCpuType (fst exe)
                then match nth_error dstList j with
                     | Some other => Next (IsGpuType (fst other) || IsGpuType (fst dst))
                     | None => OutOfRange
                     end
                else Next false)
               (fun skip =>
                  if skip
                  then dstLoop exe src j dstList numHopsSrc rest isXgmiSrc' isXgmiDst'
                               numHopsDst' possibleTransfers
                  else dstLoop exe src j dstList numHopsSrc rest isXgmiSrc' isXgmiDst'
                               numHopsDst' (possibleTransfers ++ [triplet exe src dst])))
  end.

(** The loop over [j], for the executor [exe]. *)
Fixpoint srcLoop (exe : ExeType * Z) (dstList : list (MemType * Z)) (j : nat)
    (todo : list (MemType * Z)) (isXgmiSrc : bool) (numHopsSrc : Z)
    (possibleTransfers : list TransferInfo.t) : step (list TransferInfo.t) :=
  match todo with
  | [] => Next possibleTransfers
  | src :: rest =>
      let body (isXgmiSrc' : bool) (numHopsSrc' : Z) :=
        andThen (dstLoop exe src j dstList numHopsSrc' dstList isXgmiSrc' false 0
                         possibleTransfers)
                (fun r => srcLoop exe dstList (S j) rest (fst r) numHopsSrc' (snd r)) in
      if IsGpuType (fst exe) && IsGpuType (fst src)
      then
        andThen
          (if negb (snd exe =? snd src)
           then if nvcc then Next (false, numHopsSrc)
                else lift (link (snd exe) (snd src) numHopsSrc)
           else Next (true, 0))
          (fun st =>
             let '(isXgmiSrc', numHopsSrc') := st in
             if useXgmiOnly && negb isXgmiSrc'
             then srcLoop exe dstList (S j) rest isXgmiSrc' numHopsSrc' possibleTransfers
             else if (0 <=? sweepXgmiMax) && isXgmiSrc' && (sweepXgmiMax <? numHopsSrc')
             then srcLoop exe dstList (S j) rest isXgmiSrc' numHopsSrc' possibleTransfers
             else body isXgmiSrc' numHopsSrc')
      else if useXgmiOnly
      then srcLoop exe dstList (S j) rest isXgmiSrc numHopsSrc possibleTransfers
      else body isXgmiSrc numHopsSrc
  end.

(** The loop over [i]. *)
Fixpoint possibleLoop (srcList dstList : list (MemType * Z)) (todo : list (ExeType * Z))
    (possibleTransfers : list TransferInfo.t) : step (list TransferInfo.t) :=
  match todo with
  | [] => Next possibleTransfers
  | exe :: rest =>
      if useXgmiOnly && negb (IsGpuType (fst exe))
      then possibleLoop srcList dstList rest possibleTransfers
      else
        andThen (srcLoop exe dstList 0 srcList false 0 possibleTransfers)
                (possibleLoop srcList dstList rest)
  end.

(** The three lists. *)
Definition lists
  : outcome (list (ExeType * Z) * list (MemType * Z) * list (MemType * Z)) :=
  exeList <- exeLoop sweepExe [] ;;
  srcList <- memLoop sweepSrc [] ;;
  dstList <- memLoop sweepDst [] ;;
  Ret (exeList, srcList, dstList).

(** [possibleTransfers], as the sweep starts with it. *)
Definition possible : step (list TransferInfo.t) :=
  andThen (lift lists)
          (fun l => possibleLoop (snd (fst l)) (snd l) (fst (fst l)) []).

(** Every combination of the three lists, in the order of the loops. *)
Definition combinations (l : list (ExeType * Z) * list (MemType * Z) * list (MemType * Z))
  : list TransferInfo.t :=
  flat_map (fun exe =>
    flat_map (fun src => map (triplet exe src) (snd l)) (snd (fst l))) (fst (fst l)).

(** The executor is a device that exists, with CPUs when it is a NUMA
    node; the source and the destination are devices of their kinds. *)
Definition exists_ (info : TransferInfo.t) : Prop :=
  (if IsGpuType (TransferInfo.exeType info)
   then 0 <= TransferInfo.exeIndex info < numGpuDevices ev
   else 0 <= TransferInfo.exeIndex info < numCpuDevices ev /\
        numCpusPerNuma (TransferInfo.exeIndex info) <> 0) /\
  0 <= TransferInfo.srcIndex info
    < (if IsGpuType (TransferInfo.srcType info) then numGpuDevices ev else numCpuDevices ev) /\
  0 <= TransferInfo.dstIndex info
    < (if IsGpuType (TransferInfo.dstType info) then numGpuDevices ev else numCpuDevices ev).

End WithRuntime.

(** Every pair of devices is one XGMI hop apart. *)
Definition sampleLinks : Z -> Z -> option (Z * Z) := fun _ _ => Some (11, 1).

End SweepPreset.

(** ** Releasing the buffers: [DeallocateMemory] and the end of [ExecuteTransfers] *)

Module Release.

(** What [DeallocateMemory] does with a pointer: one of the three
    deallocators, or the message about a null pointer. *)
Inductive Released : Type :=
| HipHostFree (memPtr : Z)
| NumaFree (memPtr bytes : Z)
| HipFree (memPtr : Z)
| NullPointer (memType : MemType) (bytes : Z).

Section WithRuntime.
Context {rt : Runtime}.
Variable ev : EnvVars.
(** Whether [hipHostFree] and [hipFree] succeed on a pointer. *)
Variables hipHostFree hipFree : Z -> bool.

(** [DeallocateMemory]: what it has done when it returns. *)
Definition DeallocateMemory (memType : MemType) (memPtr bytes : Z) : outcome (list Released) :=
  if MemType_eqb memType MEM_CPU || MemType_eqb memType MEM_CPU_FINE
  then
    if memPtr =? 0 then Ret [NullPointer memType bytes]
    else if hipHostFree memPtr then Ret [HipHostFree memPtr] else Exit 1 ErrHipCall
  else if MemType_eqb memType MEM_CPU_UNPINNED
  then
    if memPtr =? 0 then Ret [NullPointer memType bytes]
    else Ret [NumaFree memPtr bytes]
  else if MemType_eqb memType MEM_GPU || MemType_eqb memType MEM_GPU_FINE
  then
    if memPtr =? 0 then Ret [NullPointer memType bytes]
    else if hipFree memPtr then Ret [HipFree memPtr] else Exit 1 ErrHipCall
  else Ret [].

(** The buffers of one side of a transfer, one after the other. *)
Fixpoint deallocateBuffers (bytes : Z) (buffers : list (MemType * Z))
  : outcome (list Released) :=
  match buffers with
  | [] => Ret []
  | (memType, memPtr) :: rest =>
      done <- DeallocateMemory memType memPtr bytes ;;
      more <- deallocateBuffers bytes rest ;;
      Ret (done ++ more)
  end.

(** The body of the loop over the transfers of an executor at
    [cleanup]: the sources, the destinations, and the parameters of the
    sub-executors are cleared. *)
Definition cleanupTransfer (t : Transfer) : outcome (list Released * Transfer) :=
  let bytes := to_size_t (numBytesActual t + byteOffset ev) in
  srcs <- deallocateBuffers bytes
            (firstn (Z.to_nat (numSrcs t)) (combine (srcType t) (srcMem t))) ;;
  dsts <- deallocateBuffers bytes
            (firstn (Z.to_nat (numDsts t)) (combine (dstType t) (dstMem t))) ;;
  Ret (srcs ++ dsts, set_subExecParam t []).

(** The deallocator of a kind of memory. *)
Definition releaseOf (memType : MemType) (memPtr bytes : Z) : Released :=
  match memType with
  | MEM_CPU | MEM_CPU_FINE => HipHostFree memPtr
  | MEM_CPU_UNPINNED => NumaFree memPtr bytes
  | _ => HipFree memPtr
  end.

(** The buffer of the endpoint [e] was allocated with [bytes] bytes, and
    is released by the deallocator of its kind, with the same number of
    bytes; a null pointer is reported and not released. *)
Definition balanced (bytes : Z) (e : MemType * Z) (done : Released) : Prop :=
  exists memPtr,
    AllocateMemory (fst e) (RemappedIndex (snd e) (IsCpuType (fst e))) bytes = Ret memPtr /\
    done = if memPtr =? 0 then NullPointer (fst e) bytes
           else releaseOf (fst e) memPtr bytes.

(** Set-up, and right after it the release. *)
Definition setupThenCleanup (N : Z) (t : Transfer) : outcome (list Released * Transfer) :=
  t' <- Setup.setupTransfer ev N t ;;
  cleanupTransfer t'.

End WithRuntime.
End Release.

(** ** From the set-up of an executor to the upload of its parameters *)

Module ExecutorSetup.
Section WithRuntime.
Context {rt : Runtime}.
Variable ev : EnvVars.
(** [sizeof(SubExecParam)], and whether the stream number [i] of an
    executor and its two events are created. *)
Variable sizeofSubExecParam : Z.
Variable streamCreated : Z -> bool.

(** The loop over the transfers of an executor: the buffers, and
    [exeInfo.totalSubExecs]. *)
Fixpoint setupTransfers (N : Z) (ts : list Transfer) (totalSubExecs_ : Z)
  : outcome (list Transfer * Z) :=
  match ts with
  | [] => Ret ([], totalSubExecs_)
  | t :: rest =>
      t' <- Setup.setupTransfer ev N t ;;
      r <- setupTransfers N rest (to_int (totalSubExecs_ + numSubExecs t')) ;;
      Ret (t' :: fst r, snd r)
  end.

Fixpoint createStreams (streams : list Z) : outcome unit :=
  match streams with
  | [] => Ret tt
  | i :: rest => if streamCreated i then createStreams rest else Exit 1 ErrHipCall
  end.

(** Lines 236-320 of [ExecuteTransfers] for one executor.  The array
    of the parameters of a kernel executor is as [AllocateMemory]
    leaves it: as many entries as fit the bytes, all bytes 0. *)
Definition setupExecutor (N : Z) (exeInfo : ExecutorInfo) : outcome ExecutorInfo :=
  let exeType_ := fst (executor exeInfo) in
  let exeIndex_ := RemappedIndex (snd (executor exeInfo)) (IsCpuType exeType_) in
  r <- setupTransfers N (transfers exeInfo) 0 ;;
  let done (gpu : list SubExecParam.t) :=
    mkExecutorInfo (executor exeInfo) (fst r) (snd r) (totalBytes exeInfo) 0%float gpu in
  if IsGpuType exeType_
  then
    HIP_CALL (HipSetDevice exeIndex_) ;;;
    let numStreamsToUse :=
      if ExeType_eqb exeType_ EXE_GPU_DMA || negb (useSingleStream ev)
      then to_int (Z.of_nat (length (fst r))) else 1 in
    createStreams (Peers.upTo numStreamsToUse) ;;;
    if ExeType_eqb exeType_ EXE_GPU_GFX
    then
      let bytes := to_size_t (snd r * sizeofSubExecParam) in
      AllocateMemory (if nvcc then MEM_CPU else MEM_GPU) exeIndex_ bytes ;;;
      Ret (done (repeat Dispatcher.nullParam (Z.to_nat (bytes / sizeofSubExecParam))))
    else Ret (done (subExecParamGpu exeInfo))
  else Ret (done (subExecParamGpu exeInfo)).

(** The set-up of an executor, and then the preparation of its
    parameters. *)
Definition setupThenPrepare (shuffle : list (nat * nat) -> list (nat * nat)) (N : Z)
    (exeInfo : ExecutorInfo) : option (outcome ExecutorInfo) :=
  match setupExecutor N exeInfo with
  | Ret exeInfo' =>
      BlockOrder.prepareExecutor ev shuffle (S (Z.to_nat (totalSubExecs exeInfo'))) exeInfo'
  | Exit code why => Some (Exit code why)
  end.

End WithRuntime.

(** The transfers of the executor ask for sub-executors, not more than an
    [int] counts in all, and none has a position recorded. *)
Definition ready (exeInfo : ExecutorInfo) : Prop :=
  Forall (fun t => 0 <= numSubExecs t /\ subExecIdx t = []) (transfers exeInfo) /\
  fold_right Z.add 0 (map numSubExecs (transfers exeInfo)) < 2 ^ 31.

(** Two transfers of the kernel executor 0, of 2 and of 3
    sub-executors. *)
Definition sampleGroup : ExecutorInfo :=
  mkExecutorInfo (EXE_GPU_GFX, 0)
    [mkTransfer 0 EXE_GPU_GFX 0 2 0 0 1 1 [MEM_GPU] [0] [MEM_GPU] [1]
                [] [] [] 0 [] 0%float [] [];
     mkTransfer 1 EXE_GPU_GFX 0 3 0 0 1 1 [MEM_GPU] [0] [MEM_CPU] [0]
                [] [] [] 0 [] 0%float [] []]
    0 0 0%float [].

End ExecutorSetup.

(** * Facts about the embedding *)

(** ** Machine integers *)

Lemma to_size_t_small (z : Z) : 0 <= z < 2 ^ 64 -> to_size_t z = z.
Proof. intros H. unfold to_size_t. now apply Z.mod_small. Qed.

Lemma to_int_small (z : Z) : - 2 ^ 31 <= z < 2 ^ 31 -> to_int z = z.
Proof.
  intros H. unfold to_int.
  rewrite Z.mod_small by lia. lia.
Qed.

(** ** The partitioner *)

Module PartitionerFacts.
Import Partitioner PartitionerSpec.

Example partition_10_by_3 : sampleCounts 40 4 3 = Some [3; 3; 4].
Proof. reflexivity. Qed.

Example partition_blocks : sampleCounts 4000 256 4 = Some [256; 256; 256; 232].
Proof. reflexivity. Qed.

Example partition_few_blocks : sampleCounts 400 256 4 = Some [64; 36; 0; 0].
Proof. reflexivity. Qed.


Section Arithmetic.
Variables N G M : Z.
Hypothesis HN : 0 <= N < 2 ^ 62.
Hypothesis HG : 0 < G < 2 ^ 31.
Hypothesis HM : 0 <= M < 2 ^ 31.

Lemma subExecN_exact (i a : Z) :
  0 <= i < 2 ^ 31 -> 0 <= a <= N ->
  subExecN N G M i a =
    if Z.max 0 (M - i) =? 0 then 0
    else Z.min (N - a) ((N - a + G - 1) / G / Z.max 0 (M - i) * G).
Proof.
  intros Hi Ha. unfold subExecN.
  rewrite (to_int_small (M - i)) by lia.
  rewrite (to_size_t_small (N - a)) by lia.
  rewrite (to_size_t_small G) by lia.
  rewrite (to_size_t_small (N - a + G - 1)) by lia.
  destruct (Z.max 0 (M - i) =? 0) eqn:E; [reflexivity|].
  apply Z.eqb_neq in E.
  rewrite (to_size_t_small (Z.max 0 (M - i))) by lia.
  set (R := (N - a + G - 1) / G).
  assert (HR : 0 <= R /\ R * G <= N - a + G - 1).
  { subst R. split.
    - apply Z.div_pos; lia.
    - pose proof (Z.mul_div_le (N - a + G - 1) G ltac:(lia)). lia. }
  assert (Hq : 0 <= R / Z.max 0 (M - i) <= R).
  { split.
    - apply Z.div_pos; lia.
    - apply Z.div_le_upper_bound; nia. }
  rewrite to_size_t_small; [reflexivity|]. nia.
Qed.

Lemma subExecN_step (i a : Z) :
  inv N G M i a ->
  let c := subExecN N G M i a in
  0 <= c <= N - a /\ (i < M -> 0 < c) /\ (M <= i -> c = 0) /\
  (i + 1 < 2 ^ 31 -> inv N G M (i + 1) (a + c)).
Proof.
  intros (Hi & Ha & Hlt & Hge). cbn zeta.
  rewrite subExecN_exact by lia.
  destruct (Z.max 0 (M - i) =? 0) eqn:E.
  - apply Z.eqb_eq in E. assert (M <= i) by lia.
    repeat split; lia.
  - apply Z.eqb_neq in E. assert (Hi' : i < M) by lia.
    specialize (Hlt Hi'). clear Hge.
    replace (Z.max 0 (M - i)) with (M - i) by lia.
    set (L := N - a) in *. set (R := (L + G - 1) / G) in *.
    set (left := M - i) in *.
    assert (HR1 : R * G <= L + G - 1).
    { subst R. pose proof (Z.mul_div_le (L + G - 1) G ltac:(lia)). lia. }
    assert (HR2 : L + G - 1 < (R + 1) * G).
    { subst R. pose proof (Z.mod_pos_bound (L + G - 1) G ltac:(lia)).
      pose proof (Z.div_mod (L + G - 1) G ltac:(lia)). nia. }
    set (q := R / left).
    assert (Hq1 : q * left <= R).
    { subst q. pose proof (Z.mul_div_le R left ltac:(lia)). lia. }
    assert (Hq2 : R < (q + 1) * left).
    { subst q. pose proof (Z.mod_pos_bound R left ltac:(lia)).
      pose proof (Z.div_mod R left ltac:(lia)). nia. }
    assert (Hq0 : 1 <= q) by nia.
    assert (HL : 0 < L) by nia.
    destruct (Z.eq_dec left 1) as [Hleft|Hleft].
    + (* the last sub-executor takes all that is left *)
      assert (q = R) by (subst q; rewrite Hleft; apply Z.div_1_r).
      assert (L <= q * G) by nia.
      fold q. rewrite Z.min_l by lia.
      split; [lia|]. split; [lia|]. split; [lia|].
      intros Hnext. unfold inv.
      split; [lia|]. split; [lia|]. split; intros; lia.
    + (* more than one sub-executor was left: a whole number of blocks goes *)
      assert (Hleft2 : 2 <= left) by lia.
      assert (HqG : q * G < L) by nia.
      fold q. rewrite Z.min_r by lia.
      split; [nia|]. split; [nia|]. split; [lia|].
      intros Hnext. unfold inv.
      split; [lia|]. split; [nia|]. split; [|intros; lia].
      intros Hi1.
      replace (N - (a + q * G) + G - 1) with (L + G - 1 + (- q) * G) by lia.
      rewrite Z.div_add by lia. fold R.
      nia.
Qed.


Variable ev : EnvVars.
Variable t : Transfer.
Variable initOffset : Z.

Let loop := subExecLoop ev t N initOffset G M.

Lemma subExecLoop_length (todo : nat) (i a : Z) : length (loop todo i a) = todo.
Proof.
  revert i a. induction todo as [|todo IH]; intros i a; simpl; [reflexivity|].
  now rewrite IH.
Qed.

(** An iteration leaves the loop in a state of [inv], with no wrap-around. *)
Lemma subExecLoop_unfold (todo : nat) (i a : Z) :
  inv N G M i a -> i + Z.of_nat (S todo) < 2 ^ 31 ->
  loop (S todo) i a =
    subExecEntry ev t N initOffset G M i a
      :: loop todo (i + 1) (a + subExecN N G M i a)
  /\ inv N G M (i + 1) (a + subExecN N G M i a).
Proof.
  intros Hinv Hi.
  destruct (subExecN_step i a Hinv) as (Hc & _ & _ & Hnext).
  assert (Hinv' := Hinv). destruct Hinv' as (Hi0 & Ha & _).
  split; [|apply Hnext; lia].
  unfold loop. simpl.
  rewrite to_int_small by lia.
  rewrite to_size_t_small by lia.
  reflexivity.
Qed.

Lemma subExecLoop_nonneg (todo : nat) : forall i a,
  inv N G M i a -> i + Z.of_nat todo < 2 ^ 31 ->
  Forall (fun p => 0 <= SubExecParam.N p) (loop todo i a).
Proof.
  induction todo as [|todo IH]; intros i a Hinv Hi; [constructor|].
  destruct (subExecLoop_unfold todo i a Hinv Hi) as [-> Hinv'].
  constructor.
  - simpl. apply (subExecN_step i a Hinv).
  - apply IH; [exact Hinv'|lia].
Qed.

Lemma subExecLoop_sum (todo : nat) : forall i a,
  inv N G M i a -> i + Z.of_nat todo < 2 ^ 31 -> M <= i + Z.of_nat todo ->
  zsum (counts (loop todo i a)) = N - a.
Proof.
  induction todo as [|todo IH]; intros i a Hinv Hi HM'.
  - simpl. destruct Hinv as (_ & _ & _ & Hge). rewrite Hge; lia.
  - destruct (subExecLoop_unfold todo i a Hinv Hi) as [-> Hinv'].
    simpl. unfold counts in IH. rewrite IH; [lia|exact Hinv'|lia|lia].
Qed.

Lemma subExecLoop_nonzero (todo : nat) : forall i a,
  inv N G M i a -> i + Z.of_nat todo < 2 ^ 31 ->
  Z.of_nat (length (filter nonzero (loop todo i a))) <= Z.max 0 (M - i).
Proof.
  induction todo as [|todo IH]; intros i a Hinv Hi; [simpl; lia|].
  destruct (subExecLoop_unfold todo i a Hinv Hi) as [-> Hinv'].
  specialize (IH (i + 1) _ Hinv' ltac:(lia)).
  destruct (subExecN_step i a Hinv) as (_ & _ & Hzero & _).
  simpl. unfold nonzero at 1. simpl.
  destruct (Z_lt_le_dec i M) as [Hlt|Hge].
  - destruct (negb _); simpl length; lia.
  - rewrite (proj2 (Z.eqb_eq _ 0) (Hzero Hge)). unfold loop in *. cbn [negb]. lia.
Qed.

(** Entry [k] holds what iteration [i + k] computes once the counts of
    the entries before it have been given out, and points that far into
    every buffer. *)
Lemma subExecLoop_nth (todo : nat) : forall i a k p,
  inv N G M i a -> i + Z.of_nat todo < 2 ^ 31 ->
  nth_error (loop todo i a) k = Some p ->
  p = subExecEntry ev t N initOffset G M (i + Z.of_nat k)
        (a + zsum (counts (firstn k (loop todo i a)))).
Proof.
  induction todo as [|todo IH]; intros i a k p Hinv Hi Hk.
  - destruct k; discriminate.
  - destruct (subExecLoop_unfold todo i a Hinv Hi) as [E Hinv'].
    rewrite E in *. destruct k as [|k].
    + simpl in *. injection Hk as <-. f_equal; lia.
    + simpl nth_error in Hk. apply IH in Hk; [|exact Hinv'|lia].
      rewrite Hk. simpl firstn. simpl.
      f_equal; lia.
Qed.


(** The count of entry [k], in the words of [codeCount]. *)
Lemma subExecLoop_count (todo : nat) : forall i a k p,
  inv N G M i a -> i + Z.of_nat todo < 2 ^ 31 ->
  nth_error (loop todo i a) k = Some p ->
  SubExecParam.N p =
    codeCount (N - (a + zsum (counts (firstn k (loop todo i a))))) G
              (Z.max 0 (M - (i + Z.of_nat k))).
Proof.
  induction todo as [|todo IH]; intros i a k p Hinv Hi Hk.
  - destruct k; discriminate.
  - destruct (subExecLoop_unfold todo i a Hinv Hi) as [E Hinv'].
    rewrite E in *. destruct k as [|k].
    + simpl in Hk. injection Hk as <-. cbn [firstn counts map zsum fold_right].
      cbn [subExecEntry SubExecParam.N].
      destruct Hinv as (Hi0 & Ha & _).
      rewrite subExecN_exact by lia.
      unfold codeCount, cdiv.
      replace (N - (a + 0)) with (N - a) by lia.
      replace (i + Z.of_nat 0) with i by lia. reflexivity.
    + simpl nth_error in Hk. apply IH in Hk; [|exact Hinv'|lia].
      rewrite Hk. cbn [firstn counts map zsum fold_right subExecEntry SubExecParam.N].
      f_equal; [|f_equal]; unfold counts, zsum; lia.
Qed.

End Arithmetic.


Lemma zsum_app (l1 l2 : list Z) : zsum (l1 ++ l2) = zsum l1 + zsum l2.
Proof. induction l1 as [|x l1 IH]; simpl; lia. Qed.

Lemma zsum_nonneg (l : list Z) : Forall (fun c => 0 <= c) l -> 0 <= zsum l.
Proof. induction 1; simpl; lia. Qed.

(** With non-negative counts a later unit starts where an earlier one
    has ended, or further. *)
Lemma unitOffset_mono (ps : list SubExecParam.t) (j k : nat) (pj : SubExecParam.t) :
  Forall (fun p => 0 <= SubExecParam.N p) ps ->
  (j < k)%nat -> nth_error ps j = Some pj ->
  unitOffset ps j + SubExecParam.N pj <= unitOffset ps k.
Proof.
  intros Hpos Hjk Hj. unfold unitOffset.
  destruct (nth_error_split ps j Hj) as (l1 & l2 & -> & <-).
  rewrite firstn_app, Nat.sub_diag, firstn_all, firstn_O, app_nil_r.
  rewrite firstn_app, firstn_all2 by lia.
  replace (k - length l1)%nat with (S (k - length l1 - 1)) by lia.
  cbn [firstn]. unfold counts. rewrite map_app, zsum_app. cbn [map zsum fold_right].
  apply Forall_app in Hpos as [_ Hpos]. inversion Hpos as [|? ? _ Hl2]; subst.
  assert (0 <= zsum (map SubExecParam.N (firstn (k - length l1 - 1) l2))).
  { apply zsum_nonneg, Forall_map.
    rewrite <- (firstn_skipn (k - length l1 - 1) l2) in Hl2.
    now apply Forall_app in Hl2 as [Hl2 _]. }
  unfold zsum in *. lia.
Qed.

Section Prepare.
Variable ev : EnvVars.
Variable t : Transfer.
Hypothesis Hbytes : 0 <= numBytesActual t < 2 ^ 64.
Hypothesis Hblock : 4 <= blockBytes ev < 2 ^ 31.
Hypothesis Hsub : 0 < numSubExecs t < 2 ^ 31.

Let N := numBytesActual t / 4.
Let G := blockBytes ev / 4.
Let S := numSubExecs t.

Lemma N_range : 0 <= N < 2 ^ 62.
Proof.
  subst N. split; [apply Z.div_pos; lia|].
  apply Z.div_lt_upper_bound; lia.
Qed.

Lemma G_range : 0 < G < 2 ^ 31.
Proof.
  subst G. split.
  - apply Z.div_str_pos; lia.
  - apply Z.div_lt_upper_bound; lia.
Qed.

Lemma maxUsable_range : 0 <= maxUsable N S G <= S /\ maxUsable N S G < 2 ^ 31.
Proof.
  pose proof N_range. pose proof G_range.
  unfold maxUsable, cdiv.
  assert (0 <= (N + G - 1) / G) by (apply Z.div_pos; lia).
  subst S. lia.
Qed.

(** What [PrepareSubExecParams] returns once the conversions are seen to
    change nothing. *)
Lemma PrepareSubExecParams_eq :
  PrepareSubExecParams ev t =
    Some (set_timing
            (set_subExecParam t
               (subExecLoop ev t N (to_int (to_size_t (byteOffset ev) / sizeof_float))
                  G (maxUsable N S G) (Z.to_nat S) 0 0))
            0%float [] (perIterationCUs t)).
Proof.
  pose proof N_range as HN. pose proof G_range as HG.
  pose proof maxUsable_range as HM.
  unfold PrepareSubExecParams, sizeof_float. fold N.
  rewrite (to_size_t_small (blockBytes ev)) by lia. fold G.
  rewrite (to_int_small G) by lia.
  rewrite (to_size_t_small G) by lia.
  rewrite (to_size_t_small (N + G - 1)) by lia.
  rewrite (to_size_t_small (numSubExecs t)) by lia.
  replace (G =? 0) with false by (symmetry; apply Z.eqb_neq; lia).
  replace (numSubExecs t <? 0) with false by (symmetry; apply Z.ltb_ge; lia).
  cbn [orb].
  replace (Z.min ((N + G - 1) / G) (numSubExecs t)) with (maxUsable N S G)
    by (unfold maxUsable, cdiv; subst S; lia).
  rewrite (to_int_small (maxUsable N S G)) by lia.
  reflexivity.
Qed.

Lemma inv_start : inv N G (maxUsable N S G) 0 0.
Proof.
  pose proof N_range as HN. pose proof G_range as HG.
  pose proof maxUsable_range as HM.
  unfold inv. split; [lia|]. split; [lia|]. split.
  - intros _. unfold maxUsable, cdiv. rewrite !Z.sub_0_r. lia.
  - intros Hle. assert (E : maxUsable N S G = 0) by lia.
    unfold maxUsable, cdiv in E.
    assert (E' : (N + G - 1) / G = 0) by (subst S; lia).
    apply Z.div_small_iff in E'; lia.
Qed.

End Prepare.

(** Whenever it returns, [PrepareSubExecParams] leaves as many entries
    as the transfer has sub-executors. *)
Lemma PrepareSubExecParams_length (ev : EnvVars) (t t' : Transfer) :
  PrepareSubExecParams ev t = Some t' ->
  0 <= numSubExecs t' /\ numSubExecs t' = numSubExecs t /\
  length (subExecParam t') = Z.to_nat (numSubExecs t').
Proof.
  unfold PrepareSubExecParams.
  destruct (_ || _) eqn:E; [discriminate|].
  apply orb_false_iff in E as [_ E]. apply Z.ltb_ge in E.
  intros H. injection H as <-. cbn [numSubExecs subExecParam set_timing set_subExecParam].
  split; [exact E|]. split; [reflexivity|]. apply subExecLoop_length.
Qed.

(** C1: for a transfer of [N] floats split over [S >= 1] sub-executors
    with [G >= 1] floats per block, [PrepareSubExecParams] returns, and
    its entries have non-negative counts that sum to exactly [N]; each
    unit points into every buffer at the sum of the counts of the units
    before it, so the ranges are contiguous and pairwise disjoint; and at
    most [min(S, ceil(N/G))] entries have a non-zero count. *)
Theorem C1_partition_exact (ev : EnvVars) (t : Transfer) :
  0 <= numBytesActual t < 2 ^ 64 ->
  4 <= blockBytes ev < 2 ^ 31 ->
  0 < numSubExecs t < 2 ^ 31 ->
  exists t',
    PrepareSubExecParams ev t = Some t' /\
    length (subExecParam t') = Z.to_nat (numSubExecs t) /\
    Forall (fun p => 0 <= SubExecParam.N p) (subExecParam t') /\
    zsum (counts (subExecParam t')) = numBytesActual t / 4 /\
    (forall k p, nth_error (subExecParam t') k = Some p ->
       pointsAt ev t p (unitOffset (subExecParam t') k)) /\
    (forall j k pj, (j < k)%nat -> nth_error (subExecParam t') j = Some pj ->
       unitOffset (subExecParam t') j + SubExecParam.N pj
         <= unitOffset (subExecParam t') k) /\
    Z.of_nat (length (filter nonzero (subExecParam t')))
      <= maxUsable (numBytesActual t / 4) (numSubExecs t) (blockBytes ev / 4).
Proof.
  intros Hbytes Hblock Hsub.
  pose proof (N_range ev t Hbytes) as HN.
  pose proof (G_range ev t Hblock) as HG.
  pose proof (maxUsable_range ev t Hbytes Hblock Hsub) as HM.
  pose proof (inv_start ev t Hbytes Hblock Hsub) as Hinv.
  cbv zeta in HN, HG, HM, Hinv.
  eexists. split; [apply (PrepareSubExecParams_eq ev t Hbytes Hblock Hsub)|].
  cbn [subExecParam set_timing set_subExecParam].
  set (M := maxUsable _ _ _) in *.
  assert (HM' : 0 <= M < 2 ^ 31) by lia.
  assert (Hfit : 0 + Z.of_nat (Z.to_nat (numSubExecs t)) < 2 ^ 31) by lia.
  assert (Hpos := subExecLoop_nonneg _ _ _ HN HG HM' ev t
                    (to_int (to_size_t (byteOffset ev) / sizeof_float))
                    _ 0 0 Hinv Hfit).
  split; [apply subExecLoop_length|].
  split; [exact Hpos|].
  split.
  { rewrite (subExecLoop_sum _ _ _ HN HG HM'); [lia|exact Hinv|exact Hfit|lia]. }
  split.
  { intros k p Hk.
    apply (subExecLoop_nth _ _ _ HN HG HM') in Hk; [|exact Hinv|exact Hfit].
    rewrite Hk at 1. unfold pointsAt, unitOffset. cbn.
    split; reflexivity. }
  split.
  { intros j k pj Hjk Hj. now apply unitOffset_mono. }
  pose proof (subExecLoop_nonzero _ _ _ HN HG HM' ev t
                (to_int (to_size_t (byteOffset ev) / sizeof_float))
                _ 0 0 Hinv Hfit) as Hnz.
  lia.
Qed.

(** A transfer of 1000 floats over 4 sub-executors, 64 floats a block. *)
Lemma C1_partition_exact_witness :
  exists t',
    PrepareSubExecParams (sampleEnv 256 0) (sampleTransfer 4000 4) = Some t' /\
    length (subExecParam t') = 4%nat /\
    Forall (fun p => 0 <= SubExecParam.N p) (subExecParam t') /\
    zsum (counts (subExecParam t')) = 1000 /\
    (forall k p, nth_error (subExecParam t') k = Some p ->
       pointsAt (sampleEnv 256 0) (sampleTransfer 4000 4) p
         (unitOffset (subExecParam t') k)) /\
    (forall j k pj, (j < k)%nat -> nth_error (subExecParam t') j = Some pj ->
       unitOffset (subExecParam t') j + SubExecParam.N pj
         <= unitOffset (subExecParam t') k) /\
    Z.of_nat (length (filter nonzero (subExecParam t'))) <= 4.
Proof.
  apply (C1_partition_exact (sampleEnv 256 0) (sampleTransfer 4000 4)).
  - simpl. lia.
  - simpl. lia.
  - simpl. lia.
Defined.

(** C2 (as the code has it): unit [k] gets [0] when no sub-executor is
    left, and otherwise the smaller of what remains and the number of
    blocks that remain, divided by the sub-executors left rounding down,
    times the block size; [remaining] is [N] less the counts of the units
    before [k], and [subExecLeft = max(0, min(S, ceil(N/G)) - k)]. *)
Theorem C2_unit_count (ev : EnvVars) (t : Transfer) :
  0 <= numBytesActual t < 2 ^ 64 ->
  4 <= blockBytes ev < 2 ^ 31 ->
  0 < numSubExecs t < 2 ^ 31 ->
  exists t',
    PrepareSubExecParams ev t = Some t' /\
    forall k p, nth_error (subExecParam t') k = Some p ->
      SubExecParam.N p =
        codeCount (numBytesActual t / 4 - unitOffset (subExecParam t') k)
                  (blockBytes ev / 4)
                  (Z.max 0 (maxUsable (numBytesActual t / 4) (numSubExecs t)
                                      (blockBytes ev / 4) - Z.of_nat k)).
Proof.
  intros Hbytes Hblock Hsub.
  pose proof (N_range ev t Hbytes) as HN.
  pose proof (G_range ev t Hblock) as HG.
  pose proof (maxUsable_range ev t Hbytes Hblock Hsub) as HM.
  pose proof (inv_start ev t Hbytes Hblock Hsub) as Hinv.
  assert (HM' : 0 <= maxUsable (numBytesActual t / 4) (numSubExecs t) (blockBytes ev / 4) < 2 ^ 31) by lia.
  eexists. split; [apply (PrepareSubExecParams_eq ev t Hbytes Hblock Hsub)|].
  cbn [subExecParam set_timing set_subExecParam].
  intros k p Hk.
  apply (subExecLoop_count _ _ _ HN HG HM') in Hk; [|exact Hinv|lia].
  rewrite Hk. unfold unitOffset. f_equal; lia.
Qed.

(** The same transfer of 1000 floats: 256, 256, 256 and the last 232. *)
Lemma C2_unit_count_witness :
  exists t',
    PrepareSubExecParams (sampleEnv 256 0) (sampleTransfer 4000 4) = Some t' /\
    forall k p, nth_error (subExecParam t') k = Some p ->
      SubExecParam.N p =
        codeCount (1000 - unitOffset (subExecParam t') k) 64
                  (Z.max 0 (maxUsable 1000 4 64 - Z.of_nat k)).
Proof.
  apply (C2_unit_count (sampleEnv 256 0) (sampleTransfer 4000 4)).
  - simpl. lia.
  - simpl. lia.
  - simpl. lia.
Defined.

(** C2 as worded fails: of 10 floats in blocks of one float, the first
    of 3 sub-executors gets [floor(10/3) = 3] floats, where
    [ceil(10/1/3)] is 4 (however the quotient is read). *)
Lemma C2_ceil_counterexample :
  sampleCounts 40 4 3 = Some [3; 3; 4] /\
  maxUsable 10 3 1 = 3 /\
  codeCount 10 1 3 = 3 /\
  specCount 10 1 3 = 4 /\
  specCount' 10 1 3 = 4.
Proof. repeat split; reflexivity. Qed.

End PartitionerFacts.

(** ** Reference patterns *)

Module ReferenceFacts.
Import Reference ReferenceSpec.

Section WithFloats.
Context {ops : FloatOps}.
Variable ev : EnvVars.

Lemma sourceReference_eq (n : nat) (s : Z) :
  sourceReference ev n s = map (sourceValue ev s) (seq 0 n).
Proof.
  unfold sourceReference, sourceValue.
  destruct (0 <? Z.of_nat (length (fillPattern ev))); reflexivity.
Qed.

Lemma combine_map_same {A B C : Type} (f : A -> B) (g : A -> C) (l : list A) :
  combine (map f l) (map g l) = map (fun x => (f x, g x)) l.
Proof. induction l as [|x l IH]; simpl; [reflexivity|now rewrite IH]. Qed.

Lemma accumulate_maps (f g : nat -> float32) (l : list nat) :
  accumulate (map f l) (map g l) = map (fun i => f32_add (f i) (g i)) l.
Proof.
  unfold accumulate. rewrite combine_map_same, map_map. reflexivity.
Qed.

(** Adding the sources one after the other over the whole buffer is
    adding them up element by element. *)
Lemma accumulate_sources (n : nat) (srcs : list nat) : forall f : nat -> float32,
  fold_left (fun buf s => accumulate buf (sourceReference ev n (Z.of_nat s)))
            srcs (map f (seq 0 n))
  = map (fun i => fold_left (fun acc s => f32_add acc (sourceValue ev (Z.of_nat s) i))
                            srcs (f i))
        (seq 0 n).
Proof.
  induction srcs as [|s srcs IH]; intros f; simpl; [reflexivity|].
  rewrite sourceReference_eq, accumulate_maps. apply IH.
Qed.

Lemma PrepareReference_source (t : Transfer) (n s : nat) :
  PrepareReference ev t n (Z.of_nat s) = map (sourceValue ev (Z.of_nat s)) (seq 0 n).
Proof.
  unfold PrepareReference.
  replace (0 <=? Z.of_nat s) with true by (symmetry; apply Z.leb_le; lia).
  apply sourceReference_eq.
Qed.

Lemma nth_map_seq (f : nat -> float32) (n i : nat) :
  (i < n)%nat -> nth i (map f (seq 0 n)) 0 = f i.
Proof.
  intros Hi. rewrite (nth_indep _ 0 (f 0%nat)) by now rewrite length_map, length_seq.
  rewrite map_nth, seq_nth by assumption. reflexivity.
Qed.

Lemma fold_left_map {A B C : Type} (f : A -> C -> A) (g : B -> C) (l : list B) (a : A) :
  fold_left f (map g l) a = fold_left (fun acc x => f acc (g x)) l a.
Proof. revert a. induction l as [|x l IH]; intros a; simpl; [reflexivity|apply IH]. Qed.

Lemma fold_left_ext_in {A B : Type} (f g : A -> B -> A) (l : list B) (a : A) :
  (forall acc x, In x l -> f acc x = g acc x) -> fold_left f l a = fold_left g l a.
Proof.
  revert a. induction l as [|x l IH]; intros a H; simpl; [reflexivity|].
  rewrite H by now left. apply IH. intros acc y Hy. apply H. now right.
Qed.

Lemma PrepareReference_length (t : Transfer) (n : nat) (bufferIdx : Z) :
  length (PrepareReference ev t n bufferIdx) = n.
Proof.
  unfold PrepareReference.
  destruct (0 <=? bufferIdx).
  { now rewrite sourceReference_eq, length_map, length_seq. }
  destruct (numSrcs t =? 0).
  { apply repeat_length. }
  destruct (1 <? numSrcs t).
  - rewrite sourceReference_eq, accumulate_sources, length_map, length_seq. reflexivity.
  - now rewrite sourceReference_eq, length_map, length_seq.
Qed.

Lemma PrepareReference_destination (t : Transfer) (n : nat) :
  PrepareReference ev t n (-1) =
    if numSrcs t =? 0 then memset_floats MEMSET_CHAR n
    else if 1 <? numSrcs t
         then fold_left (fun buf s => accumulate buf (sourceReference ev n (Z.of_nat s)))
                        (seq 1 (Z.to_nat (numSrcs t) - 1)) (sourceReference ev n 0)
         else sourceReference ev n 0.
Proof. reflexivity. Qed.

(** C3: the reference of the destination (buffer index -1) of a
    transfer with no source has [MEMSET_CHAR] in every byte of every
    element; that of a transfer with one or more sources is the
    elementwise sum of the reference sequences of all its sources. *)
Theorem C3_destination_reference (t : Transfer) (n : nat) :
  (numSrcs t = 0 ->
     length (PrepareReference ev t n (-1)) = n /\
     Forall (fun x => bytes_of_float x = [MEMSET_CHAR; MEMSET_CHAR; MEMSET_CHAR; MEMSET_CHAR])
            (PrepareReference ev t n (-1))) /\
  (1 <= numSrcs t ->
     PrepareReference ev t n (-1) = elementwiseSum n (sourceReferences ev t n)).
Proof.
  split.
  - intros H0. split; [apply PrepareReference_length|].
    rewrite PrepareReference_destination, H0. cbn [Z.eqb].
    unfold memset_floats. apply Forall_forall. intros x Hx.
    apply repeat_spec in Hx. subst x. reflexivity.
  - intros H1. rewrite PrepareReference_destination.
    replace (numSrcs t =? 0) with false by (symmetry; apply Z.eqb_neq; lia).
    unfold elementwiseSum, sourceReferences.
    replace (Z.to_nat (numSrcs t)) with (S (Z.to_nat (numSrcs t) - 1)) at 2 by lia.
    rewrite <- cons_seq. cbn [map]. unfold sumAt.
    assert (Hrest : forall i, (i < n)%nat ->
      fold_left (fun acc r => f32_add acc (nth i r 0))
        (map (fun s => PrepareReference ev t n (Z.of_nat s)) (seq 1 (Z.to_nat (numSrcs t) - 1)))
        (nth i (PrepareReference ev t n (Z.of_nat 0)) 0)
      = fold_left (fun acc s => f32_add acc (sourceValue ev (Z.of_nat s) i))
          (seq 1 (Z.to_nat (numSrcs t) - 1)) (sourceValue ev 0 i)).
    { intros i Hi. rewrite fold_left_map, PrepareReference_source, nth_map_seq by assumption.
      apply fold_left_ext_in. intros acc s _.
      now rewrite PrepareReference_source, nth_map_seq. }
    rewrite sourceReference_eq.
    destruct (1 <? numSrcs t) eqn:E.
    + rewrite accumulate_sources. apply map_ext_in. intros i Hi.
      apply in_seq in Hi. symmetry. apply Hrest. lia.
    + apply Z.ltb_ge in E. replace (Z.to_nat (numSrcs t) - 1)%nat with 0%nat in * by lia.
      apply map_ext_in. intros i Hi. apply in_seq in Hi.
      rewrite Hrest by lia. reflexivity.
Qed.

End WithFloats.

(** A fill of 3 floats, and a transfer with 3 sources of 5 floats, with
    the floats of binary32. *)
Lemma C3_destination_reference_witness :
  (length (@PrepareReference binary32Ops (sampleEnv false) (sampleTransfer 0 1 12) 3 (-1)) = 3%nat /\
   Forall (fun x => bytes_of_float x = [MEMSET_CHAR; MEMSET_CHAR; MEMSET_CHAR; MEMSET_CHAR])
          (@PrepareReference binary32Ops (sampleEnv false) (sampleTransfer 0 1 12) 3 (-1))) /\
  @PrepareReference binary32Ops (sampleEnv false) (sampleTransfer 3 1 20) 5 (-1)
    = @elementwiseSum binary32Ops 5
        (@sourceReferences binary32Ops (sampleEnv false) (sampleTransfer 3 1 20) 5).
Proof.
  split.
  - apply (proj1 (@C3_destination_reference binary32Ops (sampleEnv false)
                    (sampleTransfer 0 1 12) 3)).
    reflexivity.
  - apply (proj2 (@C3_destination_reference binary32Ops (sampleEnv false)
                    (sampleTransfer 3 1 20) 5)).
    simpl. lia.
Defined.

(** Three sources of 31, 32, ... times 1, 2 and 3 add up to 6 times as
    much: 186.0, 192.0, 198.0, ... *)
Example three_sources_sum :
  @PrepareReference binary32Ops (sampleEnv false) (sampleTransfer 3 1 12) 3 (-1)
    = [0x433A0000; 0x43400000; 0x43460000].
Proof. vm_compute. reflexivity. Qed.

Example fill_pattern_bits :
  @PrepareReference binary32Ops (sampleEnv false) (sampleTransfer 0 1 8) 2 (-1)
    = [0x75757575; 0x75757575].
Proof. vm_compute. reflexivity. Qed.

End ReferenceFacts.

(** ** Validation *)

Module ValidatorFacts.
Import Validator ValidatorSpec.

Section WithFloats.
Context {ops : FloatOps}.
Variables (ev : EnvVars) (t : Transfer) (mem : Z -> float32).

(** The loop over the elements of one destination stops at the first
    mismatch: it reports it, and leaves by [exit(1)] or by [break]. *)
Lemma compareFrom_firstMismatch (dstIdx : nat) (reference : list float32) :
  forall (output : list float32) (i : nat),
  length reference = length output ->
  compareFrom ev t mem dstIdx i (combine reference output) =
    match firstMismatch reference output with
    | Some k => mkRun [report ev t mem dstIdx (i + k) (nth k reference 0) (nth k output 0)]
                      (map (pair dstIdx) (seq i (S k)))
                      (negb (continueOnError ev))
    | None => mkRun [] (map (pair dstIdx) (seq i (length reference))) false
    end.
Proof.
  induction reference as [|e reference IH]; intros [|a output] i Hlen;
    try discriminate; [reflexivity|].
  cbn [combine compareFrom firstMismatch].
  destruct (f32_ne e a).
  - rewrite Nat.add_0_r. reflexivity.
  - rewrite IH by (simpl in Hlen; lia).
    destruct (firstMismatch reference output) as [k|]; cbn.
    + rewrite Nat.add_succ_r. reflexivity.
    + reflexivity.
Qed.

Lemma outputOf_length (n dstIdx : nat) : length (outputOf ev t mem n dstIdx) = n.
Proof. unfold outputOf. now rewrite length_map, length_seq. Qed.

Lemma expected_length : length (expected ev t) = elements t.
Proof. apply ReferenceFacts.PrepareReference_length. Qed.

(** When errors do not end the process, every destination is gone
    through, each up to its own first mismatch. *)
Lemma validateFrom_continue (todo : list nat) :
  continueOnError ev = true ->
  validateFrom ev t mem (expected ev t) (elements t) todo =
    mkRun (flat_map (reportsOf ev t mem) todo)
          (flat_map (comparisonsOf ev t mem) todo) false.
Proof.
  intros Hcont. induction todo as [|dstIdx todo IH]; [reflexivity|].
  cbn [validateFrom flat_map].
  rewrite compareFrom_firstMismatch by now rewrite expected_length, outputOf_length.
  rewrite IH, Hcont, expected_length. unfold reportsOf, comparisonsOf.
  destruct (firstMismatch _ _) as [k|]; reflexivity.
Qed.

(** C7 (as the code has it): with continue-on-error, [ValidateDst]
    never ends the process; at the first mismatch of a destination it
    reports the transfer, the index, and the expected and the actual
    bit pattern, and it skips the comparisons left for that destination;
    the destinations after it are still compared, each up to its own
    first mismatch. *)
Theorem C7_continue_on_error :
  continueOnError ev = true ->
  exited (ValidateDst ev t mem) = false /\
  reports (ValidateDst ev t mem)
    = flat_map (reportsOf ev t mem) (seq 0 (Z.to_nat (numDsts t))) /\
  comparisons (ValidateDst ev t mem)
    = flat_map (comparisonsOf ev t mem) (seq 0 (Z.to_nat (numDsts t))).
Proof.
  intros Hcont. unfold ValidateDst.
  destruct (numDsts t =? 0) eqn:E.
  - apply Z.eqb_eq in E. rewrite E. repeat split.
  - fold (elements t). fold (expected ev t).
    rewrite validateFrom_continue by assumption.
    repeat split.
Qed.

End WithFloats.

(** One source, two destinations of 2 floats, in memory that never holds
    the pattern: both destinations are compared and reported. *)
Lemma C7_continue_on_error_witness :
  exited (@ValidateDst ReferenceSpec.binary32Ops (ReferenceSpec.sampleEnv true)
            (ReferenceSpec.sampleTransfer 1 2 8) wrongMemory) = false /\
  reports (@ValidateDst ReferenceSpec.binary32Ops (ReferenceSpec.sampleEnv true)
             (ReferenceSpec.sampleTransfer 1 2 8) wrongMemory)
    = flat_map (@reportsOf ReferenceSpec.binary32Ops (ReferenceSpec.sampleEnv true)
                  (ReferenceSpec.sampleTransfer 1 2 8) wrongMemory) (seq 0 2) /\
  comparisons (@ValidateDst ReferenceSpec.binary32Ops (ReferenceSpec.sampleEnv true)
                 (ReferenceSpec.sampleTransfer 1 2 8) wrongMemory)
    = flat_map (@comparisonsOf ReferenceSpec.binary32Ops (ReferenceSpec.sampleEnv true)
                  (ReferenceSpec.sampleTransfer 1 2 8) wrongMemory) (seq 0 2).
Proof.
  apply (@C7_continue_on_error ReferenceSpec.binary32Ops (ReferenceSpec.sampleEnv true)
           (ReferenceSpec.sampleTransfer 1 2 8) wrongMemory).
  reflexivity.
Defined.

(** C7 as worded fails: after the first mismatch, at element 0 of
    destination 0, the comparisons of the transfer are not all skipped:
    element 0 of destination 1 is compared, and reported, too. *)
Lemma C7_later_destination_counterexample :
  continueOnError (ReferenceSpec.sampleEnv true) = true /\
  comparisons (@ValidateDst ReferenceSpec.binary32Ops (ReferenceSpec.sampleEnv true)
                 (ReferenceSpec.sampleTransfer 1 2 8) wrongMemory)
    = [(0, 0); (1, 0)]%nat /\
  map (fun r => (rDstIdx r, rIndex r, rExpected r, rActual r))
      (reports (@ValidateDst ReferenceSpec.binary32Ops (ReferenceSpec.sampleEnv true)
                  (ReferenceSpec.sampleTransfer 1 2 8) wrongMemory))
    = [(0%nat, 0%nat, 0x41F80000, 0x3F800000); (1%nat, 0%nat, 0x41F80000, 0x3F800000)].
Proof. vm_compute. repeat split. Qed.

(** Without continue-on-error the first mismatch ends the process. *)
Example abort_on_first_mismatch :
  exited (@ValidateDst ReferenceSpec.binary32Ops (ReferenceSpec.sampleEnv false)
            (ReferenceSpec.sampleTransfer 1 2 8) wrongMemory) = true /\
  comparisons (@ValidateDst ReferenceSpec.binary32Ops (ReferenceSpec.sampleEnv false)
                 (ReferenceSpec.sampleTransfer 1 2 8) wrongMemory) = [(0, 0)]%nat.
Proof. vm_compute. repeat split. Qed.

End ValidatorFacts.

(** ** Running the transfers *)

Module DispatcherFacts.
Import Dispatcher Orchestrator DispatcherSpec.

(** Takes a chain of calls apart: every call either fails, which ends
    the chain, or succeeds. *)
Ltac split_calls H :=
  unfold HIP_CALL, bind in H;
  repeat match type of H with
         | context [if ?b then _ else _] => destruct b
         end;
  try discriminate H.

Section WithRuntime.
Context {rt : Runtime} {ops : FloatOps}.
Variable ev : EnvVars.

(** A warmup call of [RunTransfer] that returns has changed the array
    of the kernel at most. *)
Lemma RunTransfer_warmup (iteration : Z) (exeInfo exeInfo' : ExecutorInfo)
    (transferIdx : Z) (m : Measured) :
  iteration < 0 ->
  RunTransfer ev iteration exeInfo transferIdx m = Ret exeInfo' ->
  timingOf exeInfo' = timingOf exeInfo.
Proof.
  intros Hwarm H. unfold RunTransfer in H.
  replace (0 <=? iteration) with false in H by (symmetry; apply Z.leb_gt; lia).
  destruct (nth_error _ _) as [transfer|]; [|now injection H as <-].
  destruct (exeType transfer); split_calls H; now injection H as <-.
Qed.

Lemma runTransfers_warmup (iteration : Z) (meas : Z -> Measured) (todo : list Z) :
  iteration < 0 ->
  forall exeInfo exeInfo',
  runTransfers ev iteration meas todo exeInfo = Ret exeInfo' ->
  timingOf exeInfo' = timingOf exeInfo.
Proof.
  intros Hwarm. induction todo as [|i todo IH]; intros e e' H; simpl in H.
  - now injection H as <-.
  - destruct (RunTransfer ev iteration e i (meas i)) as [e1|] eqn:E1; [|discriminate].
    simpl in H. rewrite (IH _ _ H). eapply RunTransfer_warmup; eassumption.
Qed.

Lemma runExecutors_warmup (iteration : Z) (meas : nat -> Z -> Measured) :
  iteration < 0 ->
  forall infos k infos',
  runExecutors ev iteration meas k infos = Ret infos' ->
  map timingOf infos' = map timingOf infos.
Proof.
  intros Hwarm. induction infos as [|e infos IH]; intros k infos' H; simpl in H.
  - now injection H as <-.
  - destruct (runTransfers _ _ _ _ e) as [e1|] eqn:E1; [|discriminate].
    simpl in H.
    destruct (runExecutors ev iteration meas (S k) infos) as [rest|] eqn:E2; [|discriminate].
    simpl in H. injection H as <-. simpl.
    rewrite (IH _ _ E2). f_equal. eapply runTransfers_warmup; eassumption.
Qed.

Lemma iterationStep_warmup (iteration : Z) (st st' : LoopState) (im : IterationMeasure) :
  iteration < 0 ->
  iterationStep ev iteration st im = Ret st' ->
  map timingOf (exeInfos st') = map timingOf (exeInfos st) /\
  totalCpuTime st' = totalCpuTime st /\
  numTimedIterations st' = numTimedIterations st.
Proof.
  intros Hwarm H. unfold iterationStep in H.
  replace (0 <=? iteration) with false in H by (symmetry; apply Z.leb_gt; lia).
  destruct (runExecutors _ _ _ _ _) as [infos|] eqn:E; [|discriminate].
  simpl in H.
  destruct (if alwaysValidate ev then _ else _); [|discriminate].
  simpl in H. injection H as <-. simpl.
  split; [|split; reflexivity].
  eapply runExecutors_warmup; eassumption.
Qed.

(** On a machine whose calls succeed [RunTransfer] returns. *)
Lemma RunTransfer_returns (iteration : Z) (exeInfo : ExecutorInfo) (transferIdx : Z)
    (m : Measured) :
  (forall c, hipSuccess c = true) -> (forall node, numa_run_on_node node = 0) ->
  exists exeInfo', RunTransfer ev iteration exeInfo transferIdx m = Ret exeInfo'.
Proof.
  intros Hhip Hnuma. unfold RunTransfer, HIP_CALL.
  destruct (nth_error _ _) as [transfer|]; [|eauto].
  destruct (exeType transfer); rewrite ?Hhip, ?Hnuma; cbn [bind negb Z.eqb].
  - repeat match goal with |- context [if ?b then _ else _] => destruct b end;
      rewrite ?Hhip; cbn [bind]; eauto.
  - destruct (nvcc); rewrite ?Hhip; cbn [bind];
      destruct (0 <=? iteration); rewrite ?Hhip; cbn [bind];
      destruct (useSingleStream ev); eauto.
  - repeat match goal with |- context [if ?b then _ else _] => destruct b end;
      rewrite ?Hhip; cbn [bind]; rewrite ?Hhip; cbn [bind]; eauto.
Qed.




(** C9: in a warmup iteration (index below 0), for every kind of
    executor, a call of [RunTransfer] that returns leaves the time of
    every transfer, its samples, and the total time of the executor as
    they were, and the iteration counts neither as a timed iteration nor
    towards the total CPU time; on a machine whose calls succeed the
    call does return. *)
Theorem C9_warmup_leaves_timing (iteration : Z) :
  iteration < 0 ->
  (forall exeInfo transferIdx m exeInfo',
     RunTransfer ev iteration exeInfo transferIdx m = Ret exeInfo' ->
     timingOf exeInfo' = timingOf exeInfo) /\
  (forall st im st',
     iterationStep ev iteration st im = Ret st' ->
     map timingOf (exeInfos st') = map timingOf (exeInfos st) /\
     totalCpuTime st' = totalCpuTime st /\
     numTimedIterations st' = numTimedIterations st) /\
  ((forall c, hipSuccess c = true) -> (forall node, numa_run_on_node node = 0) ->
   forall exeInfo transferIdx m,
     exists exeInfo', RunTransfer ev iteration exeInfo transferIdx m = Ret exeInfo').
Proof.
  intros Hwarm. split; [|split].
  - intros e idx m e' H. eapply RunTransfer_warmup; eassumption.
  - intros st im st' H. eapply iterationStep_warmup; eassumption.
  - intros Hhip Hnuma e idx m. now apply RunTransfer_returns.
Qed.

End WithRuntime.

(** Iteration -1 on the sample machine. *)
Lemma C9_warmup_leaves_timing_witness :
  (forall exeInfo transferIdx m exeInfo',
     @RunTransfer sampleRuntime (sampleEnv true true) (-1) exeInfo transferIdx m = Ret exeInfo' ->
     timingOf exeInfo' = timingOf exeInfo) /\
  (forall st im st',
     @iterationStep sampleRuntime ReferenceSpec.binary32Ops (sampleEnv true true) (-1) st im
       = Ret st' ->
     map timingOf (exeInfos st') = map timingOf (exeInfos st) /\
     totalCpuTime st' = totalCpuTime st /\
     numTimedIterations st' = numTimedIterations st) /\
  ((forall c, @hipSuccess sampleRuntime c = true) ->
   (forall node, @numa_run_on_node sampleRuntime node = 0) ->
   forall exeInfo transferIdx m,
     exists exeInfo',
       @RunTransfer sampleRuntime (sampleEnv true true) (-1) exeInfo transferIdx m
         = Ret exeInfo').
Proof.
  apply (@C9_warmup_leaves_timing sampleRuntime ReferenceSpec.binary32Ops
           (sampleEnv true true) (-1)).
  lia.
Defined.

(** A warmup iteration of the three sample executors: the kernel's
    array is new, the times are not. *)
Example warmup_iteration :
  option_map (fun st => (map timingOf (exeInfos st), numTimedIterations st))
    (match @iterationStep sampleRuntime ReferenceSpec.binary32Ops (sampleEnv true true)
             (-1) sampleState sampleIteration with
     | Ret st => Some st
     | Exit _ _ => None
     end)
  = Some (map timingOf (exeInfos sampleState), 0).
Proof. vm_compute. reflexivity. Qed.

(** A timed one: the transfer on the kernel executor took
    [(950 - 100) / 100] ms by its timestamps, the executor 2 ms; the DMA
    transfer 2 ms; the host transfer 3000 ms. *)
Example timed_iteration :
  option_map (fun st => (map (fun e => map transferTime (transfers e)) (exeInfos st),
                         map totalTime (exeInfos st),
                         numTimedIterations st, totalCpuTime st))
    (match @iterationStep sampleRuntime ReferenceSpec.binary32Ops (sampleEnv true true)
             0 sampleState sampleIteration with
     | Ret st => Some st
     | Exit _ _ => None
     end)
  = Some ([[8.5%float]; [2%float]; [3000%float]], [2%float; 0%float; 0%float],
          1, 1%float).
Proof. vm_compute. reflexivity. Qed.

(** One warmup and two timed iterations of the three sample executors:
    two iterations are counted, of one second each. *)
Example whole_loop :
  option_map (fun st => (numTimedIterations st, totalCpuTime st,
                         map (fun e => map transferTime (transfers e)) (exeInfos st)))
    (match @iterationLoop sampleRuntime ReferenceSpec.binary32Ops (sampleEnv true true)
             4 (-1) sampleState (fun _ => sampleIteration) with
     | Some (Ret st) => Some st
     | _ => None
     end)
  = Some (2, 2%float, [[17%float]; [4%float]; [6000%float]]).
Proof. vm_compute. reflexivity. Qed.

End DispatcherFacts.

(** ** Block ordering *)

Module BlockOrderFacts.
Import Dispatcher BlockOrder BlockOrderSpec.

(** *** Lists changed at one index *)

Lemma update_nth_length {A : Type} (f : A -> A) (l : list A) :
  forall i, length (update_nth i f l) = length l.
Proof.
  induction l as [|x l IH]; intros [|i]; simpl; try reflexivity.
  now rewrite IH.
Qed.

Lemma nth_update_nth {A : Type} (f : A -> A) (d : A) (l : list A) :
  forall i j,
  nth j (update_nth i f l) d =
    if ((i =? j) && (j <? length l))%nat then f (nth j l d) else nth j l d.
Proof.
  induction l as [|x l IH]; intros i j.
  - destruct i, j; simpl; rewrite ?andb_false_r; reflexivity.
  - destruct i as [|i], j as [|j]; simpl; try reflexivity.
    rewrite IH. reflexivity.
Qed.

(** *** One push *)

Lemma push_shape (j k : nat) (ts : list Transfer) (temp : list SubExecParam.t) :
  sameShape ts (fst (push j k (ts, temp))).
Proof.
  unfold sameShape, push. cbn [fst]. split; [apply update_nth_length|].
  intros i. rewrite nth_update_nth.
  destruct ((j =? i) && (i <? length ts))%nat; split; reflexivity.
Qed.

Lemma sameShape_refl (ts : list Transfer) : sameShape ts ts.
Proof. split; [reflexivity|]. intros j. split; reflexivity. Qed.

Lemma sameShape_trans (ts1 ts2 ts3 : list Transfer) :
  sameShape ts1 ts2 -> sameShape ts2 ts3 -> sameShape ts1 ts3.
Proof.
  intros [L12 H12] [L23 H23]. split; [congruence|].
  intros j. destruct (H12 j), (H23 j). split; congruence.
Qed.

Lemma unitOf_shape (ts ts' : list Transfer) (p : nat * nat) :
  sameShape ts ts' -> unitOf ts' p = unitOf ts p.
Proof. intros [_ H]. unfold unitOf. now rewrite (proj2 (H (fst p))). Qed.

(** *** A run of pushes *)

(** Pushing the pairs of [L] appends their units to the array, and to
    the record of every transfer the positions of its own pairs. *)
Lemma placeShuffled_spec (L : list (nat * nat)) :
  forall ts temp,
  Z.of_nat (length temp) + Z.of_nat (length L) < 2 ^ 31 ->
  snd (placeShuffled L (ts, temp)) = temp ++ map (unitOf ts) L /\
  sameShape ts (fst (placeShuffled L (ts, temp))) /\
  forall j, (j < length ts)%nat ->
    subExecIdx (nth j (fst (placeShuffled L (ts, temp))) nullTransfer)
      = subExecIdx (nth j ts nullTransfer) ++ positionsFrom (length temp) j L.
Proof.
  induction L as [|[j0 k0] L IH]; intros ts temp Hfit.
  - cbn. rewrite !app_nil_r. split; [reflexivity|]. split; [apply sameShape_refl|].
    intros j _. now rewrite app_nil_r.
  - unfold placeShuffled in *. cbn [fold_left fst snd].
    pose proof (push_shape j0 k0 ts temp) as Hshape.
    destruct (push j0 k0 (ts, temp)) as [ts1 temp1] eqn:E.
    assert (Etemp : temp1 = temp ++ [unitOf ts (j0, k0)]).
    { unfold push in E. now injection E as _ <-. }
    assert (Ets : ts1 = update_nth j0
              (fun t => set_gpuPlacement t (subExecParamGpuPtr t)
                          (subExecIdx t ++ [to_int (Z.of_nat (length temp))])) ts).
    { unfold push in E. now injection E as <- _. }
    cbn [fst] in Hshape.
    assert (Hlen1 : length temp1 = S (length temp)).
    { rewrite Etemp, length_app. simpl. lia. }
    cbn [length] in Hfit.
    destruct (IH ts1 temp1) as (Hsnd & Hsh & Hidx); [lia|].
    split; [|split].
    + rewrite Hsnd, Etemp, <- app_assoc. cbn [map app]. f_equal. f_equal.
      apply map_ext. intros p. now apply unitOf_shape.
    + eapply sameShape_trans; eassumption.
    + intros j Hj. rewrite Hidx by (rewrite (proj1 Hshape); exact Hj).
      rewrite Hlen1. cbn [positionsFrom fst].
      rewrite Ets, nth_update_nth.
      replace (j <? length ts)%nat with true by (symmetry; apply Nat.ltb_lt; exact Hj).
      rewrite andb_true_r.
      destruct (j0 =? j)%nat.
      * cbn [subExecIdx set_gpuPlacement]. rewrite to_int_small by lia.
        now rewrite <- app_assoc.
      * reflexivity.
Qed.

(** The units found at the positions of transfer [j] are those of its
    own pairs. *)
Lemma units_at_positions (u : nat * nat -> SubExecParam.t) (j : nat)
    (L : list (nat * nat)) :
  forall pre,
  map (fun i => nth (Z.to_nat i) (pre ++ map u L) nullParam)
      (positionsFrom (length pre) j L)
    = map u (filter (fun p => (fst p =? j)%nat) L).
Proof.
  induction L as [|x L IH]; intros pre; [reflexivity|].
  cbn [positionsFrom filter map].
  specialize (IH (pre ++ [u x])).
  rewrite length_app, Nat.add_1_r, <- app_assoc in IH. cbn [app] in IH.
  rewrite map_app, IH.
  destruct (fst x =? j)%nat; [|reflexivity].
  cbn [map app]. f_equal.
  rewrite Nat2Z.id, app_nth2, Nat.sub_diag by lia. reflexivity.
Qed.

(** *** All the pairs *)

Lemma map_nth_seq {A : Type} (d : A) (l : list A) :
  map (fun k => nth k l d) (seq 0 (length l)) = l.
Proof.
  induction l as [|x l IH]; [reflexivity|].
  cbn [length seq map nth]. f_equal.
  rewrite <- seq_shift, map_map. exact IH.
Qed.

Lemma flat_map_nth_seq {A B : Type} (g : A -> list B) (d : A) (l : list A) :
  flat_map (fun j => g (nth j l d)) (seq 0 (length l)) = flat_map g l.
Proof.
  induction l as [|x l IH]; [reflexivity|].
  cbn [length seq flat_map nth]. f_equal.
  rewrite <- seq_shift, flat_map_concat_map, map_map, <- flat_map_concat_map. exact IH.
Qed.

Lemma filter_flat_map {A B : Type} (f : B -> bool) (h : A -> list B) (l : list A) :
  filter f (flat_map h l) = flat_map (fun i => filter f (h i)) l.
Proof.
  induction l as [|x l IH]; [reflexivity|].
  cbn [flat_map]. now rewrite filter_app, IH.
Qed.

Lemma flat_map_only {B : Type} (X : nat -> list B) (j len : nat) : forall a,
  flat_map (fun i => if (i =? j)%nat then X i else []) (seq a len)
    = if ((a <=? j) && (j <? a + len))%nat then X j else [].
Proof.
  induction len as [|len IH]; intros a.
  - cbn [seq flat_map]. replace (a + 0)%nat with a by lia.
    destruct (a <=? j)%nat eqn:E1, (j <? a)%nat eqn:E2; try reflexivity.
    apply Nat.leb_le in E1. apply Nat.ltb_lt in E2. lia.
  - cbn [seq flat_map]. rewrite IH.
    destruct (a =? j)%nat eqn:E.
    + apply Nat.eqb_eq in E. subst a.
      replace (S j <=? j)%nat with false by (symmetry; apply Nat.leb_gt; lia).
      replace (j <=? j)%nat with true by (symmetry; apply Nat.leb_le; lia).
      replace (j <? j + S len)%nat with true by (symmetry; apply Nat.ltb_lt; lia).
      cbn. now rewrite app_nil_r.
    + apply Nat.eqb_neq in E. cbn [app].
      destruct (S a <=? j)%nat eqn:E1, (a <=? j)%nat eqn:E2;
        destruct (j <? S a + len)%nat eqn:E3, (j <? a + S len)%nat eqn:E4;
        try reflexivity;
        repeat match goal with
               | H : (_ <=? _)%nat = true |- _ => apply Nat.leb_le in H
               | H : (_ <=? _)%nat = false |- _ => apply Nat.leb_gt in H
               | H : (_ <? _)%nat = true |- _ => apply Nat.ltb_lt in H
               | H : (_ <? _)%nat = false |- _ => apply Nat.ltb_ge in H
               end; lia.
Qed.

Lemma filter_pairs_of (i j : nat) (ks : list nat) :
  filter (fun p : nat * nat => (fst p =? j)%nat) (map (pair i) ks)
    = if (i =? j)%nat then map (pair i) ks else [].
Proof.
  induction ks as [|k ks IH]; [now destruct (i =? j)%nat|].
  cbn [map filter fst]. rewrite IH. now destruct (i =? j)%nat.
Qed.

Section Pairs.
Variable ts : list Transfer.
Hypothesis Hprepared : Forall prepared ts.

Lemma prepared_nth (j : nat) : prepared (nth j ts nullTransfer).
Proof.
  destruct (Nat.lt_ge_cases j (length ts)) as [Hj|Hj].
  - rewrite Forall_forall in Hprepared. apply Hprepared. now apply nth_In.
  - rewrite nth_overflow by exact Hj. split; [cbn; lia|reflexivity].
Qed.

Lemma units_of_transfer (j : nat) :
  map (unitOf ts)
      (map (pair j) (seq 0 (Z.to_nat (numSubExecs (nth j ts nullTransfer)))))
    = subExecParam (nth j ts nullTransfer).
Proof.
  rewrite map_map. unfold unitOf. cbn [fst snd].
  rewrite <- (proj2 (prepared_nth j)). apply map_nth_seq.
Qed.

Lemma units_of_allIndices :
  map (unitOf ts) (allIndices ts) = flat_map subExecParam ts.
Proof.
  unfold allIndices. rewrite flat_map_concat_map, concat_map, map_map, <- flat_map_concat_map.
  rewrite <- (flat_map_nth_seq subExecParam nullTransfer ts).
  apply flat_map_ext. intros j. apply units_of_transfer.
Qed.

Lemma allIndices_of_transfer (j : nat) :
  (j < length ts)%nat ->
  filter (fun p => (fst p =? j)%nat) (allIndices ts)
    = map (pair j) (seq 0 (Z.to_nat (numSubExecs (nth j ts nullTransfer)))).
Proof.
  intros Hj. unfold allIndices. rewrite filter_flat_map.
  rewrite (flat_map_ext _ (fun i => if (i =? j)%nat
                 then map (pair i) (seq 0 (Z.to_nat (numSubExecs (nth i ts nullTransfer))))
                 else [])) by (intros i; apply filter_pairs_of).
  rewrite flat_map_only. cbn [Nat.leb Nat.add andb].
  replace (j <? length ts)%nat with true by (symmetry; apply Nat.ltb_lt; exact Hj).
  reflexivity.
Qed.

End Pairs.

Lemma Permutation_filter {A : Type} (f : A -> bool) (l l' : list A) :
  Permutation l l' -> Permutation (filter f l) (filter f l').
Proof.
  induction 1 as [|x l l' _ IH|x y l|l l' l'' _ IH1 _ IH2]; cbn [filter].
  - constructor.
  - destruct (f x); [now constructor|exact IH].
  - destruct (f x), (f y); try reflexivity. constructor.
  - now transitivity (filter f l').
Qed.

(** Pushes in any order of all the pairs: the array holds every unit of
    every transfer once, and every transfer, its record empty before,
    has recorded the positions of its own units. *)
Lemma placeShuffled_covers (ts : list Transfer) (L : list (nat * nat)) :
  Forall prepared ts ->
  Permutation L (allIndices ts) ->
  Z.of_nat (length L) < 2 ^ 31 ->
  Permutation (snd (placeShuffled L (ts, []))) (flat_map subExecParam ts) /\
  length (snd (placeShuffled L (ts, []))) = length L /\
  sameShape ts (fst (placeShuffled L (ts, []))) /\
  forall j, (j < length ts)%nat -> fresh (nth j ts nullTransfer) ->
    Permutation (unitsAt (snd (placeShuffled L (ts, [])))
                         (nth j (fst (placeShuffled L (ts, []))) nullTransfer))
                (subExecParam (nth j ts nullTransfer)).
Proof.
  intros Hprep Hperm Hfit.
  destruct (placeShuffled_spec L ts []) as (Hsnd & Hshape & Hidx); [cbn; lia|].
  cbn [app] in Hsnd. rewrite Hsnd.
  split; [|split; [|split]].
  - rewrite <- (units_of_allIndices ts Hprep). now apply Permutation_map.
  - apply length_map.
  - exact Hshape.
  - intros j Hj Hfresh. unfold unitsAt. rewrite (Hidx j Hj), Hfresh. cbn [app length].
    pose proof (units_at_positions (unitOf ts) j L []) as Hunits.
    cbn [app length] in Hunits. rewrite Hunits.
    rewrite <- (units_of_transfer ts Hprep j), <- (allIndices_of_transfer ts j Hj).
    apply Permutation_map. now apply Permutation_filter.
Qed.

(** *** Transfers of the same shape *)

Lemma prepared_shape (ts ts' : list Transfer) :
  sameShape ts ts' -> Forall prepared ts -> Forall prepared ts'.
Proof.
  intros [Hlen Hsame] Hprep. apply Forall_forall. intros t' Hin.
  destruct (In_nth _ _ nullTransfer Hin) as (j & Hj & <-).
  pose proof (prepared_nth ts Hprep j) as Hp. unfold prepared in *.
  destruct (Hsame j) as [-> ->]. exact Hp.
Qed.

Lemma allIndices_shape (ts ts' : list Transfer) :
  sameShape ts ts' -> allIndices ts' = allIndices ts.
Proof.
  intros [Hlen Hsame]. unfold allIndices. rewrite Hlen.
  apply flat_map_ext. intros j. now rewrite (proj1 (Hsame j)).
Qed.

Lemma roundPairs_shape (ts ts' : list Transfer) (k : nat) :
  sameShape ts ts' -> roundPairs ts' k = roundPairs ts k.
Proof.
  intros [Hlen Hsame]. unfold roundPairs. rewrite Hlen. f_equal.
  apply filter_ext. intros j. now rewrite (proj1 (Hsame j)).
Qed.

Lemma pointFirst_shape (ts : list Transfer) : sameShape ts (pointFirst ts).
Proof.
  unfold pointFirst. split; [apply update_nth_length|].
  intros j. rewrite nth_update_nth.
  destruct ((0 =? j) && (j <? length ts))%nat; split; reflexivity.
Qed.

Lemma pointFirst_subExecIdx (ts : list Transfer) (j : nat) :
  subExecIdx (nth j (pointFirst ts) nullTransfer) = subExecIdx (nth j ts nullTransfer).
Proof.
  unfold pointFirst. rewrite nth_update_nth.
  now destruct ((0 =? j) && (j <? length ts))%nat.
Qed.

(** *** Sequential order *)

Lemma placeSequential_spec (ts : list Transfer) :
  forall transferOffset temp,
  Forall prepared ts ->
  transferOffset = Z.of_nat (length temp) ->
  transferOffset + fold_right Z.add 0 (map numSubExecs ts) < 2 ^ 31 ->
  snd (placeSequential ts transferOffset temp) = temp ++ flat_map subExecParam ts /\
  sameShape ts (fst (placeSequential ts transferOffset temp)) /\
  forall tail j, (j < length ts)%nat ->
    unitsAt (snd (placeSequential ts transferOffset temp) ++ tail)
            (nth j (fst (placeSequential ts transferOffset temp)) nullTransfer)
      = subExecParam (nth j ts nullTransfer).
Proof.
  induction ts as [|t ts IH]; intros off temp Hprep Hoff Hfit.
  - cbn. rewrite app_nil_r. split; [reflexivity|]. split; [apply sameShape_refl|].
    intros tail j Hj. lia.
  - inversion Hprep as [|? ? [Hn Hlen] Hprep']; subst.
    cbn [map fold_right] in Hfit.
    assert (Hsum : 0 <= fold_right Z.add 0 (map numSubExecs ts)).
    { clear - Hprep'. induction Hprep' as [|x l [Hx _] _ IHl]; cbn; lia. }
    cbn [placeSequential fst snd flat_map].
    rewrite (to_int_small (Z.of_nat (length temp) + numSubExecs t)) by lia.
    destruct (IH (Z.of_nat (length temp) + numSubExecs t) (temp ++ subExecParam t))
      as (Hsnd & Hshape & Hunits); [exact Hprep'| |lia|].
    { rewrite length_app, Hlen. lia. }
    split; [now rewrite Hsnd, app_assoc|]. split.
    + destruct Hshape as [Hl Hs]. split; [cbn; now rewrite Hl|].
      intros [|j]; [split; reflexivity|apply Hs].
    + intros tail [|j] Hj; [|apply Hunits; cbn in Hj; lia].
      cbn [nth]. unfold unitsAt. cbn [subExecIdx set_gpuPlacement].
      rewrite map_map, Hsnd.
      rewrite <- (map_nth_seq nullParam (subExecParam t)) at 2.
      apply map_ext_in. intros k Hk. apply in_seq in Hk.
      rewrite to_int_small by lia.
      rewrite <- !app_assoc.
      rewrite Z2Nat.inj_add, !Nat2Z.id by lia.
      rewrite app_nth2_plus. apply app_nth1. lia.
Qed.

(** *** Interleaved order *)

(** A round of the inner loop pushes the pairs of the round. *)
Lemma interleaveRound_pushes (k : nat) (js : list nat) : forall st,
  fold_left (fun st j =>
               if Z.of_nat k <? numSubExecs (nth j (fst st) nullTransfer)
               then push j (Z.to_nat (Z.of_nat k)) st
               else st) js st
  = placeShuffled
      (map (fun j => (j, k))
           (filter (fun j => Z.of_nat k <? numSubExecs (nth j (fst st) nullTransfer)) js))
      st.
Proof.
  induction js as [|j js IH]; intros [ts temp]; [reflexivity|].
  cbn [fold_left filter fst].
  destruct (Z.of_nat k <? numSubExecs (nth j ts nullTransfer)) eqn:E.
  - rewrite IH, Nat2Z.id. cbn [map]. unfold placeShuffled at 2. cbn [fold_left fst snd].
    fold (placeShuffled
            (map (fun j0 => (j0, k))
               (filter (fun j0 => Z.of_nat k <? numSubExecs (nth j0 ts nullTransfer)) js))
            (push j k (ts, temp))).
    f_equal. f_equal. apply filter_ext. intros i.
    now rewrite (proj1 (proj2 (push_shape j k ts temp) i)).
  - apply (IH (ts, temp)).
Qed.

Lemma interleaveRound_spec (k : nat) (st : State) :
  interleaveRound (Z.of_nat k) st = placeShuffled (roundPairs (fst st) k) st.
Proof. unfold interleaveRound, roundPairs. apply interleaveRound_pushes. Qed.

(** *** Counting the rounds *)

Lemma filter_nth_seq_length {A : Type} (P : A -> bool) (d : A) (l : list A) :
  length (filter (fun j => P (nth j l d)) (seq 0 (length l))) = length (filter P l).
Proof.
  transitivity (length (filter P (map (fun j => nth j l d) (seq 0 (length l))))).
  - now rewrite filter_map_swap, length_map.
  - now rewrite map_nth_seq.
Qed.

Lemma roundPairs_length (ts : list Transfer) (K : nat) :
  length (roundPairs ts K)
    = length (filter (fun t => Z.of_nat K <? numSubExecs t) ts).
Proof.
  unfold roundPairs. rewrite length_map.
  apply (filter_nth_seq_length (fun t => Z.of_nat K <? numSubExecs t)).
Qed.

Lemma rounds_S (ts : list Transfer) (K : nat) :
  rounds ts (S K) = rounds ts K ++ roundPairs ts K.
Proof.
  unfold rounds. rewrite seq_S, flat_map_app. cbn. now rewrite app_nil_r.
Qed.

Lemma remaining_nonneg (ts : list Transfer) (K : nat) : 0 <= remaining ts K.
Proof. unfold remaining. induction ts as [|t ts IH]; cbn; lia. Qed.

Lemma remaining_S (ts : list Transfer) (K : nat) :
  remaining ts (S K) = remaining ts K - Z.of_nat (length (roundPairs ts K)).
Proof.
  rewrite roundPairs_length. unfold remaining.
  induction ts as [|t ts IH]; [reflexivity|].
  cbn [map fold_right filter]. rewrite IH.
  destruct (Z.of_nat K <? numSubExecs t) eqn:E;
    [apply Z.ltb_lt in E|apply Z.ltb_ge in E]; cbn [length]; lia.
Qed.

Lemma remaining_round (ts : list Transfer) (K : nat) :
  0 < remaining ts K -> (1 <= length (roundPairs ts K))%nat.
Proof.
  rewrite roundPairs_length. unfold remaining.
  induction ts as [|t ts IH]; cbn [map fold_right filter]; [lia|].
  intros H.
  destruct (Z.of_nat K <? numSubExecs t) eqn:E;
    [cbn [length]; lia|apply Z.ltb_ge in E]. apply IH. lia.
Qed.

Lemma remaining_0 (ts : list Transfer) :
  Forall prepared ts -> remaining ts 0 = fold_right Z.add 0 (map numSubExecs ts).
Proof.
  unfold remaining. induction 1 as [|t ts [Ht _] _ IH]; [reflexivity|].
  cbn [map fold_right]. rewrite IH. cbn. lia.
Qed.

Lemma rounds_length (ts : list Transfer) (K : nat) :
  Z.of_nat (length (rounds ts K)) + remaining ts K = remaining ts 0.
Proof.
  induction K as [|K IH]; [reflexivity|].
  rewrite rounds_S, length_app, remaining_S. lia.
Qed.

Lemma remaining_done (ts : list Transfer) (K j : nat) :
  remaining ts K = 0 -> numSubExecs (nth j ts nullTransfer) <= Z.of_nat K.
Proof.
  unfold remaining. revert j.
  induction ts as [|t ts IH]; intros j H.
  - destruct j; cbn; lia.
  - cbn [map fold_right] in H.
    pose proof (remaining_nonneg ts K) as Hts. unfold remaining in Hts.
    destruct j as [|j]; cbn [nth]; [lia|]. apply IH. lia.
Qed.

(** *** The pairs of the rounds are all the pairs *)

Lemma NoDup_flat_map {A B : Type} (f : A -> list B) (l : list A) :
  NoDup l ->
  (forall x, In x l -> NoDup (f x)) ->
  (forall x y b, In x l -> In y l -> In b (f x) -> In b (f y) -> x = y) ->
  NoDup (flat_map f l).
Proof.
  induction 1 as [|x l Hx Hl IH]; intros Hf Hdisj; [constructor|].
  cbn [flat_map]. apply NoDup_app.
  - apply Hf. now left.
  - apply IH.
    + intros y Hy. apply Hf. now right.
    + intros y z b Hy Hz. apply Hdisj; now right.
  - intros b Hb Hb'. apply in_flat_map in Hb' as (y & Hy & Hby).
    assert (x = y) by (apply (Hdisj x y b); [now left|now right|assumption|assumption]).
    subst y. contradiction.
Qed.

Lemma in_allIndices (ts : list Transfer) (j k : nat) :
  In (j, k) (allIndices ts) <->
  (j < length ts)%nat /\ (k < Z.to_nat (numSubExecs (nth j ts nullTransfer)))%nat.
Proof.
  unfold allIndices. rewrite in_flat_map. split.
  - intros (i & Hi & Hin). apply in_map_iff in Hin as (k' & E & Hk').
    injection E as -> ->. apply in_seq in Hi, Hk'. lia.
  - intros [Hj Hk]. exists j. split; [apply in_seq; lia|].
    apply in_map. apply in_seq. lia.
Qed.

Lemma in_rounds (ts : list Transfer) (K j k : nat) :
  In (j, k) (rounds ts K) <->
  (k < K)%nat /\ (j < length ts)%nat /\ Z.of_nat k < numSubExecs (nth j ts nullTransfer).
Proof.
  unfold rounds, roundPairs. rewrite in_flat_map. split.
  - intros (k' & Hk' & Hin). apply in_map_iff in Hin as (j' & E & Hj').
    injection E as -> ->. apply filter_In in Hj' as [Hj' Hlt].
    apply in_seq in Hk', Hj'. apply Z.ltb_lt in Hlt. lia.
  - intros (Hk & Hj & Hlt). exists k. split; [apply in_seq; lia|].
    apply (in_map (fun j0 => (j0, k))). apply filter_In. split; [apply in_seq; lia|].
    now apply Z.ltb_lt.
Qed.

Lemma NoDup_allIndices (ts : list Transfer) : NoDup (allIndices ts).
Proof.
  unfold allIndices. apply NoDup_flat_map.
  - apply seq_NoDup.
  - intros j _. apply Finite.Injective_map_NoDup; [|apply seq_NoDup].
    intros a b E. now injection E.
  - intros i j [a b] _ _ Hi Hj.
    apply in_map_iff in Hi as (? & E1 & _), Hj as (? & E2 & _). congruence.
Qed.

Lemma NoDup_rounds (ts : list Transfer) (K : nat) : NoDup (rounds ts K).
Proof.
  unfold rounds, roundPairs. apply NoDup_flat_map.
  - apply seq_NoDup.
  - intros k _. apply Finite.Injective_map_NoDup; [|apply NoDup_filter, seq_NoDup].
    intros a b E. now injection E.
  - intros i j [a b] _ _ Hi Hj.
    apply in_map_iff in Hi as (? & E1 & _), Hj as (? & E2 & _). congruence.
Qed.

Lemma rounds_all (ts : list Transfer) (K : nat) :
  remaining ts K = 0 -> Permutation (rounds ts K) (allIndices ts).
Proof.
  intros Hdone. apply NoDup_Permutation; [apply NoDup_rounds|apply NoDup_allIndices|].
  intros [j k]. rewrite in_rounds, in_allIndices.
  pose proof (remaining_done ts K j Hdone). split.
  - intros (Hk & Hj & Hlt). split; [exact Hj|]. lia.
  - intros (Hj & Hk). split; [|split; [exact Hj|]]; lia.
Qed.

(** *** The outer loop of the interleaved order *)

Lemma placeShuffled_app (L1 L2 : list (nat * nat)) (st : State) :
  placeShuffled (L1 ++ L2) st = placeShuffled L2 (placeShuffled L1 st).
Proof. unfold placeShuffled. apply fold_left_app. Qed.

(** With fuel for every unit and one round more, the loop ends, after
    the rounds that push every pair. *)
Lemma interleaveLoop_runs (ts : list Transfer) (total : Z) :
  total = remaining ts 0 -> total < 2 ^ 31 ->
  forall fuel K,
  Z.of_nat K <= Z.of_nat (length (rounds ts K)) ->
  remaining ts K < Z.of_nat fuel ->
  exists K',
    interleaveLoop fuel (Z.of_nat K) total (placeShuffled (rounds ts K) (ts, []))
      = Some (placeShuffled (rounds ts K') (ts, [])) /\
    remaining ts K' = 0.
Proof.
  intros Htotal Hfit. induction fuel as [|fuel IH]; intros K HK Hrem.
  - pose proof (remaining_nonneg ts K). lia.
  - pose proof (remaining_nonneg ts K) as Hnn.
    pose proof (rounds_length ts K) as Hlen.
    destruct (placeShuffled_spec (rounds ts K) ts []) as (Hsnd & Hshape & _);
      [cbn [length]; lia|].
    cbn [app] in Hsnd.
    cbn [interleaveLoop]. rewrite Hsnd, length_map.
    unfold to_size_t. rewrite Z.mod_small by lia.
    destruct (Z.of_nat (length (rounds ts K)) <? total) eqn:E.
    + apply Z.ltb_lt in E.
      pose proof (remaining_round ts K ltac:(lia)) as Hround.
      rewrite interleaveRound_spec, (roundPairs_shape ts _ K Hshape).
      rewrite <- placeShuffled_app, <- rounds_S.
      rewrite to_int_small by lia.
      replace (Z.of_nat K + 1) with (Z.of_nat (S K)) by lia.
      apply IH.
      * rewrite rounds_S, length_app. lia.
      * rewrite remaining_S. lia.
    + apply Z.ltb_ge in E. exists K. split; [reflexivity|lia].
Qed.

Lemma flat_map_subExecParam_length (ts : list Transfer) :
  Forall prepared ts ->
  Z.of_nat (length (flat_map subExecParam ts)) = fold_right Z.add 0 (map numSubExecs ts).
Proof.
  induction 1 as [|t ts [Ht Hlen] _ IH]; [reflexivity|].
  cbn [flat_map map fold_right]. rewrite length_app, Hlen. lia.
Qed.

Lemma allIndices_length (ts : list Transfer) :
  Forall prepared ts ->
  Z.of_nat (length (allIndices ts)) = fold_right Z.add 0 (map numSubExecs ts).
Proof.
  intros Hprep. rewrite <- (flat_map_subExecParam_length ts Hprep).
  now rewrite <- (units_of_allIndices ts Hprep), length_map.
Qed.

(** *** The merge *)

(** On transfers as [PrepareSubExecParams] leaves them, with no position
    recorded yet (or in sequential order, which clears the record), the
    merge returns; the array has as many entries as the executor counts
    units; it is a permutation of the units of the transfers, one after
    the other; and the positions a transfer has recorded hold its own
    units, each once. *)
Theorem merge_covers_fresh (ev : EnvVars) (shuffle : list (nat * nat) -> list (nat * nat))
    (exeInfo : ExecutorInfo) :
  Forall prepared (transfers exeInfo) ->
  countsUnits exeInfo ->
  (forall l, Permutation (shuffle l) l) ->
  blockOrder ev = ORDER_SEQUENTIAL \/ blockOrder ev = ORDER_INTERLEAVED
    \/ blockOrder ev = ORDER_RANDOM ->
  useSingleStream ev = false \/ blockOrder ev = ORDER_SEQUENTIAL
    \/ Forall fresh (transfers exeInfo) ->
  exists ts' temp,
    mergeSubExecParams ev shuffle (S (Z.to_nat (totalSubExecs exeInfo))) exeInfo
      = Some (ts', temp) /\
    Z.of_nat (length temp) = totalSubExecs exeInfo /\
    Permutation temp (flat_map subExecParam (transfers exeInfo)) /\
    sameShape (transfers exeInfo) ts' /\
    forall j, (j < length (transfers exeInfo))%nat ->
      Permutation (unitsAt temp (nth j ts' nullTransfer))
                  (subExecParam (nth j (transfers exeInfo) nullTransfer)).
Proof.
  intros Hprep [Hcount Hfit] Hshuffle Horder Hcase.
  set (ts := transfers exeInfo) in *.
  unfold mergeSubExecParams. fold ts.
  destruct (negb (useSingleStream ev) || (blockOrder ev =? ORDER_SEQUENTIAL)) eqn:Hseq.
  - (* sequential *)
    destruct (placeSequential_spec ts 0 [] Hprep eq_refl) as (Hsnd & Hshape & Hunits);
      [lia|].
    cbn [app] in Hsnd.
    exists (fst (placeSequential ts 0 [])), (snd (placeSequential ts 0 [])).
    split; [now destruct (placeSequential ts 0 [])|].
    split; [rewrite Hsnd, Hcount; now apply flat_map_subExecParam_length|].
    split; [now rewrite Hsnd|]. split; [exact Hshape|].
    intros j Hj. specialize (Hunits [] j Hj). rewrite app_nil_r in Hunits.
    now rewrite Hunits.
  - (* interleaved or random: the record of the positions starts empty *)
    apply orb_false_iff in Hseq as [Hsingle Hnotseq].
    apply negb_false_iff in Hsingle. apply Z.eqb_neq in Hnotseq.
    assert (Hfresh : Forall fresh ts).
    { destruct Hcase as [H|[H|H]]; [congruence|contradiction|exact H]. }
    pose proof (pointFirst_shape ts) as Hpf.
    pose proof (prepared_shape _ _ Hpf Hprep) as Hprep'.
    assert (Hfresh' : forall j, fresh (nth j (pointFirst ts) nullTransfer)).
    { intros j. unfold fresh. rewrite pointFirst_subExecIdx.
      destruct (Nat.lt_ge_cases j (length ts)) as [Hj|Hj].
      - rewrite Forall_forall in Hfresh. apply Hfresh. now apply nth_In.
      - now rewrite nth_overflow. }
    assert (Hall : Z.of_nat (length (allIndices (pointFirst ts))) = totalSubExecs exeInfo).
    { rewrite (allIndices_shape _ _ Hpf), Hcount. now apply allIndices_length. }
    assert (Hcovers : forall L, Permutation L (allIndices (pointFirst ts)) ->
      Z.of_nat (length (snd (placeShuffled L (pointFirst ts, [])))) = totalSubExecs exeInfo /\
      Permutation (snd (placeShuffled L (pointFirst ts, []))) (flat_map subExecParam ts) /\
      sameShape ts (fst (placeShuffled L (pointFirst ts, []))) /\
      forall j, (j < length ts)%nat ->
        Permutation (unitsAt (snd (placeShuffled L (pointFirst ts, [])))
                       (nth j (fst (placeShuffled L (pointFirst ts, []))) nullTransfer))
                    (subExecParam (nth j ts nullTransfer))).
    { intros L HL.
      assert (HlenL : Z.of_nat (length L) = totalSubExecs exeInfo)
        by now rewrite (Permutation_length HL).
      destruct (placeShuffled_covers (pointFirst ts) L Hprep' HL) as (P1 & P2 & P3 & P4);
        [lia|].
      split; [now rewrite P2|]. split.
      { rewrite P1. clear - Hpf. destruct Hpf as [Hl Hs].
        rewrite <- (flat_map_nth_seq subExecParam nullTransfer (pointFirst ts)).
        rewrite <- (flat_map_nth_seq subExecParam nullTransfer ts), Hl.
        apply Permutation_refl'. apply flat_map_ext. intros j. apply (Hs j). }
      split; [eapply sameShape_trans; eassumption|].
      intros j Hj. rewrite <- (proj2 (proj2 Hpf j)).
      apply P4; [now rewrite (proj1 Hpf)|apply Hfresh']. }
    destruct Horder as [Ho|[Ho|Ho]]; [contradiction| |]; rewrite Ho.
    + (* interleaved *)
      cbn [Z.eqb ORDER_INTERLEAVED Pos.eqb].
      assert (Hrem : totalSubExecs exeInfo = remaining (pointFirst ts) 0).
      { rewrite (remaining_0 _ Hprep'), <- Hall. now apply allIndices_length. }
      destruct (interleaveLoop_runs (pointFirst ts) (totalSubExecs exeInfo) Hrem Hfit
                  (S (Z.to_nat (totalSubExecs exeInfo))) 0)
        as (K' & Hloop & Hdone).
      { cbn. lia. }
      { rewrite <- Hrem. pose proof (remaining_nonneg (pointFirst ts) 0). lia. }
      change (Z.of_nat 0) with 0 in Hloop.
      change (placeShuffled (rounds (pointFirst ts) 0) (pointFirst ts, []))
        with (pointFirst ts, @nil SubExecParam.t) in Hloop.
      rewrite Hloop.
      destruct (Hcovers _ (rounds_all _ _ Hdone)) as (C1 & C2 & C3 & C4).
      destruct (placeShuffled (rounds (pointFirst ts) K') (pointFirst ts, []))
        as [ts' temp] eqn:E.
      exists ts', temp. cbn [fst snd] in *.
      split; [reflexivity|]. split; [exact C1|]. split; [exact C2|].
      split; [exact C3|exact C4].
    + (* random *)
      cbn [Z.eqb ORDER_RANDOM ORDER_INTERLEAVED Pos.eqb].
      assert (HL : Permutation (shuffle (allIndices ts)) (allIndices (pointFirst ts))).
      { rewrite (allIndices_shape _ _ Hpf). apply Hshuffle. }
      destruct (Hcovers _ HL) as (C1 & C2 & C3 & C4).
      destruct (placeShuffled (shuffle (allIndices ts)) (pointFirst ts, []))
        as [ts' temp] eqn:E.
      exists ts', temp. cbn [fst snd] in *.
      split; [reflexivity|]. split; [exact C1|]. split; [exact C2|].
      split; [exact C3|exact C4].
Qed.


(** *** The merge at work *)

(** One call, in each of the three orders: 4 units, every transfer
    pointing at its own. *)
Example merge_sequential :
  option_map (fun e => (map subExecIdx (transfers e),
                        map (indexesOwnUnits (subExecParamGpu e)) (transfers e)))
    (returned (@prepareExecutor DispatcherSpec.sampleRuntime
                 (orderEnv ORDER_SEQUENTIAL) (fun l => l) 8 groupAB))
  = Some ([[0; 1]; [2; 3]], [true; true]).
Proof. vm_compute. reflexivity. Qed.

Example merge_interleaved :
  option_map (fun e => (map subExecIdx (transfers e),
                        map (indexesOwnUnits (subExecParamGpu e)) (transfers e)))
    (returned (@prepareExecutor DispatcherSpec.sampleRuntime
                 (orderEnv ORDER_INTERLEAVED) (fun l => l) 8 groupAB))
  = Some ([[0; 2]; [1; 3]], [true; true]).
Proof. vm_compute. reflexivity. Qed.

Example merge_random :
  option_map (fun e => (map subExecIdx (transfers e),
                        map (indexesOwnUnits (subExecParamGpu e)) (transfers e)))
    (returned (@prepareExecutor DispatcherSpec.sampleRuntime
                 (orderEnv ORDER_RANDOM) (@rev (nat * nat)) 8 groupAB))
  = Some ([[2; 3]; [0; 1]], [true; true]).
Proof. vm_compute. reflexivity. Qed.

(** C4, where the code fails it: the second of two calls on the same
    transfers, in random order.  The positions of the first call are
    still recorded, and those of transfer 0 (positions 0 and 1) now hold
    units of transfer 1.  In interleaved order every position is
    recorded twice.  Sequential order clears the record and is right. *)
Lemma C4_second_call_stale_positions :
  option_map (fun e => (map subExecIdx (transfers e),
                        map (indexesOwnUnits (subExecParamGpu e)) (transfers e)))
    (returned (@twoRuns DispatcherSpec.sampleRuntime (orderEnv ORDER_RANDOM)
                 (fun l => l) (@rev (nat * nat)) groupAB))
  = Some ([[0; 1; 2; 3]; [2; 3; 0; 1]], [false; false]) /\
  option_map (fun e => (map subExecIdx (transfers e),
                        map (indexesOwnUnits (subExecParamGpu e)) (transfers e)))
    (returned (@twoRuns DispatcherSpec.sampleRuntime (orderEnv ORDER_INTERLEAVED)
                 (fun l => l) (fun l => l) groupAB))
  = Some ([[0; 2; 0; 2]; [1; 3; 1; 3]], [false; false]) /\
  option_map (fun e => (map subExecIdx (transfers e),
                        map (indexesOwnUnits (subExecParamGpu e)) (transfers e)))
    (returned (@twoRuns DispatcherSpec.sampleRuntime (orderEnv ORDER_SEQUENTIAL)
                 (fun l => l) (fun l => l) groupAB))
  = Some ([[0; 1]; [2; 3]], [true; true]).
Proof. vm_compute. repeat split. Qed.

End BlockOrderFacts.

(** ** Reading the configuration *)

Module ParserFacts.
Import Scan Parser ParserSpec Main.

Lemma skipws_length (s : string) : (String.length (skipws s) <= String.length s)%nat.
Proof.
  induction s as [|c s IH]; simpl; [lia|].
  destruct (isspace c); simpl; lia.
Qed.

Lemma digits_length (s : string) : forall acc count v count' rest,
  digits s acc count = (v, count', rest) ->
  (String.length rest + count' = String.length s + count)%nat.
Proof.
  induction s as [|c s IH]; intros acc count v count' rest H; simpl in H.
  - injection H as <- <- <-. reflexivity.
  - destruct (isdigit c).
    + apply IH in H. simpl. lia.
    + injection H as <- <- <-. reflexivity.
Qed.

(** A number takes at least one character off the string. *)
Lemma number_shorter (s : string) (neg : bool) (v : Z) (rest : string) :
  number s = Some (neg, v, rest) -> (String.length rest < String.length s)%nat.
Proof.
  unfold number. pose proof (skipws_length s) as Hws.
  destruct (skipws s) as [|c s1] eqn:E.
  - simpl. discriminate.
  - intros H.
    destruct (Ascii.eqb c "-"%char) eqn:Em; [apply Ascii.eqb_eq in Em; subst c|];
      [|destruct (Ascii.eqb c "+"%char) eqn:Ep; [apply Ascii.eqb_eq in Ep; subst c|]].
    + destruct (digits s1 0 0) as [[v0 count] rest0] eqn:D.
      apply digits_length in D.
      destruct (count =? 0)%nat eqn:C; [discriminate|].
      apply Nat.eqb_neq in C. injection H as _ _ <-. simpl in *. lia.
    + destruct (digits s1 0 0) as [[v0 count] rest0] eqn:D.
      apply digits_length in D.
      destruct (count =? 0)%nat eqn:C; [discriminate|].
      apply Nat.eqb_neq in C. injection H as _ _ <-. simpl in *. lia.
    + assert (Hc : (let '(neg0, s2) :=
                      match String c s1 with
                      | String "-"%char r => (true, r)
                      | String "+"%char r => (false, r)
                      | _ => (false, String c s1)
                      end in
                    let '(v0, count, rest0) := digits s2 0 0 in
                    if (count =? 0)%nat then None else Some (neg0, v0, rest0))
                   = (let '(v0, count, rest0) := digits (String c s1) 0 0 in
                      if (count =? 0)%nat then None else Some (false, v0, rest0))).
      { destruct c as [[] [] [] [] [] [] [] []]; try reflexivity; discriminate. }
      rewrite Hc in H. clear Hc.
      destruct (digits (String c s1) 0 0) as [[v0 count] rest0] eqn:D.
      apply digits_length in D.
      destruct (count =? 0)%nat eqn:C; [discriminate|].
      apply Nat.eqb_neq in C. injection H as _ _ <-. simpl in *. lia.
Qed.

Lemma scan_char_int_shorter (s : string) (c : ascii) (n : Z) (rest : string) :
  scan_char_int s = Some (c, n, rest) -> (String.length rest < String.length s)%nat.
Proof.
  unfold scan_char_int, scan_d. pose proof (skipws_length s) as Hws.
  destruct (skipws s) as [|c0 s1]; [discriminate|].
  destruct (number s1) as [[[neg v] rest0]|] eqn:E; [|discriminate].
  apply number_shorter in E. intros H. injection H as _ _ <-. simpl in *. lia.
Qed.


Section WithTables.
Context {tables : CharTables}.

(** The loop of [ParseMemType] never uses its fuel up: more of it
    changes nothing. *)
Lemma memTypePairs_fuel (numCpus numGpus : Z) (fuel1 : nat) :
  forall fuel2 token found memTypes memIndices,
  (String.length token < fuel1)%nat -> (String.length token < fuel2)%nat ->
  memTypePairs fuel1 token numCpus numGpus found memTypes memIndices
    = memTypePairs fuel2 token numCpus numGpus found memTypes memIndices.
Proof.
  induction fuel1 as [|fuel1 IH]; intros fuel2 token found tys idxs H1 H2; [lia|].
  destruct fuel2 as [|fuel2]; [lia|].
  simpl. destruct (scan_char_int token) as [[[c n] rest]|] eqn:E; [|reflexivity].
  apply scan_char_int_shorter in E.
  destruct (CharToMemType c) as [memType|]; [|reflexivity]. simpl.
  repeat match goal with |- context [if ?b then _ else _] => destruct b end;
    try reflexivity; apply IH; lia.
Qed.

(** A transfer that the checks of the loop let through. *)
Lemma makeTransfer_dmaSingle (src dst : list MemType * list Z) (exe : ExeType * Z)
    (n b : Z) (t : Transfer) :
  makeTransfer src dst exe n b = Ret t -> dmaSingle t.
Proof.
  unfold makeTransfer, dmaSingle.
  destruct (_ && _); [discriminate|].
  destruct (ExeType_eqb (fst exe) EXE_GPU_DMA && _) eqn:E; [discriminate|].
  intros H. injection H as <-. cbn [exeType numSrcs numDsts]. intros Hdma.
  rewrite Hdma in E. cbn [ExeType_eqb andb] in E.
  apply orb_false_iff in E as [E1 E2].
  apply Z.ltb_ge in E1, E2. lia.
Qed.

Lemma makeTransfer_dma_rejected (src dst : list MemType * list Z) (exe : ExeType * Z)
    (n b : Z) :
  fst exe = EXE_GPU_DMA ->
  1 < Z.of_nat (length (fst src)) < 2 ^ 31 \/ 1 < Z.of_nat (length (fst dst)) < 2 ^ 31 ->
  makeTransfer src dst exe n b = Exit 1 ErrDmaMultipleEndpoints.
Proof.
  intros Hdma Hmany. unfold makeTransfer. rewrite Hdma. cbn [ExeType_eqb andb].
  assert (Hs : 0 <= Z.of_nat (length (fst src))) by lia.
  assert (Hd : 0 <= Z.of_nat (length (fst dst))) by lia.
  destruct Hmany as [Hmany|Hmany].
  - rewrite (to_int_small (Z.of_nat (length (fst src)))) by lia.
    replace (Z.of_nat (length (fst src)) =? 0) with false by (symmetry; apply Z.eqb_neq; lia).
    replace (1 <? Z.of_nat (length (fst src))) with true by (symmetry; apply Z.ltb_lt; lia).
    reflexivity.
  - rewrite (to_int_small (Z.of_nat (length (fst dst)))) by lia.
    replace (Z.of_nat (length (fst dst)) =? 0) with false by (symmetry; apply Z.eqb_neq; lia).
    replace (1 <? Z.of_nat (length (fst dst))) with true by (symmetry; apply Z.ltb_lt; lia).
    rewrite andb_false_r, orb_true_r. reflexivity.
Qed.

Lemma transferLoop_Forall (P : Transfer -> Prop) (numCpus numGpus : Z)
    (advancedMode : bool) (todo : nat) :
  (forall src dst exe n b t, makeTransfer src dst exe n b = Ret t -> P t) ->
  forall i iss n b transfers ts,
  Forall P transfers ->
  transferLoop todo i advancedMode iss numCpus numGpus n b transfers = Ret ts ->
  Forall P ts.
Proof.
  intros HP. induction todo as [|todo IH]; intros i iss n b transfers ts Hacc H.
  - simpl in H. now injection H as <-.
  - simpl in H.
    destruct (if negb advancedMode then _ else _) as [[[[[[s e] d] n'] b'] iss']|];
      [|discriminate].
    cbn [bind] in H.
    destruct (ParseMemType s numCpus numGpus) as [src|]; [|discriminate]. cbn [bind] in H.
    destruct (ParseMemType d numCpus numGpus) as [dst|]; [|discriminate]. cbn [bind] in H.
    destruct (ParseExeType e numCpus numGpus) as [exe|]; [|discriminate]. cbn [bind] in H.
    destruct (makeTransfer src dst exe n' b') as [t|] eqn:Et; [|discriminate].
    cbn [bind] in H.
    apply IH in H; [exact H|].
    apply Forall_app. split; [exact Hacc|]. constructor; [|constructor].
    eapply HP; eassumption.
Qed.

Lemma ParseTransfers_Forall (P : Transfer -> Prop) (line : string) (numCpus numGpus : Z)
    (ts : list Transfer) :
  (forall src dst exe n b t, makeTransfer src dst exe n b = Ret t -> P t) ->
  ParseTransfers line numCpus numGpus = Ret ts -> Forall P ts.
Proof.
  intros HP. unfold ParseTransfers.
  destruct (read_int (blankBrackets line)) as [[n iss1]|].
  - destruct (negb (n <? 0)).
    + destruct (read_int iss1) as [[k iss2]|]; [|discriminate].
      destruct (k <=? 0); [discriminate|].
      apply transferLoop_Forall; [exact HP|constructor].
    + apply transferLoop_Forall; [exact HP|constructor].
  - intros H. injection H as <-. constructor.
Qed.

(** C6: a transfer on the DMA executor that is read with more than one
    source or more than one destination ends the process with the
    message that the DMA executor takes single endpoints; no list that
    [ParseTransfers] returns holds such a transfer; and the process ends
    while the line is parsed, before [main] hands it to
    [ExecuteTransfers], where buffers are allocated. *)
Theorem C6_dma_single_endpoints (ev : EnvVars) (line : string) (numCpus numGpus : Z) :
  (forall src dst exe n b,
     fst exe = EXE_GPU_DMA ->
     1 < Z.of_nat (length (fst src)) < 2 ^ 31 \/ 1 < Z.of_nat (length (fst dst)) < 2 ^ 31 ->
     makeTransfer src dst exe n b = Exit 1 ErrDmaMultipleEndpoints) /\
  (forall ts, ParseTransfers line numCpus numGpus = Ret ts -> Forall dmaSingle ts) /\
  (forall code why,
     ParseTransfers line (numCpuDevices ev) (numGpuDevices ev) = Exit code why ->
     forall engine numBytesPerTransfer rest testNum,
       configLoop ev engine numBytesPerTransfer (line :: rest) testNum = Exit code why).
Proof.
  split; [|split].
  - intros src dst exe n b. apply makeTransfer_dma_rejected.
  - intros ts. apply ParseTransfers_Forall. apply makeTransfer_dmaSingle.
  - intros code why H engine nb rest testNum. simpl. rewrite H. reflexivity.
Qed.

(** C10: a line whose first token is not an integer makes
    [ParseTransfers] return with no transfer, and [main] go on with the
    next line. *)
Theorem C10_unparsable_count_skips_line (ev : EnvVars)
    (engine : Z -> Z -> list Transfer -> outcome (list Transfer))
    (numBytesPerTransfer : Z) (line : string) (rest : list string) (testNum : Z)
    (numCpus numGpus : Z) :
  read_int (blankBrackets line) = None ->
  ParseTransfers line numCpus numGpus = Ret [] /\
  configLoop ev engine numBytesPerTransfer (line :: rest) testNum
    = configLoop ev engine numBytesPerTransfer rest testNum.
Proof.
  intros Hfail.
  assert (Hparse : forall c g, ParseTransfers line c g = Ret []).
  { intros c g. unfold ParseTransfers. rewrite Hfail. reflexivity. }
  split; [apply Hparse|].
  simpl. rewrite Hparse. reflexivity.
Qed.

End WithTables.

(** A DMA transfer with the two sources G0 and G1. *)
Lemma C6_dma_single_endpoints_witness :
  (forall src dst exe n b,
     fst exe = EXE_GPU_DMA ->
     1 < Z.of_nat (length (fst src)) < 2 ^ 31 \/ 1 < Z.of_nat (length (fst dst)) < 2 ^ 31 ->
     makeTransfer src dst exe n b = Exit 1 ErrDmaMultipleEndpoints) /\
  (forall ts, @ParseTransfers letterTables "1 4 (G0G1->D0->G1)" 2 2 = Ret ts ->
              Forall dmaSingle ts) /\
  (forall code why,
     @ParseTransfers letterTables "1 4 (G0G1->D0->G1)"
        (numCpuDevices (DispatcherSpec.sampleEnv true false))
        (numGpuDevices (DispatcherSpec.sampleEnv true false)) = Exit code why ->
     forall engine numBytesPerTransfer rest testNum,
       @configLoop letterTables (DispatcherSpec.sampleEnv true false) engine
          numBytesPerTransfer ("1 4 (G0G1->D0->G1)"%string :: rest) testNum
         = Exit code why).
Proof.
  exact (@C6_dma_single_endpoints letterTables (DispatcherSpec.sampleEnv true false)
           "1 4 (G0G1->D0->G1)" 2 2).
Defined.

(** The line of that witness is rejected, whatever the engine; with one
    source it is read. *)
Example dma_two_sources_rejected :
  @ParseTransfers letterTables "1 4 (G0G1->D0->G1)" 2 2 = Exit 1 ErrDmaMultipleEndpoints /\
  @configLoop letterTables (DispatcherSpec.sampleEnv true false) idleEngine 1024
     ["1 4 (G0->G0->G1)"; "1 4 (G0G1->D0->G1)"; "1 4 (G1->G1->G0)"]%string 0
    = Exit 1 ErrDmaMultipleEndpoints /\
  option_map (map (fun t => (exeType t, numSrcs t, numDsts t)))
    (match @ParseTransfers letterTables "2 4 (G0->D0->G1) (N0->D1->G1)" 2 2 with
     | Ret ts => Some ts
     | Exit _ _ => None
     end)
    = Some [(EXE_GPU_DMA, 1, 1); (EXE_GPU_DMA, 0, 1)].
Proof. vm_compute. repeat split. Qed.

(** A comment line. *)
Lemma C10_unparsable_count_skips_line_witness :
  @ParseTransfers letterTables "## two transfers" 2 2 = Ret [] /\
  @configLoop letterTables (DispatcherSpec.sampleEnv true false) idleEngine 1024
     ["## two transfers"; "1 4 (G0->G0->G1)"]%string 0
    = @configLoop letterTables (DispatcherSpec.sampleEnv true false) idleEngine 1024
        ["1 4 (G0->G0->G1)"%string] 0.
Proof.
  apply (@C10_unparsable_count_skips_line letterTables (DispatcherSpec.sampleEnv true false)
           idleEngine 1024 "## two transfers" ["1 4 (G0->G0->G1)"%string] 0 2 2).
  reflexivity.
Defined.

(** Lines that are skipped: empty, blank, a comment, a bracket first;
    and the tests counted over a file with some of them. *)
Example skipped_lines :
  map (fun line => @ParseTransfers letterTables line 2 2)
      [""; "   "; "# 1 4 (G0->G0->G1)"; "(1 4 G0->G0->G1)"; "x"]%string
    = [Ret []; Ret []; Ret []; Ret []; Ret []] /\
  @configLoop letterTables (DispatcherSpec.sampleEnv true false) idleEngine 1024
     ["# first"; "1 4 (G0->G0->G1)"; ""; "1 2 (C0->C0->G1)"]%string 0 = Ret 2.
Proof. vm_compute. repeat split. Qed.

(** C8, where the code fails it: the byte count 6 of a transfer in
    advanced mode is read and kept, the transfer is set up with 6 bytes
    a buffer, and one float of it is copied; the same count given for
    the whole run ends the process. *)
Lemma C8_transfer_bytes_unchecked :
  Main.bytesPerTransfer 67108864 (Some "6"%string) = Exit 1 (ErrBytesNotMultipleOf4 6) /\
  option_map (map numBytes)
    (match @ParseTransfers letterTables "-1 (G0->G0->G1 4 6)" 2 2 with
     | Ret ts => Some ts
     | Exit _ _ => None
     end) = Some [6] /\
  option_map (fun ts =>
      map (fun t =>
             match @Setup.setupTransfer DispatcherSpec.sampleRuntime
                     (DispatcherSpec.sampleEnv true false) 16777216 t with
             | Ret t' =>
                 Some (numBytesActual t', numBytesActual t' mod 4,
                       @allocationRequests DispatcherSpec.sampleRuntime
                          (DispatcherSpec.sampleEnv true false) 16777216 t,
                       option_map (fun p => PartitionerSpec.counts (subExecParam p))
                         (Partitioner.PrepareSubExecParams
                            (DispatcherSpec.sampleEnv true false) t'))
             | Exit _ _ => None
             end) ts)
    (match @ParseTransfers letterTables "-1 (G0->G0->G1 4 6)" 2 2 with
     | Ret ts => Some ts
     | Exit _ _ => None
     end)
    = Some [Some (6, 2, [(MEM_GPU, 0, 6); (MEM_GPU, 1, 6)], Some [1; 0; 0; 0])].
Proof. vm_compute. repeat split. Qed.

End ParserFacts.

(** ** Memory *)

Module MemoryFacts.
Import ParserSpec.

Section WithRuntime.
Context {rt : Runtime}.

(** C5: for every kind of memory and every index, asking for 0 bytes
    ends the process with the message that 0 bytes cannot be allocated;
    [AllocateMemory] does not return, with a null or any other pointer. *)
Theorem C5_zero_bytes_fatal (memType : MemType) (devIndex : Z) :
  AllocateMemory memType devIndex 0 = Exit 1 ErrAllocZeroBytes /\
  format ErrAllocZeroBytes = Some "[ERROR] Unable to allocate 0 bytes"%string /\
  (forall ptr, AllocateMemory memType devIndex 0 <> Ret ptr).
Proof.
  split; [reflexivity|]. split; [reflexivity|].
  intros ptr H. discriminate H.
Qed.

(** A transfer that is set up has the byte count [bytesActual] gives it,
    and that many bytes, and the byte offset, are asked for each of its
    buffers. *)
Lemma setupTransfer_bytes (ev : EnvVars) (N : Z) (t t' : Transfer) :
  Setup.setupTransfer ev N t = Ret t' ->
  numBytesActual t' = Setup.bytesActual N t.
Proof.
  unfold Setup.setupTransfer.
  destruct (Setup.allocateBuffers _ _ _ _ _) as [srcs|]; [|discriminate]. cbn [bind].
  destruct (Setup.allocateBuffers _ _ _ _ _) as [dsts|]; [|discriminate]. cbn [bind].
  intros H. injection H as <-. reflexivity.
Qed.

Lemma allocateBuffers_length (ev : EnvVars) (exeIsGpu : bool) (exeIndex_ bytes : Z)
    (endpoints : list (MemType * Z)) :
  forall ptrs,
  Setup.allocateBuffers ev exeIsGpu exeIndex_ bytes endpoints = Ret ptrs ->
  length ptrs = length endpoints.
Proof.
  induction endpoints as [|[memType index] rest IH]; intros ptrs H;
    cbn [Setup.allocateBuffers] in H.
  - now injection H as <-.
  - repeat match type of H with
           | bind ?m _ = _ => destruct m eqn:?; [cbn [bind] in H|discriminate H]
           end.
    injection H as <-. simpl. f_equal. now apply IH.
Qed.

End WithRuntime.

(** On the sample machine a request of 4096 bytes of device memory
    returns; so does one of pinned host memory on node 0. *)
Example allocate_some :
  @AllocateMemory DispatcherSpec.sampleRuntime MEM_GPU 0 4096 = Ret 4096 /\
  @AllocateMemory DispatcherSpec.sampleRuntime MEM_CPU 0 8192 = Ret 4096 /\
  @AllocateMemory DispatcherSpec.sampleRuntime MEM_CPU 1 8192
    = Exit 1 (ErrPagesMisplaced 2 2 1) /\
  @AllocateMemory DispatcherSpec.sampleRuntime MEM_NULL 0 8192
    = Exit 1 (ErrUnsupportedMemType MEM_NULL).
Proof. vm_compute. repeat split. Qed.

End MemoryFacts.

(** ** The partitioner: blocks and balance *)

Module PartitionerBalance.
Import Partitioner PartitionerSpec PartitionerFacts BalanceSpec.

Lemma div_bounds (a b : Z) : 0 < b -> b * (a / b) <= a < b * (a / b) + b.
Proof.
  intros Hb. pose proof (Z.div_mod a b ltac:(lia)).
  pose proof (Z.mod_pos_bound a b Hb). lia.
Qed.

Lemma cdiv_bounds (a b : Z) : 0 < b -> a <= b * cdiv a b < a + b.
Proof.
  intros Hb. unfold cdiv. pose proof (div_bounds (a + b - 1) b Hb). lia.
Qed.

Section Arithmetic.
Variables N G M : Z.
Hypothesis HN : 0 <= N < 2 ^ 62.
Hypothesis HG : 0 < G < 2 ^ 31.
Hypothesis HM : 0 <= M < 2 ^ 31.

(** The three cases of the count of a unit: past the sub-executors in
    use it is 0; the last one in use takes all that is left; the ones
    before take a whole number of blocks, and leave some. *)
Lemma subExecN_cases (i a : Z) :
  inv N G M i a ->
  let c := subExecN N G M i a in
  (M <= i -> c = 0) /\
  (M - i = 1 -> c = N - a /\ 0 < c) /\
  (2 <= M - i -> c = cdiv (N - a) G / (M - i) * G /\ 0 < c < N - a).
Proof.
  intros (Hi & Ha & Hlt & Hge). cbn zeta.
  rewrite (subExecN_exact N G M HN HG HM) by lia.
  destruct (Z.max 0 (M - i) =? 0) eqn:E.
  - apply Z.eqb_eq in E. repeat split; lia.
  - apply Z.eqb_neq in E. assert (Hi' : i < M) by lia.
    specialize (Hlt Hi'). clear Hge.
    replace (Z.max 0 (M - i)) with (M - i) by lia.
    fold (cdiv (N - a) G) in *.
    pose proof (cdiv_bounds (N - a) G ltac:(lia)) as HR.
    set (R := cdiv (N - a) G) in *.
    pose proof (div_bounds R (M - i) ltac:(lia)) as Hq.
    set (q := R / (M - i)) in *.
    split; [lia|]. split.
    + intros H1. rewrite H1 in *. assert (q = R) by lia. nia.
    + intros H2. assert (1 <= q) by nia.
      assert (q * G < N - a) by nia. rewrite Z.min_r by lia. lia.
Qed.

Variable ev : EnvVars.
Variable t : Transfer.
Variable initOffset : Z.

Let loop := subExecLoop ev t N initOffset G M.

(** A property of the state of the loop that every iteration keeps
    holds where every entry is computed. *)
Lemma subExecLoop_entries (P : Z -> Z -> Prop) :
  (forall i a, inv N G M i a -> P i a -> P (i + 1) (a + subExecN N G M i a)) ->
  forall todo i a k p,
  inv N G M i a -> P i a -> i + Z.of_nat todo < 2 ^ 31 ->
  nth_error (loop todo i a) k = Some p ->
  inv N G M (i + Z.of_nat k) (a + unitOffset (loop todo i a) k) /\
  P (i + Z.of_nat k) (a + unitOffset (loop todo i a) k) /\
  SubExecParam.N p = subExecN N G M (i + Z.of_nat k) (a + unitOffset (loop todo i a) k).
Proof.
  intros Hstep. induction todo as [|todo IH]; intros i a k p Hinv HP Hi Hk.
  - destruct k; discriminate.
  - destruct (subExecLoop_unfold N G M HN HG HM ev t initOffset todo i a Hinv Hi)
      as [E Hinv'].
    fold loop in E. rewrite E in *. destruct k as [|k].
    + simpl in Hk. injection Hk as <-.
      unfold unitOffset. cbn [firstn counts map zsum fold_right subExecEntry SubExecParam.N].
      rewrite !Z.add_0_r. auto.
    + simpl nth_error in Hk.
      apply IH in Hk; [|exact Hinv'|now apply Hstep|lia].
      unfold unitOffset in *.
      cbn [firstn counts map zsum fold_right subExecEntry SubExecParam.N].
      replace (i + Z.of_nat (S k)) with (i + 1 + Z.of_nat k) by lia.
      unfold counts, zsum in *.
      rewrite Z.add_assoc. exact Hk.
Qed.

Lemma onBlock_step (i a : Z) :
  inv N G M i a -> onBlock G M i a -> onBlock G M (i + 1) (a + subExecN N G M i a).
Proof.
  intros Hinv Hon Hnext.
  destruct (subExecN_cases i a Hinv) as (_ & _ & H2).
  destruct H2 as [-> _]; [lia|].
  rewrite Z.mod_add by lia. apply Hon. lia.
Qed.

Lemma evenly_step (i a : Z) :
  inv N G M i a -> evenly N G M i a -> evenly N G M (i + 1) (a + subExecN N G M i a).
Proof.
  intros Hinv Hev Hnext.
  destruct (subExecN_cases i a Hinv) as (_ & _ & H2).
  destruct H2 as [Hc _]; [lia|]. rewrite Hc.
  specialize (Hev ltac:(lia)).
  set (q := cdiv N G / M) in *. set (Q := cdiv (cdiv N G) M) in *.
  set (R := cdiv (N - a) G) in *.
  replace (cdiv (N - (a + R / (M - i) * G)) G) with (R - R / (M - i)).
  2:{ unfold cdiv. replace (N - (a + R / (M - i) * G) + G - 1)
        with (N - a + G - 1 + (- (R / (M - i))) * G) by lia.
      rewrite Z.div_add by lia. fold (cdiv (N - a) G). fold R. lia. }
  pose proof (div_bounds R (M - i) ltac:(lia)) as Hb.
  set (b := R / (M - i)) in *.
  replace (M - (i + 1)) with (M - i - 1) by lia.
  set (k := M - i) in *. assert (2 <= k) by lia.
  split.
  - (* q (k - 1) <= R - b, as b <= R / k and q k <= R *)
    nia.
  - destruct (Z.eq_dec R (Q * k)) as [HR|HR].
    + assert (b = Q) by nia. nia.
    + nia.
Qed.

End Arithmetic.

(** X1: every sub-executor in use starts on a block boundary; all of
    them but the last copy a whole, positive number of blocks; the last
    one in use copies what is left, to the end of the transfer; the
    sub-executors past [min(S, ceil(N/G))] copy nothing. *)
Theorem partition_on_blocks (ev : EnvVars) (t : Transfer) :
  0 <= numBytesActual t < 2 ^ 64 ->
  4 <= blockBytes ev < 2 ^ 31 ->
  0 < numSubExecs t < 2 ^ 31 ->
  exists t',
    PrepareSubExecParams ev t = Some t' /\
    forall k p, nth_error (subExecParam t') k = Some p ->
      let N := numBytesActual t / 4 in
      let G := blockBytes ev / 4 in
      let M := maxUsable N (numSubExecs t) G in
      (Z.of_nat k < M -> unitOffset (subExecParam t') k mod G = 0) /\
      (Z.of_nat k < M - 1 -> 0 < SubExecParam.N p /\ SubExecParam.N p mod G = 0) /\
      (Z.of_nat k = M - 1 ->
         0 < SubExecParam.N p /\ unitOffset (subExecParam t') k + SubExecParam.N p = N) /\
      (M <= Z.of_nat k -> SubExecParam.N p = 0).
Proof.
  intros Hbytes Hblock Hsub.
  pose proof (N_range ev t Hbytes) as HN.
  pose proof (G_range ev t Hblock) as HG.
  pose proof (maxUsable_range ev t Hbytes Hblock Hsub) as HM.
  pose proof (inv_start ev t Hbytes Hblock Hsub) as Hinv.
  cbv zeta in HN, HG, HM, Hinv.
  eexists. split; [apply (PrepareSubExecParams_eq ev t Hbytes Hblock Hsub)|].
  cbn [subExecParam set_timing set_subExecParam].
  intros k p Hk. cbv zeta.
  set (N := numBytesActual t / 4) in *. set (G := blockBytes ev / 4) in *.
  set (M := maxUsable N (numSubExecs t) G) in *.
  assert (HM' : 0 <= M < 2 ^ 31) by lia.
  apply (subExecLoop_entries N G M HN HG HM' ev t _ (onBlock G M)
           (onBlock_step N G M HN HG HM')) in Hk;
    [|exact Hinv|intros _; apply Z.mod_0_l; lia|lia].
  rewrite !Z.add_0_l in Hk. destruct Hk as (Hinv' & Hon & ->).
  destruct (subExecN_cases N G M HN HG HM' _ _ Hinv') as (H0 & H1 & H2).
  split; [exact Hon|]. split; [|split; [|exact H0]].
  - intros Hlt. destruct H2 as [-> H2]; [lia|].
    split; [lia|]. apply Z.mod_mul; lia.
  - intros Heq. destruct H1 as [-> H1]; lia.
Qed.

(** 1000 floats over 4 sub-executors in blocks of 64: 256, 256, 256
    and 232 floats, from the floats 0, 256, 512 and 768 on. *)
Lemma partition_on_blocks_witness :
  exists t',
    PrepareSubExecParams (sampleEnv 256 0) (sampleTransfer 4000 4) = Some t' /\
    forall k p, nth_error (subExecParam t') k = Some p ->
      (Z.of_nat k < 4 -> unitOffset (subExecParam t') k mod 64 = 0) /\
      (Z.of_nat k < 4 - 1 -> 0 < SubExecParam.N p /\ SubExecParam.N p mod 64 = 0) /\
      (Z.of_nat k = 4 - 1 ->
         0 < SubExecParam.N p /\ unitOffset (subExecParam t') k + SubExecParam.N p = 1000) /\
      (4 <= Z.of_nat k -> SubExecParam.N p = 0).
Proof.
  apply (partition_on_blocks (sampleEnv 256 0) (sampleTransfer 4000 4)).
  - simpl. lia.
  - simpl. lia.
  - simpl. lia.
Defined.

(** X2: the blocks are shared evenly.  With [B = ceil(N/G)] blocks and
    [M = min(S, B)] sub-executors in use, no sub-executor copies more
    than [ceil(B/M)] blocks, every one in use but the last copies at
    least [floor(B/M)] blocks, and the last one in use more than
    [floor(B/M) - 1] blocks. *)
Theorem partition_balanced (ev : EnvVars) (t : Transfer) :
  0 <= numBytesActual t < 2 ^ 64 ->
  4 <= blockBytes ev < 2 ^ 31 ->
  0 < numSubExecs t < 2 ^ 31 ->
  exists t',
    PrepareSubExecParams ev t = Some t' /\
    forall k p, nth_error (subExecParam t') k = Some p ->
      let N := numBytesActual t / 4 in
      let G := blockBytes ev / 4 in
      let M := maxUsable N (numSubExecs t) G in
      SubExecParam.N p <= cdiv (cdiv N G) M * G /\
      (Z.of_nat k < M - 1 -> cdiv N G / M * G <= SubExecParam.N p) /\
      (Z.of_nat k = M - 1 -> (cdiv N G / M - 1) * G < SubExecParam.N p).
Proof.
  intros Hbytes Hblock Hsub.
  pose proof (N_range ev t Hbytes) as HN.
  pose proof (G_range ev t Hblock) as HG.
  pose proof (maxUsable_range ev t Hbytes Hblock Hsub) as HM.
  pose proof (inv_start ev t Hbytes Hblock Hsub) as Hinv.
  cbv zeta in HN, HG, HM, Hinv.
  eexists. split; [apply (PrepareSubExecParams_eq ev t Hbytes Hblock Hsub)|].
  cbn [subExecParam set_timing set_subExecParam].
  intros k p Hk. cbv zeta.
  set (N := numBytesActual t / 4) in *. set (G := blockBytes ev / 4) in *.
  set (M := maxUsable N (numSubExecs t) G) in *.
  assert (HM' : 0 <= M < 2 ^ 31) by lia.
  assert (Hstart : evenly N G M 0 0).
  { intros HM0. rewrite !Z.sub_0_r.
    pose proof (div_bounds (cdiv N G) M ltac:(lia)).
    pose proof (cdiv_bounds (cdiv N G) M ltac:(lia)). lia. }
  apply (subExecLoop_entries N G M HN HG HM' ev t _ (evenly N G M)
           (evenly_step N G M HN HG HM')) in Hk; [|exact Hinv|exact Hstart|lia].
  rewrite !Z.add_0_l in Hk. destruct Hk as (Hinv' & Hev & ->).
  destruct (subExecN_cases N G M HN HG HM' _ _ Hinv') as (H0 & H1 & H2).
  set (i := Z.of_nat k) in *. set (a := unitOffset _ k) in *.
  assert (HQ : 0 <= cdiv (cdiv N G) M * G).
  { destruct (Z.eq_dec M 0) as [->|HM0].
    - unfold cdiv at 1. rewrite Z.div_0_r. lia.
    - pose proof (cdiv_bounds N G ltac:(lia)).
      pose proof (cdiv_bounds (cdiv N G) M ltac:(lia)). nia. }
  destruct (Z_lt_le_dec i M) as [Hlt|Hge].
  - specialize (Hev Hlt).
    pose proof (cdiv_bounds (N - a) G ltac:(lia)) as HR.
    set (R := cdiv (N - a) G) in *.
    set (q := cdiv N G / M) in *. set (Q := cdiv (cdiv N G) M) in *.
    destruct (Z.eq_dec (M - i) 1) as [E1|E1].
    + destruct (H1 E1) as [-> Hpos]. rewrite E1 in Hev.
      split; [nia|]. split; [lia|]. intros _. nia.
    + destruct H2 as [-> Hc]; [lia|].
      pose proof (div_bounds R (M - i) ltac:(lia)) as Hb.
      set (b := R / (M - i)) in *.
      assert (q <= b <= Q) by nia.
      split; [nia|]. split; [intros _; nia|lia].
  - rewrite (H0 Hge). split; [lia|]. split; lia.
Qed.

(** The same transfer: 16 blocks for 4 sub-executors, 4 blocks each. *)
Lemma partition_balanced_witness :
  exists t',
    PrepareSubExecParams (sampleEnv 256 0) (sampleTransfer 4000 4) = Some t' /\
    forall k p, nth_error (subExecParam t') k = Some p ->
      SubExecParam.N p <= 4 * 64 /\
      (Z.of_nat k < 4 - 1 -> 4 * 64 <= SubExecParam.N p) /\
      (Z.of_nat k = 4 - 1 -> (4 - 1) * 64 < SubExecParam.N p).
Proof.
  apply (partition_balanced (sampleEnv 256 0) (sampleTransfer 4000 4)).
  - simpl. lia.
  - simpl. lia.
  - simpl. lia.
Defined.

End PartitionerBalance.

(** ** What the parser lets through *)

Module ParsedFacts.
Import Scan Parser ParserSpec ParsedSpec ParserFacts.

Lemma read_int_range (s : string) (n : Z) (rest : string) :
  read_int s = Some (n, rest) -> - 2 ^ 31 <= n < 2 ^ 31.
Proof.
  unfold read_int. destruct (number s) as [[[neg v] r]|]; [|discriminate].
  destruct (_ && _) eqn:E; [|discriminate].
  intros H. injection H as <- _.
  apply andb_true_iff in E as [E1 E2].
  apply Z.leb_le in E1. apply Z.ltb_lt in E2. lia.
Qed.

Lemma scan_lu_range (s : string) (b : Z) (rest : string) :
  scan_lu s = Some (b, rest) -> 0 <= b < 2 ^ 64.
Proof.
  unfold scan_lu. destruct (number s) as [[[neg v] r]|]; [|discriminate].
  intros H. injection H as <- _.
  destruct (_ <=? v); [assert (0 < 2 ^ 64) by reflexivity; lia|].
  unfold to_size_t. apply Z.mod_pos_bound. lia.
Qed.

Lemma applyUnits_range (b : Z) (units : option ascii) :
  0 <= b < 2 ^ 64 -> 0 <= applyUnits b units < 2 ^ 64.
Proof.
  intros Hb. unfold applyUnits.
  assert (Hm : forall z, 0 <= to_size_t z < 2 ^ 64)
    by (intros z; unfold to_size_t; apply Z.mod_pos_bound; lia).
  destruct (option_map toupper units) as [c|]; [|exact Hb].
  destruct c as [[] [] [] [] [] [] [] []]; try exact Hb; apply Hm.
Qed.

Lemma combine_app_same {A B : Type} (l1 l2 : list A) (m1 m2 : list B) :
  length l1 = length m1 ->
  combine (l1 ++ l2) (m1 ++ m2) = combine l1 m1 ++ combine l2 m2.
Proof.
  revert m1. induction l1 as [|x l1 IH]; intros [|y m1] H; try discriminate.
  - reflexivity.
  - simpl. f_equal. apply IH. now injection H.
Qed.

Section WithTables.
Context {tables : CharTables}.
Variables numCpus numGpus : Z.

(** The loop of [ParseMemType] keeps the two lists in step, and lets no
    index through that is not one of a device of its kind. *)
Lemma memTypePairs_ok (fuel : nat) :
  forall token found memTypes memIndices found' memTypes' memIndices',
  endpointsOk numCpus numGpus memTypes memIndices ->
  memTypePairs fuel token numCpus numGpus found memTypes memIndices
    = Ret (found', memTypes', memIndices') ->
  endpointsOk numCpus numGpus memTypes' memIndices'.
Proof.
  induction fuel as [|fuel IH]; intros token found tys idxs found' tys' idxs' Hok H.
  - simpl in H. now injection H as _ <- <-.
  - cbn [memTypePairs] in H. destruct (scan_char_int token) as [[[c n] rest]|];
      [|now injection H as _ <- <-].
    destruct (CharToMemType c) as [memType|]; [|discriminate]. cbn [bind] in H.
    destruct (IsCpuType memType && _) eqn:Ecpu; [discriminate|].
    destruct (IsGpuType memType && _) eqn:Egpu; [discriminate|].
    destruct (MemType_eqb memType MEM_NULL) eqn:Enull.
    + eapply IH; eassumption.
    + eapply IH; [|eassumption].
      destruct Hok as [Hlen Hall]. split.
      * rewrite !length_app, Hlen. reflexivity.
      * rewrite combine_app_same by exact Hlen.
        apply Forall_app. split; [exact Hall|].
        constructor; [|constructor]. unfold endpointOk. cbn [fst snd]. split; [|split].
        -- intros ->. discriminate.
        -- intros Hc. rewrite Hc in Ecpu. cbn [andb] in Ecpu.
           apply orb_false_iff in Ecpu as [E1 E2].
           apply Z.ltb_ge in E1. apply Z.leb_gt in E2. lia.
        -- intros Hg. rewrite Hg in Egpu. cbn [andb] in Egpu.
           apply orb_false_iff in Egpu as [E1 E2].
           apply Z.ltb_ge in E1. apply Z.leb_gt in E2. lia.
Qed.

Lemma ParseMemType_ok (token : string) (memTypes : list MemType) (memIndices : list Z) :
  ParseMemType token numCpus numGpus = Ret (memTypes, memIndices) ->
  endpointsOk numCpus numGpus memTypes memIndices.
Proof.
  unfold ParseMemType.
  destruct (memTypePairs _ _ _ _ _ _ _) as [[[found tys] idxs]|] eqn:E; [|discriminate].
  cbn [bind]. destruct found; [|discriminate].
  intros H. injection H as <- <-.
  eapply memTypePairs_ok; [|exact E]. split; [reflexivity|constructor].
Qed.

Lemma ParseExeType_ok (token : string) (exe : ExeType * Z) :
  ParseExeType token numCpus numGpus = Ret exe -> executorOk numCpus numGpus exe.
Proof.
  unfold ParseExeType.
  destruct (scan_char_int token) as [[[c n] rest]|]; [|discriminate].
  destruct (CharToExeType c) as [exeType|]; [|discriminate]. cbn [bind].
  destruct (IsCpuType exeType && _) eqn:Ecpu; [discriminate|].
  destruct (IsGpuType exeType && _) eqn:Egpu; [discriminate|].
  intros H. injection H as <-. unfold executorOk. cbn [fst snd].
  destruct exeType; cbn [IsCpuType IsGpuType ExeType_kind andb] in Ecpu, Egpu.
  - apply orb_false_iff in Ecpu as [E1 E2].
    apply Z.ltb_ge in E1. apply Z.leb_gt in E2. lia.
  - apply orb_false_iff in Egpu as [E1 E2].
    apply Z.ltb_ge in E1. apply Z.leb_gt in E2. lia.
  - apply orb_false_iff in Egpu as [E1 E2].
    apply Z.ltb_ge in E1. apply Z.leb_gt in E2. lia.
Qed.

Lemma makeTransfer_wellFormed (src dst : list MemType * list Z) (exe : ExeType * Z)
    (n b : Z) (t : Transfer) :
  endpointsOk numCpus numGpus (fst src) (snd src) ->
  endpointsOk numCpus numGpus (fst dst) (snd dst) ->
  executorOk numCpus numGpus exe ->
  - 2 ^ 31 <= n < 2 ^ 31 -> 0 <= b < 2 ^ 64 ->
  makeTransfer src dst exe n b = Ret t ->
  wellFormed numCpus numGpus t /\ numSubExecs t = n /\ numBytes t = b.
Proof.
  intros Hsrc Hdst Hexe Hn Hb. unfold makeTransfer.
  destruct (_ && _) eqn:E0; [discriminate|].
  destruct (ExeType_eqb _ _ && _); [discriminate|].
  intros H. injection H as <-.
  split; [|split; reflexivity].
  unfold wellFormed.
  cbn [srcType srcIndex dstType dstIndex exeType exeIndex numSrcs numDsts
       numSubExecs numBytes].
  split; [exact Hsrc|]. split; [exact Hdst|]. split.
  { apply andb_false_iff in E0 as [E|E]; apply Z.eqb_neq in E; [left|right];
      intros Hnil; rewrite Hnil in E; now apply E. }
  split; [now destruct exe|].
  split; [reflexivity|]. split; [reflexivity|]. split; [exact Hn|]. split; [exact Hb|].
  unfold untouched. cbn. repeat split.
Qed.

(** The loop of [ParseTransfers]: it adds [todo] transfers, each of them
    well formed; in simple mode (not advanced) they have the number of
    sub-executors and the byte count the loop started with. *)
Lemma transferLoop_spec (advancedMode : bool) (todo : nat) :
  forall i iss n b transfers ts,
  - 2 ^ 31 <= n < 2 ^ 31 -> 0 <= b < 2 ^ 64 ->
  transferLoop todo i advancedMode iss numCpus numGpus n b transfers = Ret ts ->
  exists new,
    ts = transfers ++ new /\ length new = todo /\
    Forall (wellFormed numCpus numGpus) new /\
    (advancedMode = false ->
     Forall (fun t => numSubExecs t = n /\ numBytes t = b) new).
Proof.
  induction todo as [|todo IH]; intros i iss n b transfers ts Hn Hb H.
  - simpl in H. injection H as <-. exists []. rewrite app_nil_r.
    repeat split; constructor.
  - simpl in H.
    assert (Hread : forall r,
      (if negb advancedMode
       then r3 <- readTriplet iss i ;;
            (let '(srcMem_, exeMem, dstMem_, iss') := r3 in
             Ret (srcMem_, exeMem, dstMem_, n, b, iss'))
       else readTuple iss i) = Ret r ->
      let '(_, _, _, n', b', _) := r in
      - 2 ^ 31 <= n' < 2 ^ 31 /\ 0 <= b' < 2 ^ 64 /\
      (advancedMode = false -> n' = n /\ b' = b)).
    { intros [[[[[s e] d] n'] b'] iss'] Hr. destruct advancedMode; cbn [negb] in Hr.
      - unfold readTuple in Hr.
        destruct (read_token iss) as [[s0 iss1]|]; [|discriminate].
        destruct (read_token iss1) as [[e0 iss2]|]; [|discriminate].
        destruct (read_token iss2) as [[d0 iss3]|]; [|discriminate].
        destruct (read_int iss3) as [[n0 iss4]|] eqn:En; [|discriminate].
        destruct (read_token iss4) as [[tok iss5]|]; [|discriminate].
        destruct (scan_lu tok) as [[b0 r0]|] eqn:Eb; [|discriminate].
        injection Hr as _ _ _ <- <- _.
        apply read_int_range in En. apply scan_lu_range in Eb.
        split; [exact En|]. split; [now apply applyUnits_range|discriminate].
      - destruct (readTriplet iss i) as [[[[s0 e0] d0] iss0]|]; [|discriminate].
        cbn [bind] in Hr. injection Hr as _ _ _ <- <- _. auto. }
    destruct (if negb advancedMode then _ else _) as [[[[[[s e] d] n'] b'] iss']|];
      [|discriminate].
    specialize (Hread _ eq_refl). cbn beta iota in Hread.
    destruct Hread as (Hn' & Hb' & Hsame).
    cbn [bind] in H.
    destruct (ParseMemType s numCpus numGpus) as [src|] eqn:Es; [|discriminate].
    cbn [bind] in H.
    destruct (ParseMemType d numCpus numGpus) as [dst|] eqn:Ed; [|discriminate].
    cbn [bind] in H.
    destruct (ParseExeType e numCpus numGpus) as [exe|] eqn:Ee; [|discriminate].
    cbn [bind] in H.
    destruct (makeTransfer src dst exe n' b') as [t|] eqn:Et; [|discriminate].
    cbn [bind] in H.
    destruct src as [stys sidx], dst as [dtys didx].
    apply ParseMemType_ok in Es, Ed. apply ParseExeType_ok in Ee.
    apply makeTransfer_wellFormed in Et as (Hwf & Hnt & Hbt); auto.
    apply IH in H as (new & -> & Hlen & Hall & Hsimple); auto.
    exists (t :: new). rewrite <- app_assoc. cbn [app].
    split; [reflexivity|]. split; [simpl; now rewrite Hlen|].
    split; [now constructor|].
    intros Hadv. destruct (Hsame Hadv) as [-> ->].
    constructor; [now split|auto].
Qed.

(** X3: every transfer [ParseTransfers] returns is well formed: each
    side has as many indices as kinds and no null kind, every index is
    one of a device of its kind (below the number of CPUs, or of GPUs),
    there is a source or a destination, the executor is a device that
    exists, and nothing of a run is in it yet. *)
Theorem ParseTransfers_wellFormed (line : string) (ts : list Transfer) :
  ParseTransfers line numCpus numGpus = Ret ts ->
  Forall (wellFormed numCpus numGpus) ts.
Proof.
  unfold ParseTransfers.
  destruct (read_int (blankBrackets line)) as [[n iss1]|].
  - destruct (negb (n <? 0)).
    + destruct (read_int iss1) as [[k iss2]|] eqn:Ek; [|discriminate].
      destruct (k <=? 0); [discriminate|].
      apply read_int_range in Ek.
      intros H. apply transferLoop_spec in H as (new & -> & _ & Hall & _); [exact Hall|lia|lia].
    + intros H. apply transferLoop_spec in H as (new & -> & _ & Hall & _); [exact Hall|lia|lia].
  - intros H. injection H as <-. constructor.
Qed.

(** X4: when [ParseTransfers] returns on a line that starts with the
    number [n] (above [INT_MIN]), it returns [|n|] transfers; with
    [n > 0] (simple mode) the second number [k] of the line is at least
    1, and every transfer has [k] sub-executors and no byte count of its
    own. *)
Theorem ParseTransfers_count (line : string) (n : Z) (ts : list Transfer) :
  firstInt line = Some n ->
  - 2 ^ 31 < n ->
  ParseTransfers line numCpus numGpus = Ret ts ->
  Z.of_nat (length ts) = Z.abs n /\
  (0 < n -> exists k, secondInt line = Some k /\ 1 <= k /\
                      Forall (fun t => numSubExecs t = k /\ numBytes t = 0) ts).
Proof.
  unfold firstInt, secondInt, ParseTransfers.
  destruct (read_int (blankBrackets line)) as [[n0 iss1]|] eqn:En; [|discriminate].
  cbn [option_map fst]. intros Hn Hmin. injection Hn as ->.
  apply read_int_range in En.
  assert (Habs : to_int (Z.abs n) = Z.abs n) by (apply to_int_small; lia).
  rewrite Habs.
  destruct (n <? 0) eqn:Eneg; cbn [negb].
  - apply Z.ltb_lt in Eneg. intros H.
    apply transferLoop_spec in H as (new & -> & Hlen & _); [|lia|lia].
    split; [|lia]. cbn [app]. rewrite Hlen. lia.
  - apply Z.ltb_ge in Eneg.
    destruct (read_int iss1) as [[k iss2]|] eqn:Ek; [|discriminate].
    destruct (k <=? 0) eqn:Epos; [discriminate|]. apply Z.leb_gt in Epos.
    apply read_int_range in Ek. intros H.
    apply transferLoop_spec in H as (new & -> & Hlen & _ & Hsimple); [|lia|lia].
    cbn [app]. rewrite Hlen.
    split; [lia|]. intros _. exists k. cbn [option_map fst].
    split; [reflexivity|]. split; [lia|]. now apply Hsimple.
Qed.

End WithTables.

(** Two transfers of 4 sub-executors: GPU 0 to GPU 1 run by GPU 0, and
    CPU 0 to GPU 1 run by CPU 1 (the null source N0 is not kept). *)
Lemma ParseTransfers_wellFormed_witness :
  exists ts,
    @ParseTransfers letterTables "2 4 (G0->G0->G1) (C0N0->C1->G1)" 2 2 = Ret ts /\
    Forall (wellFormed 2 2) ts.
Proof.
  eexists. split; [reflexivity|].
  apply (@ParseTransfers_wellFormed letterTables 2 2 "2 4 (G0->G0->G1) (C0N0->C1->G1)").
  reflexivity.
Defined.

(** The same line, and one in advanced mode. *)
Lemma ParseTransfers_count_witness :
  exists ts,
    @ParseTransfers letterTables "2 4 (G0->G0->G1) (C0N0->C1->G1)" 2 2 = Ret ts /\
    Z.of_nat (length ts) = Z.abs 2 /\
    (0 < 2 -> exists k, secondInt "2 4 (G0->G0->G1) (C0N0->C1->G1)" = Some k /\ 1 <= k /\
                        Forall (fun t => numSubExecs t = k /\ numBytes t = 0) ts).
Proof.
  eexists. split; [reflexivity|].
  apply (@ParseTransfers_count letterTables 2 2 "2 4 (G0->G0->G1) (C0N0->C1->G1)" 2).
  - reflexivity.
  - lia.
  - reflexivity.
Defined.

Example parsed_lines :
  option_map (map (fun t => (srcType t, srcIndex t, (exeType t, exeIndex t),
                             (dstType t, dstIndex t), (numSubExecs t, numBytes t))))
    (match @ParseTransfers letterTables "2 4 (G0->G0->G1) (C0N0->C1->G1)" 2 2 with
     | Ret ts => Some ts
     | Exit _ _ => None
     end)
  = Some [([MEM_GPU], [0], (EXE_GPU_GFX, 0), ([MEM_GPU], [1]), (4, 0));
          ([MEM_CPU], [0], (EXE_CPU, 1), ([MEM_GPU], [1]), (4, 0))] /\
  option_map (map (fun t => (numSubExecs t, numBytes t)))
    (match @ParseTransfers letterTables "-2 (G0->G0->G1 8 1M) (G1->D1->G0 1 4096)" 2 2 with
     | Ret ts => Some ts
     | Exit _ _ => None
     end)
  = Some [(8, 1048576); (1, 4096)] /\
  @ParseTransfers letterTables "1 4 (G0->G2->G1)" 2 2 = Exit 1 (ErrGpuIndex 1 2) /\
  @ParseTransfers letterTables "1 4 (C2->G0->G1)" 2 2 = Exit 1 (ErrCpuIndex 1 2) /\
  @ParseTransfers letterTables "1 4 (N0->G0->N0)" 2 2 = Exit 1 ErrNoSrcNoDst /\
  @ParseTransfers letterTables "2 4 (G0->G0->G1)" 2 2 = Exit 1 (ErrTransferTriplet 2) /\
  @ParseTransfers letterTables "1 0 (G0->G0->G1)" 2 2 = Exit 1 ErrNumBlocks.
Proof. vm_compute. repeat split. Qed.

End ParsedFacts.

(** ** Writing a number and reading it back *)

Module DecimalFacts.
Import Scan Printer PrinterSpec.

Lemma digitChar_digit (d : Z) :
  0 <= d < 10 ->
  isdigit (digitChar d) = true /\ digit_value (digitChar d) = d /\
  isspace (digitChar d) = false /\ isalpha (digitChar d) = false /\
  toupper (digitChar d) = digitChar d.
Proof.
  intros Hd.
  assert (H : d = 0 \/ d = 1 \/ d = 2 \/ d = 3 \/ d = 4 \/ d = 5 \/ d = 6 \/ d = 7
              \/ d = 8 \/ d = 9) by lia.
  repeat (destruct H as [->|H]); try subst d; repeat split; reflexivity.
Qed.

Lemma digits_stop (tail : string) (n : Z) (k : nat) :
  stops tail -> digits tail n k = (n, k, tail).
Proof.
  destruct tail as [|c r]; [reflexivity|]. simpl. now intros ->.
Qed.

(** Reading the digits written for [n] gives [n], whatever follows. *)
Lemma digits_decimalFrom (fuel : nat) :
  forall n tail, 0 <= n < 10 ^ Z.of_nat (S fuel) ->
  exists k, digits (decimalFrom (S fuel) n tail) 0 0 = digits tail n (S k).
Proof.
  induction fuel as [|fuel IH]; intros n tail Hn;
    cbn [decimalFrom];
    pose proof (Z.mod_pos_bound n 10 ltac:(lia)) as Hm;
    destruct (digitChar_digit (n mod 10) Hm) as (Hd & Hv & _);
    destruct (n <? 10) eqn:E.
  - apply Z.ltb_lt in E. exists O. cbn [digits]. rewrite Hd, Hv.
    rewrite Z.mod_small by lia. reflexivity.
  - apply Z.ltb_ge in E. change (10 ^ Z.of_nat 1) with 10 in Hn. lia.
  - apply Z.ltb_lt in E. exists O. cbn [digits]. rewrite Hd, Hv.
    rewrite Z.mod_small by lia. reflexivity.
  - apply Z.ltb_ge in E.
    destruct (IH (n / 10) (String (digitChar (n mod 10)) tail)) as [k Hk].
    { split; [apply Z.div_pos; lia|].
      apply Z.div_lt_upper_bound; [lia|].
      rewrite (Nat2Z.inj_succ (S fuel)), Z.pow_succ_r in Hn by lia. lia. }
    exists (S k). cbn [decimalFrom] in Hk. rewrite Hk. cbn [digits]. rewrite Hd, Hv.
    f_equal. pose proof (Z.div_mod n 10 ltac:(lia)). lia.
Qed.

(** What is written starts with a digit and ends with the last digit of
    the number. *)
Lemma decimalFrom_head (fuel : nat) : forall n tail,
  0 <= n -> exists c r, decimalFrom (S fuel) n tail = String c r /\ isdigit c = true.
Proof.
  induction fuel as [|fuel IH]; intros n tail Hn.
  - cbn [decimalFrom].
    pose proof (Z.mod_pos_bound n 10 ltac:(lia)) as Hm.
    destruct (digitChar_digit (n mod 10) Hm) as (Hd & _).
    destruct (n <? 10); eauto.
  - cbn [decimalFrom].
    pose proof (Z.mod_pos_bound n 10 ltac:(lia)) as Hm.
    destruct (digitChar_digit (n mod 10) Hm) as (Hd & _).
    destruct (n <? 10); [eauto|].
    apply (IH (n / 10)). apply Z.div_pos; lia.
Qed.

Lemma append_assoc (a b c : string) : ((a ++ b) ++ c = a ++ (b ++ c))%string.
Proof. induction a as [|x a IH]; [reflexivity|]. simpl. now rewrite IH. Qed.

Lemma append_nil_r (a : string) : (a ++ EmptyString = a)%string.
Proof. induction a as [|x a IH]; [reflexivity|]. simpl. now rewrite IH. Qed.

Lemma decimalFrom_app (fuel : nat) : forall n tail,
  decimalFrom fuel n tail = (decimalFrom fuel n EmptyString ++ tail)%string.
Proof.
  induction fuel as [|fuel IH]; intros n tail; [reflexivity|].
  cbn [decimalFrom]. destruct (n <? 10); [reflexivity|].
  rewrite IH. rewrite (IH _ (String _ EmptyString)).
  rewrite append_assoc. reflexivity.
Qed.

Lemma decimalFrom_last (fuel : nat) : forall n tail,
  exists p, decimalFrom (S fuel) n tail = (p ++ String (digitChar (n mod 10)) tail)%string.
Proof.
  intros n tail. cbn [decimalFrom]. destruct (n <? 10).
  - exists EmptyString. reflexivity.
  - rewrite decimalFrom_app. eauto.
Qed.

Lemma allb_app (f : ascii -> bool) (a b : string) :
  allb f (a ++ b) = allb f a && allb f b.
Proof.
  induction a as [|c a IH]; [reflexivity|]. simpl. now rewrite IH, andb_assoc.
Qed.

Lemma decimalFrom_digits (fuel : nat) : forall n tail,
  0 <= n -> allb isdigit tail = true -> allb isdigit (decimalFrom fuel n tail) = true.
Proof.
  induction fuel as [|fuel IH]; intros n tail Hn Ht; [exact Ht|].
  cbn [decimalFrom].
  pose proof (Z.mod_pos_bound n 10 ltac:(lia)) as Hm.
  destruct (digitChar_digit (n mod 10) Hm) as (Hd & _).
  destruct (n <? 10).
  - cbn [allb]. now rewrite Hd.
  - apply IH; [apply Z.div_pos; lia|]. cbn [allb]. now rewrite Hd.
Qed.

Lemma back_app (p : string) (c : ascii) : back (p ++ String c EmptyString) = Some c.
Proof.
  induction p as [|d p IH]; [reflexivity|].
  simpl. rewrite IH. destruct (p ++ String c EmptyString)%string eqn:E; [|reflexivity].
  destruct p; discriminate.
Qed.

Lemma isdigit_not_sign (c : ascii) (r : string) (A : Type) (x y z : A) :
  isdigit c = true ->
  match String c r with
  | String "-"%char _ => x
  | String "+"%char _ => y
  | _ => z
  end = z.
Proof.
  destruct c as [[] [] [] [] [] [] [] []]; try reflexivity; discriminate.
Qed.

Lemma isdigit_not_space (c : ascii) : isdigit c = true -> isspace c = false.
Proof.
  destruct c as [[] [] [] [] [] [] [] []]; try reflexivity; discriminate.
Qed.

(** [number] on a number as it is written. *)
Lemma number_decimal (n : Z) (tail : string) :
  0 <= n < 2 ^ 64 -> stops tail ->
  number (decimalFrom 20 n tail) = Some (false, n, tail).
Proof.
  intros Hn Hstop. unfold number.
  destruct (decimalFrom_head 19 n tail) as (c & r & E & Hc); [lia|].
  destruct (digits_decimalFrom 19 n tail) as [k Hk].
  { assert (2 ^ 64 < 10 ^ Z.of_nat 20) by reflexivity. lia. }
  rewrite E in *. cbn [skipws]. rewrite (isdigit_not_space c Hc).
  assert (Hm : match String c r with
               | String "-"%char r0 => (true, r0)
               | String "+"%char r0 => (false, r0)
               | _ => (false, String c r)
               end = (false, String c r)).
  { clear -Hc. destruct c as [[] [] [] [] [] [] [] []]; try reflexivity; discriminate. }
  rewrite Hm, Hk, digits_stop by exact Hstop. reflexivity.
Qed.

Lemma number_negative (n : Z) (tail : string) :
  0 <= n < 2 ^ 64 -> stops tail ->
  number (String "-"%char (decimalFrom 20 n tail)) = Some (true, n, tail).
Proof.
  intros Hn Hstop. unfold number. cbn [skipws isspace nat_of_ascii].
  replace (isspace "-"%char) with false by reflexivity.
  destruct (digits_decimalFrom 19 n tail) as [k Hk].
  { assert (2 ^ 64 < 10 ^ Z.of_nat 20) by reflexivity. lia. }
  rewrite Hk, digits_stop by exact Hstop. reflexivity.
Qed.

Lemma number_skipws (s : string) : number (skipws s) = number s.
Proof.
  unfold number. f_equal.
  induction s as [|c s IH]; [reflexivity|].
  simpl. destruct (isspace c) eqn:E; [exact IH|]. simpl. now rewrite E.
Qed.

Lemma number_space (c : ascii) (s : string) :
  isspace c = true -> number (String c s) = number s.
Proof.
  intros Hc. rewrite <- (number_skipws (String c s)). simpl. rewrite Hc.
  apply number_skipws.
Qed.

(** A number written by [printf] is read back: [%d] by the extraction
    of an [int] and by [sscanf] with [%d], [%lu] by [sscanf] with
    [%lu], whatever follows the number that is no digit. *)
Lemma decimal_round_trip (n b : Z) (tail : string) :
  - 2 ^ 31 <= n < 2 ^ 31 -> 0 <= b < 2 ^ 64 -> stops tail ->
  read_int (decimal_d n ++ tail) = Some (n, tail) /\
  scan_d (decimal_d n ++ tail) = Some (n, tail) /\
  scan_lu (decimal_lu b ++ tail) = Some (b, tail).
Proof.
  intros Hn Hb Hstop.
  assert (Hnum : number (decimal_d n ++ tail) = Some (n <? 0, Z.abs n, tail)).
  { unfold decimal_d. destruct (n <? 0) eqn:E.
    - apply Z.ltb_lt in E. cbn [String.append].
      rewrite <- decimalFrom_app, number_negative by (auto; lia).
      repeat f_equal. lia.
    - apply Z.ltb_ge in E.
      rewrite <- decimalFrom_app, number_decimal by (auto; lia).
      repeat f_equal. lia. }
  assert (Hs : signed (n <? 0) (Z.abs n) = n).
  { unfold signed. destruct (n <? 0) eqn:E; [apply Z.ltb_lt in E|apply Z.ltb_ge in E]; lia. }
  split; [|split].
  - unfold read_int. rewrite Hnum, Hs.
    replace (- 2 ^ 31 <=? n) with true by (symmetry; apply Z.leb_le; lia).
    replace (n <? 2 ^ 31) with true by (symmetry; apply Z.ltb_lt; lia).
    reflexivity.
  - unfold scan_d. rewrite Hnum, Hs.
    rewrite Z.min_r, Z.max_r by lia. rewrite to_int_small by lia. reflexivity.
  - unfold scan_lu, decimal_lu.
    rewrite <- decimalFrom_app, number_decimal by auto.
    replace (2 ^ 64 <=? b) with false by (symmetry; apply Z.leb_gt; lia).
    unfold signed. rewrite to_size_t_small by lia. reflexivity.
Qed.

Example decimal_examples :
  decimal_d 0 = "0"%string /\ decimal_d (- 17) = "-17"%string /\
  decimal_d 2147483647 = "2147483647"%string /\
  decimal_lu 18446744073709551615 = "18446744073709551615"%string.
Proof. repeat split; reflexivity. Qed.

End DecimalFacts.

(** ** Writing transfers out and reading them back *)

Module PrinterFacts.
Import Scan Parser Printer PrinterSpec ParsedSpec ParserFacts DecimalFacts.

Lemma isalpha_facts (c : ascii) :
  isalpha c = true -> isspace c = false /\ isdigit c = false /\ blank c = c.
Proof.
  destruct c as [[] [] [] [] [] [] [] []]; intros H; try discriminate H;
    repeat split; reflexivity.
Qed.

Lemma isdigit_blank (c : ascii) : isdigit c = true -> blank c = c.
Proof.
  destruct c as [[] [] [] [] [] [] [] []]; intros H; try discriminate H; reflexivity.
Qed.

Lemma tokenChar_facts (c : ascii) :
  tokenChar c = true -> isspace c = false /\ blank c = c.
Proof.
  unfold tokenChar. intros H. apply orb_true_iff in H as [H|H].
  - apply isalpha_facts in H. tauto.
  - split; [now apply isdigit_not_space|now apply isdigit_blank].
Qed.

Lemma blankAll_app (a b : string) : blankAll (a ++ b) = (blankAll a ++ blankAll b)%string.
Proof. induction a as [|c a IH]; [reflexivity|]. simpl. now rewrite IH. Qed.

Lemma blankAll_String (c : ascii) (s : string) :
  blankAll (String c s) = String (blank c) (blankAll s).
Proof. reflexivity. Qed.

Lemma blankAll_token (w : string) : allb tokenChar w = true -> blankAll w = w.
Proof.
  induction w as [|c w IH]; [reflexivity|]. cbn [allb blankAll].
  intros H. apply andb_true_iff in H as [Hc Hw].
  rewrite (proj2 (tokenChar_facts c Hc)), IH by exact Hw. reflexivity.
Qed.

Lemma word_token (w tail : string) :
  allb tokenChar w = true -> breaks tail -> word (w ++ tail) = (w, tail).
Proof.
  intros Hw Htail. induction w as [|c w IH].
  - destruct tail as [|c r]; [reflexivity|]. simpl in *. now rewrite Htail.
  - cbn [allb] in Hw. apply andb_true_iff in Hw as [Hc Hw].
    cbn [String.append word]. rewrite (proj1 (tokenChar_facts c Hc)), IH by exact Hw.
    reflexivity.
Qed.

Lemma read_token_token (c : ascii) (w tail : string) :
  allb tokenChar (String c w) = true -> breaks tail ->
  read_token (String c w ++ tail) = Some (String c w, tail).
Proof.
  intros Hw Htail. unfold read_token.
  assert (Hc : isspace c = false).
  { cbn [allb] in Hw. apply andb_true_iff in Hw as [Hc _].
    now apply tokenChar_facts in Hc. }
  cbn [String.append skipws]. rewrite Hc.
  change (String c (w ++ tail)) with (String c w ++ tail)%string.
  now rewrite word_token.
Qed.

Lemma read_token_space (c : ascii) (s : string) :
  isspace c = true -> read_token (String c s) = read_token s.
Proof.
  intros Hc. unfold read_token. cbn [skipws]. now rewrite Hc.
Qed.

Lemma read_int_space (c : ascii) (s : string) :
  isspace c = true -> read_int (String c s) = read_int s.
Proof.
  intros Hc. unfold read_int. now rewrite number_space.
Qed.

(** The digits written for a number that is not negative. *)
Lemma decimal_d_digits (n : Z) :
  0 <= n -> allb isdigit (decimal_d n) = true /\
            exists c r, decimal_d n = String c r /\ isdigit c = true.
Proof.
  intros Hn. unfold decimal_d.
  replace (n <? 0) with false by (symmetry; apply Z.ltb_ge; lia).
  split; [now apply decimalFrom_digits|now apply decimalFrom_head].
Qed.

Lemma allb_impl (f g : ascii -> bool) (s : string) :
  (forall c, f c = true -> g c = true) -> allb f s = true -> allb g s = true.
Proof.
  intros Hfg. induction s as [|c s IH]; [reflexivity|]. cbn [allb].
  intros H. apply andb_true_iff in H as [Hc Hs]. now rewrite (Hfg c Hc), IH.
Qed.

Lemma decimal_token (n : Z) : 0 <= n -> allb tokenChar (decimal_d n) = true.
Proof.
  intros Hn. apply (allb_impl isdigit); [|now apply decimal_d_digits].
  intros c Hc. unfold tokenChar. now rewrite Hc, orb_true_r.
Qed.

Lemma decimal_lu_token (n : Z) :
  0 <= n -> allb tokenChar (decimal_lu n) = true /\
            exists c r, decimal_lu n = String c r.
Proof.
  intros Hn. unfold decimal_lu. split.
  - apply (allb_impl isdigit); [|now apply decimalFrom_digits].
    intros c Hc. unfold tokenChar. now rewrite Hc, orb_true_r.
  - destruct (decimalFrom_head 19 n EmptyString Hn) as (c & r & E & _). eauto.
Qed.

(** The byte count written by [LogTransfers] ends in a digit: it has no
    unit. *)
Lemma applyUnits_decimal (b n : Z) : applyUnits b (back (decimal_lu n)) = b.
Proof.
  unfold decimal_lu. destruct (decimalFrom_last 19 n EmptyString) as [p ->].
  rewrite back_app. unfold applyUnits. cbn [option_map].
  pose proof (Z.mod_pos_bound n 10 ltac:(lia)) as Hm.
  assert (H : n mod 10 = 0 \/ n mod 10 = 1 \/ n mod 10 = 2 \/ n mod 10 = 3
              \/ n mod 10 = 4 \/ n mod 10 = 5 \/ n mod 10 = 6 \/ n mod 10 = 7
              \/ n mod 10 = 8 \/ n mod 10 = 9) by lia.
  repeat (destruct H as [->|H]); try rewrite H; reflexivity.
Qed.

Section WithTables.
Context {tables : CharTables}.
Variable memTypeLetter : MemType -> ascii.
Variable exeTypeLetter : ExeType -> ascii.
Hypothesis Hletters : lettersAgree memTypeLetter exeTypeLetter.
Variables numCpus numGpus : Z.
Hypothesis HnumCpus : numCpus <= 2 ^ 31.
Hypothesis HnumGpus : numGpus <= 2 ^ 31.

Lemma endpoint_index (e : MemType * Z) :
  endpointOk numCpus numGpus e -> 0 <= snd e < 2 ^ 31.
Proof.
  intros (Hnull & Hcpu & Hgpu). destruct e as [[] idx]; cbn [fst snd] in *;
    try (specialize (Hcpu eq_refl); lia); try (specialize (Hgpu eq_refl); lia).
  now contradiction Hnull.
Qed.

Lemma scan_char_int_pair (c : ascii) (idx : Z) (tail : string) :
  isalpha c = true -> 0 <= idx < 2 ^ 31 -> stops tail ->
  scan_char_int (String c (decimal_d idx ++ tail)) = Some (c, idx, tail).
Proof.
  intros Hc Hidx Hstop. unfold scan_char_int. cbn [skipws].
  rewrite (proj1 (isalpha_facts c Hc)).
  destruct (decimal_round_trip idx 0 tail) as (_ & -> & _); [lia|lia|exact Hstop|].
  reflexivity.
Qed.

(** The pair written for an endpoint, and the pairs after it. *)
Let written (pairs : list (MemType * Z)) : string :=
  concatAll (map (fun e => String (memTypeLetter (fst e)) (decimal_d (snd e))) pairs).

Lemma written_stops (pairs : list (MemType * Z)) : stops (written pairs).
Proof.
  destruct pairs as [|e pairs]; [exact I|]. cbn.
  destruct (Hletters) as [Hmem _]. destruct (Hmem (fst e)) as [Ha _].
  now apply isalpha_facts in Ha.
Qed.

Lemma memTypePairs_written (pairs : list (MemType * Z)) :
  forall fuel found tys idxs,
  Forall (endpointOk numCpus numGpus) pairs ->
  (length pairs < fuel)%nat ->
  memTypePairs fuel (written pairs) numCpus numGpus found tys idxs
    = Ret (found || negb (length pairs =? 0)%nat, tys ++ map fst pairs, idxs ++ map snd pairs).
Proof.
  induction pairs as [|e pairs IH]; intros fuel found tys idxs Hok Hfuel.
  - destruct fuel as [|fuel]; [simpl in Hfuel; lia|].
    cbn. rewrite orb_false_r, !app_nil_r. reflexivity.
  - destruct fuel as [|fuel]; [simpl in Hfuel; lia|].
    inversion Hok as [|? ? He Hrest]; subst.
    pose proof (endpoint_index e He) as Hidx.
    destruct He as (Hnull & Hcpu & Hgpu).
    destruct (Hletters) as [Hmem _]. destruct (Hmem (fst e)) as [Ha Hback].
    change (written (e :: pairs))
      with (String (memTypeLetter (fst e)) (decimal_d (snd e)) ++ written pairs)%string.
    cbn [String.append memTypePairs].
    rewrite scan_char_int_pair by (auto using written_stops).
    rewrite Hback. cbn [bind].
    assert (E1 : IsCpuType (fst e) && ((snd e <? 0) || (numCpus <=? snd e)) = false).
    { destruct (IsCpuType (fst e)) eqn:E; [|reflexivity]. specialize (Hcpu eq_refl).
      cbn [andb]. apply orb_false_iff. split; [apply Z.ltb_ge|apply Z.leb_gt]; lia. }
    assert (E2 : IsGpuType (fst e) && ((snd e <? 0) || (numGpus <=? snd e)) = false).
    { destruct (IsGpuType (fst e)) eqn:E; [|reflexivity]. specialize (Hgpu eq_refl).
      cbn [andb]. apply orb_false_iff. split; [apply Z.ltb_ge|apply Z.leb_gt]; lia. }
    rewrite E1, E2.
    assert (E3 : MemType_eqb (fst e) MEM_NULL = false)
      by (destruct (fst e) eqn:E; try reflexivity; now contradiction Hnull).
    rewrite E3, IH by (auto; simpl in Hfuel; lia).
    cbn [length Nat.eqb negb map]. rewrite orb_true_r, <- !app_assoc. cbn [app].
    destruct (length pairs =? 0)%nat; reflexivity.
Qed.

Lemma written_length (pairs : list (MemType * Z)) :
  Forall (endpointOk numCpus numGpus) pairs ->
  (length pairs <= String.length (written pairs))%nat.
Proof.
  induction 1 as [|e pairs He _ IH]; [simpl; lia|].
  change (written (e :: pairs))
    with (String (memTypeLetter (fst e)) (decimal_d (snd e)) ++ written pairs)%string.
  cbn [String.append String.length length].
  assert (Happ : forall a b, String.length (a ++ b) = (String.length a + String.length b)%nat).
  { intros a b. induction a as [|c a IHa]; [reflexivity|]. simpl. now rewrite IHa. }
  rewrite Happ. lia.
Qed.

Lemma ParseMemType_written (pairs : list (MemType * Z)) :
  Forall (endpointOk numCpus numGpus) pairs -> pairs <> [] ->
  ParseMemType (written pairs) numCpus numGpus = Ret (map fst pairs, map snd pairs).
Proof.
  intros Hok Hne. unfold ParseMemType.
  rewrite memTypePairs_written by (auto; pose proof (written_length pairs Hok); lia).
  cbn [bind orb app]. destruct pairs; [contradiction|reflexivity].
Qed.

Lemma combine_fst_snd {A B : Type} (l : list A) (m : list B) :
  length l = length m -> map fst (combine l m) = l /\ map snd (combine l m) = m.
Proof.
  revert m. induction l as [|x l IH]; intros [|y m] H; try discriminate; [now split|].
  injection H as H. destruct (IH m H) as [E1 E2]. simpl. now rewrite E1, E2.
Qed.

(** The string of the letter N without an index is no token of
    [ParseMemType]. *)
Lemma ParseMemType_N :
  ParseMemType "N" numCpus numGpus = Exit 1 (ErrMemTypeToken "N").
Proof. reflexivity. Qed.

Lemma endpoints_written (n : Z) (types : list MemType) (indices : list Z) :
  endpointsOk numCpus numGpus types indices ->
  n = Z.of_nat (length types) -> types <> [] ->
  ParseMemType (endpointsToStr memTypeLetter n types indices) numCpus numGpus
    = Ret (types, indices).
Proof.
  intros [Hlen Hall] -> Hne. unfold endpointsToStr.
  rewrite Nat2Z.id, firstn_all2 by (rewrite length_combine; lia).
  fold (written (combine types indices)).
  rewrite ParseMemType_written; [|exact Hall|].
  - destruct (combine_fst_snd types indices Hlen) as [-> ->]. reflexivity.
  - destruct types as [|x types]; [contradiction|].
    destruct indices as [|y indices]; [discriminate Hlen|]. simpl. discriminate.
Qed.

(** X5: what [SrcToStr] and [DstToStr] write for a well-formed transfer
    is read back by [ParseMemType] as the kinds and the indices of that
    side, when the side has an endpoint; for a side with none they
    write N, which [ParseMemType] rejects. *)
Theorem endpoints_read_back (t : Transfer) :
  wellFormed numCpus numGpus t ->
  Z.of_nat (length (srcType t)) < 2 ^ 31 ->
  Z.of_nat (length (dstType t)) < 2 ^ 31 ->
  ParseMemType (SrcToStr memTypeLetter t) numCpus numGpus
    = (if numSrcs t =? 0 then Exit 1 (ErrMemTypeToken "N")
       else Ret (srcType t, srcIndex t)) /\
  ParseMemType (DstToStr memTypeLetter t) numCpus numGpus
    = (if numDsts t =? 0 then Exit 1 (ErrMemTypeToken "N")
       else Ret (dstType t, dstIndex t)).
Proof.
  intros (Hsrc & Hdst & _ & _ & Hns & Hnd & _) Hls Hld.
  rewrite to_int_small in Hns, Hnd by lia.
  unfold SrcToStr, DstToStr. split.
  - destruct (numSrcs t =? 0) eqn:E; [reflexivity|]. apply Z.eqb_neq in E.
    apply endpoints_written; [exact Hsrc|exact Hns|].
    intros Hnil. rewrite Hnil in Hns. simpl in Hns. lia.
  - destruct (numDsts t =? 0) eqn:E; [reflexivity|]. apply Z.eqb_neq in E.
    apply endpoints_written; [exact Hdst|exact Hnd|].
    intros Hnil. rewrite Hnil in Hnd. simpl in Hnd. lia.
Qed.

Lemma ParseMemType_single (m : MemType) (idx : Z) :
  endpointOk numCpus numGpus (m, idx) ->
  ParseMemType (String (memTypeLetter m) (decimal_d idx)) numCpus numGpus
    = Ret ([m], [idx]).
Proof.
  intros Hok.
  rewrite <- (append_nil_r (String (memTypeLetter m) (decimal_d idx))).
  change (String (memTypeLetter m) (decimal_d idx) ++ EmptyString)%string
    with (written [(m, idx)]).
  rewrite ParseMemType_written; [reflexivity| |discriminate].
  constructor; [exact Hok|constructor].
Qed.

Lemma ParseExeType_single (e : ExeType) (idx : Z) :
  executorOk numCpus numGpus (e, idx) ->
  ParseExeType (String (exeTypeLetter e) (decimal_d idx)) numCpus numGpus = Ret (e, idx).
Proof.
  intros Hok. unfold ParseExeType.
  destruct Hletters as [_ Hexe]. destruct (Hexe e) as [Ha Hback].
  assert (Hidx : 0 <= idx < 2 ^ 31) by (destruct e; cbn in Hok; lia).
  rewrite <- (append_nil_r (decimal_d idx)).
  rewrite scan_char_int_pair by (auto; exact I).
  rewrite Hback. cbn [bind].
  assert (E1 : IsCpuType e && ((idx <? 0) || (numCpus <=? idx)) = false).
  { destruct e; cbn in Hok |- *; try reflexivity.
    apply orb_false_iff. split; [apply Z.ltb_ge|apply Z.leb_gt]; lia. }
  assert (E2 : IsGpuType e && ((idx <? 0) || (numGpus <=? idx)) = false).
  { destruct e; cbn in Hok |- *; try reflexivity;
      apply orb_false_iff; (split; [apply Z.ltb_ge|apply Z.leb_gt]); lia. }
  now rewrite E1, E2.
Qed.

Lemma read_token_skip (pre s : string) :
  allb isspace pre = true -> read_token (pre ++ s) = read_token s.
Proof.
  induction pre as [|c pre IH]; [reflexivity|]. cbn [allb String.append].
  intros H. apply andb_true_iff in H as [Hc Hpre].
  rewrite read_token_space by exact Hc. now apply IH.
Qed.

(** Reading the entry of one transfer back, with the brackets and the
    arrows already blanks: the five tokens of advanced mode. *)
Lemma readTuple_entry (t : Transfer) (pre rest : string) (i : Z) :
  single numCpus numGpus t -> allb isspace pre = true ->
  readTuple (pre ++ blankAll (logEntry memTypeLetter exeTypeLetter t ++ rest)) i
    = Ret (String (memTypeLetter (nth 0 (srcType t) MEM_NULL))
                  (decimal_d (nth 0 (srcIndex t) 0)),
           String (exeTypeLetter (exeType t)) (decimal_d (exeIndex t)),
           String (memTypeLetter (nth 0 (dstType t) MEM_NULL))
                  (decimal_d (nth 0 (dstIndex t) 0)),
           numSubExecs t, numBytes t, String " "%char (blankAll rest)).
Proof.
  intros (sty & sidx & dty & didx & Es & Esi & Ed & Edi & Hsrc & Hdst & Hexe & Hn & Hb) Hpre.
  rewrite Es, Esi, Ed, Edi. cbn [nth].
  pose proof (endpoint_index _ Hsrc) as Hsi. pose proof (endpoint_index _ Hdst) as Hdi.
  cbn [fst snd] in Hsi, Hdi.
  assert (Hei : 0 <= exeIndex t < 2 ^ 31)
    by (unfold executorOk in Hexe; cbn [fst snd] in Hexe; destruct (exeType t); lia).
  destruct Hletters as [Hmem Hexel].
  assert (Htok : forall c idx, isalpha c = true -> 0 <= idx ->
                 allb tokenChar (String c (decimal_d idx)) = true).
  { intros c idx Hc Hidx. cbn [allb]. unfold tokenChar at 1. rewrite Hc.
    cbn [orb andb]. now apply decimal_token. }
  set (S1 := String (memTypeLetter sty) (decimal_d sidx)).
  set (E1 := String (exeTypeLetter (exeType t)) (decimal_d (exeIndex t))).
  set (D1 := String (memTypeLetter dty) (decimal_d didx)).
  assert (HS1 : allb tokenChar S1 = true) by (apply Htok; [apply Hmem|lia]).
  assert (HE1 : allb tokenChar E1 = true) by (apply Htok; [apply Hexel|lia]).
  assert (HD1 : allb tokenChar D1 = true) by (apply Htok; [apply Hmem|lia]).
  assert (HN1 : allb tokenChar (decimal_d (numSubExecs t)) = true)
    by (apply decimal_token; lia).
  destruct (decimal_lu_token (numBytes t)) as (HB1 & cb & rb & Eb); [lia|].
  assert (Hblank :
    blankAll (logEntry memTypeLetter exeTypeLetter t ++ rest)
    = (String " " (String " " (S1 ++ String " " (String " " (E1 ++ String " " (String " " (D1
        ++ String " " (decimal_d (numSubExecs t) ++ String " " (decimal_lu (numBytes t)
        ++ String " " (blankAll rest))))))))))%string).
  { unfold logEntry. rewrite Es, Esi, Ed, Edi. cbn [nth]. fold S1 E1 D1.
    rewrite !append_assoc. cbn [String.append].
    repeat (rewrite blankAll_app || rewrite blankAll_String).
    rewrite (blankAll_token S1), (blankAll_token E1), (blankAll_token D1),
      (blankAll_token (decimal_d (numSubExecs t))),
      (blankAll_token (decimal_lu (numBytes t))) by assumption.
    reflexivity. }
  rewrite Hblank. clear Hblank. unfold readTuple.
  rewrite read_token_skip by exact Hpre.
  rewrite !read_token_space by reflexivity.
  unfold S1 at 1. rewrite read_token_token by (auto; reflexivity). fold S1.
  rewrite !read_token_space by reflexivity.
  unfold E1 at 1. rewrite read_token_token by (auto; reflexivity). fold E1.
  rewrite !read_token_space by reflexivity.
  unfold D1 at 1. rewrite read_token_token by (auto; reflexivity). fold D1.
  rewrite read_int_space by reflexivity.
  destruct (decimal_round_trip (numSubExecs t) (numBytes t)
              (String " " (decimal_lu (numBytes t) ++ String " " (blankAll rest))))
    as (-> & _ & _); [lia|lia|reflexivity|].
  rewrite read_token_space by reflexivity.
  rewrite Eb in HB1 |- *. rewrite read_token_token by (auto; reflexivity).
  rewrite <- Eb.
  destruct (decimal_round_trip 0 (numBytes t) EmptyString) as (_ & _ & Hlu);
    [lia|lia|exact I|].
  rewrite append_nil_r in Hlu. rewrite Hlu.
  rewrite applyUnits_decimal. reflexivity.
Qed.

Lemma makeTransfer_single (t : Transfer) :
  single numCpus numGpus t ->
  makeTransfer (srcType t, srcIndex t) (dstType t, dstIndex t) (exeType t, exeIndex t)
               (numSubExecs t) (numBytes t) = Ret (described t).
Proof.
  intros (sty & sidx & dty & didx & Es & Esi & Ed & Edi & _).
  unfold makeTransfer, described. rewrite Es, Esi, Ed, Edi. cbn [fst snd length].
  change (to_int (Z.of_nat 1)) with 1. cbn [Z.eqb andb Z.ltb Z.compare orb].
  rewrite andb_false_r. reflexivity.
Qed.

Lemma single_nth (t : Transfer) :
  single numCpus numGpus t ->
  srcType t = [nth 0 (srcType t) MEM_NULL] /\ srcIndex t = [nth 0 (srcIndex t) 0] /\
  dstType t = [nth 0 (dstType t) MEM_NULL] /\ dstIndex t = [nth 0 (dstIndex t) 0] /\
  endpointOk numCpus numGpus (nth 0 (srcType t) MEM_NULL, nth 0 (srcIndex t) 0) /\
  endpointOk numCpus numGpus (nth 0 (dstType t) MEM_NULL, nth 0 (dstIndex t) 0) /\
  executorOk numCpus numGpus (exeType t, exeIndex t).
Proof.
  intros (sty & sidx & dty & didx & Es & Esi & Ed & Edi & Hsrc & Hdst & Hexe & _).
  rewrite Es, Esi, Ed, Edi. cbn [nth]. repeat (split; [reflexivity|]).
  split; [exact Hsrc|]. split; [exact Hdst|exact Hexe].
Qed.

(** The loop of [ParseTransfers] over the entries [LogTransfers] wrote. *)
Lemma transferLoop_logged (ts : list Transfer) :
  forall i n0 b0 acc pre tail,
  Forall (single numCpus numGpus) ts -> allb isspace pre = true ->
  transferLoop (length ts) i true
    (pre ++ blankAll (concatAll (map (logEntry memTypeLetter exeTypeLetter) ts) ++ tail))
    numCpus numGpus n0 b0 acc
  = Ret (acc ++ map described ts).
Proof.
  induction ts as [|t ts IH]; intros i n0 b0 acc pre tail Hall Hpre.
  - cbn. now rewrite app_nil_r.
  - inversion Hall as [|? ? Ht Hts]; subst.
    cbn [length transferLoop negb map concatAll fold_right].
    fold (concatAll (map (logEntry memTypeLetter exeTypeLetter) ts)).
    rewrite append_assoc, readTuple_entry by assumption.
    cbn [bind].
    destruct (single_nth t Ht) as (Es & Esi & Ed & Edi & Hsrc & Hdst & Hexe).
    rewrite !ParseMemType_single, ParseExeType_single by assumption.
    cbn [bind].
    rewrite <- Es, <- Esi, <- Ed, <- Edi.
    rewrite makeTransfer_single by assumption. cbn [bind].
    change (String " " (blankAll (concatAll (map (logEntry memTypeLetter exeTypeLetter) ts)
                                   ++ tail)))
      with (" " ++ blankAll (concatAll (map (logEntry memTypeLetter exeTypeLetter) ts)
                              ++ tail))%string.
    rewrite IH by (auto; reflexivity).
    rewrite <- app_assoc. reflexivity.
Qed.

(** X6: the file [LogTransfers] writes is read back.  Of its two lines
    [ParseTransfers] skips the first, a comment, and returns for the
    second the transfers that were logged, as they are described: kinds
    and indices of the source, the executor and the destination, number
    of sub-executors and byte count. *)
Theorem LogTransfers_read_back (testNum : Z) (ts : list Transfer) :
  Forall (single numCpus numGpus) ts ->
  0 < Z.of_nat (length ts) < 2 ^ 31 ->
  map (fun line => ParseTransfers line numCpus numGpus)
      (LogTransfers memTypeLetter exeTypeLetter testNum ts)
  = [Ret []; Ret (map described ts)].
Proof.
  intros Hall Hlen. unfold LogTransfers. cbn [map].
  apply f_equal2; [reflexivity|]. apply f_equal2; [|reflexivity].
  unfold ParseTransfers.
  set (len := Z.of_nat (length ts)) in *.
  rewrite (to_int_small len) by lia.
  replace (- 1 * len) with (- len) by lia. rewrite (to_int_small (- len)) by lia.
  set (entries := concatAll (map (logEntry memTypeLetter exeTypeLetter) ts)).
  assert (Hstop : stops (blankAll (entries ++ newline))).
  { subst entries. destruct ts as [|t ts]; [simpl in len; lia|]. exact eq_refl. }
  assert (Hblank : blankBrackets (decimal_d (- len) ++ entries ++ newline)
                   = (decimal_d (- len) ++ blankAll (entries ++ newline))%string).
  { unfold decimal_d. replace (- len <? 0) with true by (symmetry; apply Z.ltb_lt; lia).
    cbn [String.append blankBrackets]. rewrite blankAll_app. f_equal. f_equal.
    apply blankAll_token. apply (allb_impl isdigit).
    - intros c Hc. unfold tokenChar. now rewrite Hc, orb_true_r.
    - apply decimalFrom_digits; [lia|reflexivity]. }
  rewrite Hblank.
  destruct (decimal_round_trip (- len) 0 (blankAll (entries ++ newline))) as (-> & _);
    [lia|lia|exact Hstop|].
  replace (- len <? 0) with true by (symmetry; apply Z.ltb_lt; lia). cbn [negb].
  replace (Z.abs (- len)) with len by lia. rewrite (to_int_small len) by lia.
  subst len. rewrite Nat2Z.id.
  change (blankAll (entries ++ newline)) with (EmptyString ++ blankAll (entries ++ newline))%string.
  subst entries. rewrite transferLoop_logged by (auto; reflexivity). reflexivity.
Qed.

End WithTables.

Lemma sample_lettersAgree :
  @lettersAgree ParserSpec.letterTables sampleMemLetter sampleExeLetter.
Proof. split; intros []; split; reflexivity. Qed.

(** A transfer from GPU 1 and fine-grained host memory 0, with no
    destination, on a machine with 2 CPUs and 2 GPUs. *)
Lemma endpoints_read_back_witness :
  @ParseMemType ParserSpec.letterTables (SrcToStr sampleMemLetter sampleTwoSources) 2 2
    = Ret ([MEM_GPU; MEM_CPU_FINE], [1; 0]) /\
  @ParseMemType ParserSpec.letterTables (DstToStr sampleMemLetter sampleTwoSources) 2 2
    = Exit 1 (ErrMemTypeToken "N").
Proof.
  apply (@endpoints_read_back ParserSpec.letterTables sampleMemLetter sampleExeLetter
           sample_lettersAgree 2 2 ltac:(lia) ltac:(lia) sampleTwoSources).
  - unfold wellFormed, endpointsOk, endpointOk, executorOk, untouched. cbn.
    repeat split; try lia; try discriminate; try (left; discriminate);
      repeat constructor; cbn; try lia; try discriminate.
  - simpl. lia.
  - simpl. lia.
Defined.

Lemma LogTransfers_read_back_witness :
  map (fun line => @ParseTransfers ParserSpec.letterTables line 2 2)
      (LogTransfers sampleMemLetter sampleExeLetter 7 sampleLogged)
  = [Ret []; Ret (map described sampleLogged)].
Proof.
  apply (@LogTransfers_read_back ParserSpec.letterTables sampleMemLetter sampleExeLetter
           sample_lettersAgree 2 2 ltac:(lia) ltac:(lia) 7 sampleLogged).
  - unfold sampleLogged.
    constructor; [|constructor; [|constructor]].
    + exists MEM_GPU, 0, MEM_CPU, 1. unfold endpointOk, executorOk. cbn.
      repeat split; try lia; discriminate.
    + exists MEM_GPU, 1, MEM_GPU, 0. unfold endpointOk, executorOk. cbn.
      repeat split; try lia; discriminate.
  - simpl. lia.
Defined.

(** The text of the two lines. *)
Example logged_text :
  LogTransfers sampleMemLetter sampleExeLetter 7 sampleLogged
    = [("# Test 7" ++ newline)%string;
       ("-2 (G0->G0->C1 4 1024) (G1->D1->G0 1 0)" ++ newline)%string] /\
  SrcToStr sampleMemLetter sampleTwoSources = "G1B0"%string.
Proof. split; reflexivity. Qed.

End PrinterFacts.

(** ** Memory: what an allocation that returns has checked *)

Module AllocationFacts.

Section WithRuntime.
Context {rt : Runtime}.

(** The loop of [CheckPages] counts the pages that are not on the
    target node. *)
Lemma checkStatus_counts (status : list Z) :
  forall i targetId m m',
  checkStatus status i targetId m = Ret m' ->
  m <= m' /\ (m' = m -> Forall (fun s => s = targetId) status).
Proof.
  induction status as [|s status IH]; intros i targetId m m' H.
  - simpl in H. injection H as <-. split; [lia|constructor].
  - simpl in H. destruct (s <? 0); [discriminate|].
    destruct (s =? targetId) eqn:E.
    + apply Z.eqb_eq in E. apply IH in H as [Hle Hall].
      split; [exact Hle|]. intros Hm. constructor; auto.
    + apply IH in H as [Hle Hall]. split; [lia|]. intros Hm. lia.
Qed.

Lemma CheckPages_ok (array numBytes targetId : Z) :
  CheckPages array numBytes targetId = Ret tt ->
  let numPages := to_size_t (numBytes + getpagesize - 1) / getpagesize in
  fst (move_pages array numPages) = 0 /\
  Forall (fun s => s = targetId)
         (firstn (Z.to_nat numPages) (snd (move_pages array numPages))).
Proof.
  unfold CheckPages. cbv zeta.
  destruct (move_pages array _) as [retCode status]. cbn [fst snd].
  destruct (retCode =? 0) eqn:E; cbn [negb]; [|discriminate].
  apply Z.eqb_eq in E.
  destruct (checkStatus _ 0 targetId 0) as [m|] eqn:Ec; [|discriminate].
  cbn [bind]. destruct (0 <? m) eqn:Em; [discriminate|]. apply Z.ltb_ge in Em.
  intros _. apply checkStatus_counts in Ec as [Hle Hall].
  split; [exact E|]. apply Hall. lia.
Qed.

(** X7: an allocation that returns was asked for at least one byte of a
    kind of memory that is no null kind, and on the NVIDIA platform of
    no fine-grained kind; when it is host memory, [move_pages] has
    answered for every page of the block, and every page is on the NUMA
    node that was asked for. *)
Theorem AllocateMemory_checked (memType : MemType) (devIndex numBytes ptr : Z) :
  AllocateMemory memType devIndex numBytes = Ret ptr ->
  numBytes <> 0 /\ memType <> MEM_NULL /\
  (nvcc = true -> memType <> MEM_CPU_FINE /\ memType <> MEM_GPU_FINE) /\
  (IsCpuType memType = true ->
   let numPages := to_size_t (numBytes + getpagesize - 1) / getpagesize in
   fst (move_pages ptr numPages) = 0 /\
   Forall (fun s => s = devIndex)
          (firstn (Z.to_nat numPages) (snd (move_pages ptr numPages)))).
Proof.
  unfold AllocateMemory.
  destruct (numBytes =? 0) eqn:E0; [discriminate|]. apply Z.eqb_neq in E0.
  intros H. split; [exact E0|].
  destruct memType; cbn [IsCpuType IsGpuType MemType_kind] in H |- *.
  - (* MEM_CPU *)
    split; [discriminate|]. split; [intros _; split; discriminate|]. intros _.
    destruct (hipSuccess _); [|discriminate]. cbn [bind] in H.
    destruct (CheckPages _ _ _) as [[]|] eqn:Ec; [|discriminate]. cbn [bind] in H.
    injection H as <-. now apply CheckPages_ok.
  - (* MEM_GPU *)
    split; [discriminate|]. split; [intros _; split; discriminate|discriminate].
  - (* MEM_CPU_FINE *)
    split; [discriminate|].
    destruct nvcc eqn:En; [discriminate|].
    split; [discriminate|]. intros _.
    unfold HIP_CALL in H. destruct (hipSuccess _); [|discriminate]. cbn [bind] in H.
    destruct (CheckPages _ _ _) as [[]|] eqn:Ec; [|discriminate]. cbn [bind] in H.
    injection H as <-. now apply CheckPages_ok.
  - (* MEM_GPU_FINE *)
    split; [discriminate|].
    destruct nvcc eqn:En; [discriminate|].
    split; [discriminate|discriminate].
  - (* MEM_CPU_UNPINNED *)
    split; [discriminate|]. split; [intros _; split; discriminate|]. intros _.
    cbn [bind] in H.
    destruct (CheckPages _ _ _) as [[]|] eqn:Ec; [|discriminate]. cbn [bind] in H.
    injection H as <-. now apply CheckPages_ok.
  - discriminate.
Qed.

End WithRuntime.

(** Two pages of pinned host memory on node 0 of the sample machine. *)
Lemma AllocateMemory_checked_witness :
  8192 <> 0 /\ MEM_CPU <> MEM_NULL /\
  (@nvcc DispatcherSpec.sampleRuntime = true ->
   MEM_CPU <> MEM_CPU_FINE /\ MEM_CPU <> MEM_GPU_FINE) /\
  (IsCpuType MEM_CPU = true ->
   fst (@move_pages DispatcherSpec.sampleRuntime 4096 2) = 0 /\
   Forall (fun s => s = 0)
          (firstn 2 (snd (@move_pages DispatcherSpec.sampleRuntime 4096 2)))).
Proof.
  apply (@AllocateMemory_checked DispatcherSpec.sampleRuntime MEM_CPU 0 8192 4096).
  reflexivity.
Defined.

End AllocationFacts.

(** ** The identifier of a compute unit: [GetId] *)

Module GetIdFacts.
Import Dispatcher.

Lemma land_ones_bound (a : Z) (n : Z) : 0 <= n -> 0 <= Z.land a (Z.ones n) < 2 ^ n.
Proof.
  intros Hn. rewrite Z.land_ones by exact Hn. apply Z.mod_pos_bound.
  apply Z.pow_pos_nonneg; lia.
Qed.

(** X8: [GetId] reads the bits 8 to 14 of the hardware register and
    nothing else, and its value lies between 0 and 95. *)
Theorem GetId_bits (hwId : Z) :
  0 <= GetId hwId <= 95 /\
  GetId hwId = GetId (Z.land hwId 0x7F00).
Proof.
  unfold GetId. split.
  - pose proof (land_ones_bound (Z.shiftr hwId 12) 1 ltac:(lia)) as H1.
    pose proof (land_ones_bound (Z.shiftr hwId 8) 4 ltac:(lia)) as H2.
    pose proof (land_ones_bound (Z.shiftr hwId 13) 2 ltac:(lia)) as H3.
    change (Z.ones 1) with 1 in H1. change (Z.ones 4) with 15 in H2.
    change (Z.ones 2) with 3 in H3.
    rewrite !Z.shiftl_mul_pow2 by lia.
    change (2 ^ 1) with 2 in H1. change (2 ^ 4) with 16 in H2. change (2 ^ 2) with 4 in H3.
    change (2 ^ 5) with 32. change (2 ^ 2) with 4. lia.
  - assert (Hbits : forall k m, 0 <= k -> 0 <= m ->
              (forall i, 0 <= i -> Z.testbit m i = true -> Z.testbit 0x7F00 (i + k) = true) ->
              Z.land (Z.shiftr (Z.land hwId 0x7F00) k) m = Z.land (Z.shiftr hwId k) m).
    { intros k m Hk Hm Hin. apply Z.bits_inj'. intros i Hi.
      rewrite !Z.land_spec, !Z.shiftr_spec, Z.land_spec by lia.
      destruct (Z.testbit m i) eqn:E; [|now rewrite !andb_false_r].
      rewrite (Hin i Hi E). now rewrite !andb_true_r. }
    assert (Hbit : forall m k, 0 <= m < 16 -> 0 <= k ->
              (forall i, 0 <= i < 4 -> Z.testbit m i = true -> Z.testbit 0x7F00 (i + k) = true) ->
              forall i, 0 <= i -> Z.testbit m i = true -> Z.testbit 0x7F00 (i + k) = true).
    { intros m k Hm Hk H i Hi E. apply H; [|exact E].
      destruct (Z_lt_le_dec i 4) as [Hlt|Hge]; [lia|].
      rewrite (Z.bits_above_log2 m i) in E; [discriminate|lia|].
      destruct (Z.eq_dec m 0) as [->|Hm0]; [simpl; lia|].
      apply Z.log2_lt_pow2; [lia|]. apply Z.lt_le_trans with (2 ^ 4); [simpl; lia|].
      apply Z.pow_le_mono_r; lia. }
    assert (Hcase : forall i, 0 <= i < 4 -> i = 0 \/ i = 1 \/ i = 2 \/ i = 3) by (intros; lia).
    rewrite (Hbits 12 1), (Hbits 8 15), (Hbits 13 3); try lia; try reflexivity;
      apply Hbit; try lia; intros i Hi E;
      destruct (Hcase i Hi) as [-> | [-> | [-> | ->]]]; try reflexivity; discriminate E.
Qed.

Example GetId_examples :
  GetId 0 = 0 /\ GetId 0x0100 = 4 /\ GetId 0x1000 = 32 /\ GetId 0x2000 = 1
  /\ GetId 0x7F00 = 95 /\ GetId 0xFFFF80FF = 0.
Proof. repeat split; reflexivity. Qed.

End GetIdFacts.

(** ** The number of bytes on the command line *)

Module ByteCountFacts.
Import Scan Main.

Lemma to_size_t_range (z : Z) : 0 <= to_size_t z < 2 ^ 64.
Proof. unfold to_size_t. apply Z.mod_pos_bound. lia. Qed.

Lemma to_size_t_mul4 (z k : Z) : to_size_t (z * (4 * k)) mod 4 = 0.
Proof.
  unfold to_size_t.
  change (2 ^ 64) with (4 * 4611686018427387904).
  rewrite Z.rem_mul_r by lia.
  replace (z * (4 * k)) with ((z * k) * 4) by lia.
  rewrite Z.mod_mul by lia. rewrite Z.add_0_l.
  rewrite Z.mul_comm, Z.mod_mul by lia. reflexivity.
Qed.

(** X9: the number of bytes per transfer, when [main] goes on with it,
    is a multiple of 4 that fits in 64 bits; and an argument that ends
    in one of the units K, M and G (in either case) is never rejected:
    the number in front of the unit is multiplied, modulo [2^64]. *)
Theorem bytesPerTransfer_units (DEFAULT_BYTES_PER_TRANSFER : Z) (arg : string) :
  (forall n, bytesPerTransfer DEFAULT_BYTES_PER_TRANSFER (Some arg) = Ret n ->
             0 <= n < 2 ^ 64 /\ n mod 4 = 0) /\
  (forall c, back arg = Some c ->
     bytesPerTransfer DEFAULT_BYTES_PER_TRANSFER (Some arg)
     = match toupper c with
       | "K"%char => Ret (to_size_t (to_size_t (atoll arg) * 1024))
       | "M"%char => Ret (to_size_t (to_size_t (atoll arg) * (1024 * 1024)))
       | "G"%char => Ret (to_size_t (to_size_t (atoll arg) * (1024 * 1024 * 1024)))
       | _ => if to_size_t (atoll arg) mod 4 =? 0 then Ret (to_size_t (atoll arg))
              else Exit 1 (ErrBytesNotMultipleOf4 (to_size_t (atoll arg)))
       end).
Proof.
  split.
  - intros n. unfold bytesPerTransfer.
    match goal with |- context [negb (?v mod 4 =? 0)] => set (bytes := v) end.
    assert (Hr : 0 <= bytes < 2 ^ 64).
    { subst bytes. destruct (back arg) as [c|]; [|apply to_size_t_range].
      destruct c as [[] [] [] [] [] [] [] []]; apply to_size_t_range. }
    destruct (bytes mod 4 =? 0) eqn:E; cbn [negb]; [|discriminate].
    apply Z.eqb_eq in E. intros H. injection H as <-. now split.
  - intros c Hc. unfold bytesPerTransfer. rewrite Hc.
    pose proof (to_size_t_mul4 (to_size_t (atoll arg)) 256) as HK.
    pose proof (to_size_t_mul4 (to_size_t (atoll arg)) (256 * 1024)) as HM.
    pose proof (to_size_t_mul4 (to_size_t (atoll arg)) (256 * 1024 * 1024)) as HG.
    change (4 * 256) with 1024 in HK.
    change (4 * (256 * 1024)) with (1024 * 1024) in HM.
    change (4 * (256 * 1024 * 1024)) with (1024 * 1024 * 1024) in HG.
    destruct c as [[] [] [] [] [] [] [] []]; cbn [toupper];
      try (rewrite HK; reflexivity); try (rewrite HM; reflexivity);
      try (rewrite HG; reflexivity);
      (destruct (to_size_t (atoll arg) mod 4 =? 0); reflexivity).
Qed.

Example bytesPerTransfer_examples :
  bytesPerTransfer 67108864 None = Ret 67108864 /\
  bytesPerTransfer 67108864 (Some "6K"%string) = Ret 6144 /\
  bytesPerTransfer 67108864 (Some "3m"%string) = Ret 3145728 /\
  bytesPerTransfer 67108864 (Some "1G"%string) = Ret 1073741824 /\
  bytesPerTransfer 67108864 (Some "1026"%string) = Exit 1 (ErrBytesNotMultipleOf4 1026) /\
  bytesPerTransfer 67108864 (Some "-4"%string) = Ret 18446744073709551612 /\
  bytesPerTransfer 67108864 (Some "x"%string) = Ret 0.
Proof. vm_compute. repeat split. Qed.

End ByteCountFacts.

(** ** Validation: when it passes *)

Module CleanFacts.
Import Validator ValidatorSpec ValidatorFacts CleanSpec.

Lemma forallb_map_seq {A B : Type} (f : B -> bool) (g : A -> B) (l : list A) :
  forallb f (map g l) = forallb (fun x => f (g x)) l.
Proof. induction l as [|x l IH]; [reflexivity|]. simpl. now rewrite IH. Qed.

Lemma firstMismatch_None (reference : list float32) :
  forall output, length reference = length output ->
  firstMismatch reference output = None <->
  forallb (fun i => negb (f32_ne (nth i reference 0) (nth i output 0)))
          (seq 0 (length reference)) = true.
Proof.
  induction reference as [|e reference IH]; intros [|a output] Hlen; try discriminate.
  - simpl. tauto.
  - cbn [firstMismatch length seq forallb nth].
    rewrite <- seq_shift, forallb_map_seq.
    destruct (f32_ne e a); cbn [negb andb].
    + split; discriminate.
    + rewrite <- IH by (simpl in Hlen; lia).
      destruct (firstMismatch reference output); cbn; split; congruence.
Qed.

Section WithFloats.
Context {ops : FloatOps}.
Variables (ev : EnvVars) (t : Transfer) (mem : Z -> float32).

Lemma matchesAt_firstMismatch (dstIdx : nat) :
  matchesAt ev t mem dstIdx = true <->
  firstMismatch (expected ev t) (outputOf ev t mem (elements t) dstIdx) = None.
Proof.
  unfold matchesAt. rewrite firstMismatch_None, expected_length; [tauto|].
  now rewrite expected_length, outputOf_length.
Qed.

(** The loop over the destinations: no report when all of them match,
    and otherwise at least one. *)
Lemma validateFrom_reports (todo : list nat) :
  let r := validateFrom ev t mem (expected ev t) (elements t) todo in
  if forallb (matchesAt ev t mem) todo
  then r = mkRun [] (flat_map (fun d => map (pair d) (seq 0 (elements t))) todo) false
  else reports r <> [] /\
       (continueOnError ev = false -> exited r = true /\ length (reports r) = 1%nat).
Proof.
  induction todo as [|dstIdx todo IH]; [reflexivity|].
  cbn [validateFrom forallb flat_map]. cbv zeta in IH |- *.
  rewrite compareFrom_firstMismatch by now rewrite expected_length, outputOf_length.
  destruct (matchesAt ev t mem dstIdx) eqn:E.
  - apply matchesAt_firstMismatch in E. rewrite E. cbn [exited reports comparisons andb].
    rewrite expected_length.
    destruct (forallb (matchesAt ev t mem) todo).
    + now rewrite IH.
    + destruct IH as [Hne Habort]. cbn [app]. split; [exact Hne|]. exact Habort.
  - cbn [andb].
    destruct (firstMismatch _ _) as [k|] eqn:Ek.
    2:{ apply matchesAt_firstMismatch in Ek. congruence. }
    cbn [exited reports comparisons].
    destruct (continueOnError ev) eqn:Ec; cbn [negb].
    + cbn [reports app]. split; [discriminate|discriminate].
    + cbn [reports]. split; [discriminate|]. intros _. split; reflexivity.
Qed.

(** X10: [ValidateDst] reports nothing exactly when every element of
    every destination holds the expected value; then it has compared
    them all and does not end the process.  Without continue-on-error,
    memory that does not match ends the process after one report. *)
Theorem ValidateDst_clean :
  (reports (ValidateDst ev t mem) = [] <-> allMatch ev t mem = true) /\
  (allMatch ev t mem = true ->
     exited (ValidateDst ev t mem) = false /\
     comparisons (ValidateDst ev t mem) = allComparisons t) /\
  (allMatch ev t mem = false -> continueOnError ev = false ->
     exited (ValidateDst ev t mem) = true /\
     length (reports (ValidateDst ev t mem)) = 1%nat).
Proof.
  unfold ValidateDst, allMatch, allComparisons.
  destruct (numDsts t =? 0) eqn:E.
  - apply Z.eqb_eq in E. rewrite E. cbn. repeat split; try reflexivity; discriminate.
  - fold (elements t). fold (expected ev t).
    pose proof (validateFrom_reports (seq 0 (Z.to_nat (numDsts t)))) as H.
    cbv zeta in H.
    destruct (forallb (matchesAt ev t mem) (seq 0 (Z.to_nat (numDsts t)))).
    + rewrite H. cbn [reports exited comparisons].
      split; [tauto|]. split; [auto|discriminate].
    + destruct H as [Hne Habort]. split; [split; [contradiction|discriminate]|].
      split; [discriminate|]. intros _. exact Habort.
Qed.

End WithFloats.

(** One source, two destinations of 2 floats: memory that holds the
    pattern passes, with 4 comparisons; memory that does not is
    reported. *)
Example ValidateDst_examples :
  @allMatch ReferenceSpec.binary32Ops (ReferenceSpec.sampleEnv false)
     (ReferenceSpec.sampleTransfer 1 2 8) rightMemory = true /\
  comparisons (@ValidateDst ReferenceSpec.binary32Ops (ReferenceSpec.sampleEnv false)
                 (ReferenceSpec.sampleTransfer 1 2 8) rightMemory)
    = [(0, 0); (0, 1); (1, 0); (1, 1)]%nat /\
  @allMatch ReferenceSpec.binary32Ops (ReferenceSpec.sampleEnv false)
     (ReferenceSpec.sampleTransfer 1 2 8) wrongMemory = false.
Proof. vm_compute. repeat split. Qed.

End CleanFacts.

(** ** The samples of the iterations *)

Module SamplesFacts.
Import Dispatcher Orchestrator DispatcherSpec DispatcherFacts SamplesSpec.




Section WithRuntime.
Context {rt : Runtime} {ops : FloatOps}.
Variable ev : EnvVars.










End WithRuntime.


Example samples_counted :
  option_map (fun st => (numTimedIterations st,
                         map (fun e => map samples (transfers e)) (exeInfos st)))
    (BlockOrderSpec.returned
       (@iterationLoop sampleRuntime ReferenceSpec.binary32Ops (sampleEnv false true) 4 (- 1)
          sampleState (fun _ => sampleIteration)))
  = Some (2, [[2]; [2]; [2]]%nat).
Proof. vm_compute. reflexivity. Qed.

End SamplesFacts.

(** ** The merge on a sample executor *)

Module MergeFacts.
Import Dispatcher BlockOrder BlockOrderSpec BlockOrderFacts MergeSpec.

(** X12: on transfers as [PrepareSubExecParams] leaves them, with no
    position recorded yet (or in sequential order, or with a stream for
    each transfer), the merge of the parameters of an executor returns.
    The array it uploads has as many entries as the executor counts
    sub-executors and is a permutation of the units of the transfers;
    the positions a transfer has recorded hold its own units, each
    once. *)
Theorem mergeSubExecParams_covers (ev : EnvVars)
    (shuffle : list (nat * nat) -> list (nat * nat)) (exeInfo : ExecutorInfo) :
  Forall prepared (transfers exeInfo) ->
  countsUnits exeInfo ->
  (forall l, Permutation (shuffle l) l) ->
  blockOrder ev = ORDER_SEQUENTIAL \/ blockOrder ev = ORDER_INTERLEAVED
    \/ blockOrder ev = ORDER_RANDOM ->
  useSingleStream ev = false \/ blockOrder ev = ORDER_SEQUENTIAL
    \/ Forall fresh (transfers exeInfo) ->
  exists ts' temp,
    mergeSubExecParams ev shuffle (S (Z.to_nat (totalSubExecs exeInfo))) exeInfo
      = Some (ts', temp) /\
    Z.of_nat (length temp) = totalSubExecs exeInfo /\
    Permutation temp (flat_map subExecParam (transfers exeInfo)) /\
    sameShape (transfers exeInfo) ts' /\
    forall j, (j < length (transfers exeInfo))%nat ->
      Permutation (unitsAt temp (nth j ts' nullTransfer))
                  (subExecParam (nth j (transfers exeInfo) nullTransfer)).
Proof.
  exact (merge_covers_fresh ev shuffle exeInfo).
Qed.

(** The two sample transfers in random order, the generator turning the
    list of pairs round. *)
Lemma mergeSubExecParams_covers_witness :
  exists ts' temp,
    mergeSubExecParams (orderEnv ORDER_RANDOM) (@rev (nat * nat))
      (S (Z.to_nat (totalSubExecs preparedAB))) preparedAB
      = Some (ts', temp) /\
    Z.of_nat (length temp) = totalSubExecs preparedAB /\
    Permutation temp (flat_map subExecParam (transfers preparedAB)) /\
    sameShape (transfers preparedAB) ts' /\
    forall j, (j < length (transfers preparedAB))%nat ->
      Permutation (unitsAt temp (nth j ts' nullTransfer))
                  (subExecParam (nth j (transfers preparedAB) nullTransfer)).
Proof.
  apply (mergeSubExecParams_covers (orderEnv ORDER_RANDOM) (@rev (nat * nat)) preparedAB).
  - repeat constructor; cbn; lia.
  - split; [reflexivity|]. cbn. lia.
  - intros l. symmetry. apply Permutation_rev.
  - right. right. reflexivity.
  - right. right. repeat constructor.
Defined.

End MergeFacts.

(** ** The map of the executors *)

Module GroupingFacts.
Import Dispatcher Grouping GroupingSpec.

Section WithRank.
Variable rank : ExeType -> Z.
Hypothesis rank_injective : forall a b, rank a = rank b -> a = b.

Let ltb := executor_ltb rank.

Lemma ltb_trans (a b c : ExeType * Z) : ltb a b = true -> ltb b c = true -> ltb a c = true.
Proof.
  unfold ltb, executor_ltb. intros H1 H2.
  apply orb_true_iff in H1, H2. apply orb_true_iff.
  rewrite !andb_true_iff, !Z.ltb_lt, !Z.eqb_eq in *. lia.
Qed.

Lemma ltb_total (a b : ExeType * Z) : ltb a b = false -> ltb b a = false -> a = b.
Proof.
  unfold ltb, executor_ltb. intros H1 H2.
  apply orb_false_iff in H1 as [H1 H1'], H2 as [H2 H2'].
  apply Z.ltb_ge in H1, H2.
  assert (E : rank (fst a) = rank (fst b)) by lia.
  rewrite E, Z.eqb_refl in H1'. rewrite E, Z.eqb_refl in H2'.
  cbn [andb] in *. apply Z.ltb_ge in H1', H2'.
  destruct a, b. cbn [fst snd] in *. f_equal; [now apply rank_injective|lia].
Qed.

Lemma addTransfer_perm (key : ExeType * Z) (t : Transfer) (m : list ExecutorInfo) :
  Permutation (flat_map transfers (addTransfer rank key t m)) (flat_map transfers m ++ [t]).
Proof.
  induction m as [|e m IH]; [reflexivity|]. cbn [addTransfer flat_map].
  destruct (executor_ltb rank key (executor e)).
  - cbn [flat_map transfers app]. apply Permutation_cons_append.
  - destruct (executor_ltb rank (executor e) key).
    + cbn [flat_map]. rewrite IH. now rewrite app_assoc.
    + cbn [flat_map transfers set_transfers]. rewrite <- !app_assoc.
      apply Permutation_app_head. apply Permutation_app_comm.
Qed.

Lemma addTransfer_keyed (t : Transfer) (m : list ExecutorInfo) :
  Forall keyed m -> Forall keyed (addTransfer rank (exeType t, exeIndex t) t m).
Proof.
  assert (Hnew : keyed (mkExecutorInfo (exeType t, exeIndex t) [t] 0 0 0%float [])).
  { split; [discriminate|]. now repeat constructor. }
  induction m as [|e m IH]; intros Hm; cbn [addTransfer]; [now repeat constructor|].
  inversion Hm as [|? ? He Hrest]; subst.
  destruct (executor_ltb rank _ (executor e)) eqn:E1; [now constructor|].
  destruct (executor_ltb rank (executor e) _) eqn:E2; [constructor; auto|].
  constructor; [|exact Hrest].
  pose proof (ltb_total _ _ E1 E2) as Hkey. destruct He as [Hne Hall]. split.
  - cbn [transfers set_transfers]. destruct (transfers e); discriminate.
  - cbn [transfers set_transfers executor]. apply Forall_app. split; [exact Hall|].
    now repeat constructor.
Qed.

(** The keys of the map are in their order: no key is there twice. *)
Lemma addTransfer_sorted (key : ExeType * Z) (t : Transfer) (m : list ExecutorInfo) :
  StronglySorted (fun a b => ltb a b = true) (map executor m) ->
  StronglySorted (fun a b => ltb a b = true) (map executor (addTransfer rank key t m)).
Proof.
  induction m as [|e m IH]; intros Hm; cbn [addTransfer map].
  - repeat constructor.
  - inversion Hm as [|? ? Hrest Hhead]; subst.
    destruct (executor_ltb rank key (executor e)) eqn:E1.
    + cbn [map executor]. constructor; [exact Hm|].
      constructor; [exact E1|].
      rewrite Forall_forall in Hhead |- *. intros k Hk.
      apply (ltb_trans _ (executor e)); [exact E1|now apply Hhead].
    + destruct (executor_ltb rank (executor e) key) eqn:E2.
      * cbn [map]. constructor; [now apply IH|].
        clear IH Hm Hrest. revert Hhead. induction m as [|e' m IHm]; intros Hhead.
        -- now repeat constructor.
        -- inversion Hhead; subst. cbn [addTransfer].
           destruct (executor_ltb rank key (executor e')).
           ++ cbn [map executor]. constructor; [exact E2|now constructor].
           ++ destruct (executor_ltb rank (executor e') key).
              ** cbn [map]. constructor; [assumption|]. now apply IHm.
              ** cbn [map executor set_transfers]. now constructor.
      * cbn [map executor set_transfers]. now constructor.
Qed.

Lemma addTransfer_inOrder (key : ExeType * Z) (t : Transfer) (m : list ExecutorInfo) :
  Forall inOrder m ->
  Forall (fun e => Forall (fun u => transferIndex u < transferIndex t) (transfers e)) m ->
  Forall inOrder (addTransfer rank key t m).
Proof.
  induction m as [|e m IH]; intros Hm Hlt; cbn [addTransfer].
  - repeat constructor.
  - inversion Hm; inversion Hlt; subst.
    destruct (executor_ltb rank key (executor e)).
    + constructor; [|assumption]. repeat constructor.
    + destruct (executor_ltb rank (executor e) key); [constructor; auto|].
      constructor; [|assumption].
      unfold inOrder in *. cbn [transfers set_transfers].
      match goal with
      | Hs : StronglySorted Z.lt (map transferIndex (transfers e)),
        Hl : Forall _ (transfers e) |- _ => revert Hs Hl
      end.
      generalize (transfers e). induction l as [|u l IHl]; intros Hs Hl.
      * repeat constructor.
      * inversion Hs; inversion Hl; subst. cbn [app map]. constructor; [now apply IHl|].
        rewrite map_app. apply Forall_app. split; [assumption|].
        now repeat constructor.
Qed.

Lemma addTransfer_below (key : ExeType * Z) (t : Transfer) (m : list ExecutorInfo) (i : Z) :
  transferIndex t < i ->
  Forall (fun e => Forall (fun u => transferIndex u < i) (transfers e)) m ->
  Forall (fun e => Forall (fun u => transferIndex u < i) (transfers e))
         (addTransfer rank key t m).
Proof.
  intros Ht. induction m as [|e m IH]; intros Hm; cbn [addTransfer].
  - now repeat constructor.
  - inversion Hm; subst.
    destruct (executor_ltb rank key (executor e)).
    + constructor; [|assumption]. now repeat constructor.
    + destruct (executor_ltb rank (executor e) key); [constructor; auto|].
      constructor; [|assumption]. cbn [transfers set_transfers].
      apply Forall_app. split; [assumption|]. now repeat constructor.
Qed.

(** The loop keeps all of it. *)
Lemma mapTransfers_spec (ts : list Transfer) : forall i m,
  0 <= i -> i + Z.of_nat (length ts) < 2 ^ 31 ->
  Forall keyed m -> Forall inOrder m ->
  StronglySorted (fun a b => ltb a b = true) (map executor m) ->
  Forall (fun e => Forall (fun u => transferIndex u < i) (transfers e)) m ->
  let r := mapTransfers rank i ts m in
  fst r = map (fun p => set_transferIndex (snd p) (i + Z.of_nat (fst p)))
              (combine (seq 0 (length ts)) ts) /\
  Permutation (flat_map transfers (snd r)) (flat_map transfers m ++ fst r) /\
  Forall keyed (snd r) /\ Forall inOrder (snd r) /\
  StronglySorted (fun a b => ltb a b = true) (map executor (snd r)).
Proof.
  induction ts as [|t ts IH]; intros i m Hi Hfit Hk Ho Hs Hb; cbv zeta.
  - cbn. rewrite app_nil_r. auto.
  - cbn [mapTransfers fst snd length seq combine map].
    cbn [length] in Hfit.
    rewrite to_int_small by lia.
    set (t' := set_transferIndex t i).
    assert (Hi1 : 0 <= i + 1) by lia.
    assert (Hfit1 : i + 1 + Z.of_nat (length ts) < 2 ^ 31) by lia.
    specialize (IH (i + 1) (addTransfer rank (exeType t', exeIndex t') t' m)
                   Hi1 Hfit1 (addTransfer_keyed t' m Hk)).
    cbv zeta in IH.
    destruct IH as (Hfst & Hperm & Hk' & Ho' & Hs').
    + apply addTransfer_inOrder; [exact Ho|exact Hb].
    + now apply addTransfer_sorted.
    + apply addTransfer_below; [subst t'; cbn; lia|].
      eapply Forall_impl; [|exact Hb]. intros e He.
      eapply Forall_impl; [|exact He]. intros u Hu. cbn beta in *. lia.
    + split.
      * rewrite Hfst, Z.add_0_r. f_equal. rewrite <- seq_shift.
        clear. generalize (seq 0 (length ts)). intros l. revert ts.
        induction l as [|k l IHl]; intros [|u us]; try reflexivity.
        cbn [map combine fst snd]. f_equal; [f_equal; lia|apply IHl].
      * split; [|auto].
        rewrite Hperm, addTransfer_perm, <- app_assoc. reflexivity.
Qed.

(** X13: the map of the executors that [ExecuteTransfers] builds holds
    every transfer once, with its position in the list as its index;
    the transfers of an entry are those of its executor, kind and
    index, in the order of the list, and there is one at least; and no
    executor has two entries. *)
Theorem mapTransfers_partition (ts : list Transfer) :
  Z.of_nat (length ts) < 2 ^ 31 ->
  let r := mapTransfers rank 0 ts [] in
  fst r = map (fun p => set_transferIndex (snd p) (Z.of_nat (fst p)))
              (combine (seq 0 (length ts)) ts) /\
  Permutation (flat_map transfers (snd r)) (fst r) /\
  Forall keyed (snd r) /\ Forall inOrder (snd r) /\
  NoDup (map executor (snd r)).
Proof.
  intros Hlen.
  destruct (mapTransfers_spec ts 0 []) as (Hfst & Hperm & Hk & Ho & Hs);
    [lia|lia|constructor|constructor|constructor|constructor|].
  cbv zeta. split; [rewrite Hfst; apply map_ext; intros p; now rewrite Z.add_0_l|].
  split; [exact Hperm|]. split; [exact Hk|].
  split; [exact Ho|].
  revert Hs. generalize (map executor (snd (mapTransfers rank 0 ts []))).
  induction l as [|k l IHl]; intros Hs; [constructor|].
  inversion Hs as [|? ? Hrest Hhead]; subst. constructor; [|now apply IHl].
  intros Hin. rewrite Forall_forall in Hhead. specialize (Hhead k Hin).
  unfold ltb, executor_ltb in Hhead. rewrite Z.ltb_irrefl, Z.eqb_refl, Z.ltb_irrefl in Hhead.
  discriminate.
Qed.

End WithRank.

Lemma sampleRank_injective (a b : ExeType) : sampleRank a = sampleRank b -> a = b.
Proof. destruct a, b; intros H; try reflexivity; discriminate. Qed.

(** Three transfers: two on the kernel executor of GPU 0, with one on
    the host between them. *)
Lemma mapTransfers_partition_witness :
  let ts := [BlockOrderSpec.transferA; DispatcherSpec.sampleTransferOn EXE_CPU;
             BlockOrderSpec.transferB] in
  let r := mapTransfers sampleRank 0 ts [] in
  fst r = map (fun p => set_transferIndex (snd p) (Z.of_nat (fst p)))
              (combine (seq 0 (length ts)) ts) /\
  Permutation (flat_map transfers (snd r)) (fst r) /\
  Forall keyed (snd r) /\ Forall inOrder (snd r) /\
  NoDup (map executor (snd r)).
Proof.
  apply (mapTransfers_partition sampleRank sampleRank_injective
           [BlockOrderSpec.transferA; DispatcherSpec.sampleTransferOn EXE_CPU;
            BlockOrderSpec.transferB]).
  simpl. lia.
Defined.

Example mapTransfers_example :
  map (fun e => (executor e, map transferIndex (transfers e)))
      (snd (mapTransfers sampleRank 0
              [BlockOrderSpec.transferA; DispatcherSpec.sampleTransferOn EXE_CPU;
               BlockOrderSpec.transferB] []))
  = [((EXE_CPU, 0), [1]); ((EXE_GPU_GFX, 0), [0; 2])].
Proof. reflexivity. Qed.

End GroupingFacts.

(** ** What a call of [RunTransfer] writes *)

Module FrameFacts.
Import Dispatcher Orchestrator DispatcherSpec DispatcherFacts.

Lemma nth_error_update_nth {A : Type} (f : A -> A) (l : list A) : forall i j,
  nth_error (update_nth i f l) j
  = if (i =? j)%nat then option_map f (nth_error l j) else nth_error l j.
Proof.
  induction l as [|x l IH]; intros [|i] [|j]; simpl; try reflexivity.
  - now destruct (i =? j)%nat.
  - apply IH.
Qed.

Section WithRuntime.
Context {rt : Runtime}.
Variable ev : EnvVars.

(** X14: a call of [RunTransfer] in a timed iteration that returns
    adds the time it measured to the transfer it is called for, and,
    unless it is the one call of a kernel executor with a single
    stream, writes no other transfer of the executor and not the total
    time of the executor: the threads of an iteration, one for each
    transfer, write transfers of their own. *)
Theorem RunTransfer_own_transfer (iteration : Z) (e e' : ExecutorInfo) (idx : nat)
    (m : Measured) (t : Transfer) :
  0 <= iteration ->
  nth_error (transfers e) idx = Some t ->
  ExeType_eqb (exeType t) EXE_GPU_GFX && useSingleStream ev = false ->
  RunTransfer ev iteration e (Z.of_nat idx) m = Ret e' ->
  totalTime e' = totalTime e /\
  (forall j, j <> idx -> nth_error (transfers e') j = nth_error (transfers e) j) /\
  exists t', nth_error (transfers e') idx = Some t' /\
    transferTime t'
      = (transferTime t
         + match exeType t with
           | EXE_CPU => cpuDeltaSec m * 1000
           | _ => gpuDeltaMsec m
           end)%float /\
    (showIterations ev = false -> perIterationTime t' = perIterationTime t).
Proof.
  intros Hit Ht Hkind H. unfold RunTransfer in H. rewrite Nat2Z.id, Ht in H.
  replace (0 <=? iteration) with true in H by (symmetry; apply Z.leb_le; lia).
  assert (Hown : forall delta CUs,
    (forall j, j <> idx ->
       nth_error (update_nth idx (recordTime ev delta CUs) (transfers e)) j
       = nth_error (transfers e) j) /\
    exists t', nth_error (update_nth idx (recordTime ev delta CUs) (transfers e)) idx
               = Some t' /\
      transferTime t' = (transferTime t + delta)%float /\
      (showIterations ev = false -> perIterationTime t' = perIterationTime t)).
  { intros delta CUs. split.
    - intros j Hj. rewrite nth_error_update_nth.
      destruct (idx =? j)%nat eqn:E; [apply Nat.eqb_eq in E; congruence|reflexivity].
    - exists (recordTime ev delta CUs t).
      rewrite nth_error_update_nth, Nat.eqb_refl, Ht. split; [reflexivity|].
      split; [reflexivity|]. intros Hshow. unfold recordTime. cbn. now rewrite Hshow. }
  destruct (exeType t) eqn:Et; cbn [ExeType_eqb andb] in Hkind.
  - destruct (negb (numa_run_on_node _ =? 0)); [discriminate|].
    injection H as <-. cbn [totalTime transfers set_transfers].
    split; [reflexivity|]. apply Hown.
  - rewrite Hkind in H. split_calls H; injection H as <-;
      cbn [totalTime transfers set_transfers set_subExecParamGpu];
      (split; [reflexivity|]); apply Hown.
  - split_calls H; injection H as <-; cbn [totalTime transfers set_transfers];
      (split; [reflexivity|]); apply Hown.
Qed.

End WithRuntime.

(** Iteration 0 on the sample executor of the DMA kind: 2 ms. *)
Lemma RunTransfer_own_transfer_witness :
  exists e',
    @RunTransfer sampleRuntime (sampleEnv false false) 0 (sampleExecutor EXE_GPU_DMA)
       (Z.of_nat 0) sampleMeasured = Ret e' /\
    totalTime e' = totalTime (sampleExecutor EXE_GPU_DMA) /\
    (forall j, j <> 0%nat ->
       nth_error (transfers e') j = nth_error (transfers (sampleExecutor EXE_GPU_DMA)) j) /\
    exists t', nth_error (transfers e') 0 = Some t' /\
      transferTime t' = (transferTime (sampleTransferOn EXE_GPU_DMA) + 2)%float /\
      (showIterations (sampleEnv false false) = false ->
       perIterationTime t' = perIterationTime (sampleTransferOn EXE_GPU_DMA)).
Proof.
  eexists. split; [reflexivity|].
  apply (@RunTransfer_own_transfer sampleRuntime (sampleEnv false false) 0
           (sampleExecutor EXE_GPU_DMA) _ 0%nat sampleMeasured
           (sampleTransferOn EXE_GPU_DMA)).
  - lia.
  - reflexivity.
  - reflexivity.
  - reflexivity.
Defined.

(** ** How the loop over the iterations ends *)

Section Exits.
Context {rt : Runtime} {ops : FloatOps}.
Variable ev : EnvVars.


End Exits.


Example budget_run :
  option_map (fun st => (numTimedIterations st, totalCpuTime st))
    (BlockOrderSpec.returned
       (@iterationLoop sampleRuntime ReferenceSpec.binary32Ops BudgetSpec.budgetEnv 5 (- 1)
          sampleState (fun _ => sampleIteration)))
  = Some (2, 2%float) /\
  @iterationLoop sampleRuntime ReferenceSpec.binary32Ops BudgetSpec.budgetEnv 3 (- 1)
     sampleState (fun _ => sampleIteration) = None.
Proof. vm_compute. split; reflexivity. Qed.

End FrameFacts.

(** ** Filling the sources *)

Module SourcePrepFacts.
Import Validator SourcePrep CleanFacts.

Lemma firstn_seq (k : nat) : forall a n, firstn k (seq a n) = seq a (Nat.min k n).
Proof.
  induction k as [|k IH]; intros a [|n]; try reflexivity.
  simpl. now rewrite IH.
Qed.

Section WithFloats.
Context {ops : FloatOps}.
Variables (ev : EnvVars) (usePrepSrcKernel : bool) (t : Transfer) (mem : Z -> float32).

Lemma checkFrom_None (srcIdx : nat) (reference : list float32) :
  forall (copy : list float32) (i : nat),
  length reference = length copy ->
  (checkFrom srcIdx i (combine reference copy) = None <->
   forallb (fun k => negb (f32_ne (nth k reference 0) (nth k copy 0)))
           (seq 0 (length reference)) = true) /\
  (forall r, checkFrom srcIdx i (combine reference copy) = Some r -> sSrcIdx r = srcIdx).
Proof.
  induction reference as [|e reference IH]; intros [|a copy] i Hlen; try discriminate.
  - simpl. split; [tauto|discriminate].
  - cbn [combine checkFrom length seq forallb nth].
    rewrite <- seq_shift, forallb_map_seq.
    destruct (f32_ne e a); cbn [negb andb].
    + split; [split; discriminate|]. intros r H. now injection H as <-.
    + apply IH. simpl in Hlen. lia.
Qed.

Let n := Z.to_nat (numBytesActual t / sizeof_float).

Lemma srcMatchesAt_check (srcIdx : nat) :
  srcMatchesAt ev t mem srcIdx = true <->
  checkFrom srcIdx 0
    (combine (Reference.PrepareReference ev t n (Z.of_nat srcIdx))
             (srcCopyOf ev t mem n srcIdx)) = None.
Proof.
  unfold srcMatchesAt. fold n.
  destruct (checkFrom_None srcIdx (Reference.PrepareReference ev t n (Z.of_nat srcIdx))
              (srcCopyOf ev t mem n srcIdx) 0) as [Hiff _].
  { rewrite ReferenceFacts.PrepareReference_length. unfold srcCopyOf.
    now rewrite length_map, length_seq. }
  rewrite Hiff, ReferenceFacts.PrepareReference_length. tauto.
Qed.

(** The loop over the sources stops at the first source that does not
    read back: the sources before it are filled, and it is; the sources
    after it are not. *)
Lemma prepareFrom_spec (todo : list nat) :
  let r := prepareFrom ev usePrepSrcKernel t mem n todo in
  match find (fun s => negb (srcMatchesAt ev t mem s)) todo with
  | None =>
      r = mkSrcRun (flat_map (fillOf ev usePrepSrcKernel t n) todo) [] (Ret true)
  | Some bad =>
      exists before after report,
        todo = before ++ bad :: after /\
        forallb (srcMatchesAt ev t mem) before = true /\
        sSrcIdx report = bad /\
        r = mkSrcRun (flat_map (fillOf ev usePrepSrcKernel t n) (before ++ [bad]))
                     [report]
                     (if continueOnError ev then Ret false
                      else Exit 1 ErrValidationMismatch)
  end.
Proof.
  induction todo as [|s todo IH]; [reflexivity|].
  cbn [prepareFrom find]. cbv zeta in IH |- *.
  destruct (srcMatchesAt ev t mem s) eqn:E; cbn [negb].
  - apply srcMatchesAt_check in E. rewrite E.
    destruct (find _ todo) as [bad|].
    + destruct IH as (before & after & report & -> & Hb & Hr & ->).
      exists (s :: before), after, report.
      split; [reflexivity|]. split.
      { cbn [forallb]. rewrite Hb, andb_true_r. now apply srcMatchesAt_check. }
      split; [exact Hr|]. reflexivity.
    + now rewrite IH.
  - destruct (checkFrom s 0 _) as [report|] eqn:Ec.
    + exists [], todo, report. split; [reflexivity|]. split; [reflexivity|].
      split.
      * destruct (checkFrom_None s (Reference.PrepareReference ev t n (Z.of_nat s))
                    (srcCopyOf ev t mem n s) 0) as [_ Hidx].
        { rewrite ReferenceFacts.PrepareReference_length. unfold srcCopyOf.
          now rewrite length_map, length_seq. }
        now apply Hidx.
      * cbn [app flat_map]. now rewrite app_nil_r.
    + apply srcMatchesAt_check in Ec. congruence.
Qed.

(** X16: [PrepareSrc] returns true exactly when every source reads
    back as its reference; it has then filled every source, in their
    order.  At the first source that does not read back it prints one
    report and stops: that source and the sources before it are filled,
    the sources after it are neither filled nor checked; it returns
    false with continue-on-error, and ends the process without. *)
Theorem PrepareSrc_stops_at_first :
  let r := PrepareSrc ev usePrepSrcKernel t mem in
  match firstBadSource ev t mem with
  | None =>
      srcResult r = Ret true /\ srcReports r = [] /\
      filled r = flat_map (fillOf ev usePrepSrcKernel t n) (seq 0 (Z.to_nat (numSrcs t)))
  | Some bad =>
      srcResult r = (if continueOnError ev then Ret false
                     else Exit 1 ErrValidationMismatch) /\
      (exists report, srcReports r = [report] /\ sSrcIdx report = bad) /\
      filled r = flat_map (fillOf ev usePrepSrcKernel t n) (seq 0 (S bad))
  end.
Proof.
  cbv zeta. unfold PrepareSrc, firstBadSource.
  destruct (numSrcs t =? 0) eqn:E.
  - apply Z.eqb_eq in E. rewrite E. cbn. auto.
  - fold n. pose proof (prepareFrom_spec (seq 0 (Z.to_nat (numSrcs t)))) as H.
    cbv zeta in H.
    destruct (find _ _) as [bad|] eqn:Ef.
    + destruct H as (before & after & report & Hseq & _ & Hr & ->).
      cbn [srcResult srcReports filled]. split; [reflexivity|].
      split; [now exists report|]. f_equal.
      assert (Hb : before = seq 0 bad /\ length before = bad).
      { assert (Hlen : nth (length before) (seq 0 (Z.to_nat (numSrcs t))) 0%nat = bad).
        { rewrite Hseq, app_nth2, Nat.sub_diag by lia. reflexivity. }
        assert (Hlt : (length before < Z.to_nat (numSrcs t))%nat).
        { pose proof (length_seq (Z.to_nat (numSrcs t)) 0) as Hl.
          rewrite Hseq, length_app in Hl. simpl in Hl. lia. }
        rewrite seq_nth in Hlen by exact Hlt. cbn in Hlen. split; [|exact Hlen].
        rewrite <- Hlen.
        assert (Hf : firstn (length before) (before ++ bad :: after) = before).
        { rewrite firstn_app, Nat.sub_diag. cbn [firstn].
          now rewrite app_nil_r, firstn_all. }
        rewrite <- Hseq, firstn_seq in Hf. rewrite <- Hf at 1. f_equal. lia. }
      destruct Hb as [-> Hb]. rewrite seq_S. reflexivity.
    + rewrite H. cbn. auto.
Qed.

End WithFloats.

(** Two sources of 2 floats: memory that does not hold the pattern
    stops [PrepareSrc] at source 0, which alone is filled. *)
Example PrepareSrc_examples :
  (let r := @PrepareSrc ReferenceSpec.binary32Ops (ReferenceSpec.sampleEnv true) false
              (ReferenceSpec.sampleTransfer 2 1 8) ValidatorSpec.wrongMemory in
   (srcResult r, map sSrcIdx (srcReports r), length (filled r)))
  = (Ret false, [0%nat], 1%nat) /\
  (let r := @PrepareSrc ReferenceSpec.binary32Ops (ReferenceSpec.sampleEnv false) false
              (ReferenceSpec.sampleTransfer 2 1 8) ValidatorSpec.wrongMemory in
   (srcResult r, length (filled r)))
  = (Exit 1 ErrValidationMismatch, 1%nat) /\
  @firstBadSource ReferenceSpec.binary32Ops (ReferenceSpec.sampleEnv true)
     (ReferenceSpec.sampleTransfer 1 1 8) CleanSpec.rightMemory = None.
Proof. vm_compute. repeat split. Qed.

End SourcePrepFacts.

(** ** Peer access between all the GPUs *)

Module PeersFacts.
Import Setup Peers.

Section WithRuntime.
Context {rt : Runtime}.

Lemma EnablePeerAccess_ok (deviceId peerDeviceId : Z) :
  EnablePeerAccess deviceId peerDeviceId = Ret tt ->
  hipSuccess (HipDeviceCanAccessPeer deviceId peerDeviceId) = true /\
  canAccessPeer deviceId peerDeviceId = true /\
  peerAccessEnabled deviceId peerDeviceId = true.
Proof.
  unfold EnablePeerAccess, HIP_CALL.
  destruct (hipSuccess (HipDeviceCanAccessPeer _ _)); [|discriminate]. cbn [bind].
  destruct (canAccessPeer _ _); [|discriminate]. cbn [negb].
  destruct (hipSuccess (HipSetDevice _)); [|discriminate]. cbn [bind].
  destruct (peerAccessEnabled _ _); [|discriminate]. now intros _.
Qed.

Lemma in_upTo (n k : Z) : In k (upTo n) <-> 0 <= k < n.
Proof.
  unfold upTo. rewrite in_map_iff. split.
  - intros (x & <- & Hx). apply in_seq in Hx. lia.
  - intros Hk. exists (Z.to_nat k). split; [lia|]. apply in_seq. lia.
Qed.

Lemma enableRow_ok (i : Z) (js : list Z) :
  enableRow i js = Ret tt ->
  forall j, In j js -> i <> j ->
    hipSuccess (HipDeviceCanAccessPeer i j) = true /\
    canAccessPeer i j = true /\ peerAccessEnabled i j = true.
Proof.
  induction js as [|j0 js IH]; intros H j Hj Hne; [contradiction|].
  cbn [enableRow] in H.
  destruct (negb (i =? j0)) eqn:E.
  - destruct (EnablePeerAccess i j0) as [[]|] eqn:He; [|discriminate]. cbn [bind] in H.
    destruct Hj as [<-|Hj]; [now apply EnablePeerAccess_ok|now apply IH].
  - cbn [bind] in H. apply negb_false_iff, Z.eqb_eq in E.
    destruct Hj as [<-|Hj]; [contradiction|now apply IH].
Qed.

Lemma enableRows_ok (is_ js : list Z) :
  enableRows is_ js = Ret tt ->
  forall i j, In i is_ -> In j js -> i <> j ->
    hipSuccess (HipDeviceCanAccessPeer i j) = true /\
    canAccessPeer i j = true /\ peerAccessEnabled i j = true.
Proof.
  induction is_ as [|i0 is_ IH]; intros H i j Hi Hj Hne; [contradiction|].
  cbn [enableRows] in H.
  destruct (enableRow i0 js) as [[]|] eqn:He; [|discriminate]. cbn [bind] in H.
  destruct Hi as [<-|Hi]; [now apply (enableRow_ok i0 js)|now apply IH].
Qed.

Lemma enablePeers_ok (numGpus : Z) : enablePeers numGpus = Ret tt -> allPeers numGpus.
Proof.
  intros H i j Hi Hj Hne. apply (enableRows_ok _ _ H); [now apply in_upTo..|exact Hne].
Qed.

End WithRuntime.
End PeersFacts.

(** ** The transfers of the all-to-all preset *)

Module AllToAllFacts.
Import AllToAll.

Section WithRuntime.
Context {rt : Runtime}.
Variables useFineGrain useRemoteRead a2aDirect : bool.
Variable numGpus : Z.
Variable hopCount : Z -> Z -> option Z.
Variables numBytesPerTransfer numSubExecs_ : Z.

Let tr := pairTransfer useFineGrain useRemoteRead numBytesPerTransfer numSubExecs_.
Let keep := kept a2aDirect hopCount.

Lemma innerLoop_spec (i : Z) (js : list Z) : forall acc ts,
  innerLoop useFineGrain useRemoteRead a2aDirect hopCount numBytesPerTransfer numSubExecs_
            i js acc = Ret ts ->
  ts = acc ++ map (fun p => tr (fst p) (snd p)) (filter keep (map (pair i) js)).
Proof.
  induction js as [|j js IH]; intros acc ts H; cbn [innerLoop] in H.
  - injection H as <-. cbn. now rewrite app_nil_r.
  - cbn [map filter]. unfold keep at 1, kept. cbn [fst snd].
    destruct (a2aDirect && negb nvcc).
    + destruct (i =? j); cbn [negb andb]; [now apply IH|].
      destruct (hopCount _ _) as [hops|]; [|discriminate].
      destruct (hops =? 1); cbn [negb] in H |- *.
      * apply IH in H. rewrite H, <- app_assoc. reflexivity.
      * now apply IH.
    + apply IH in H. rewrite H, <- app_assoc. reflexivity.
Qed.

Lemma outerLoop_spec (js is_ : list Z) (Hjs : js = map Z.of_nat (seq 0 (Z.to_nat numGpus))) :
  forall acc ts,
  outerLoop useFineGrain useRemoteRead a2aDirect numGpus hopCount numBytesPerTransfer
            numSubExecs_ is_ acc = Ret ts ->
  ts = acc ++ map (fun p => tr (fst p) (snd p))
                  (filter keep (flat_map (fun i => map (pair i) js) is_)).
Proof.
  induction is_ as [|i is_ IH]; intros acc ts H; cbn [outerLoop] in H.
  - injection H as <-. cbn. now rewrite app_nil_r.
  - destruct (innerLoop _ _ _ _ _ _ i _ acc) as [acc'|] eqn:E; [|discriminate].
    cbn [bind] in H. rewrite <- Hjs in E.
    apply innerLoop_spec in E. apply IH in H. subst acc'.
    cbn [flat_map]. rewrite filter_app, map_app, H, <- app_assoc. reflexivity.
Qed.

Lemma NoDup_allPairs : NoDup (allPairs numGpus).
Proof.
  unfold allPairs.
  assert (Hnd : NoDup (map Z.of_nat (seq 0 (Z.to_nat numGpus)))).
  { apply Finite.Injective_map_NoDup; [intros a b; apply Nat2Z.inj|apply seq_NoDup]. }
  apply BlockOrderFacts.NoDup_flat_map; [exact Hnd| |].
  - intros i _. apply Finite.Injective_map_NoDup; [|exact Hnd].
    intros a b H. now injection H.
  - intros i i' p _ _ Hp Hp'.
    apply in_map_iff in Hp as (j & <- & _). apply in_map_iff in Hp' as (j' & E & _).
    now injection E.
Qed.

Lemma in_allPairs (p : Z * Z) :
  In p (allPairs numGpus) <-> 0 <= fst p < numGpus /\ 0 <= snd p < numGpus.
Proof.
  assert (Hin : forall k, In k (map Z.of_nat (seq 0 (Z.to_nat numGpus))) <-> 0 <= k < numGpus).
  { intros k. rewrite in_map_iff. split.
    - intros (x & <- & Hx). apply in_seq in Hx. lia.
    - intros Hk. exists (Z.to_nat k). split; [lia|]. apply in_seq. lia. }
  unfold allPairs. rewrite in_flat_map. split.
  - intros (i & Hi & Hp). apply in_map_iff in Hp as (j & <- & Hj).
    cbn [fst snd]. now rewrite <- !Hin.
  - intros [Hi Hj]. exists (fst p). rewrite Hin. split; [exact Hi|].
    apply in_map_iff. exists (snd p). rewrite Hin. split; [now destruct p|exact Hj].
Qed.

Lemma length_flat_pairs (is_ js : list Z) :
  length (flat_map (fun i => map (pair i) js) is_) = (length is_ * length js)%nat.
Proof.
  induction is_ as [|i is_ IH]; [reflexivity|].
  cbn [flat_map length]. rewrite length_app, length_map, IH. lia.
Qed.

Lemma length_allPairs :
  Z.of_nat (length (allPairs numGpus)) = Z.max 0 numGpus * Z.max 0 numGpus.
Proof.
  unfold allPairs. rewrite length_flat_pairs, !length_map, !length_seq. lia.
Qed.

(** X17: the all-to-all preset goes on to its transfers only when every
    GPU has been given peer access to every other one.  The transfers
    are one for every pair of GPUs that is kept, row by row: every pair, a GPU with itself
    too, unless only direct links are asked for (off the NVIDIA
    platform), and then the pairs of two different devices one hop
    apart.  No pair has two transfers, so that the table of the summary
    finds every transfer at its own place; the transfer of the pair
    [(i, j)] reads GPU [i] and writes GPU [j] on the kernel executor of
    GPU [i], or of GPU [j] with remote reads. *)
Theorem a2aTransfers_pairs (ts : list Transfer) :
  a2aTransfers useFineGrain useRemoteRead a2aDirect numGpus hopCount numBytesPerTransfer
               numSubExecs_ = Ret ts ->
  Peers.allPeers numGpus /\
  ts = map (fun p => tr (fst p) (snd p)) (filter keep (allPairs numGpus)) /\
  map endsOf ts = filter keep (allPairs numGpus) /\
  NoDup (map endsOf ts) /\
  Forall (fun p => 0 <= fst p < numGpus /\ 0 <= snd p < numGpus) (map endsOf ts) /\
  (a2aDirect && negb nvcc = false ->
   Z.of_nat (length ts) = Z.max 0 numGpus * Z.max 0 numGpus).
Proof.
  intros H. unfold a2aTransfers in H.
  destruct (Peers.enablePeers numGpus) as [[]|] eqn:Hpeers; [|discriminate].
  cbn [bind] in H. split; [now apply PeersFacts.enablePeers_ok|].
  apply (outerLoop_spec _ _ eq_refl) in H. cbn [app] in H. fold (allPairs numGpus) in H.
  assert (Hends : map endsOf ts = filter keep (allPairs numGpus)).
  { rewrite H, map_map. rewrite <- (map_id (filter keep (allPairs numGpus))) at 2.
    apply map_ext. now intros [i j]. }
  split; [exact H|]. split; [exact Hends|]. rewrite Hends.
  split; [apply NoDup_filter, NoDup_allPairs|]. split.
  - apply Forall_forall. intros p Hp. apply filter_In in Hp as [Hp _].
    now apply in_allPairs.
  - intros Hall. rewrite <- length_allPairs, <- (length_map endsOf), Hends.
    f_equal. f_equal. clear -Hall. unfold keep, kept. rewrite Hall.
    induction (allPairs numGpus) as [|p l IH]; [reflexivity|]. cbn [filter]. now rewrite IH.
Qed.

End WithRuntime.

(** Three GPUs on the sample machine, every pair of which is one hop
    apart, with direct links only: the six pairs of different GPUs. *)
Lemma a2aTransfers_pairs_witness :
  exists ts,
    @a2aTransfers DispatcherSpec.sampleRuntime false false true 3 (fun _ _ => Some 1) 1024 4
      = Ret ts /\
    @Peers.allPeers DispatcherSpec.sampleRuntime 3 /\
    ts = map (fun p => pairTransfer false false 1024 4 (fst p) (snd p))
             (filter (@kept DispatcherSpec.sampleRuntime true (fun _ _ => Some 1))
                     (allPairs 3)) /\
    map endsOf ts = filter (@kept DispatcherSpec.sampleRuntime true (fun _ _ => Some 1))
                           (allPairs 3) /\
    NoDup (map endsOf ts) /\
    Forall (fun p => 0 <= fst p < 3 /\ 0 <= snd p < 3) (map endsOf ts) /\
    (true && negb (@nvcc DispatcherSpec.sampleRuntime) = false ->
     Z.of_nat (length ts) = Z.max 0 3 * Z.max 0 3).
Proof.
  eexists. split; [reflexivity|].
  apply (@a2aTransfers_pairs DispatcherSpec.sampleRuntime false false true 3
           (fun _ _ => Some 1) 1024 4).
  reflexivity.
Defined.

Example a2a_examples :
  option_map (map endsOf)
    (BlockOrderSpec.returned
       (Some (@a2aTransfers DispatcherSpec.sampleRuntime false false true 3
                (fun _ _ => Some 1) 1024 4)))
  = Some [(0, 1); (0, 2); (1, 0); (1, 2); (2, 0); (2, 1)] /\
  option_map (map (fun t => (endsOf t, exeIndex t)))
    (BlockOrderSpec.returned
       (Some (@a2aTransfers DispatcherSpec.sampleRuntime false true false 2
                (fun _ _ => None) 1024 4)))
  = Some [((0, 0), 0); ((0, 1), 1); ((1, 0), 0); ((1, 1), 1)] /\
  @a2aTransfers DispatcherSpec.sampleRuntime false false true 2 (fun _ _ => None) 1024 4
  = Exit 1 ErrHipCall.
Proof. vm_compute. repeat split. Qed.

End AllToAllFacts.

(** ** The buffers of a transfer *)

Module SetupFacts.
Import Setup SetupSpec.

Section WithRuntime.
Context {rt : Runtime}.
Variable ev : EnvVars.

Lemma allocateBuffers_placed (exeIsGpu : bool) (exeIndex_ bytes : Z)
    (es : list (MemType * Z)) :
  forall ptrs, allocateBuffers ev exeIsGpu exeIndex_ bytes es = Ret ptrs ->
  Forall2 (placed ev exeIsGpu exeIndex_ bytes) es ptrs.
Proof.
  induction es as [|[memType index] es IH]; intros ptrs H; cbn [allocateBuffers] in H.
  - injection H as <-. constructor.
  - destruct (exeIsGpu && IsGpuType memType
              && negb (RemappedIndex index (IsCpuType memType) =? exeIndex_)) eqn:Hpeer.
    + destruct (EnablePeerAccess _ _) as [[]|] eqn:Hen; [|discriminate]. cbn [bind] in H.
      destruct (AllocateMemory _ _ _) as [ptr|] eqn:Ha; [|discriminate]. cbn [bind] in H.
      destruct (allocateBuffers _ _ _ _ es) as [rest|] eqn:Hr; [|discriminate].
      cbn [bind] in H. injection H as <-. constructor; [|now apply IH].
      split; cbn [fst snd]; [exact Ha|]. intros _. now apply PeersFacts.EnablePeerAccess_ok.
    + cbn [bind] in H.
      destruct (AllocateMemory _ _ _) as [ptr|] eqn:Ha; [|discriminate]. cbn [bind] in H.
      destruct (allocateBuffers _ _ _ _ es) as [rest|] eqn:Hr; [|discriminate].
      cbn [bind] in H. injection H as <-. constructor; [|now apply IH].
      split; cbn [fst snd]; [exact Ha|]. rewrite Hpeer. discriminate.
Qed.

(** X18: when the set-up of a transfer returns, the transfer has one
    buffer for each of its [numSrcs] sources and one for each of its
    [numDsts] destinations, in their order: the one [AllocateMemory]
    returned for the kind of the endpoint, on the device its index is
    remapped to, of the bytes of the transfer and the byte offset; a GPU
    executor has been given peer access to every GPU endpoint on another
    device than its own.  The bytes are the transfer's own when it has
    some, and [N] floats otherwise; what was asked for is unchanged. *)
Theorem setupTransfer_buffers (N : Z) (t t' : Transfer) :
  setupTransfer ev N t = Ret t' ->
  let exeIndex_ := RemappedIndex (exeIndex t) (IsCpuType (exeType t)) in
  let bytes := if numBytes t =? 0 then to_size_t (N * sizeof_float) else numBytes t in
  numBytesActual t' = bytes /\
  Forall2 (placed ev (IsGpuType (exeType t)) exeIndex_ bytes)
          (endpoints (numSrcs t) (srcType t) (srcIndex t)) (srcMem t') /\
  Forall2 (placed ev (IsGpuType (exeType t)) exeIndex_ bytes)
          (endpoints (numDsts t) (dstType t) (dstIndex t)) (dstMem t') /\
  request t' = request t.
Proof.
  unfold setupTransfer. intros H.
  destruct (allocateBuffers _ _ _ _ (firstn (Z.to_nat (numSrcs t)) _)) as [srcs|] eqn:Hs;
    [|discriminate]. cbn [bind] in H.
  destruct (allocateBuffers _ _ _ _ (firstn (Z.to_nat (numDsts t)) _)) as [dsts|] eqn:Hd;
    [|discriminate]. cbn [bind] in H.
  injection H as <-. cbn [numBytesActual srcMem dstMem]. unfold bytesActual in *.
  split; [reflexivity|].
  split; [now apply allocateBuffers_placed|].
  split; [now apply allocateBuffers_placed|reflexivity].
Qed.

End WithRuntime.

(** A GPU that writes 256 floats to the host and to another GPU. *)
Lemma setupTransfer_buffers_witness :
  exists t',
    @setupTransfer DispatcherSpec.sampleRuntime (DispatcherSpec.sampleEnv false false)
      256 sampleFanOut = Ret t' /\
    numBytesActual t' = 1024 /\
    Forall2 (@placed DispatcherSpec.sampleRuntime (DispatcherSpec.sampleEnv false false)
               true 0 1024) [(MEM_GPU, 0)] (srcMem t') /\
    Forall2 (@placed DispatcherSpec.sampleRuntime (DispatcherSpec.sampleEnv false false)
               true 0 1024) [(MEM_CPU, 0); (MEM_GPU_FINE, 1)] (dstMem t') /\
    request t' = request sampleFanOut.
Proof.
  eexists. split; [reflexivity|].
  apply (@setupTransfer_buffers DispatcherSpec.sampleRuntime
           (DispatcherSpec.sampleEnv false false) 256 sampleFanOut).
  reflexivity.
Defined.

Example setupTransfer_examples :
  option_map (fun t' => (srcMem t', dstMem t', numBytesActual t'))
    (BlockOrderSpec.returned
       (Some (@setupTransfer DispatcherSpec.sampleRuntime
                (DispatcherSpec.sampleEnv false false) 256 sampleFanOut)))
  = Some ([4096], [4096; 4096], 1024).
Proof. vm_compute. reflexivity. Qed.

End SetupFacts.

(** ** The sizes gone through when the byte count is 0 *)

Module SweepFacts.
Import Main SweepSpec.

Lemma base_pos (k : nat) : 256 <= base k.
Proof.
  unfold base. assert (0 < 2 ^ Z.of_nat k) by (apply Z.pow_pos_nonneg; lia). lia.
Qed.

Lemma base_S (k : nat) : base (S k) = base k * 2.
Proof.
  unfold base. rewrite Nat2Z.inj_succ, Z.pow_succ_r by lia. lia.
Qed.

Lemma base_le (k : nat) : (k <= 19)%nat -> base k <= 2 ^ 27.
Proof.
  intros Hk. unfold base. change (2 ^ 27) with (256 * 2 ^ 19).
  apply Z.mul_le_mono_nonneg_l; [lia|]. apply Z.pow_le_mono_r; lia.
Qed.

Lemma base_mono (j k : nat) : (j <= k)%nat -> base j <= base k.
Proof.
  intros H. unfold base. apply Z.mul_le_mono_nonneg_l; [lia|].
  apply Z.pow_le_mono_r; lia.
Qed.

(** The sizes of one range. *)
Lemma steps_range (N delta n : Z) :
  1 <= N -> 1 <= delta -> In n (steps N delta) -> N <= n < 2 * N.
Proof.
  intros HN Hd Hin. unfold steps in Hin. apply in_map_iff in Hin as (j & <- & Hj).
  apply in_seq in Hj. cbn in Hj.
  assert (Hc : Z.of_nat j <= (N - 1) / delta).
  { replace (N + delta - 1) with (N - 1 + 1 * delta) in Hj by lia.
    rewrite Z.div_add in Hj by lia.
    assert (0 <= (N - 1) / delta) by (apply Z.div_pos; lia). lia. }
  assert (delta * ((N - 1) / delta) <= N - 1) by (apply Z.mul_div_le; lia).
  nia.
Qed.

Lemma steps_head (N delta : Z) :
  1 <= N -> 1 <= delta -> exists rest, steps N delta = N :: rest.
Proof.
  intros HN Hd. unfold steps.
  replace (N + delta - 1) with (N - 1 + 1 * delta) by lia.
  rewrite Z.div_add by lia.
  assert (0 <= (N - 1) / delta) by (apply Z.div_pos; lia).
  replace (Z.to_nat ((N - 1) / delta + 1)) with (S (Z.to_nat ((N - 1) / delta))) by lia.
  cbn [seq map]. eexists. f_equal. lia.
Qed.

Lemma steps_sorted (N delta : Z) : 1 <= delta -> StronglySorted Z.lt (steps N delta).
Proof.
  intros Hd. unfold steps. generalize (Z.to_nat ((N + delta - 1) / delta)) as c.
  generalize 0%nat as s. intros s c. revert s.
  induction c as [|c IH]; intros s; cbn [seq map]; constructor; [apply IH|].
  apply Forall_forall. intros n Hin. apply in_map_iff in Hin as (j & <- & Hj).
  apply in_seq in Hj. nia.
Qed.

Lemma sorted_app (l1 l2 : list Z) :
  StronglySorted Z.lt l1 -> StronglySorted Z.lt l2 ->
  (forall a b, In a l1 -> In b l2 -> a < b) ->
  StronglySorted Z.lt (l1 ++ l2).
Proof.
  intros H1 H2 H. induction H1 as [|a l1 Hs IH Ha]; [exact H2|].
  cbn [app]. constructor.
  - apply IH. intros x y Hx. apply H. now right.
  - apply Forall_app. split; [exact Ha|].
    apply Forall_forall. intros b Hb. apply H; [now left|exact Hb].
Qed.

Section WithEngine.
Context {tables : CharTables}.
Variable ev : EnvVars.
Variable ExecuteTransfers : Z -> Z -> list Transfer -> outcome (list Transfer).

Let piece (k : nat) : list Z :=
  steps (base k) (Z.max 1 (Z.quot (base k) (samplingFactor ev))).

Lemma runSizes_app (l1 l2 : list Z) :
  forall testNum transfers,
  runSizes ExecuteTransfers (l1 ++ l2) testNum transfers
  = bind (runSizes ExecuteTransfers l1 testNum transfers)
         (fun r => runSizes ExecuteTransfers l2 (fst r) (snd r)).
Proof.
  induction l1 as [|n l1 IH]; intros testNum transfers; [reflexivity|].
  cbn [app runSizes]. destruct (ExecuteTransfers _ _ _); [|reflexivity].
  cbn [bind]. apply IH.
Qed.

(** The inner loop goes through the sizes from [curr] below [limit]. *)
Lemma sweepSizes_steps (delta limit : Z) :
  1 <= delta -> limit + delta < 2 ^ 31 ->
  forall fuel curr testNum transfers,
  0 <= curr ->
  (Z.to_nat ((limit - curr + delta - 1) / delta) <= fuel)%nat ->
  sweepSizes ExecuteTransfers fuel curr limit delta testNum transfers
  = runSizes ExecuteTransfers
      (map (fun j => curr + Z.of_nat j * delta)
           (seq 0 (Z.to_nat ((limit - curr + delta - 1) / delta))))
      testNum transfers.
Proof.
  intros Hd Hlim. induction fuel as [|fuel IH]; intros curr testNum transfers Hc Hfuel.
  - replace (Z.to_nat _) with 0%nat by lia. reflexivity.
  - cbn [sweepSizes]. destruct (curr <? limit) eqn:E.
    + apply Z.ltb_lt in E.
      assert (Hq : (limit - curr + delta - 1) / delta
                   = (limit - (curr + delta) + delta - 1) / delta + 1).
      { rewrite <- Z.div_add by lia. f_equal. lia. }
      assert (Hq0 : 0 <= (limit - curr - 1) / delta) by (apply Z.div_pos; lia).
      replace (limit - (curr + delta) + delta - 1) with (limit - curr - 1) in Hq by lia.
      rewrite Hq in Hfuel |- *.
      replace (Z.to_nat ((limit - curr - 1) / delta + 1))
        with (S (Z.to_nat ((limit - curr - 1) / delta))) in Hfuel |- * by lia.
      cbn [seq map runSizes].
      rewrite (to_size_t_small curr) by (assert (2 ^ 31 < 2 ^ 64) by reflexivity; lia).
      replace (curr + Z.of_nat 0 * delta) with curr by lia.
      destruct (ExecuteTransfers _ _ _) as [transfers'|]; [|reflexivity]. cbn [bind].
      rewrite (to_int_small (curr + delta)) by lia.
      rewrite IH by (try lia;
        replace (limit - (curr + delta) + delta - 1) with (limit - curr - 1) by lia; lia).
      replace (limit - (curr + delta) + delta - 1) with (limit - curr - 1) by lia.
      f_equal. rewrite <- seq_shift, map_map. apply map_ext. intros j. lia.
    + apply Z.ltb_ge in E.
      assert ((limit - curr + delta - 1) / delta <= 0).
      { destruct (Z_lt_le_dec (limit - curr + delta - 1) 0) as [Hn|Hn].
        - assert ((limit - curr + delta - 1) / delta < 0); [|lia].
          apply Z.div_lt_upper_bound; lia.
        - rewrite Z.div_small; lia. }
      replace (Z.to_nat _) with 0%nat by lia. reflexivity.
  Qed.

Lemma sweepRange_pieces :
  samplingFactor ev <> 0 ->
  forall doublings k testNum transfers,
  (k + doublings <= 20)%nat ->
  sweepRange ev ExecuteTransfers doublings (base k) testNum transfers
  = runSizes ExecuteTransfers (flat_map piece (seq k doublings)) testNum transfers.
Proof.
  intros Hs. induction doublings as [|d IH]; intros k testNum transfers Hk; [reflexivity|].
  cbn [sweepRange seq flat_map].
  pose proof (base_pos k) as Hpos. pose proof (base_le k ltac:(lia)) as Hle.
  destruct (base k <=? 2 ^ 27) eqn:E; [|apply Z.leb_gt in E; lia].
  destruct (samplingFactor ev =? 0) eqn:E0; [apply Z.eqb_eq in E0; contradiction|].
  rewrite runSizes_app. unfold piece at 1, steps.
  set (delta := Z.max 1 (Z.quot (base k) (samplingFactor ev))).
  assert (Hd1 : 1 <= delta) by (unfold delta; lia).
  assert (Hd2 : delta <= base k).
  { unfold delta. apply Z.max_lub; [lia|].
    destruct (Z_lt_le_dec (samplingFactor ev) 0) as [Hn|Hn].
    - assert (Z.quot (base k) (samplingFactor ev) <= 0); [|lia].
      rewrite <- (Z.opp_involutive (samplingFactor ev)), Z.quot_opp_r by lia.
      assert (0 <= Z.quot (base k) (- samplingFactor ev)); [|lia].
      apply Z.quot_pos; lia.
    - rewrite Z.quot_div_nonneg by lia.
      apply Z.div_le_upper_bound; [lia|]. nia. }
  assert (H27 : 2 ^ 27 = 134217728) by reflexivity.
  assert (H31 : 2 ^ 31 = 2147483648) by reflexivity.
  rewrite (sweepSizes_steps delta (base k * 2)); try lia.
  - replace (base k * 2 - base k + delta - 1) with (base k + delta - 1) by lia.
    destruct (runSizes _ _ _ _) as [[testNum' transfers']|]; [|reflexivity].
    cbn [bind fst snd]. rewrite <- base_S. apply IH. lia.
  - replace (base k * 2 - base k + delta - 1) with (base k + delta - 1) by lia.
    assert ((base k + delta - 1) / delta <= base k); [|lia].
    apply Z.div_le_upper_bound; [lia|]. nia.
Qed.

(** The sizes are between 256 and [2 ^ 28], in increasing order, and
    every power of two of the range is one of them. *)
Lemma sweepList_shape (s : Z) :
  Forall (fun n => 256 <= n < 2 ^ 28) (sweepList s) /\
  StronglySorted Z.lt (sweepList s) /\
  forall k, (k < 20)%nat -> In (base k) (sweepList s).
Proof.
  assert (Hpiece : forall k n,
            In n (steps (base k) (Z.max 1 (Z.quot (base k) s))) ->
            base k <= n < 2 * base k).
  { intros k n. pose proof (base_pos k). apply steps_range; lia. }
  split; [|split].
  - apply Forall_forall. intros n Hin. unfold sweepList in Hin.
    apply in_flat_map in Hin as (k & Hk & Hn). apply in_seq in Hk.
    apply Hpiece in Hn. pose proof (base_pos k). pose proof (base_le k ltac:(lia)).
    assert (2 ^ 28 = 2 * 2 ^ 27) by reflexivity. lia.
  - unfold sweepList. generalize 20%nat as d. generalize 0%nat as k0.
    intros k0 d. revert k0. induction d as [|d IH]; intros k0; [constructor|].
    cbn [seq flat_map]. apply sorted_app; [apply steps_sorted; lia|apply IH|].
    intros a b Ha Hb. apply in_flat_map in Hb as (k & Hk & Hb). apply in_seq in Hk.
    apply Hpiece in Ha, Hb. pose proof (base_mono (S k0) k ltac:(lia)).
    rewrite base_S in *. lia.
  - intros k Hk. unfold sweepList. apply in_flat_map. exists k.
    split; [apply in_seq; lia|].
    pose proof (base_pos k).
    destruct (steps_head (base k) (Z.max 1 (Z.quot (base k) s))) as [rest ->]; try lia.
    now left.
Qed.

(** X19: when no byte count is given ([numBytesPerTransfer = 0]) and
    the sampling factor is not 0, [main] runs the transfers of a line
    once on each size of a list that depends on the sampling factor
    only, in order and each with the next test number, and stops at the
    first run that does not return.  The sizes are increasing, from 256
    floats to less than [2 ^ 28], and every power of two from 256 to
    [2 ^ 27] is one of them. *)
Theorem runLine_sweep (testNum : Z) (transfers : list Transfer) :
  samplingFactor ev <> 0 ->
  runLine ev ExecuteTransfers 0 testNum transfers
  = bind (runSizes ExecuteTransfers (sweepList (samplingFactor ev)) testNum transfers)
         (fun r => Ret (fst r)) /\
  Forall (fun n => 256 <= n < 2 ^ 28) (sweepList (samplingFactor ev)) /\
  StronglySorted Z.lt (sweepList (samplingFactor ev)) /\
  forall k, (k < 20)%nat -> In (256 * 2 ^ Z.of_nat k) (sweepList (samplingFactor ev)).
Proof.
  intros Hs. split; [|apply sweepList_shape].
  unfold runLine. cbn [Z.eqb negb].
  change 256 with (base 0). now rewrite (sweepRange_pieces Hs 20 0).
Qed.

End WithEngine.

(** A sampling factor of 1 on an engine that runs nothing: the twenty
    powers of two, and twenty tests. *)
Lemma runLine_sweep_witness :
  samplingFactor (DispatcherSpec.sampleEnv false false) <> 0 /\
  (runLine (DispatcherSpec.sampleEnv false false) ParserSpec.idleEngine 0 0 []
   = bind (runSizes ParserSpec.idleEngine
             (sweepList (samplingFactor (DispatcherSpec.sampleEnv false false))) 0 [])
          (fun r => Ret (fst r)) /\
   Forall (fun n => 256 <= n < 2 ^ 28)
          (sweepList (samplingFactor (DispatcherSpec.sampleEnv false false))) /\
   StronglySorted Z.lt (sweepList (samplingFactor (DispatcherSpec.sampleEnv false false))) /\
   forall k, (k < 20)%nat ->
     In (256 * 2 ^ Z.of_nat k)
        (sweepList (samplingFactor (DispatcherSpec.sampleEnv false false)))).
Proof.
  split; [discriminate|].
  apply (runLine_sweep (DispatcherSpec.sampleEnv false false) ParserSpec.idleEngine 0 []).
  discriminate.
Defined.

Example sweep_examples :
  sweepList 1 = map base (seq 0 20) /\
  firstn 6 (sweepList 4) = [256; 320; 384; 448; 512; 640] /\
  firstn 4 (sweepList 1000) = [256; 257; 258; 259] /\
  runSizes ParserSpec.idleEngine (sweepList 1) 0 [] = Ret (20, []) /\
  runSizes (failsOn 1024) (sweepList 1) 0 [] = Exit 1 ErrHipCall.
Proof. vm_compute. repeat split. Qed.

End SweepFacts.

(** ** The tests of the peer-to-peer preset *)

Module PeerToPeerFacts.
Import PeerToPeer PeerToPeerSpec ParsedSpec.

Section WithRuntime.
Context {rt : Runtime}.
Variable ev : EnvVars.
Variables useFineGrain useRemoteRead useDmaCopy : bool.
Variable p2pMode : Z.
Variables numGpuSubExecs numCpuSubExecs : Z.
Variable numCpusPerNuma : Z -> Z.
Variable N : Z.

Hypothesis cpus_nonneg : 0 <= numCpuDevices ev.
Hypothesis gpus_nonneg : 0 <= numGpuDevices ev.
Hypothesis devices_int : numCpuDevices ev + numGpuDevices ev < 2 ^ 31.

Let way := oneWay ev useFineGrain useRemoteRead useDmaCopy numGpuSubExecs numCpuSubExecs N.
Let transfersOf :=
  p2pTransfers ev useFineGrain useRemoteRead useDmaCopy numGpuSubExecs numCpuSubExecs N.
Let skipped :=
  skipTest ev useFineGrain useRemoteRead useDmaCopy numGpuSubExecs numCpuSubExecs
           numCpusPerNuma N.

Lemma numDevices_eq : numDevices ev = numCpuDevices ev + numGpuDevices ev.
Proof.
  unfold numDevices, numCpus, numGpus, to_int.
  rewrite Z.mod_small; lia.
Qed.

(** The endpoint of a device number is a device that exists. *)
Lemma device_endpoint (dev : Z) :
  0 <= dev < numDevices ev ->
  endpointOk (numCpuDevices ev) (numGpuDevices ev)
             (actualOf useFineGrain (typeOf ev dev), indexOf ev dev).
Proof.
  rewrite numDevices_eq. intros Hdev.
  unfold endpointOk, actualOf, indexOf, typeOf, numCpus. cbn [fst snd].
  destruct (dev <? numCpuDevices ev) eqn:E;
    [apply Z.ltb_lt in E|apply Z.ltb_ge in E]; cbn [MemType_eqb].
  - destruct useFineGrain; cbn [andb IsCpuType IsGpuType MemType_kind];
      (split; [discriminate|split; [intros _; lia|discriminate]]).
  - assert (Hi : to_int (dev - numCpuDevices ev) = dev - numCpuDevices ev).
    { unfold to_int. rewrite Z.mod_small; lia. }
    rewrite Hi.
    destruct useFineGrain; cbn [andb IsCpuType IsGpuType MemType_kind];
      (split; [discriminate|split; [discriminate|intros _; lia]]).
Qed.

Lemma way_oneToOne (src dst : Z) :
  0 <= src < numDevices ev -> 0 <= dst < numDevices ev ->
  oneToOne (numCpuDevices ev) (numGpuDevices ev) (way src dst).
Proof.
  intros Hs Hd. unfold oneToOne, way, oneWay.
  cbn [numSrcs numDsts srcType srcIndex dstType dstIndex].
  split; [reflexivity|]. split; [reflexivity|]. split.
  - eexists _, _. split; [reflexivity|]. split; [reflexivity|]. now apply device_endpoint.
  - eexists _, _. split; [reflexivity|]. split; [reflexivity|]. now apply device_endpoint.
Qed.

Lemma way_colocated (src dst : Z) : colocated useRemoteRead (way src dst).
Proof.
  unfold colocated, home, way, oneWay, actualOf, gpuExeType, typeOf.
  cbn [exeType exeIndex srcType srcIndex dstType dstIndex nth fst snd].
  destruct useRemoteRead; cbn [fst snd];
    [destruct (dst <? numCpus ev)|destruct (src <? numCpus ev)];
    destruct useFineGrain, useDmaCopy; repeat split.
Qed.

(** When the test is not skipped, every host executor of it has CPUs,
    and on the NVIDIA platform no endpoint on a GPU. *)
Lemma skipLoop_hostOk (srcType_ dstType_ : MemType) (ts : list Transfer) :
  skipLoop numCpusPerNuma srcType_ dstType_ ts = false ->
  Forall (fun t => exeType t = EXE_CPU ->
                   numCpusPerNuma (exeIndex t) <> 0 /\
                   (nvcc = true -> IsGpuType srcType_ = false /\ IsGpuType dstType_ = false))
         ts.
Proof.
  induction ts as [|t ts IH]; intros H; [constructor|]. cbn [skipLoop] in H.
  destruct (ExeType_eqb (exeType t) EXE_CPU && (numCpusPerNuma (exeIndex t) =? 0)) eqn:E1;
    [discriminate|].
  destruct (nvcc && (ExeType_eqb (exeType t) EXE_CPU
                     && (IsGpuType srcType_ || IsGpuType dstType_))) eqn:E2; [discriminate|].
  constructor; [|now apply IH].
  intros Hcpu. rewrite Hcpu in E1, E2. cbn [ExeType_eqb andb] in E1, E2.
  apply Z.eqb_neq in E1. split; [exact E1|]. intros Hn. rewrite Hn in E2.
  cbn [andb] in E2. now apply orb_false_iff in E2.
Qed.

Lemma actualOf_gpu (m : MemType) :
  m = MEM_CPU \/ m = MEM_GPU -> IsGpuType (actualOf useFineGrain m) = IsGpuType m.
Proof.
  unfold actualOf. intros [-> | ->]; destruct useFineGrain; reflexivity.
Qed.

Lemma typeOf_cases (dev : Z) : typeOf ev dev = MEM_CPU \/ typeOf ev dev = MEM_GPU.
Proof.
  unfold typeOf. destruct (dev <? numCpus ev); [now left|now right].
Qed.

(** A test that is run. *)
Lemma test_ok (isBidirectional : bool) (src dst : Z) :
  0 <= src < numDevices ev -> 0 <= dst < numDevices ev ->
  skipped isBidirectional src dst = false ->
  testOk useRemoteRead numCpusPerNuma (numCpuDevices ev) (numGpuDevices ev)
         (transfersOf isBidirectional src dst) /\
  length (transfersOf isBidirectional src dst) = (if isBidirectional then 2 else 1)%nat.
Proof.
  intros Hs Hd Hskip. unfold skipped, skipTest in Hskip.
  destruct (isBidirectional && MemType_eqb (typeOf ev src) (typeOf ev dst)
            && (indexOf ev src =? indexOf ev dst)) eqn:Hsame; [discriminate|].
  apply skipLoop_hostOk in Hskip. fold transfersOf in Hskip.
  assert (Hhost : forall t, In t (transfersOf isBidirectional src dst) ->
            (t = way src dst \/ t = way dst src) /\
            hostOk numCpusPerNuma t).
  { intros t Hin. split.
    - unfold transfersOf, p2pTransfers in Hin. fold way in Hin.
      destruct isBidirectional; cbn in Hin.
      + destruct Hin as [<-|[<-|[]]]; [now left|now right].
      + destruct Hin as [<-|[]]. now left.
    - rewrite Forall_forall in Hskip. specialize (Hskip t Hin).
      intros Hcpu. destruct (Hskip Hcpu) as [H0 Hn]. split; [exact H0|].
      intros Hnv. destruct (Hn Hnv) as [Hgs Hgd].
      assert (Hends : (srcType t ++ dstType t
                       = [actualOf useFineGrain (typeOf ev src);
                          actualOf useFineGrain (typeOf ev dst)]) \/
                      (srcType t ++ dstType t
                       = [actualOf useFineGrain (typeOf ev dst);
                          actualOf useFineGrain (typeOf ev src)])).
      { unfold transfersOf, p2pTransfers in Hin. fold way in Hin.
        destruct isBidirectional; cbn in Hin;
          destruct Hin as [<-|Hin]; try (now left); try contradiction.
        destruct Hin as [<-|[]]. now right. }
      destruct Hends as [-> | ->]; repeat constructor;
        rewrite actualOf_gpu by apply typeOf_cases; assumption. }
  split; [split|].
  - apply Forall_forall. intros t Hin. destruct (Hhost t Hin) as [[-> | ->] Hh].
    + split; [now apply way_oneToOne|]. split; [apply way_colocated|exact Hh].
    + split; [now apply way_oneToOne|]. split; [apply way_colocated|exact Hh].
  - unfold transfersOf, p2pTransfers. fold way. destruct isBidirectional.
    + right. exists (way src dst), (way dst src). split; [reflexivity|].
      unfold mirrored, way, oneWay. cbn [srcType srcIndex dstType dstIndex numBytes].
      repeat (split; [reflexivity|]).
      intros Heq. injection Heq as Ht Hi.
      cbn [andb] in Hsame. rewrite Hi, Z.eqb_refl, andb_true_r in Hsame.
      destruct (typeOf_cases src) as [Es|Es], (typeOf_cases dst) as [Ed|Ed];
        rewrite Es, Ed in Hsame, Ht; try discriminate;
        unfold actualOf in Ht; destruct useFineGrain; discriminate.
    + left. now exists (way src dst).
  - unfold transfersOf, p2pTransfers. now destruct isBidirectional.
Qed.

Lemma in_dstLoop (isBidirectional : bool) (src : Z) (dsts : list Z) (test : list Transfer) :
  In test (dstLoop ev useFineGrain useRemoteRead useDmaCopy numGpuSubExecs numCpuSubExecs
                   numCpusPerNuma N isBidirectional src dsts) ->
  exists dst, In dst dsts /\ skipped isBidirectional src dst = false /\
              test = transfersOf isBidirectional src dst.
Proof.
  induction dsts as [|dst dsts IH]; intros H; [contradiction|].
  cbn [dstLoop] in H. apply in_app_or in H as [H|H].
  - fold skipped in H. destruct (skipped isBidirectional src dst) eqn:E; [contradiction|].
    destruct H as [<-|[]]. exists dst. split; [now left|]. now split.
  - destruct (IH H) as (d & Hd & Hrest). exists d. split; [now right|exact Hrest].
Qed.

Lemma in_srcLoop (isBidirectional : bool) (srcs : list Z) (test : list Transfer) :
  In test (srcLoop ev useFineGrain useRemoteRead useDmaCopy numGpuSubExecs numCpuSubExecs
                   numCpusPerNuma N isBidirectional srcs) ->
  exists src dst, In src srcs /\ In dst (Peers.upTo (numDevices ev)) /\
                  skipped isBidirectional src dst = false /\
                  test = transfersOf isBidirectional src dst.
Proof.
  induction srcs as [|src srcs IH]; intros H; [contradiction|].
  cbn [srcLoop] in H. apply in_app_or in H as [H|H].
  - apply in_dstLoop in H as (dst & Hd & Hrest). exists src, dst.
    split; [now left|]. now split.
  - destruct (IH H) as (s & d & Hs & Hrest). exists s, d. split; [now right|exact Hrest].
Qed.

Lemma in_pass (isBidirectional : bool) (test : list Transfer) :
  In test (pass ev useFineGrain useRemoteRead useDmaCopy p2pMode numGpuSubExecs
                numCpuSubExecs numCpusPerNuma N isBidirectional) ->
  testOk useRemoteRead numCpusPerNuma (numCpuDevices ev) (numGpuDevices ev) test /\
  length test = (if isBidirectional then 2 else 1)%nat /\
  (isBidirectional = true -> p2pMode <> 1) /\
  (isBidirectional = false -> p2pMode <> 2).
Proof.
  unfold pass. intros H.
  destruct ((p2pMode =? 1) && isBidirectional || (p2pMode =? 2) && negb isBidirectional)
    eqn:Emode; [contradiction|].
  apply orb_false_iff in Emode as [E1 E2].
  apply in_srcLoop in H as (src & dst & Hs & Hd & Hskip & ->).
  apply PeersFacts.in_upTo in Hs, Hd.
  destruct (test_ok isBidirectional src dst Hs Hd Hskip) as [Hok Hlen].
  split; [exact Hok|]. split; [exact Hlen|]. split.
  - intros ->. rewrite andb_true_r in E1. now apply Z.eqb_neq in E1.
  - intros ->. cbn [negb] in E2. rewrite andb_true_r in E2. now apply Z.eqb_neq in E2.
Qed.

(** X20: the tests of the peer-to-peer preset.  The preset goes on to
    its tests only when every GPU has been given peer access to every
    other one.  Every test is one transfer, or in the bidirectional
    pass two transfers of which the second is the first the other way
    round, between two different devices.  Every transfer has one
    source and one destination, both devices that exist; its executor
    is the device of its source, or of its destination when reads are
    remote; an executor on the host is on a NUMA node that has CPUs,
    and on the NVIDIA platform has no endpoint on a GPU.  With
    [p2pMode] 1 no test has two transfers, and with [p2pMode] 2 none has
    one. *)
Theorem p2pTests_ok (tests : list (list Transfer)) :
  p2pTests ev useFineGrain useRemoteRead useDmaCopy p2pMode numGpuSubExecs numCpuSubExecs
           numCpusPerNuma N = Ret tests ->
  Peers.allPeers (numGpuDevices ev) /\
  Forall (testOk useRemoteRead numCpusPerNuma (numCpuDevices ev) (numGpuDevices ev)) tests /\
  (p2pMode = 1 -> Forall (fun test => length test = 1%nat) tests) /\
  (p2pMode = 2 -> Forall (fun test => length test = 2%nat) tests).
Proof.
  unfold p2pTests. intros H.
  destruct (Peers.enablePeers _) as [[]|] eqn:Hpeers; [|discriminate].
  cbn [bind] in H. injection H as <-.
  split; [now apply PeersFacts.enablePeers_ok|].
  split; [|split].
  - apply Forall_forall. intros test Hin.
    apply in_app_or in Hin as [Hin|Hin]; now apply in_pass in Hin.
  - intros Hm. apply Forall_forall. intros test Hin.
    apply in_app_or in Hin as [Hin|Hin]; apply in_pass in Hin as (_ & Hlen & Hbi & _).
    + exact Hlen.
    + now contradiction Hbi.
  - intros Hm. apply Forall_forall. intros test Hin.
    apply in_app_or in Hin as [Hin|Hin]; apply in_pass in Hin as (_ & Hlen & _ & Huni).
    + now contradiction Huni.
    + exact Hlen.
Qed.

End WithRuntime.

(** Two NUMA nodes, the second without CPUs, and two GPUs: both
    passes, with local reads on the kernel executors. *)
Lemma p2pTests_ok_witness :
  exists tests,
    @p2pTests DispatcherSpec.sampleRuntime sampleEnv false false false 0 8 4 sampleCpus 256
      = Ret tests /\
    @Peers.allPeers DispatcherSpec.sampleRuntime (numGpuDevices sampleEnv) /\
    Forall (@testOk DispatcherSpec.sampleRuntime false sampleCpus
              (numCpuDevices sampleEnv) (numGpuDevices sampleEnv)) tests /\
    (0 = 1 -> Forall (fun test => length test = 1%nat) tests) /\
    (0 = 2 -> Forall (fun test => length test = 2%nat) tests).
Proof.
  eexists. split; [reflexivity|].
  apply (@p2pTests_ok DispatcherSpec.sampleRuntime sampleEnv false false false 0 8 4
           sampleCpus 256); [cbn; lia|cbn; lia|cbn; lia|reflexivity].
Defined.

Example p2p_examples :
  option_map (map (map (fun t => (nth 0 (srcIndex t) 0, exeType t, exeIndex t,
                                  nth 0 (dstIndex t) 0))))
    (BlockOrderSpec.returned
       (Some (@p2pTests DispatcherSpec.sampleRuntime sampleEnv false false false 1 8 4
                sampleCpus 256)))
  = Some [[(0, EXE_CPU, 0, 0)]; [(0, EXE_CPU, 0, 1)]; [(0, EXE_CPU, 0, 0)];
          [(0, EXE_CPU, 0, 1)];
          [(0, EXE_GPU_GFX, 0, 0)]; [(0, EXE_GPU_GFX, 0, 1)]; [(0, EXE_GPU_GFX, 0, 0)];
          [(0, EXE_GPU_GFX, 0, 1)];
          [(1, EXE_GPU_GFX, 1, 0)]; [(1, EXE_GPU_GFX, 1, 1)]; [(1, EXE_GPU_GFX, 1, 0)];
          [(1, EXE_GPU_GFX, 1, 1)]].
Proof. vm_compute. reflexivity. Qed.

End PeerToPeerFacts.

(** ** The tables of [RemappedIndex] *)

Module RemapFacts.
Import Remap.

Lemma ltb_asym (a b : string) : String.ltb a b = true -> String.ltb b a = false.
Proof.
  unfold String.ltb. rewrite (String.compare_antisym b a).
  now destruct (String.compare a b).
Qed.

Lemma pair_ltb_asym (a b : string * Z) : pair_ltb a b = true -> pair_ltb b a = false.
Proof.
  unfold pair_ltb. intros H. apply orb_true_iff in H as [H|H].
  - rewrite (ltb_asym _ _ H), H. reflexivity.
  - apply andb_true_iff in H as [H1 H2]. apply negb_true_iff in H1.
    apply Z.ltb_lt in H2. rewrite H1. cbn [orb].
    apply andb_false_iff. right. apply Z.ltb_ge. lia.
Qed.

Lemma insert_perm (x : string * Z) (l : list (string * Z)) :
  Permutation (insert x l) (x :: l).
Proof.
  induction l as [|y l IH]; [reflexivity|]. cbn [insert].
  destruct (pair_ltb y x); [|reflexivity].
  rewrite IH. apply perm_swap.
Qed.

Lemma sort_perm (l : list (string * Z)) : Permutation (sort l) l.
Proof.
  induction l as [|x l IH]; [reflexivity|]. cbn [sort].
  rewrite insert_perm. now constructor.
Qed.

Lemma insert_sorted (x : string * Z) (l : list (string * Z)) :
  Sorted (fun a b => pair_ltb b a = false) l ->
  Sorted (fun a b => pair_ltb b a = false) (insert x l).
Proof.
  induction 1 as [|y l Hs IH Hhd]; [repeat constructor|]. cbn [insert].
  destruct (pair_ltb y x) eqn:E.
  - constructor; [exact IH|].
    destruct l as [|z l]; cbn [insert].
    + constructor. now apply pair_ltb_asym.
    + destruct (pair_ltb z x); constructor.
      * now inversion Hhd.
      * now apply pair_ltb_asym.
  - constructor; [now constructor|]. now constructor.
Qed.

Lemma sort_sorted (l : list (string * Z)) :
  Sorted (fun a b => pair_ltb b a = false) (sort l).
Proof.
  induction l as [|x l IH]; [constructor|]. cbn [sort]. now apply insert_sorted.
Qed.

Lemma sorted_addresses (l : list (string * Z)) :
  Sorted (fun a b => pair_ltb b a = false) l -> ascending (map fst l).
Proof.
  unfold ascending. induction 1 as [|y l Hs IH Hhd]; [constructor|].
  cbn [map]. constructor; [exact IH|].
  destruct Hhd as [|z l Hz]; constructor.
  unfold pair_ltb in Hz. now apply orb_false_iff in Hz.
Qed.

Lemma sorted_filter (f : Z -> bool) (l : list Z) :
  StronglySorted Z.lt l -> StronglySorted Z.lt (filter f l).
Proof.
  induction 1 as [|x l Hs IH Hx]; [constructor|]. cbn [filter].
  destruct (f x); [|exact IH]. constructor; [exact IH|].
  rewrite Forall_forall in Hx |- *. intros y Hy. apply filter_In in Hy as [Hy _].
  now apply Hx.
Qed.

Lemma upTo_sorted (n : Z) : StronglySorted Z.lt (Peers.upTo n).
Proof.
  unfold Peers.upTo. generalize (Z.to_nat n) as c. generalize 0%nat as s.
  intros s c. revert s. induction c as [|c IH]; intros s; cbn [seq map]; constructor;
    [apply IH|].
  apply Forall_forall. intros y Hy. apply in_map_iff in Hy as (j & <- & Hj).
  apply in_seq in Hj. lia.
Qed.

Lemma upTo_NoDup (n : Z) : NoDup (Peers.upTo n).
Proof.
  apply Finite.Injective_map_NoDup; [intros a b; apply Nat2Z.inj|apply seq_NoDup].
Qed.

Section WithMachine.
Variable numa_max_node : Z.
Variable memsAllowed : Z -> bool.
Variable hipGetDeviceCount : option Z.
Variable hipDeviceGetPCIBusId : Z -> option string.
Variable USE_PCIE_INDEX : option string.

Let known (p : string * Z) : Prop := hipDeviceGetPCIBusId (snd p) = Some (fst p).

Lemma collect_spec (devices : list Z) : forall acc mapping,
  collect hipDeviceGetPCIBusId devices acc = Ret mapping ->
  Forall known acc ->
  Forall known mapping /\ map snd mapping = map snd acc ++ devices.
Proof.
  induction devices as [|i devices IH]; intros acc mapping H Hacc; cbn [collect] in H.
  - injection H as <-. now rewrite app_nil_r.
  - destruct (hipDeviceGetPCIBusId i) as [address|] eqn:E; [|discriminate].
    apply IH in H as [Hk Hm].
    + split; [exact Hk|]. rewrite Hm, map_app, <- app_assoc. reflexivity.
    + apply Forall_app. split; [exact Hacc|]. now repeat constructor.
Qed.

Lemma known_addressed (l : list (string * Z)) :
  Forall known l -> addressed hipDeviceGetPCIBusId (map snd l) (map fst l).
Proof.
  unfold addressed. induction 1 as [|p l Hp _ IH]; cbn [map]; now constructor.
Qed.

(** The table of the GPUs, when it is built. *)
Lemma gpuTable_spec (gpu : list Z) :
  gpuTable hipGetDeviceCount hipDeviceGetPCIBusId USE_PCIE_INDEX = Ret gpu ->
  exists numGpuDevices,
    hipGetDeviceCount = Some numGpuDevices /\
    Permutation gpu (Peers.upTo numGpuDevices) /\
    (usePcieIndexing USE_PCIE_INDEX = 0 -> gpu = Peers.upTo numGpuDevices) /\
    (usePcieIndexing USE_PCIE_INDEX <> 0 ->
     exists addresses, addressed hipDeviceGetPCIBusId gpu addresses /\ ascending addresses).
Proof.
  unfold gpuTable. destruct hipGetDeviceCount as [n|]; [|discriminate].
  intros H. exists n. split; [reflexivity|].
  destruct (usePcieIndexing USE_PCIE_INDEX =? 0) eqn:E.
  - injection H as <-. apply Z.eqb_eq in E.
    split; [reflexivity|]. split; [reflexivity|]. intros Hne. contradiction.
  - apply Z.eqb_neq in E.
    destruct (collect _ _ _) as [mapping|] eqn:Hc; [|discriminate]. cbn [bind] in H.
    injection H as <-. apply collect_spec in Hc as [Hk Hm]; [|constructor].
    cbn [map app] in Hm. split; [|split].
    + rewrite <- Hm. apply Permutation_map, sort_perm.
    + intros E0. contradiction.
    + intros _. exists (map fst (sort mapping)). split.
      * apply known_addressed. apply (Permutation_Forall (Permutation_sym (sort_perm mapping))).
        exact Hk.
      * apply sorted_addresses, sort_sorted.
Qed.

(** X21: the tables of [RemappedIndex], after a first call that
    returns.  The table of the CPUs holds the NUMA nodes that are
    configured, in increasing order.  The table of the GPUs holds every
    device from 0 below the number of devices once: the devices in
    their own order without PCIe indexing, and in the order of their
    PCIe addresses with it.  The call returns the entry of the index in
    the table that was asked for, and every later call finds the same
    tables and leaves them as they are. *)
Theorem RemappedIndex_tables (origIdx : Z) (isCpuType : bool) (tables : Tables)
    (entry : option Z) :
  RemappedIndex numa_max_node memsAllowed hipGetDeviceCount hipDeviceGetPCIBusId
                USE_PCIE_INDEX noTables origIdx isCpuType = Ret (tables, entry) ->
  let entryOf (i : Z) (c : bool) :=
    if i <? 0 then None
    else nth_error (if c then remappingCpu tables else remappingGpu tables) (Z.to_nat i) in
  StronglySorted Z.lt (remappingCpu tables) /\
  (forall node, In node (remappingCpu tables) <->
                0 <= node <= numa_max_node /\ memsAllowed node = true) /\
  (exists numGpuDevices,
     hipGetDeviceCount = Some numGpuDevices /\
     NoDup (remappingGpu tables) /\
     (forall device, In device (remappingGpu tables) <-> 0 <= device < numGpuDevices) /\
     (usePcieIndexing USE_PCIE_INDEX = 0 -> remappingGpu tables = Peers.upTo numGpuDevices) /\
     (usePcieIndexing USE_PCIE_INDEX <> 0 ->
      exists addresses,
        addressed hipDeviceGetPCIBusId (remappingGpu tables) addresses /\
        ascending addresses)) /\
  entry = entryOf origIdx isCpuType /\
  forall i c,
    RemappedIndex numa_max_node memsAllowed hipGetDeviceCount hipDeviceGetPCIBusId
                  USE_PCIE_INDEX tables i c = Ret (tables, entryOf i c).
Proof.
  unfold RemappedIndex at 1. cbn [noTables remappingCpu remappingGpu isEmpty].
  destruct (gpuTable _ _ _) as [gpu|] eqn:Hg; [|discriminate]. cbn [bind].
  intros H. injection H as <- <-. cbn [remappingCpu remappingGpu].
  split; [apply sorted_filter, upTo_sorted|].
  split.
  { intros node. unfold cpuTable. rewrite filter_In, PeersFacts.in_upTo.
    split; intros [H1 H2]; (split; [lia|exact H2]). }
  split.
  { destruct (gpuTable_spec gpu Hg) as (n & Hn & Hperm & H0 & H1).
    exists n. split; [exact Hn|].
    split; [apply (Permutation_NoDup (Permutation_sym Hperm)), upTo_NoDup|].
    split; [|now split].
    intros device. rewrite <- PeersFacts.in_upTo. split; apply Permutation_in.
    - exact Hperm.
    - now apply Permutation_sym. }
  split; [reflexivity|].
  intros i c. unfold RemappedIndex. cbn [remappingCpu remappingGpu].
  assert (Hc : (if isEmpty (cpuTable numa_max_node memsAllowed)
                then cpuTable numa_max_node memsAllowed
                else cpuTable numa_max_node memsAllowed)
               = cpuTable numa_max_node memsAllowed)
    by now destruct (isEmpty _).
  assert (Hgpu : (if isEmpty gpu
                  then gpuTable hipGetDeviceCount hipDeviceGetPCIBusId USE_PCIE_INDEX
                  else Ret gpu) = Ret gpu)
    by now destruct (isEmpty gpu).
  rewrite Hc, Hgpu. reflexivity.
Qed.

End WithMachine.

(** Two NUMA nodes, of which the second is configured, and three GPUs
    in the order of their PCIe addresses. *)
Lemma RemappedIndex_tables_witness :
  exists tables entry,
    RemappedIndex 1 (fun node => node =? 1) (Some 3) sampleBus (Some "1"%string)
                  noTables 0 false = Ret (tables, entry) /\
    let entryOf (i : Z) (c : bool) :=
      if i <? 0 then None
      else nth_error (if c then remappingCpu tables else remappingGpu tables) (Z.to_nat i) in
    StronglySorted Z.lt (remappingCpu tables) /\
    (forall node, In node (remappingCpu tables) <->
                  0 <= node <= 1 /\ (node =? 1) = true) /\
    (exists numGpuDevices,
       Some 3 = Some numGpuDevices /\
       NoDup (remappingGpu tables) /\
       (forall device, In device (remappingGpu tables) <-> 0 <= device < numGpuDevices) /\
       (usePcieIndexing (Some "1"%string) = 0 ->
        remappingGpu tables = Peers.upTo numGpuDevices) /\
       (usePcieIndexing (Some "1"%string) <> 0 ->
        exists addresses,
          addressed sampleBus (remappingGpu tables) addresses /\ ascending addresses)) /\
    entry = entryOf 0 false /\
    forall i c,
      RemappedIndex 1 (fun node => node =? 1) (Some 3) sampleBus (Some "1"%string)
                    tables i c = Ret (tables, entryOf i c).
Proof.
  eexists _, _. split; [reflexivity|].
  apply (RemappedIndex_tables 1 (fun node => node =? 1) (Some 3) sampleBus
           (Some "1"%string) 0 false).
  reflexivity.
Defined.

Example RemappedIndex_examples :
  twoCalls 1 (fun node => node =? 1) (Some 3) sampleBus (Some "1"%string)
           (0, false) (0, true)
  = Ret (mkTables [1] [1; 2; 0], Some 1, Some 1) /\
  twoCalls 1 (fun node => node =? 1) (Some 3) sampleBus None (2, false) (1, true)
  = Ret (mkTables [1] [0; 1; 2], Some 2, None) /\
  twoCalls 1 (fun node => node =? 1) None sampleBus None (0, true) (0, true)
  = Exit 1 ErrHipCall.
Proof. vm_compute. repeat split. Qed.

End RemapFacts.

(** ** The transfers a sweep may choose from *)

Module SweepPresetFacts.
Import SweepPreset.

Section WithRuntime.
Context {rt : Runtime} {tables : CharTables}.
Variable ev : EnvVars.
Variables sweepExe sweepSrc sweepDst : string.
Variables sweepXgmiMin sweepXgmiMax : Z.
Variable numCpusPerNuma : Z -> Z.
Variable linkTypeAndHopCount : Z -> Z -> option (Z * Z).
Variable HSA_AMD_LINK_INFO_TYPE_XGMI : Z.

Let xgmiOnly := useXgmiOnly sweepXgmiMin sweepXgmiMax.

(** No limit on the XGMI hops, off the NVIDIA platform. *)
Let unlimited : Prop := sweepXgmiMin <= 0 /\ sweepXgmiMax < 0 /\ nvcc = false.

Let exeFits (exe : ExeType * Z) : Prop :=
  if IsGpuType (fst exe) then 0 <= snd exe < numGpuDevices ev
  else 0 <= snd exe < numCpuDevices ev /\ numCpusPerNuma (snd exe) <> 0.

Let memFits (mem : MemType * Z) : Prop :=
  0 <= snd mem < (if IsGpuType (fst mem) then numGpuDevices ev else numCpuDevices ev).

Lemma unlimited_xgmiOnly : unlimited -> xgmiOnly = false.
Proof.
  intros (Hmin & Hmax & _). unfold xgmiOnly, useXgmiOnly.
  apply orb_false_iff. split; apply Z.ltb_ge; lia.
Qed.

Lemma exeLoop_fits (chars : string) : forall acc exeList,
  exeLoop ev numCpusPerNuma chars acc = Ret exeList ->
  Forall exeFits acc -> Forall exeFits exeList.
Proof.
  induction chars as [|c chars IH]; intros acc exeList H Hacc; cbn [exeLoop] in H.
  - now injection H as <-.
  - destruct (CharToExeType c) as [exeType_|]; [|discriminate]. cbn [bind] in H.
    apply IH in H; [exact H|]. apply Forall_app. split; [exact Hacc|].
    apply Forall_forall. intros exe Hin.
    destruct (IsGpuType exeType_) eqn:Eg.
    + apply in_map_iff in Hin as (i & <- & Hi). apply PeersFacts.in_upTo in Hi.
      unfold exeFits. cbn [fst snd]. now rewrite Eg.
    + destruct (IsCpuType exeType_); [|contradiction].
      apply in_map_iff in Hin as (i & <- & Hi). apply filter_In in Hi as [Hi Hn].
      apply PeersFacts.in_upTo in Hi. apply negb_true_iff, Z.eqb_neq in Hn.
      unfold exeFits. cbn [fst snd]. rewrite Eg. now split.
Qed.

Lemma memLoop_fits (chars : string) : forall acc memList,
  memLoop ev chars acc = Ret memList ->
  Forall memFits acc -> Forall memFits memList.
Proof.
  induction chars as [|c chars IH]; intros acc memList H Hacc; cbn [memLoop] in H.
  - now injection H as <-.
  - destruct (CharToMemType c) as [memType|]; [|discriminate]. cbn [bind] in H.
    apply IH in H; [exact H|]. apply Forall_app. split; [exact Hacc|].
    apply Forall_forall. intros mem Hin.
    apply in_map_iff in Hin as (i & <- & Hi). apply PeersFacts.in_upTo in Hi.
    unfold memFits. now cbn [fst snd].
Qed.

(** The loop over the destinations adds transfers of its executor and
    its source to destinations of the list, and without a limit one to
    every destination. *)
Lemma dstLoop_spec (exe : ExeType * Z) (src : MemType * Z) (j : nat)
    (dstList : list (MemType * Z)) (numHopsSrc : Z) (todo : list (MemType * Z)) :
  forall isXgmiSrc isXgmiDst numHopsDst possibleTransfers r,
  dstLoop sweepXgmiMin sweepXgmiMax linkTypeAndHopCount HSA_AMD_LINK_INFO_TYPE_XGMI
          exe src j dstList numHopsSrc todo isXgmiSrc isXgmiDst numHopsDst possibleTransfers
  = Next r ->
  exists kept,
    snd r = possibleTransfers ++ map (triplet exe src) kept /\
    (forall dst, In dst kept -> In dst todo) /\
    (unlimited -> kept = todo).
Proof.
  induction todo as [|dst todo IH];
    intros isXgmiSrc isXgmiDst numHopsDst possibleTransfers r H; cbn [dstLoop] in H.
  - injection H as <-. exists []. cbn [snd map]. rewrite app_nil_r.
    split; [reflexivity|]. split; [now intros|reflexivity].
  - match type of H with andThen ?m _ = _ => destruct m as [[[xs' xd'] hd']| |] end;
      cbn [andThen] in H; try discriminate.
    fold xgmiOnly in H.
    assert (Hskip : forall r',
              dstLoop sweepXgmiMin sweepXgmiMax linkTypeAndHopCount
                HSA_AMD_LINK_INFO_TYPE_XGMI exe src j dstList numHopsSrc todo xs' xd' hd'
                possibleTransfers = Next r' ->
              (unlimited -> False) ->
              exists kept,
                snd r' = possibleTransfers ++ map (triplet exe src) kept /\
                (forall d, In d kept -> In d (dst :: todo)) /\
                (unlimited -> kept = dst :: todo)).
    { intros r' Hr Hno. destruct (IH _ _ _ _ _ Hr) as (kept & Hk & Hin & _).
      exists kept. split; [exact Hk|]. split; [intros d Hd; right; now apply Hin|].
      intros Hu. now contradiction Hno. }
    destruct (xgmiOnly && negb xd') eqn:E1.
    { apply (Hskip _ H). intros Hu. now rewrite (unlimited_xgmiOnly Hu) in E1. }
    destruct ((0 <? sweepXgmiMin) && (numHopsSrc + hd' <? sweepXgmiMin)) eqn:E2.
    { apply (Hskip _ H). intros (Hmin & _). apply andb_true_iff in E2 as [E2 _].
      apply Z.ltb_lt in E2. lia. }
    destruct ((0 <=? sweepXgmiMax) && (sweepXgmiMax <? numHopsSrc + hd')) eqn:E3.
    { apply (Hskip _ H). intros (_ & Hmax & _). apply andb_true_iff in E3 as [E3 _].
      apply Z.leb_le in E3. lia. }
    match type of H with andThen ?m _ = _ => destruct m as [skip| |] eqn:Esk end;
      cbn [andThen] in H; try discriminate.
    destruct skip.
    { apply (Hskip _ H). intros (_ & _ & Hnv). rewrite Hnv in Esk. discriminate. }
    destruct (IH _ _ _ _ _ H) as (kept & Hk & Hin & Hall).
    exists (dst :: kept). split; [|split].
    + rewrite Hk, <- app_assoc. reflexivity.
    + intros d [<-|Hd]; [now left|right; now apply Hin].
    + intros Hu. now rewrite (Hall Hu).
Qed.

Let added (exe : ExeType * Z) (srcs dsts : list (MemType * Z)) (info : TransferInfo.t)
  : Prop :=
  exists src dst,
    info = triplet exe src dst /\ In src srcs /\ In dst dsts /\
    (xgmiOnly = true -> IsGpuType (fst exe) = true /\ IsGpuType (fst src) = true).

Lemma srcLoop_spec (exe : ExeType * Z) (dstList : list (MemType * Z))
    (todo : list (MemType * Z)) :
  forall j isXgmiSrc numHopsSrc possibleTransfers possibleTransfers',
  srcLoop sweepXgmiMin sweepXgmiMax linkTypeAndHopCount HSA_AMD_LINK_INFO_TYPE_XGMI
          exe dstList j todo isXgmiSrc numHopsSrc possibleTransfers
  = Next possibleTransfers' ->
  exists more,
    possibleTransfers' = possibleTransfers ++ more /\
    Forall (added exe todo dstList) more /\
    (unlimited -> more = flat_map (fun src => map (triplet exe src) dstList) todo).
Proof.
  induction todo as [|src todo IH];
    intros j isXgmiSrc numHopsSrc possibleTransfers possibleTransfers' H;
    cbn [srcLoop] in H; cbv zeta in H.
  - injection H as <-. exists []. rewrite app_nil_r.
    split; [reflexivity|]. split; [constructor|reflexivity].
  - fold xgmiOnly in H.
    assert (Hwiden : forall more, Forall (added exe todo dstList) more ->
                                  Forall (added exe (src :: todo) dstList) more).
    { intros more. apply Forall_impl. intros info (s & d & Hi & Hs & Hrest).
      exists s, d. split; [exact Hi|]. split; [now right|exact Hrest]. }
    assert (Hskip : forall j' xs hs,
              srcLoop sweepXgmiMin sweepXgmiMax linkTypeAndHopCount
                HSA_AMD_LINK_INFO_TYPE_XGMI exe dstList j' todo xs hs possibleTransfers
              = Next possibleTransfers' ->
              (unlimited -> False) ->
              exists more,
                possibleTransfers' = possibleTransfers ++ more /\
                Forall (added exe (src :: todo) dstList) more /\
                (unlimited ->
                 more = flat_map (fun src => map (triplet exe src) dstList) (src :: todo))).
    { intros j' xs hs Hr Hno. destruct (IH _ _ _ _ _ Hr) as (more & Hm & Hadd & _).
      exists more. split; [exact Hm|]. split; [now apply Hwiden|].
      intros Hu. now contradiction Hno. }
    assert (Hbody : forall xs hs,
              andThen (dstLoop sweepXgmiMin sweepXgmiMax linkTypeAndHopCount
                         HSA_AMD_LINK_INFO_TYPE_XGMI exe src j dstList hs dstList xs false 0
                         possibleTransfers)
                      (fun r => srcLoop sweepXgmiMin sweepXgmiMax linkTypeAndHopCount
                                  HSA_AMD_LINK_INFO_TYPE_XGMI exe dstList (S j) todo (fst r) hs
                                  (snd r))
              = Next possibleTransfers' ->
              (xgmiOnly = true -> IsGpuType (fst exe) = true /\ IsGpuType (fst src) = true) ->
              exists more,
                possibleTransfers' = possibleTransfers ++ more /\
                Forall (added exe (src :: todo) dstList) more /\
                (unlimited ->
                 more = flat_map (fun src => map (triplet exe src) dstList) (src :: todo))).
    { intros xs hs Hr Hgpu.
      destruct (dstLoop _ _ _ _ exe src j dstList hs dstList xs false 0 possibleTransfers)
        as [r| |] eqn:Ed; cbn [andThen] in Hr; try discriminate.
      apply dstLoop_spec in Ed as (kept & Hk & Hin & Hall).
      destruct (IH _ _ _ _ _ Hr) as (more & Hm & Hadd & Hmore).
      exists (map (triplet exe src) kept ++ more). split; [|split].
      - rewrite Hm, Hk, <- app_assoc. reflexivity.
      - apply Forall_app. split; [|now apply Hwiden].
        apply Forall_forall. intros info Hi. apply in_map_iff in Hi as (d & <- & Hd).
        exists src, d. split; [reflexivity|]. split; [now left|]. split; [now apply Hin|].
        exact Hgpu.
      - intros Hu. cbn [flat_map]. now rewrite (Hall Hu), (Hmore Hu). }
    destruct (IsGpuType (fst exe) && IsGpuType (fst src)) eqn:Eg.
    + match type of H with andThen ?m _ = _ => destruct m as [[xs' hs']| |] end;
        cbn [andThen] in H; try discriminate.
      destruct (xgmiOnly && negb xs') eqn:E1.
      { apply (Hskip _ _ _ H). intros Hu. now rewrite (unlimited_xgmiOnly Hu) in E1. }
      destruct ((0 <=? sweepXgmiMax) && xs' && (sweepXgmiMax <? hs')) eqn:E2.
      { apply (Hskip _ _ _ H). intros (_ & Hmax & _).
        apply andb_true_iff in E2 as [E2 _]. apply andb_true_iff in E2 as [E2 _].
        apply Z.leb_le in E2. lia. }
      apply (Hbody _ _ H). intros _. now apply andb_true_iff in Eg.
    + destruct xgmiOnly eqn:Eu.
      { apply (Hskip _ _ _ H). intros Hu. rewrite (unlimited_xgmiOnly Hu) in Eu.
        discriminate. }
      apply (Hbody _ _ H). discriminate.
Qed.

Lemma possibleLoop_spec (srcList dstList : list (MemType * Z)) (todo : list (ExeType * Z)) :
  forall possibleTransfers possibleTransfers',
  possibleLoop sweepXgmiMin sweepXgmiMax linkTypeAndHopCount HSA_AMD_LINK_INFO_TYPE_XGMI
               srcList dstList todo possibleTransfers = Next possibleTransfers' ->
  exists more,
    possibleTransfers' = possibleTransfers ++ more /\
    Forall (fun info => exists exe, In exe todo /\ added exe srcList dstList info) more /\
    (unlimited ->
     more = flat_map (fun exe =>
              flat_map (fun src => map (triplet exe src) dstList) srcList) todo).
Proof.
  induction todo as [|exe todo IH]; intros possibleTransfers possibleTransfers' H;
    cbn [possibleLoop] in H.
  - injection H as <-. exists []. rewrite app_nil_r.
    split; [reflexivity|]. split; [constructor|reflexivity].
  - fold xgmiOnly in H.
    assert (Hwiden : forall more,
              Forall (fun info => exists e, In e todo /\ added e srcList dstList info) more ->
              Forall (fun info => exists e, In e (exe :: todo) /\ added e srcList dstList info)
                     more).
    { intros more. apply Forall_impl. intros info (e & He & Hadd).
      exists e. split; [now right|exact Hadd]. }
    destruct (xgmiOnly && negb (IsGpuType (fst exe))) eqn:E.
    + destruct (IH _ _ H) as (more & Hm & Hadd & _).
      exists more. split; [exact Hm|]. split; [now apply Hwiden|].
      intros Hu. now rewrite (unlimited_xgmiOnly Hu) in E.
    + destruct (srcLoop _ _ _ _ exe dstList 0 srcList false 0 possibleTransfers)
        as [p1| |] eqn:Es; cbn [andThen] in H; try discriminate.
      apply srcLoop_spec in Es as (more1 & Hm1 & Hadd1 & Hall1).
      destruct (IH _ _ H) as (more & Hm & Hadd & Hall).
      exists (more1 ++ more). split; [|split].
      * rewrite Hm, Hm1, <- app_assoc. reflexivity.
      * apply Forall_app. split; [|now apply Hwiden].
        revert Hadd1. apply Forall_impl. intros info Hi. exists exe. split; [now left|exact Hi].
      * intros Hu. cbn [flat_map]. now rewrite (Hall1 Hu), (Hall Hu).
Qed.

(** X22: the transfers a sweep may choose from, when the function gets
    as far as the sweep.  Every one has an executor, a source and a
    destination that exist: a GPU or a NUMA node below the number of
    them, and an executor on the host has CPUs.  When a limit on the
    XGMI hops asks for XGMI links only, the executor and the source of
    every one are GPUs.  With no limit on the hops, off the NVIDIA
    platform, they are all the combinations of an executor, a source and
    a destination of the three lists, in the order of the loops. *)
Theorem possible_shape (possibleTransfers : list TransferInfo.t) :
  possible ev sweepExe sweepSrc sweepDst sweepXgmiMin sweepXgmiMax numCpusPerNuma
           linkTypeAndHopCount HSA_AMD_LINK_INFO_TYPE_XGMI = Next possibleTransfers ->
  Forall (exists_ ev numCpusPerNuma) possibleTransfers /\
  (useXgmiOnly sweepXgmiMin sweepXgmiMax = true ->
   Forall (fun info => IsGpuType (TransferInfo.exeType info) = true /\
                       IsGpuType (TransferInfo.srcType info) = true) possibleTransfers) /\
  (sweepXgmiMin <= 0 -> sweepXgmiMax < 0 -> nvcc = false ->
   exists l, lists ev sweepExe sweepSrc sweepDst numCpusPerNuma = Ret l /\
             possibleTransfers = combinations l).
Proof.
  unfold possible. intros H.
  destruct (lists _ _ _ _ _) as [[[exeList srcList] dstList]|] eqn:El;
    cbn [lift andThen fst snd] in H; [|discriminate].
  apply possibleLoop_spec in H as (more & -> & Hadd & Hall). cbn [app].
  unfold lists in El.
  destruct (exeLoop _ _ _ _) as [exeList'|] eqn:Ee; [|discriminate]. cbn [bind] in El.
  destruct (memLoop _ sweepSrc _) as [srcList'|] eqn:Es; [|discriminate]. cbn [bind] in El.
  destruct (memLoop _ sweepDst _) as [dstList'|] eqn:Ed; [|discriminate]. cbn [bind] in El.
  injection El as -> -> ->.
  apply exeLoop_fits in Ee; [|constructor].
  apply memLoop_fits in Es; [|constructor]. apply memLoop_fits in Ed; [|constructor].
  rewrite Forall_forall in Ee, Es, Ed.
  split; [|split].
  - revert Hadd. apply Forall_impl.
    intros info (exe & He & src & dst & -> & Hs & Hd & _).
    unfold exists_, triplet. cbn [TransferInfo.exeType TransferInfo.exeIndex
      TransferInfo.srcType TransferInfo.srcIndex TransferInfo.dstType TransferInfo.dstIndex].
    split; [exact (Ee exe He)|]. split; [exact (Es src Hs)|exact (Ed dst Hd)].
  - intros Hx. revert Hadd. apply Forall_impl.
    intros info (exe & He & src & dst & -> & _ & _ & Hgpu). exact (Hgpu Hx).
  - intros Hmin Hmax Hnv. eexists. split; [reflexivity|].
    apply Hall. now repeat split.
Qed.

End WithRuntime.

(** Two NUMA nodes, the second without CPUs, and two GPUs; the host and
    the kernel executors, from device memory to pinned host memory. *)
Lemma possible_shape_witness :
  exists possibleTransfers,
    @possible DispatcherSpec.sampleRuntime ParserSpec.letterTables PeerToPeerSpec.sampleEnv
      "CG" "G" "C" 0 (- 1) PeerToPeerSpec.sampleCpus sampleLinks 11 = Next possibleTransfers /\
    Forall (exists_ PeerToPeerSpec.sampleEnv PeerToPeerSpec.sampleCpus) possibleTransfers /\
    (useXgmiOnly 0 (- 1) = true ->
     Forall (fun info => IsGpuType (TransferInfo.exeType info) = true /\
                         IsGpuType (TransferInfo.srcType info) = true) possibleTransfers) /\
    (0 <= 0 -> - 1 < 0 -> @nvcc DispatcherSpec.sampleRuntime = false ->
     exists l, @lists ParserSpec.letterTables PeerToPeerSpec.sampleEnv "CG" "G" "C"
                 PeerToPeerSpec.sampleCpus = Ret l /\
               possibleTransfers = combinations l).
Proof.
  eexists. split; [reflexivity|].
  apply (@possible_shape DispatcherSpec.sampleRuntime ParserSpec.letterTables
           PeerToPeerSpec.sampleEnv "CG" "G" "C" 0 (- 1) PeerToPeerSpec.sampleCpus
           sampleLinks 11).
  reflexivity.
Defined.

Example possible_examples :
  @lists ParserSpec.letterTables PeerToPeerSpec.sampleEnv "CG" "G" "C"
    PeerToPeerSpec.sampleCpus
  = Ret ([(EXE_CPU, 0); (EXE_GPU_GFX, 0); (EXE_GPU_GFX, 1)],
         [(MEM_GPU, 0); (MEM_GPU, 1)], [(MEM_CPU, 0); (MEM_CPU, 1)]) /\
  @possible DispatcherSpec.sampleRuntime ParserSpec.letterTables PeerToPeerSpec.sampleEnv
    "G" "G" "G" 0 0 PeerToPeerSpec.sampleCpus sampleLinks 11
  = Next [TransferInfo.mk MEM_GPU 0 EXE_GPU_GFX 0 MEM_GPU 0;
          TransferInfo.mk MEM_GPU 1 EXE_GPU_GFX 1 MEM_GPU 1] /\
  @possible DispatcherSpec.sampleRuntime ParserSpec.letterTables PeerToPeerSpec.sampleEnv
    "G" "G" "G" 0 0 PeerToPeerSpec.sampleCpus (fun _ _ => None) 11
  = Halt 1 ErrHipCall.
Proof. vm_compute. repeat split. Qed.

End SweepPresetFacts.

(** ** Releasing the buffers *)

Module ReleaseFacts.
Import Setup SetupSpec Release.

(** The kinds of the first [n] endpoints, beside their buffers. *)
Lemma firstn_combine_buffers (n : nat) : forall (types : list MemType) (indices ptrs : list Z),
  length ptrs = length (firstn n (combine types indices)) ->
  firstn n (combine types ptrs)
  = combine (map fst (firstn n (combine types indices))) ptrs.
Proof.
  induction n as [|n IH]; intros types indices ptrs Hlen.
  - destruct ptrs; [reflexivity|discriminate].
  - destruct types as [|ty types]; [reflexivity|].
    destruct indices as [|i indices].
    + destruct ptrs; [reflexivity|discriminate].
    + destruct ptrs as [|p ptrs]; [discriminate|].
      cbn [combine firstn map fst]. f_equal. apply IH.
      cbn [combine firstn length] in Hlen. now injection Hlen.
Qed.

Section WithRuntime.
Context {rt : Runtime}.
Variable ev : EnvVars.
Variables hipHostFree hipFree : Z -> bool.

Lemma AllocateMemory_kind (memType : MemType) (devIndex numBytes memPtr : Z) :
  AllocateMemory memType devIndex numBytes = Ret memPtr -> memType <> MEM_NULL.
Proof.
  intros H ->. unfold AllocateMemory in H.
  destruct (numBytes =? 0); discriminate.
Qed.

Lemma DeallocateMemory_done (memType : MemType) (memPtr bytes : Z) (done : list Released) :
  memType <> MEM_NULL ->
  DeallocateMemory hipHostFree hipFree memType memPtr bytes = Ret done ->
  done = [if memPtr =? 0 then NullPointer memType bytes else releaseOf memType memPtr bytes].
Proof.
  intros Hkind. unfold DeallocateMemory, releaseOf.
  destruct memType; cbn [MemType_eqb orb]; try contradiction;
    destruct (memPtr =? 0); try (intros H; now injection H as <-);
    match goal with |- context [if ?c then Ret _ else Exit _ _] => destruct c end;
    intros H; try discriminate; now injection H as <-.
Qed.

Lemma deallocateBuffers_balanced (exeIsGpu : bool) (exeIndex_ bytes : Z)
    (es : list (MemType * Z)) (ptrs : list Z) :
  Forall2 (placed ev exeIsGpu exeIndex_ bytes) es ptrs ->
  forall done,
  deallocateBuffers hipHostFree hipFree (to_size_t (bytes + byteOffset ev))
                    (combine (map fst es) ptrs) = Ret done ->
  Forall2 (balanced (to_size_t (bytes + byteOffset ev))) es done.
Proof.
  induction 1 as [|e ptr es ptrs [Ha _] _ IH]; intros done H;
    cbn [map combine deallocateBuffers] in H.
  - injection H as <-. constructor.
  - destruct (DeallocateMemory _ _ _ _ _) as [d1|] eqn:Ed; [|discriminate].
    cbn [bind] in H.
    destruct (deallocateBuffers _ _ _ _) as [more|] eqn:Em; [|discriminate].
    cbn [bind] in H. injection H as <-.
    apply DeallocateMemory_done in Ed; [|now apply AllocateMemory_kind in Ha].
    subst d1. cbn [app]. constructor; [|now apply IH].
    exists ptr. now split.
Qed.

(** X23: the buffers that the set-up of a transfer has allocated are
    released at the end of [ExecuteTransfers], when it gets there and
    returns: one after the other, the sources first, each by the
    deallocator of its kind of memory ([hipHostFree], [numa_free] or
    [hipFree]) and with the number of bytes it was allocated with; a
    null pointer is reported and not released.  The parameters of the
    sub-executors are cleared. *)
Theorem cleanup_balanced (N : Z) (t t'' : Transfer) (done : list Released) :
  setupThenCleanup ev hipHostFree hipFree N t = Ret (done, t'') ->
  let bytes :=
    to_size_t ((if numBytes t =? 0 then to_size_t (N * sizeof_float) else numBytes t)
               + byteOffset ev) in
  Forall2 (balanced bytes)
          (endpoints (numSrcs t) (srcType t) (srcIndex t)
           ++ endpoints (numDsts t) (dstType t) (dstIndex t))
          done /\
  subExecParam t'' = [] /\
  request t'' = request t.
Proof.
  unfold setupThenCleanup, setupTransfer. intros H.
  destruct (allocateBuffers _ _ _ _ (firstn (Z.to_nat (numSrcs t)) _)) as [srcs|] eqn:Hs;
    [|discriminate]. cbn [bind] in H.
  destruct (allocateBuffers _ _ _ _ (firstn (Z.to_nat (numDsts t)) _)) as [dsts|] eqn:Hd;
    [|discriminate]. cbn [bind] in H.
  apply SetupFacts.allocateBuffers_placed in Hs, Hd.
  unfold cleanupTransfer in H.
  cbn [numBytesActual numSrcs numDsts srcType dstType srcMem dstMem] in H.
  rewrite (firstn_combine_buffers _ (srcType t) (srcIndex t) srcs) in H
    by (symmetry; apply (Forall2_length Hs)).
  rewrite (firstn_combine_buffers _ (dstType t) (dstIndex t) dsts) in H
    by (symmetry; apply (Forall2_length Hd)).
  destruct (deallocateBuffers _ _ _ (combine _ srcs)) as [d1|] eqn:E1; [|discriminate].
  cbn [bind] in H.
  destruct (deallocateBuffers _ _ _ (combine _ dsts)) as [d2|] eqn:E2; [|discriminate].
  cbn [bind] in H. injection H as <- <-.
  unfold bytesActual in *. cbv zeta.
  split; [|split; reflexivity].
  apply Forall2_app.
  - exact (deallocateBuffers_balanced _ _ _ _ _ Hs _ E1).
  - exact (deallocateBuffers_balanced _ _ _ _ _ Hd _ E2).
Qed.

End WithRuntime.

(** A GPU that writes 256 floats to the host and to another GPU. *)
Lemma cleanup_balanced_witness :
  exists done t'',
    @setupThenCleanup DispatcherSpec.sampleRuntime (DispatcherSpec.sampleEnv false false)
      (fun _ => true) (fun _ => true) 256 sampleFanOut = Ret (done, t'') /\
    Forall2 (@balanced DispatcherSpec.sampleRuntime 1024)
            [(MEM_GPU, 0); (MEM_CPU, 0); (MEM_GPU_FINE, 1)] done /\
    subExecParam t'' = [] /\
    request t'' = request sampleFanOut.
Proof.
  eexists _, _. split; [reflexivity|].
  apply (@cleanup_balanced DispatcherSpec.sampleRuntime
           (DispatcherSpec.sampleEnv false false) (fun _ => true) (fun _ => true)
           256 sampleFanOut).
  reflexivity.
Defined.

Example cleanup_examples :
  option_map fst
    (BlockOrderSpec.returned
       (Some (@setupThenCleanup DispatcherSpec.sampleRuntime
                (DispatcherSpec.sampleEnv false false) (fun _ => true) (fun _ => true)
                256 sampleFanOut)))
  = Some [HipFree 4096; HipHostFree 4096; HipFree 4096] /\
  DeallocateMemory (fun _ => true) (fun _ => true) MEM_CPU_UNPINNED 8192 1024
  = Ret [NumaFree 8192 1024] /\
  DeallocateMemory (fun _ => true) (fun _ => true) MEM_GPU 0 1024
  = Ret [NullPointer MEM_GPU 1024] /\
  DeallocateMemory (fun _ => true) (fun _ => false) MEM_GPU 4096 1024
  = Exit 1 ErrHipCall /\
  DeallocateMemory (fun _ => false) (fun _ => false) MEM_NULL 4096 1024 = Ret [].
Proof. vm_compute. repeat split. Qed.

End ReleaseFacts.

(** ** From the set-up of an executor to the upload of its parameters *)

Module ExecutorFacts.
Import Dispatcher BlockOrder BlockOrderSpec BlockOrderFacts Setup ExecutorSetup.

Lemma sameShape_units (ts ts' : list Transfer) :
  sameShape ts ts' -> flat_map subExecParam ts' = flat_map subExecParam ts.
Proof.
  intros [Hlen Hsame]. rewrite !flat_map_concat_map. f_equal.
  apply (nth_ext _ _ (subExecParam nullTransfer) (subExecParam nullTransfer));
    [now rewrite !length_map|].
  intros j Hj. rewrite !map_nth. apply Hsame.
Qed.

Lemma sameShape_counts (ts ts' : list Transfer) :
  sameShape ts ts' -> map numSubExecs ts' = map numSubExecs ts.
Proof.
  intros [Hlen Hsame].
  apply (nth_ext _ _ (numSubExecs nullTransfer) (numSubExecs nullTransfer));
    [now rewrite !length_map|].
  intros j Hj. rewrite !map_nth. apply Hsame.
Qed.

Section WithRuntime.
Context {rt : Runtime}.
Variable ev : EnvVars.
Variable sizeofSubExecParam : Z.
Variable streamCreated : Z -> bool.

Lemma setupTransfer_keeps (N : Z) (t t' : Transfer) :
  setupTransfer ev N t = Ret t' ->
  numSubExecs t' = numSubExecs t /\ subExecIdx t' = subExecIdx t.
Proof.
  unfold setupTransfer. intros H.
  destruct (allocateBuffers _ _ _ _ _) as [srcs|]; [|discriminate]. cbn [bind] in H.
  destruct (allocateBuffers _ _ _ _ _) as [dsts|]; [|discriminate]. cbn [bind] in H.
  injection H as <-. split; reflexivity.
Qed.

(** The loop over the transfers counts their sub-executors. *)
Lemma setupTransfers_spec (N : Z) (ts : list Transfer) : forall acc ts' total,
  setupTransfers ev N ts acc = Ret (ts', total) ->
  Forall (fun t => 0 <= numSubExecs t /\ subExecIdx t = []) ts ->
  0 <= acc -> acc + fold_right Z.add 0 (map numSubExecs ts) < 2 ^ 31 ->
  total = acc + fold_right Z.add 0 (map numSubExecs ts) /\
  map numSubExecs ts' = map numSubExecs ts /\
  Forall (fun t => 0 <= numSubExecs t /\ subExecIdx t = []) ts'.
Proof.
  induction ts as [|t ts IH]; intros acc ts' total H Hts Hacc Hsum;
    cbn [setupTransfers] in H.
  - injection H as <- <-. cbn. split; [lia|]. split; [reflexivity|constructor].
  - destruct (setupTransfer ev N t) as [t'|] eqn:Et; [|discriminate]. cbn [bind] in H.
    destruct (setupTransfers _ _ _ _) as [[rest total']|] eqn:Er; [|discriminate].
    cbn [bind fst snd] in H. injection H as <- <-.
    apply setupTransfer_keeps in Et as [Hn Hi].
    inversion Hts as [|? ? [Ht0 Ht1] Hrest]; subst.
    cbn [map fold_right] in Hsum |- *.
    assert (Hnn : 0 <= fold_right Z.add 0 (map numSubExecs ts)).
    { clear -Hrest. induction Hrest as [|x l [Hx _] _ IHl]; cbn; lia. }
    rewrite Hn in Er. rewrite to_int_small in Er by lia.
    apply IH in Er as (Htot & Hmap & Hall); [|exact Hrest|lia|lia].
    split; [lia|]. split; [now rewrite Hn, Hmap|].
    constructor; [|exact Hall]. rewrite Hn, Hi. now split.
Qed.

Lemma createStreams_done (streams : list Z) (A : Type) (k : outcome A) (a : A) :
  (createStreams streamCreated streams ;;; k) = Ret a -> k = Ret a.
Proof.
  destruct (createStreams streamCreated streams) as [[]|]; [now cbn [bind]|discriminate].
Qed.

(** The set-up of a kernel executor. *)
Lemma setupExecutor_gfx (N : Z) (exeInfo exeInfo' : ExecutorInfo) :
  fst (executor exeInfo) = EXE_GPU_GFX ->
  ready exeInfo ->
  0 < sizeofSubExecParam < 2 ^ 32 ->
  setupExecutor ev sizeofSubExecParam streamCreated N exeInfo = Ret exeInfo' ->
  executor exeInfo' = executor exeInfo /\
  totalSubExecs exeInfo' = fold_right Z.add 0 (map numSubExecs (transfers exeInfo)) /\
  0 < totalSubExecs exeInfo' /\
  subExecParamGpu exeInfo' = repeat nullParam (Z.to_nat (totalSubExecs exeInfo')) /\
  map numSubExecs (transfers exeInfo') = map numSubExecs (transfers exeInfo) /\
  Forall (fun t => 0 <= numSubExecs t /\ subExecIdx t = []) (transfers exeInfo').
Proof.
  intros Hgfx [Hts Hsum] Hsize H. unfold setupExecutor in H. cbv zeta in H.
  rewrite Hgfx in H. cbn [IsGpuType IsCpuType ExeType_kind ExeType_eqb orb] in H.
  destruct (setupTransfers _ _ _ _) as [[ts' total]|] eqn:Es; [|discriminate].
  cbn [bind fst snd] in H.
  apply setupTransfers_spec in Es as (Htot & Hmap & Hall); [|exact Hts|lia|lia].
  cbn [Z.add] in Htot.
  assert (Hnn : 0 <= total).
  { subst total. clear -Hts. induction Hts as [|x l [Hx _] _ IHl]; cbn; lia. }
  destruct (HIP_CALL _) as [[]|]; [|discriminate]. cbn [bind] in H.
  apply createStreams_done in H.
  assert (Hbytes : to_size_t (total * sizeofSubExecParam) = total * sizeofSubExecParam).
  { apply to_size_t_small. assert (2 ^ 31 * 2 ^ 32 < 2 ^ 64) by reflexivity. nia. }
  rewrite Hbytes in H.
  destruct (AllocateMemory _ _ _) as [ptr|] eqn:Ea; [|discriminate]. cbn [bind] in H.
  injection H as <-. cbn [executor totalSubExecs subExecParamGpu transfers].
  assert (Hne : total <> 0).
  { intros ->. unfold AllocateMemory in Ea. cbn [Z.mul Z.eqb] in Ea. discriminate. }
  rewrite Z.div_mul by lia.
  repeat split; try assumption; lia.
Qed.

(** Every transfer is prepared. *)
Lemma prepareAll_spec (ts : list Transfer) :
  4 <= blockBytes ev < 2 ^ 31 ->
  Forall (fun t => 0 <= numSubExecs t /\ subExecIdx t = []) ts ->
  exists ts',
    fold_right (fun t acc =>
                  match Partitioner.PrepareSubExecParams ev t, acc with
                  | Some t', Some ts => Some (t' :: ts)
                  | _, _ => None
                  end) (Some []) ts = Some ts' /\
    Forall prepared ts' /\ Forall fresh ts' /\
    map numSubExecs ts' = map numSubExecs ts.
Proof.
  intros Hblock. induction 1 as [|t ts [Hn Hi] _ (ts' & Hf & Hp & Hfr & Hm)].
  - exists []. cbn. repeat split; constructor.
  - cbn [fold_right]. rewrite Hf.
    destruct (Partitioner.PrepareSubExecParams ev t) as [t'|] eqn:Ep.
    + exists (t' :: ts'). split; [reflexivity|].
      pose proof (PartitionerFacts.PrepareSubExecParams_length _ _ _ Ep) as (H0 & Hsame & Hlen).
      split; [constructor; [now split|exact Hp]|]. split.
      * constructor; [|exact Hfr]. unfold fresh.
        unfold Partitioner.PrepareSubExecParams in Ep.
        destruct (_ || _); [discriminate|]. injection Ep as <-. exact Hi.
      * cbn [map]. now rewrite Hsame, Hm.
    + exfalso. unfold Partitioner.PrepareSubExecParams in Ep.
      destruct (_ || _) eqn:E; [|discriminate].
      apply orb_true_iff in E as [E|E]; [|apply Z.ltb_lt in E; lia].
      apply Z.eqb_eq in E. unfold sizeof_float in E.
      rewrite (to_size_t_small (blockBytes ev)) in E
        by (assert (2 ^ 31 < 2 ^ 64) by reflexivity; lia).
      assert (H1 : 1 <= blockBytes ev / 4) by (apply Z.div_le_lower_bound; lia).
      assert (H2 : blockBytes ev / 4 < 2 ^ 31) by (apply Z.div_lt_upper_bound; lia).
      rewrite to_int_small in E by lia.
      rewrite to_size_t_small in E by (assert (2 ^ 31 < 2 ^ 64) by reflexivity; lia).
      lia.
Qed.

(** X24: from the set-up of a kernel executor to the upload of its
    parameters.  On transfers that ask for sub-executors, fewer than
    [2 ^ 31] in all, and have no position recorded, with a block of at
    least one float, the two steps come to an end, whatever the block
    order.  When they return, the executor has at least one
    sub-executor (the allocation of an empty array ends the process),
    it counts the sub-executors of its transfers, and the array that
    was allocated for them on the device is filled from the first entry
    to the last with the parameters of the transfers, each once; the
    positions a transfer has recorded hold its own parameters. *)
Theorem setupThenPrepare_fills (shuffle : list (nat * nat) -> list (nat * nat)) (N : Z)
    (exeInfo : ExecutorInfo) :
  fst (executor exeInfo) = EXE_GPU_GFX ->
  ready exeInfo ->
  (forall l, Permutation (shuffle l) l) ->
  blockOrder ev = ORDER_SEQUENTIAL \/ blockOrder ev = ORDER_INTERLEAVED
    \/ blockOrder ev = ORDER_RANDOM ->
  4 <= blockBytes ev < 2 ^ 31 ->
  0 < sizeofSubExecParam < 2 ^ 32 ->
  (exists out,
     setupThenPrepare ev sizeofSubExecParam streamCreated shuffle N exeInfo = Some out) /\
  forall exeInfo',
    setupThenPrepare ev sizeofSubExecParam streamCreated shuffle N exeInfo
    = Some (Ret exeInfo') ->
    totalSubExecs exeInfo' = fold_right Z.add 0 (map numSubExecs (transfers exeInfo)) /\
    0 < totalSubExecs exeInfo' /\
    map numSubExecs (transfers exeInfo') = map numSubExecs (transfers exeInfo) /\
    Z.of_nat (length (subExecParamGpu exeInfo')) = totalSubExecs exeInfo' /\
    Permutation (subExecParamGpu exeInfo') (flat_map subExecParam (transfers exeInfo')) /\
    forall j, (j < length (transfers exeInfo'))%nat ->
      Permutation (unitsAt (subExecParamGpu exeInfo') (nth j (transfers exeInfo') nullTransfer))
                  (subExecParam (nth j (transfers exeInfo') nullTransfer)).
Proof.
  intros Hgfx Hready Hshuffle Horder Hblock Hsize.
  unfold setupThenPrepare.
  destruct (setupExecutor _ _ _ _ _) as [e1|code why] eqn:Es;
    [|split; [now eexists|discriminate]].
  apply setupExecutor_gfx in Es as (Hexe & Htot & Hpos & Hgpu & Hmap & Hall); try assumption.
  unfold prepareExecutor. rewrite Hexe, Hgfx. cbn [ExeType_eqb].
  destruct (prepareAll_spec (transfers e1) Hblock Hall) as (ts & -> & Hprep & Hfresh & Hm).
  set (e2 := mkExecutorInfo _ ts _ _ _ _).
  destruct (merge_covers_fresh ev shuffle e2) as (ts' & temp & Hmerge & Hlen & Hperm & Hshape & Hown);
    try assumption.
  { split; cbn [totalSubExecs transfers e2]; [|destruct Hready; congruence].
    rewrite Htot, Hm, Hmap. reflexivity. }
  { right. right. exact Hfresh. }
  change (totalSubExecs e2) with (totalSubExecs e1) in Hmerge. rewrite Hmerge.
  cbn [totalSubExecs transfers e2] in Hlen, Hperm, Hshape, Hown.
  assert (Hup : upload temp (subExecParamGpu e1) = temp).
  { unfold upload. rewrite Hgpu.
    rewrite skipn_all2; [apply app_nil_r|]. rewrite repeat_length. lia. }
  split; [now eexists|].
  intros e' H. injection H as H.
  destruct (HIP_CALL _) as [[]|]; [|discriminate]. cbn [bind] in H.
  destruct (HIP_CALL _) as [[]|]; [|discriminate]. cbn [bind] in H.
  destruct (HIP_CALL _) as [[]|]; [|discriminate]. cbn [bind] in H.
  injection H as <-. unfold e2.
  cbn [set_subExecParamGpu set_transfers totalSubExecs transfers subExecParamGpu executor
       totalBytes totalTime].
  rewrite Hup.
  split; [exact Htot|]. split; [exact Hpos|].
  split; [now rewrite (sameShape_counts _ _ Hshape), Hm|].
  split; [exact Hlen|].
  split; [now rewrite (sameShape_units _ _ Hshape)|].
  intros j Hj. destruct Hshape as [Hl Hsame].
  rewrite (proj2 (Hsame j)). apply Hown. lia.
Qed.

End WithRuntime.

(** The kernel executor 0 with a transfer of 2 and one of 3
    sub-executors, in random order, the generator turning the list of
    pairs round. *)
Lemma setupThenPrepare_fills_witness :
  exists exeInfo',
    @setupThenPrepare DispatcherSpec.sampleRuntime (orderEnv ORDER_RANDOM) 64 (fun _ => true)
      (@rev (nat * nat)) 256 sampleGroup = Some (Ret exeInfo') /\
    totalSubExecs exeInfo' = fold_right Z.add 0 (map numSubExecs (transfers sampleGroup)) /\
    0 < totalSubExecs exeInfo' /\
    map numSubExecs (transfers exeInfo') = map numSubExecs (transfers sampleGroup) /\
    Z.of_nat (length (subExecParamGpu exeInfo')) = totalSubExecs exeInfo' /\
    Permutation (subExecParamGpu exeInfo') (flat_map subExecParam (transfers exeInfo')) /\
    forall j, (j < length (transfers exeInfo'))%nat ->
      Permutation (unitsAt (subExecParamGpu exeInfo') (nth j (transfers exeInfo') nullTransfer))
                  (subExecParam (nth j (transfers exeInfo') nullTransfer)).
Proof.
  eexists. split; [reflexivity|].
  apply (@setupThenPrepare_fills DispatcherSpec.sampleRuntime (orderEnv ORDER_RANDOM)
           64 (fun _ => true) (@rev (nat * nat)) 256 sampleGroup).
  - reflexivity.
  - split; [repeat constructor; cbn; lia|cbn; lia].
  - intros l. symmetry. apply Permutation_rev.
  - right. right. reflexivity.
  - cbn. lia.
  - lia.
  - reflexivity.
Defined.

Example setupThenPrepare_examples :
  option_map (fun e => (totalSubExecs e, map subExecIdx (transfers e),
                        map SubExecParam.N (subExecParamGpu e)))
    (returned (@setupThenPrepare DispatcherSpec.sampleRuntime (orderEnv ORDER_RANDOM) 64
                 (fun _ => true) (@rev (nat * nat)) 256 sampleGroup))
  = Some (5, [[3; 4]; [0; 1; 2]], [128; 64; 64; 128; 128]) /\
  @setupThenPrepare DispatcherSpec.sampleRuntime (orderEnv ORDER_RANDOM) 64 (fun _ => true)
    (@rev (nat * nat)) 256
    (mkExecutorInfo (EXE_GPU_GFX, 0) [] 0 0 0%float [])
  = Some (Exit 1 ErrAllocZeroBytes).
Proof. vm_compute. repeat split. Qed.

End ExecutorFacts.
